(* ===== verification/_CoqProject ===== *)
-Q . S2P
Prelude.v
GoStd.v
Float.v
Base62.v
LogLine.v
Aof.v
Store.v
StoreSpec.v
StoreRead.v
Replay.v
Alone.v
Sibling.v
Queue.v
Durable.v
Restart.v
Trace.v
Session.v
Views.v
Threads.v
Interleave.v
Overlap.v
Member.v
Cluster.v
ClusterProps.v
RateLimit.v
Metrics.v
Api.v
Query.v
App.v
AppSpec.v
AppProps.v
Workers.v
Batch.v
Codec.v
Url.v
Front.v
KvCache.v
Dirty.v
Resp.v
Kv.v
KvStore.v
KvRows.v
KvSpec.v
KvLoops.v
KvFlush.v
KvTicks.v
KvThreads.v
KvBatch.v
KvDemo.v
PebbleStore.v
PebbleSpec.v
PebbleDemo.v
Backends.v
Ticks.v
CacheMap.v
KvFleet.v
PebbleThreads.v
PebbleOverlap.v
LinkMap.v
EngineLinks.v
KvLinks.v
PebbleBatch.v
PebbleLinks.v
AnyBackend.v
Service.v
Bench.v
Processes.v
BenchRun.v
Main.v
Supervisor.v
Lifetimes.v
ServiceDemo.v
