(* ===== verification/Prelude.v ===== *)
(** * shrt-go: a verification development

    shrt-go is a URL shortener: an HTTP service that files links under short
    codes. Its store is one of three backends: by default an in-memory index made
    durable by an append-only log per instance, several instances sharing one
    data directory by reading each other's logs; or a client of a Redis-like
    server; or an embedded Pebble database. This library models the program from
    the log format and the wire protocol up to the HTTP handler and the start of
    the process, and proves what it promises.

    ** The program and the files that model it

    - [internal/base62/base62.go]: [Base62.v].
    - [internal/store/store.go], lines 226 to 434, the log line format: [LogLine.v]
      ([rowLine], [hitLine], [delLine], [parseOp], [unescape], byte for byte).
    - [internal/aof/aof.go], the append-only log, its replay and tailing, and the
      instance locks: [Aof.v].
    - the rest of [internal/store/store.go], the engine: [Store.v] (every
      operation), specified in [StoreSpec.v] (the 256 shards behave as one map;
      [Shorten], [ShortenMany]) and [StoreRead.v] ([Resolve], [Update],
      [Remove], [List]); [Threads.v] has the mutations by critical section.
    - [internal/ratelimit/ratelimit.go]: [RateLimit.v]; [internal/metrics/metrics.go]:
      [Metrics.v].
    - [internal/app/app.go], the handler: [App.v], over the interface [StoreAPI]
      of [Api.v] with [Query.v] for query strings; [internal/app/fast.go] and
      [internal/app/std.go], the two frontends: [Front.v], with [Url.v] for the
      URL net/http parses and std.go prints again.
    - [internal/store/kvstore.go], lines 25 to 100 and 241 to 273, the hot cache and
      the row codec both other backends use: [KvCache.v], [Codec.v], and [Dirty.v]
      for their pending hit counters.
    - [internal/store/kv.go], the RESP client: [Resp.v] (encoding and parsing),
      [Kv.v] (pooled connections, pipelines, typed commands).
    - the rest of [internal/store/kvstore.go], the RESP backend: [KvStore.v] (every
      operation, both layouts), with [KvRows.v], [KvSpec.v], [KvFlush.v],
      [KvLoops.v], [KvTicks.v] (flushes, sweeps, the server's own expiry) and
      [KvBatch.v]; [KvThreads.v] has its calls command by command, [KvFleet.v]
      several nodes over one server.
    - [internal/store/pebblestore.go], the embedded backend: [PebbleStore.v] (every
      operation and the merge operator), with [PebbleSpec.v] and [PebbleBatch.v];
      [PebbleThreads.v] has its calls access by access.
    - [NewFromEnv], the interface value and the goroutines behind each store:
      [Backends.v], [Ticks.v]; [cmd/shrt/main.go]: [Main.v] (configuration, roles,
      seeding), [Supervisor.v] (the worker processes it starts and stops),
      [Lifetimes.v] ([serve], process after process), [Cluster.v] and [Workers.v]
      (several processes over one directory); [cmd/bench/main.go]: [Bench.v] (the
      load generator), [BenchRun.v] (its servers and [main]); [Processes.v] has the
      machine both programs run on.

    [Prelude.v] (this file) has bytes, machine integers, the [go] result type
    and the shared lemmas and tactics; [GoStd.v] the parts of [strconv] and
    [strings] the source uses, [Float.v] doubles and their rounding; [Batch.v] and
    [CacheMap.v] what batches and caches do to a map of rows. [KvDemo.v],
    [PebbleDemo.v] and [ServiceDemo.v] hold a concrete server, a concrete database
    and the witnesses that use them.

    ** State and effects

    A Go function becomes a function on explicit state: [Store] for the engine,
    [Aof] and [Disk] for the log and the data directory, [KvStore] with its [Kv]
    pool, [PebbleStore], [kvCache], [Metrics], [Limiter], and [World] for all a
    request touches. Results are in [go]: [Ret], [Panic] (out-of-range indexing,
    slicing and [make]), [Diverge] (the fuel of a loop ran out, the finite stretch
    of the random source a call was given did, or a read waits for bytes that do
    not come). A file is its bytes and the number of them known to be on stable
    storage: [crash] keeps any prefix that holds those. Clock readings and random
    bytes are arguments ([Env] for a request). Integers are [Z] with [int64],
    [int32], [uint64] and [uint32] wrapping where the source can overflow. Go maps
    are [gmap]s; their iteration order is the class [MapOrder] (any permutation of
    the keys) and [sort.Slice] the class [SliceSort] (any permutation sorted by
    a strict weak order), so the theorems hold for every order the runtime may
    choose.

    Each operation is one step on the whole state; timers are steps at any point
    of a run ([sop] in [Session.v], [event] in [AppSpec.v], [chore] in [Ticks.v],
    [wev] in [Workers.v]). For the engine's creations, updates and removals,
    which change the index under the lock of a shard and queue their log line
    after it, [Threads.v] has the finer grain: a call is a [thread], a step of it
    one critical section. Where calls overlap it is this model that counts
    ([Interleave.v], [Overlap.v]); where they do not, [thread_alone] says that
    both agree. [PebbleThreads.v] does the same for the embedded backend, whose
    steps are single accesses to the database or the cache, and [KvThreads.v] for
    the RESP backend, whose steps are commands to the server. [tailMu] serialises
    the application of log lines and [mutGate] excludes compaction from the
    engine's calls. The claim of an instance, too, is a sequence of file-system
    calls that interleave with other processes ([claim_step]).

    ** What is proved

    - The format: lines parse back to what they were written from, whatever the
      URL holds, in any order of fields; parsing terminates; base 62 fits its
      buffer and decodes.
    - The log: replay returns the pushed lines and tolerates torn tails, a sync
      survives a crash, incremental reading equals replay, instance ids are
      exclusive among processes that claim in turn.
    - The operations of the engine, on every branch, against the single-map view;
      code generation terminates and never collides across instances.
    - Replay ([Replay.v]): applying logs in any order gives the same links and
      counters.
    - Durability ([Alone.v], [Queue.v], [Durable.v], [Restart.v], [Trace.v],
      [Session.v]): the invariant [durable] relates a running store to what its
      files replay to; every operation, compaction and restart keeps it. So a
      restart after any run finds the links, with their hit counts if none was
      updated or removed, and so does a restart after a crash that follows a
      flush and a sync. These theorems are about an instance without siblings.
    - Concurrent calls ([Interleave.v], [Overlap.v]): the invariant [underway]
      says that the index is what the files, the queue and then the lines in
      flight replay to. It holds of every interleaving in which lines in flight
      concern different codes, as they always do when calls only create links;
      so a restart then finds the links, and no code is given out twice. An
      update and a removal of one link that overlap are outside it: the link
      can come back ([removed_link_returns]). A link that is created during the
      shutdown can be lost ([shutdown_loses_link]). The embedded backend takes no
      lock at all: [PebbleOverlap.v] shows that under every interleaving of
      database and cache accesses a look-up answers a link that its row was, and
      what two creations of one alias, a sweep next to an update, and a look-up
      next to a removal can do. [KvFleet.v] has any number of nodes over one
      server: each step refines an atomic step on the shared rows ([kmove]); so
      look-ups answer links that the shared row was, creations never share a
      code, and an update can bring back what another node has removed.
    - Siblings: what a running instance finds in the others' logs
      ([Sibling.v]). Several instances over one directory: the ghost histories of
      [Member.v] (what each instance has queued, what of it is in its file, and
      what each has read of the others') are an invariant of every interleaving
      of operations, starts, stops and kills ([Cluster.v]), on the view of a
      single code given in [Views.v]. So every answer of an instance was once true
      at the home of the code, flushed links are visible to whoever looks, and
      restarts keep links while the others go on ([ClusterProps.v]); [Workers.v]
      proves the first two of GET requests, by showing that each step of the
      deployment is at most one step of the cluster. A code has one home: clients
      create an alias through one instance only ([alias_taken_twice] shows what
      happens otherwise).
    - The service ([AppSpec.v], [AppProps.v]): a request is at most one engine
      operation, so the durability theorems carry over to runs of HTTP requests;
      created links redirect, lifetimes are capped, refused and unauthorised
      requests change nothing, which requests panic. [Front.v]: the frontends
      agree on targets in origin form whose path holds only bytes a URL may hold;
      elsewhere they pass on different paths ([targets_differ]).
    - The counters and the token bucket ([Metrics.v], [RateLimit.v]).
    - The RESP client: commands and replies survive the wire, pipelines return
      replies in order and leave connections in step, parsing terminates. The hot
      cache: a hit is the last put, and its size is bounded.
    - The RESP and Pebble backends: every branch of [Shorten], [Update] and
      [Remove] on the rows, flushes neither lose nor repeat a hit, created links
      resolve from any node or process, the sweep takes exactly what has expired.
    - One contract for all ([LinkMap.v]): [LinkMap] says of a [StoreAPI] and its
      background work that they are a map from codes to targets with expiry times:
      what creations, batches, look-ups, statistics, updates and removals answer
      and do to it, and that chores take only what has expired. A lone instance of
      the engine ([EngineLinks.v]), the RESP backend ([KvLinks.v]) and the Pebble
      backend ([PebbleLinks.v]) are instances, and so is whatever [NewFromEnv]
      returns on whatever readable links it finds ([AnyBackend.v]): every run on it
      is a run of the abstract machine [aruns]. [Service.v] proves the HTTP
      behaviour of links from the contract alone, and [Lifetimes.v] that processes
      one after the other answer together as one such run.
    - The start ([Main.v], [Supervisor.v]): seeding happens once, workers get
      distinct instance numbers and neither supervise nor seed; each that could be
      started is stopped once, and waited for.
    - The benchmark ([Bench.v], [BenchRun.v]): a connection counts one response per
      request, whatever the framing of the responses; a run returns, and the index
      of its 99th percentile is within the samples. Triples over an automaton
      ([one_server]) show that there is one server at a time and that all are
      stopped in the end; [bench_run] adds that the benchmark ends.

    Several theorems state behaviour the authors may not intend: a compaction
    is not crash-safe, an update forgets hits at the next restart, rows
    that are only in a sibling's snapshot stay unknown, a regrown log is not
    reread, a torn tail swallows the next line, a stale lock can be stolen twice,
    a lifetime below a millisecond is endless, creation against a server that
    answers with errors never returns, a reply header can stop the process, a
    failed flush loses hits, a batch can hand out a code twice, the queue of the
    cache is not bounded, an alias is not unique among workers, a removed link can
    come back, with the engine after a restart and with the RESP backend at
    once, a link created while the process stops can be lost, the embedded
    backend can give an alias to two links, a benchmark that panics leaves its
    server running.

    ** Bounds and fuel

    [encode_loop] has 12 rounds: 11 base-62 digits hold 64 bits. [parse_loop]
    has one round more than the line has bytes, and every round consumes a
    quote. [replay_loop] and [trim_loop] likewise. The retry loops consume the
    random source they are given; more distinct draws than links are enough.
    [claim_loop] has the 1024 rounds of the source. [readResp] has one round more
    than there are bytes, and every nested reply consumes one
    ([readResp_terminates]). [wait_loop] has 151 rounds: it sleeps 100 ms in each
    and gives up after 15 s. The cursor loops [ScanEach] and [HScanEach] have
    [rounds] rounds, for the server decides when they end.

    ** Parameters, and what is not modelled

    sonic's JSON decoding and encoding, [url.Parse], the printing of a double,
    and the conversion to int64 of a double outside its range are arguments of
    the handler. The operating system accepts every write to an open file.
    The network is the class [Network]; what the theorems rely on of a Redis-like
    server is [RespServer]: documented replies and effects of the commands, on a
    keyspace whose keys do not expire between two calls, and [ExpiringServer], in
    which keys whose time has come go between calls. The database is
    [PebbleDB], with [PebbleLaws]: reads see writes, batches are applied in order,
    iterators stay within their bounds. Both have concrete instances ([KvDemo.v],
    [PebbleDemo.v]).

    A cluster has at most 62 instances with numbers given by INSTANCE (as the
    supervisor gives them) and no snapshots, for no part of the program calls
    [Compact]; a crash of the whole machine is treated for a lone instance only.

    The operating system of the supervisor and of the benchmark is the class
    [Machine]; that the benchmark ends needs [MachineLaws], a clock that goes on and
    connections that close.

    Of the frontends, fasthttp is trusted to give the target as it was sent
    ([Hfast]), net/http to call the handler with the URL [ParseRequestURI]
    returns and to refuse the request otherwise; which authorities of an absolute
    target it accepts is a parameter. The server of [RespServer] accepts every
    dial and write and every expiry time; a server that closes the connection or
    refuses is met through [Network] alone ([kv_flush_failure_loses_hits],
    [kv_Shorten_spins]). Doubles are rounded after each operation, as on amd64;
    on arm64 a compiler may fuse the multiplication and addition of the refill.
    A call of the metrics is one step, so the branch of a lost compare-and-swap
    in [Tick] is left out. Over a restart, [handle_event] keeps the metrics and
    the limiter, on which the links do not depend.

    Not modelled: binding the port, and that a signal can arrive before it is
    asked for ([cmd/shrt]); how the report prints its numbers ([cmd/bench]); the page
    in [ui] and the scripts; batches of the RESP and the
    embedded backend next to other calls; interleavings inside a look-up, a flush
    or a compaction of the engine (a hit counted on an entry that was removed
    meanwhile, or between the two passes of a compaction), and the data race of
    an update with a reader of the same entry. [LinkMap]
    leaves out listings and the values of hit counters, and an engine without a
    directory (DATA_DIR [:memory:]). *)

From Stdlib Require Export ZArith Lia.
From Stdlib Require Export Strings.Byte.
From stdpp Require Export base option list countable gmap sorting strings.
From stdpp Require Import options.


#[global] Open Scope Z_scope.

(** ** Bytes and byte strings

    A Go [string] or [[]byte] is a [list byte]; both are immutable values
    wherever the model shares them. *)

Abbreviation bytes := (list byte).

Declare Scope go_scope.
Delimit Scope go_scope with go.
#[global] Open Scope go_scope.

#[export] Instance byte_eq_dec : EqDecision byte := Byte.byte_eq_dec.

#[export] Instance byte_countable : Countable byte :=
  inj_countable Byte.to_N Byte.of_N Byte.of_to_N.

#[export] Instance byte_inhabited : Inhabited byte := populate x00.

(** Numeric value of a byte and the conversion [byte(z)]. *)
Definition bZ (b : byte) : Z := Z.of_N (Byte.to_N b).

Definition bofZ (z : Z) : byte := default x00 (Byte.of_N (Z.to_N (z mod 256))).

(** Literals are written with ['] in place of the double quote (no literal of
    the program contains a single quote). *)
Definition lit (s : String.string) : bytes :=
  map (fun b => if Byte.eqb b x27 then x22 else b) (Strings.String.list_byte_of_string s).

Notation "c =b d" := (Byte.eqb c d) (at level 70) : go_scope.

(** ** Results of a Go call

    [Ret] is a normal return, [Panic] a run-time panic, and [Diverge] stands
    for running out of the fuel of a loop: the termination theorems show it
    does not happen. *)
Inductive go (A : Type) : Type :=
| Ret (a : A)
| Panic
| Diverge.
Arguments Ret {A} _.
Arguments Panic {A}.
Arguments Diverge {A}.

Definition go_bind {A B} (m : go A) (f : A -> go B) : go B :=
  match m with
  | Ret a => f a
  | Panic => Panic
  | Diverge => Diverge
  end.

Notation "'let*' x := m 'in' k" := (go_bind m (fun x => k))
  (at level 10, x pattern, m at level 100, k at level 200) : go_scope.

Definition is_ret {A} (m : go A) : bool := match m with Ret _ => true | _ => false end.

Fixpoint go_fold {A B} (f : B -> A -> go A) (l : list B) (a : A) : go A :=
  match l with
  | [] => Ret a
  | x :: l' => let* a' := f x a in go_fold f l' a'
  end.

(** ** Machine integers *)

Definition wrap (w z : Z) : Z := (z + 2 ^ (w - 1)) mod 2 ^ w - 2 ^ (w - 1).
Definition int64 : Z -> Z := wrap 64.
Definition int32 : Z -> Z := wrap 32.
Definition uint64 (z : Z) : Z := z mod 2 ^ 64.
Definition uint32 (z : Z) : Z := z mod 2 ^ 32.

Definition is_int64 (z : Z) : Prop := - 2 ^ 63 <= z < 2 ^ 63.
Definition is_int32 (z : Z) : Prop := - 2 ^ 31 <= z < 2 ^ 31.

(** ** Iteration over a Go map

    [for k := range m] visits the keys in an order the language leaves
    unspecified: every model of such a loop takes the order from this class,
    and the theorems hold for all its instances. *)
Class MapOrder := {
  range_keys : forall {A : Type}, gmap bytes A -> list bytes;
  range_keys_perm : forall {A : Type} (m : gmap bytes A),
    range_keys m ≡ₚ (map_to_list m).*1
}.

#[export] Program Instance default_order : MapOrder := {|
  range_keys A m := (map_to_list m).*1
|}.
Next Obligation. done. Qed.

(** [sort.Slice(l, less)] sorts without promising an order between elements
    neither of which is less: again a class, with merge sort as an instance. *)
Class SliceSort := {
  sort_slice : forall {A : Type}, (A -> A -> bool) -> list A -> list A;
  sort_slice_perm : forall {A : Type} (less : A -> A -> bool) (l : list A),
    sort_slice less l ≡ₚ l;
  sort_slice_sorted : forall {A : Type} (less : A -> A -> bool) (l : list A),
    (forall x y, less x y = false \/ less y x = false) ->
    (forall x y z, less y x = false -> less z y = false -> less z x = false) ->
    StronglySorted (fun x y => less y x = false) (sort_slice less l)
}.

Definition not_less {A} (less : A -> A -> bool) (x y : A) : Prop := less y x = false.

#[export] Instance not_less_dec {A} (less : A -> A -> bool) : RelDecision (not_less less).
Proof. intros x y. unfold not_less. apply _. Defined.

#[export] Program Instance default_sort : SliceSort := {|
  sort_slice A less l := merge_sort (not_less less) l
|}.
Next Obligation. intros A less l. apply merge_sort_Permutation. Qed.
Next Obligation.
  intros A less l Htot Htrans.
  assert (Total (not_less less)) by (intros x y; apply (Htot y x)).
  assert (Transitive (not_less less)) by (intros x y z; apply Htrans).
  exact (StronglySorted_merge_sort (not_less less) l).
Qed.

(** * Lemmas *)

Create Rewrite HintDb golang.
Create HintDb goint.

Lemma byte_eqb_spec (a b : byte) : reflect (a = b) (Byte.eqb a b).
Proof.
  destruct (Byte.eqb a b) eqn:E.
  - left. by apply Byte.byte_dec_bl.
  - right. intros ->. by rewrite (Byte.byte_dec_lb (eq_refl b)) in E.
Qed.

Lemma byte_eqb_refl (a : byte) : Byte.eqb a a = true.
Proof. by apply Byte.byte_dec_lb. Qed.
#[export] Hint Rewrite byte_eqb_refl : golang.

Lemma byte_eqb_ne (a b : byte) : a <> b -> Byte.eqb a b = false.
Proof. by destruct (byte_eqb_spec a b). Qed.

Lemma bZ_bounds (b : byte) : 0 <= bZ b < 256.
Proof. unfold bZ. pose proof (Byte.to_N_bounded b). lia. Qed.

Lemma bofZ_bZ (b : byte) : bofZ (bZ b) = b.
Proof. by destruct b; vm_compute. Qed.

Lemma bZ_bofZ (z : Z) : 0 <= z < 256 -> bZ (bofZ z) = z.
Proof.
  intros Hz. unfold bZ, bofZ. rewrite Z.mod_small by lia.
  destruct (Byte.of_N (Z.to_N z)) as [b|] eqn:E; simpl.
  - apply Byte.to_of_N in E. lia.
  - apply Byte.of_N_None_iff in E. lia.
Qed.

Lemma bZ_inj (a b : byte) : bZ a = bZ b -> a = b.
Proof. intros H. by rewrite <- (bofZ_bZ a), <- (bofZ_bZ b), H. Qed.

Lemma wrap_id (w z : Z) :
  0 < w -> - 2 ^ (w - 1) <= z < 2 ^ (w - 1) -> wrap w z = z.
Proof.
  intros Hw Hz. unfold wrap.
  assert (2 ^ w = 2 * 2 ^ (w - 1)) as E.
  { rewrite <- Z.pow_succ_r by lia. f_equal. lia. }
  rewrite Z.mod_small by lia. lia.
Qed.

Lemma int64_id (z : Z) : is_int64 z -> int64 z = z.
Proof. intros H. apply wrap_id; [lia|]. exact H. Qed.

Lemma int32_id (z : Z) : is_int32 z -> int32 z = z.
Proof. intros H. apply wrap_id; [lia|]. exact H. Qed.

Lemma wrap_range (w z : Z) :
  0 < w -> - 2 ^ (w - 1) <= wrap w z < 2 ^ (w - 1).
Proof.
  intros Hw. unfold wrap.
  assert (2 ^ w = 2 * 2 ^ (w - 1)) as E.
  { rewrite <- Z.pow_succ_r by lia. f_equal. lia. }
  pose proof (Z.mod_pos_bound (z + 2 ^ (w - 1)) (2 ^ w)).
  assert (0 < 2 ^ (w - 1)) by (apply Z.pow_pos_nonneg; lia). lia.
Qed.

Lemma int64_range (z : Z) : is_int64 (int64 z).
Proof. exact (wrap_range 64 z eq_refl). Qed.
#[export] Hint Resolve int64_range : goint.

(** Wrap-around addition: inner wraps do not matter. *)
Lemma wrap_add_l (w a b : Z) : wrap w (wrap w a + b) = wrap w (a + b).
Proof.
  unfold wrap. f_equal.
  replace ((a + 2 ^ (w - 1)) mod 2 ^ w - 2 ^ (w - 1) + b + 2 ^ (w - 1))
    with ((a + 2 ^ (w - 1)) mod 2 ^ w + b) by lia.
  rewrite Zplus_mod_idemp_l. f_equal. lia.
Qed.

Lemma int64_add_l (a b : Z) : int64 (int64 a + b) = int64 (a + b).
Proof. apply wrap_add_l. Qed.

Lemma int64_add_r (a b : Z) : int64 (a + int64 b) = int64 (a + b).
Proof. rewrite Z.add_comm, int64_add_l. f_equal. lia. Qed.

Lemma int64_idem (a : Z) : int64 (int64 a) = int64 a.
Proof. apply int64_id, int64_range. Qed.

#[export] Hint Rewrite int64_add_l int64_add_r int64_idem : golang.

Lemma go_bind_ret {A B} (m : go A) (f : A -> go B) (a : A) :
  m = Ret a -> go_bind m f = f a.
Proof. by intros ->. Qed.

Lemma go_bind_inv {A B} (m : go A) (f : A -> go B) (b : B) :
  go_bind m f = Ret b -> exists a, m = Ret a /\ f a = Ret b.
Proof. destruct m; simpl; try discriminate. eauto. Qed.

Lemma go_fold_app {A B} (f : B -> A -> go A) l1 l2 a :
  go_fold f (l1 ++ l2) a = let* a' := go_fold f l1 a in go_fold f l2 a'.
Proof.
  revert a. induction l1 as [|x l1 IH]; intros a; simpl; [done|].
  destruct (f x a); simpl; auto.
Qed.

Lemma range_keys_elem `{MapOrder} {A} (m : gmap bytes A) k :
  k ∈ range_keys m <-> is_Some (m !! k).
Proof.
  rewrite range_keys_perm, list_elem_of_fmap. split.
  - intros ([k' v] & -> & Hin). apply elem_of_map_to_list in Hin. by exists v.
  - intros [v Hv]. exists (k, v). split; [done|]. by apply elem_of_map_to_list.
Qed.

Lemma range_keys_NoDup `{MapOrder} {A} (m : gmap bytes A) : NoDup (range_keys m).
Proof. rewrite range_keys_perm. apply NoDup_fst_map_to_list. Qed.

(** Concatenating lists that are duplicate-free and pairwise disjoint. *)
Lemma NoDup_concat {A} (ls : list (list A)) :
  (forall l, l ∈ ls -> NoDup l) ->
  (forall i j l l' x, ls !! i = Some l -> ls !! j = Some l' -> x ∈ l -> x ∈ l' -> i = j) ->
  NoDup (concat ls).
Proof.
  induction ls as [|l ls IH]; intros Hnd Hdisj; simpl; [apply NoDup_nil_2|].
  apply NoDup_app. split_and!.
  - apply Hnd. by left.
  - intros x Hx Hc. apply list_elem_of_In, in_concat in Hc as (l' & Hl' & Hx').
    apply list_elem_of_In in Hl', Hx'. apply list_elem_of_lookup in Hl' as [j Hj].
    by specialize (Hdisj 0%nat (S j) l l' x eq_refl Hj Hx Hx').
  - apply IH; [intros l' Hl'; apply Hnd; by right|].
    intros i j l1 l2 x Hi Hj H1 H2. by specialize (Hdisj (S i) (S j) l1 l2 x Hi Hj H1 H2) as [=].
Qed.

Lemma StronglySorted_weaken {A} (R R' : A -> A -> Prop) (l : list A) :
  (forall x y, R x y -> R' x y) -> StronglySorted R l -> StronglySorted R' l.
Proof.
  intros HR. induction 1 as [|x l Hl IH Hx]; constructor; [done|].
  eapply Forall_impl; [exact Hx|]. auto.
Qed.

(** ** Tactics *)

(** Case analysis on the boolean and byte tests in the goal or hypotheses. *)
Ltac bcase :=
  match goal with
  | |- context [Byte.eqb ?a ?b] => destruct (byte_eqb_spec a b)
  | |- context [?a <? ?b] => destruct (Z.ltb_spec a b)
  | |- context [?a <=? ?b] => destruct (Z.leb_spec a b)
  | |- context [?a =? ?b] => destruct (Z.eqb_spec a b)
  end.

(** Peel a successful monadic computation off a hypothesis. *)
Ltac go_inv H :=
  let a := fresh "v" in let Hm := fresh "Hm" in
  apply go_bind_inv in H; destruct H as (a & Hm & H).
