(* ===== verification/GoStd.v ===== *)
(** * GoStd: the pieces of the Go standard library the program calls

    [strconv] (decimal formatting, [ParseInt], [ParseUint]), [strings]/[bytes]
    (searching, cutting, trimming) and the UTF-8 encoding behind
    [string(rune(v))], as executable functions on byte strings, with the round
    trips the log and value codecs rely on. *)

From S2P Require Import Prelude.
From stdpp Require Import options.

(** ** strconv: formatting *)

Definition digit (d : Z) : byte := bofZ (48 + d).

Fixpoint utoa_loop (fuel : nat) (n : Z) (acc : bytes) : bytes :=
  match fuel with
  | O => acc
  | S fuel' =>
      let acc' := digit (n mod 10) :: acc in
      if n <? 10 then acc' else utoa_loop fuel' (n / 10) acc'
  end.

(** Twenty digits hold every 64-bit value. *)
Definition utoa (n : Z) : bytes := utoa_loop 20 n [].

(** [strconv.FormatInt(z, 10)], the text [AppendInt] appends. *)
Definition itoa (z : Z) : bytes :=
  if z <? 0 then x2d :: utoa (- z) else utoa z.

(** ** strconv: parsing *)

Inductive num_err := ErrSyntax | ErrRange.

(** The value of one digit character, in the bases up to 36. *)
Definition digit_val (c : byte) : option Z :=
  let z := bZ c in
  if (48 <=? z) && (z <=? 57) then Some (z - 48)
  else if (97 <=? z) && (z <=? 122) then Some (z - 97 + 10)
  else if (65 <=? z) && (z <=? 90) then Some (z - 65 + 10)
  else None.

(** The digit loop of [strconv.ParseUint]: [max] is the largest value of the
    bit size; the first character that is not a digit, or the first overflow,
    ends it. *)
Fixpoint uint_loop (base max : Z) (s : bytes) (n : Z) : Z * option num_err :=
  match s with
  | [] => (n, None)
  | c :: s' =>
      match digit_val c with
      | None => (0, Some ErrSyntax)
      | Some d =>
          if base <=? d then (0, Some ErrSyntax)
          else if max <? n * base + d then (max, Some ErrRange)
          else uint_loop base max s' (n * base + d)
      end
  end.

Definition ParseUint (s : bytes) (base bits : Z) : Z * option num_err :=
  match s with
  | [] => (0, Some ErrSyntax)
  | _ => uint_loop base (2 ^ bits - 1) s 0
  end.

Definition parse_signed (neg : bool) (s : bytes) : Z * option num_err :=
  match ParseUint s 10 64 with
  | (_, Some ErrSyntax) => (0, Some ErrSyntax)
  | (un, _) =>
      if negb neg && (2 ^ 63 <=? un) then (2 ^ 63 - 1, Some ErrRange)
      else if neg && (2 ^ 63 <? un) then (- 2 ^ 63, Some ErrRange)
      else ((if neg then - un else un), None)
  end.

(** [strconv.ParseInt(s, 10, 64)]. *)
Definition ParseInt (s : bytes) : Z * option num_err :=
  match s with
  | [] => (0, Some ErrSyntax)
  | c :: s' =>
      if c =b x2b then parse_signed false s'
      else if c =b x2d then parse_signed true s'
      else parse_signed false s
  end.

(** ** strings and bytes *)

(** Split at the first byte satisfying [p]: what precedes it, and the suffix
    from that byte on ([[]] when there is none). *)
Fixpoint break_at (p : byte -> bool) (s : bytes) : bytes * bytes :=
  match s with
  | [] => ([], [])
  | c :: s' => if p c then ([], s) else let '(a, b) := break_at p s' in (c :: a, b)
  end.

(** [strings.IndexByte(s, c)] with the cut it is used for: [Some (before,
    after)] around the first [c]. *)
Definition cut_byte (c : byte) (s : bytes) : option (bytes * bytes) :=
  match break_at (Byte.eqb c) s with
  | (a, _ :: b) => Some (a, b)
  | (_, []) => None
  end.

Fixpoint HasPrefix (s p : bytes) : bool :=
  match p, s with
  | [], _ => true
  | c :: p', d :: s' => (c =b d) && HasPrefix s' p'
  | _ :: _, [] => false
  end.

Definition HasSuffix (s p : bytes) : bool := HasPrefix (rev s) (rev p).

(** [strings.CutPrefix]. *)
Definition CutPrefix (s p : bytes) : option bytes :=
  if HasPrefix s p then Some (drop (length p) s) else None.

Definition TrimPrefix (s p : bytes) : bytes := default s (CutPrefix s p).

Definition TrimSuffix (s p : bytes) : bytes :=
  if HasSuffix s p then take (length s - length p) s else s.

(** [strings.Contains(s, q)]. *)
Fixpoint Contains (s q : bytes) : bool :=
  HasPrefix s q || match s with [] => false | _ :: s' => Contains s' q end.

(** [strings.TrimSpace]: the UTF-8 encodings of the characters
    [unicode.IsSpace] accepts. *)
Definition space_seqs : list bytes :=
  [ [x09]; [x0a]; [x0b]; [x0c]; [x0d]; [x20]; [xc2; x85]; [xc2; xa0];
    [xe1; x9a; x80]; [xe2; x80; x80]; [xe2; x80; x81]; [xe2; x80; x82];
    [xe2; x80; x83]; [xe2; x80; x84]; [xe2; x80; x85]; [xe2; x80; x86];
    [xe2; x80; x87]; [xe2; x80; x88]; [xe2; x80; x89]; [xe2; x80; x8a];
    [xe2; x80; xa8]; [xe2; x80; xa9]; [xe2; x80; xaf]; [xe2; x81; x9f];
    [xe3; x80; x80] ].

Fixpoint trim_loop (fuel : nat) (seqs : list bytes) (s : bytes) : bytes :=
  match fuel with
  | O => s
  | S fuel' =>
      match list_find (fun p => HasPrefix s p = true) seqs with
      | Some (_, p) => trim_loop fuel' seqs (drop (length p) s)
      | None => s
      end
  end.

Definition TrimSpace (s : bytes) : bytes :=
  let l := trim_loop (S (length s)) space_seqs s in
  rev (trim_loop (S (length l)) (map (@rev byte) space_seqs) (rev l)).

(** ** UTF-8: [string(rune(v))] for [0 <= v < 2^16] *)
Definition encode_rune (v : Z) : bytes :=
  if v <? 128 then [bofZ v]
  else if v <? 2048 then [bofZ (192 + v / 64); bofZ (128 + v mod 64)]
  else if (55296 <=? v) && (v <=? 57343) then [xef; xbf; xbd]
  else [bofZ (224 + v / 4096); bofZ (128 + v / 64 mod 64); bofZ (128 + v mod 64)].

(** * Lemmas *)

Definition is_digit (c : byte) : bool := (48 <=? bZ c) && (bZ c <=? 57).

Lemma digit_is_digit d : 0 <= d < 10 -> is_digit (digit d) = true.
Proof. intros H. unfold is_digit, digit. rewrite bZ_bofZ by lia. lia. Qed.

Lemma digit_val_digit d : 0 <= d < 10 -> digit_val (digit d) = Some d.
Proof.
  intros H. unfold digit_val, digit. rewrite bZ_bofZ by lia.
  replace (_ && _) with true by lia. f_equal. lia.
Qed.

(** The loop writes the decimal digits of [n]: its result parses back. *)
Lemma utoa_loop_parse fuel n acc max :
  0 <= n < 10 ^ Z.of_nat fuel -> (0 < fuel)%nat ->
  exists k, 0 <= k /\
    forall m, m * 10 ^ k + n <= max -> 0 <= m ->
      uint_loop 10 max (utoa_loop fuel n acc) m
      = uint_loop 10 max acc (m * 10 ^ k + n).
Proof.
  revert n acc. induction fuel as [|fuel IH]; intros n acc Hn Hf; [lia|].
  simpl utoa_loop. destruct (Z.ltb_spec n 10) as [Hlt|Hge].
  - exists 1. split; [lia|]. intros m Hm Hm0. simpl uint_loop.
    rewrite (Z.mod_small n 10) by lia. rewrite digit_val_digit by lia.
    replace (10 <=? n) with false by lia.
    replace (max <? m * 10 + n) with false by lia. f_equal; lia.
  - assert (0 <= n / 10 < 10 ^ Z.of_nat fuel) as Hdiv.
    { rewrite Nat2Z.inj_succ, Z.pow_succ_r in Hn by lia.
      split; [apply Z.div_pos; lia|]. apply Z.div_lt_upper_bound; lia. }
    assert (0 < fuel)%nat as Hf'.
    { destruct fuel; [|lia]. rewrite Z.pow_0_r in Hdiv.
      assert (1 <= n / 10) by (apply Z.div_le_lower_bound; lia). lia. }
    pose proof (Z.div_mod n 10 ltac:(lia)) as Edm.
    pose proof (Z.mod_pos_bound n 10 ltac:(lia)).
    destruct (IH (n / 10) (digit (n mod 10) :: acc) Hdiv Hf') as (k & Hk0 & IHk).
    exists (k + 1). rewrite Z.pow_add_r, Z.pow_1_r by lia.
    split; [lia|]. intros m Hm Hm0.
    rewrite IHk by nia. simpl uint_loop. rewrite digit_val_digit by lia.
    replace (10 <=? n mod 10) with false by lia.
    replace ((m * 10 ^ k + n / 10) * 10 + n mod 10) with (m * (10 ^ k * 10) + n) by lia.
    replace (max <? _) with false by lia. done.
Qed.

Lemma utoa_loop_digits fuel n acc :
  0 <= n -> Forall (fun c => is_digit c = true) acc ->
  Forall (fun c => is_digit c = true) (utoa_loop fuel n acc).
Proof.
  revert n acc. induction fuel as [|fuel IH]; intros n acc Hn Hacc; simpl; [done|].
  assert (Forall (fun c => is_digit c = true) (digit (n mod 10) :: acc)).
  { constructor; [|done]. apply digit_is_digit. apply Z.mod_pos_bound. lia. }
  destruct (n <? 10); [done|]. apply IH; [apply Z.div_pos; lia|done].
Qed.

Lemma utoa_loop_nonempty fuel n acc :
  acc <> [] \/ (0 < fuel)%nat -> utoa_loop fuel n acc <> [].
Proof.
  revert n acc. induction fuel as [|fuel IH]; intros n acc H; simpl.
  - by destruct H; [|lia].
  - destruct (n <? 10); [done|]. apply IH. by left.
Qed.

Lemma utoa_nonempty n : utoa n <> [].
Proof. apply utoa_loop_nonempty. right. lia. Qed.

Lemma utoa_digits n : 0 <= n -> Forall (fun c => is_digit c = true) (utoa n).
Proof. intros Hn. apply utoa_loop_digits; [done|constructor]. Qed.

Lemma ParseUint_utoa n : 0 <= n < 2 ^ 64 -> ParseUint (utoa n) 10 64 = (n, None).
Proof.
  intros Hn. unfold ParseUint. pose proof (utoa_nonempty n).
  destruct (utoa n) as [|c s] eqn:E; [done|]. rewrite <- E. unfold utoa.
  destruct (utoa_loop_parse 20 n [] (2 ^ 64 - 1)) as (k & _ & ->); simpl; try lia.
  done.
Qed.

Lemma parse_signed_utoa neg n :
  0 <= n -> n < 2 ^ 63 \/ neg = true /\ n = 2 ^ 63 ->
  parse_signed neg (utoa n) = ((if neg then - n else n), None).
Proof.
  intros Hn Hb. unfold parse_signed. rewrite ParseUint_utoa by lia.
  replace (negb neg && _) with false by (destruct neg; simpl; lia).
  replace (neg && _) with false by (destruct neg; simpl; lia). done.
Qed.

Lemma itoa_head_digit n : 0 <= n -> exists c s, utoa n = c :: s /\ is_digit c = true.
Proof.
  intros Hn. pose proof (utoa_digits n Hn) as Hd. pose proof (utoa_nonempty n).
  destruct (utoa n) as [|c s]; [done|]. inversion Hd; subst. eauto.
Qed.

Lemma itoa_nonempty (z : Z) : itoa z <> [].
Proof.
  unfold itoa. destruct (Z.ltb_spec z 0); [done|]. destruct (itoa_head_digit z) as (c & s & -> & _); done.
Qed.

Lemma ParseInt_itoa z : is_int64 z -> ParseInt (itoa z) = (z, None).
Proof.
  unfold is_int64, itoa. intros Hz. destruct (Z.ltb_spec z 0).
  - simpl. rewrite parse_signed_utoa by lia. f_equal. lia.
  - destruct (itoa_head_digit z) as (c & s & E & Hc); [done|].
    unfold ParseInt. rewrite E.
    assert (c <> x2b /\ c <> x2d) as [H1 H2].
    { split; intros ->; vm_compute in Hc; discriminate. }
    rewrite !byte_eqb_ne by done. rewrite <- E. by apply parse_signed_utoa; [|left; lia].
Qed.

(** ** Searching and cutting *)

Lemma break_at_none p s : Forall (fun c => p c = false) s -> break_at p s = (s, []).
Proof. induction 1 as [|c s Hc Hs IH]; simpl; [done|]. by rewrite Hc, IH. Qed.

Lemma break_at_app p s c t :
  Forall (fun c => p c = false) s -> p c = true ->
  break_at p (s ++ c :: t) = (s, c :: t).
Proof.
  intros Hs Hc. induction Hs as [|d s Hd Hs IH]; simpl.
  - by rewrite Hc.
  - by rewrite Hd, IH.
Qed.

Lemma break_at_split p s a b : break_at p s = (a, b) -> s = a ++ b.
Proof.
  revert a b. induction s as [|c s IH]; intros a b; simpl; [by intros [= <- <-]|].
  destruct (p c); [by intros [= <- <-]|].
  destruct (break_at p s) as [a' b']. intros [= <- <-]. simpl. f_equal. by apply IH.
Qed.

Lemma break_at_before p s a b :
  break_at p s = (a, b) -> Forall (fun c => p c = false) a.
Proof.
  revert a b. induction s as [|c s IH]; intros a b; simpl; [by intros [= <- <-]|].
  destruct (p c) eqn:E; [by intros [= <- <-]|].
  destruct (break_at p s) as [a' b']. intros [= <- <-]. eauto.
Qed.

Lemma break_at_head p s a c b : break_at p s = (a, c :: b) -> p c = true.
Proof.
  revert a b. induction s as [|d s IH]; intros a b; simpl; [by intros [=]|].
  destruct (p d) eqn:E; [by intros [= <- <- <-]|].
  destruct (break_at p s) as [a' b'] eqn:E'. intros [= <- ->]. eauto.
Qed.

Lemma HasPrefix_app p s : HasPrefix (p ++ s) p = true.
Proof. induction p as [|c p IH]; simpl; [by destruct s|]. by rewrite byte_eqb_refl, IH. Qed.

Lemma HasPrefix_spec s p : HasPrefix s p = true <-> exists t, s = p ++ t.
Proof.
  split.
  - revert s. induction p as [|c p IH]; intros s H; [by exists s|].
    destruct s as [|d s]; simpl in H; [done|].
    apply andb_true_iff in H as [Hc H].
    destruct (byte_eqb_spec c d) as [->|]; [|done].
    destruct (IH s H) as [t ->]. by exists t.
  - intros [t ->]. apply HasPrefix_app.
Qed.

Lemma CutPrefix_app p s : CutPrefix (p ++ s) p = Some s.
Proof. unfold CutPrefix. rewrite HasPrefix_app, drop_app_length. done. Qed.

(** [TrimSpace] leaves decimal text alone. *)
Lemma trim_loop_id fuel seqs c s :
  Forall (fun p => HasPrefix (c :: s) p = false) seqs ->
  trim_loop fuel seqs (c :: s) = c :: s.
Proof.
  intros H. destruct fuel; simpl; [done|].
  destruct (list_find _ seqs) as [[i p]|] eqn:E; [|done].
  apply list_find_Some in E as (Hi & Hp & _).
  rewrite Forall_lookup in H. specialize (H _ _ Hi). simpl in Hp, H. congruence.
Qed.

Definition numeric (c : byte) : Prop := is_digit c = true \/ c = x2d.

Lemma numeric_no_space c s (rv : bool) :
  numeric c ->
  Forall (fun p => HasPrefix (c :: s) p = false)
    (if rv then map (@rev byte) space_seqs else space_seqs).
Proof.
  intros Hc.
  assert (forall d, is_digit d = false /\ d <> x2d -> Byte.eqb d c = false) as Hne.
  { intros d [Hd Hd']. apply byte_eqb_ne. intros ->. destruct Hc; congruence. }
  destruct rv; simpl map; unfold space_seqs;
    repeat (constructor; [simpl; rewrite Hne; [done|split; [reflexivity|discriminate]]|]);
    constructor.
Qed.

Lemma TrimSpace_numeric s : Forall numeric s -> TrimSpace s = s.
Proof.
  intros Hs. unfold TrimSpace. destruct s as [|c s]; [done|].
  inversion_clear Hs as [|? ? Hc Hs'].
  rewrite (trim_loop_id _ _ c s) by exact (numeric_no_space c s false Hc).
  assert (exists d t, rev (c :: s) = d :: t /\ numeric d) as (d & t & E & Hd).
  { destruct (rev (c :: s)) as [|d t] eqn:E.
    - apply (f_equal (@length _)) in E. rewrite length_rev in E. discriminate.
    - exists d, t. split; [done|].
      assert (In d (rev (c :: s))) as Hin by (rewrite E; by left).
      apply In_rev, list_elem_of_In in Hin.
      apply (proj1 (Forall_forall numeric (c :: s))); [by constructor|done]. }
  rewrite E, (trim_loop_id _ _ d t) by exact (numeric_no_space d t true Hd).
  rewrite <- E. apply rev_involutive.
Qed.

Lemma itoa_numeric z : Forall numeric (itoa z).
Proof.
  assert (forall n, 0 <= n -> Forall numeric (utoa n)) as H.
  { intros n Hn. eapply Forall_impl; [by apply utoa_digits|]. intros c Hc. by left. }
  unfold itoa. destruct (Z.ltb_spec z 0); [constructor; [by right|]|]; apply H; lia.
Qed.
#[export] Hint Resolve itoa_numeric : goint.

Lemma HasSuffix_app s p : HasSuffix (s ++ p) p = true.
Proof. unfold HasSuffix. rewrite rev_app_distr. apply HasPrefix_app. Qed.

Lemma digit_val_nonneg c d : digit_val c = Some d -> 0 <= d.
Proof.
  unfold digit_val. pose proof (bZ_bounds c).
  repeat match goal with |- context [if ?b then _ else _] => destruct b eqn:? end; intros [= <-]; lia.
Qed.

Lemma uint_loop_range base max s n m :
  0 <= base -> 0 <= n <= max -> uint_loop base max s n = (m, None) -> 0 <= m <= max.
Proof.
  intros Hb. revert n. induction s as [|c s IH]; intros n Hn; simpl; [by intros [= <-]|].
  destruct (digit_val c) as [d|] eqn:Ed; [|done]. apply digit_val_nonneg in Ed.
  destruct (base <=? d); [done|]. destruct (Z.ltb_spec max (n * base + d)); [done|]. apply IH. lia.
Qed.

(** A number that parses is an int64. *)
Lemma ParseInt_range s n : ParseInt s = (n, None) -> is_int64 n.
Proof.
  assert (forall neg s n, parse_signed neg s = (n, None) -> is_int64 n) as Hs.
  { intros neg s' n'. unfold parse_signed. destruct (ParseUint s' 10 64) as [un err] eqn:E.
    assert (err = None -> 0 <= un <= 2 ^ 64 - 1) as Hr.
    { intros ->. unfold ParseUint in E. destruct s'; [done|]. by eapply uint_loop_range in E; [|lia|lia]. }
    destruct err as [[|]|].
    - done.
    - assert (un = 2 ^ 64 - 1) as ->.
      { unfold ParseUint in E. destruct s' as [|c s']; [done|].
        assert (forall l z, uint_loop 10 (2 ^ 64 - 1) l z = (un, Some ErrRange) -> un = 2 ^ 64 - 1) as Hl.
        { intros l. induction l as [|x l IH]; intros z; cbn [uint_loop]; [done|].
          destruct (digit_val x); [|done]. destruct (10 <=? _); [done|].
          destruct (_ <? _); [by intros [= <-]|apply IH]. }
        by apply Hl in E. }
      destruct neg; simpl; done.
    - specialize (Hr eq_refl). unfold is_int64.
      destruct neg; simpl; destruct (Z.leb_spec (2 ^ 63) un), (Z.ltb_spec (2 ^ 63) un); try done; intros [= <-]; lia. }
  unfold ParseInt. destruct s as [|c s]; [done|]. destruct (c =b x2b); [apply Hs|].
  destruct (c =b x2d); [apply Hs|]. apply Hs.
Qed.
