(* ===== verification/Float.v ===== *)
(** * Float: the doubles of the program

    [float64] and its operations are the executable specification of IEEE-754
    in the Standard Library's [SpecFloat], at 53 bits of precision. *)

From S2P Require Import Prelude.
From Stdlib Require Import SpecFloat.
From stdpp Require Import options.

Abbreviation float64 := spec_float.

Definition f64_add : float64 -> float64 -> float64 := SFadd 53 1024.
Definition f64_sub : float64 -> float64 -> float64 := SFsub 53 1024.
Definition f64_mul : float64 -> float64 -> float64 := SFmul 53 1024.
Definition f64_div : float64 -> float64 -> float64 := SFdiv 53 1024.

(** [float64(z)]: the nearest double. *)
Definition f64_of_Z (z : Z) : float64 := binary_normalize 53 1024 z 0 false.

(** [int64(x)] for an [x] whose integral part an int64 holds: truncation. *)
Definition f64_trunc (x : float64) : Z :=
  match x with
  | S754_finite s m e => if s then - Z.shiftl (Zpos m) e else Z.shiftl (Zpos m) e
  | _ => 0
  end.

Definition f64_le : float64 -> float64 -> bool := SFleb.
Definition f64_lt : float64 -> float64 -> bool := SFltb.

Example f64_trunc_half : (f64_trunc (f64_div (f64_of_Z 7) (f64_of_Z 2)), f64_trunc (f64_of_Z (2 ^ 40))) = (3, 2 ^ 40).
Proof. vm_compute. reflexivity. Qed.

(** The order of doubles is transitive, [NaN] being below and above nothing. *)
Lemma f64_lt_le_trans (a b c : float64) :
  f64_lt a b = true -> f64_le b c = true -> f64_lt a c = true.
Proof.
  unfold f64_lt, f64_le, SFltb, SFleb, SFcompare.
  destruct a as [sa|sa| |sa ma ea], b as [sb|sb| |sb mb eb], c as [sc|sc| |sc mc ec];
    repeat match goal with s : bool |- _ => destruct s end; try done;
    repeat match goal with
      | |- context [Z.compare ?x ?y] => destruct (Z.compare_spec x y)
      | |- context [Pos.compare_cont Eq ?x ?y] =>
          change (Pos.compare_cont Eq x y) with (Pos.compare x y); destruct (Pos.compare_spec x y)
      end; simpl; try done; subst; try lia.
Qed.

Lemma f64_lt_irrefl (a : float64) : f64_lt a a = false.
Proof.
  unfold f64_lt, SFltb, SFcompare. destruct a as [s|s| |s m e]; try done; destruct s; try done;
    rewrite Z.compare_refl, ?Pos.compare_cont_refl; done.
Qed.

Lemma f64_lt_le_false (a b : float64) : f64_lt a b = true -> f64_le b a = true -> False.
Proof. intros Hl Hr. pose proof (f64_lt_le_trans a b a Hl Hr) as Hx. by rewrite f64_lt_irrefl in Hx. Qed.

(** ** Rounding

    What a rounding to 53 bits can add, for the bounds of what is computed from
    doubles: a mantissa is cut to 53 bits and grows by at most one. *)

Lemma digits2_log2 (m : positive) : Zpos (digits2_pos m) = Z.log2 (Zpos m) + 1.
Proof.
  induction m as [m IH|m IH|]; [| |done]; cbn [digits2_pos]; rewrite Pos2Z.inj_succ, IH.
  - rewrite (Pos2Z.inj_xI m), (Z.log2_succ_double (Zpos m)) by lia. lia.
  - rewrite (Pos2Z.inj_xO m), Z.log2_double by lia. lia.
Qed.

Lemma shr_1_half (r : shr_record) : 0 <= shr_m r -> shr_m (shr_1 r) = shr_m r / 2.
Proof.
  destruct r as [m b s]. cbn [shr_m]. intros Hm. destruct m as [|[p|p|]|]; cbn [shr_1 shr_m]; try done; [|].
  - rewrite (Pos2Z.inj_xI p). symmetry. rewrite Z.mul_comm, Z.add_comm. rewrite Z_div_plus_full by lia. done.
  - rewrite (Pos2Z.inj_xO p). symmetry. rewrite Z.mul_comm. apply Z_div_mult_full. lia.
Qed.

Lemma shr_iter (p : positive) (r : shr_record) :
  0 <= shr_m r -> shr_m (iter_pos shr_1 p r) = shr_m r / 2 ^ Zpos p.
Proof.
  revert r. induction p as [p IH|p IH|]; intros r Hr; cbn [iter_pos].
  - assert (0 <= shr_m (shr_1 r)) as H1 by (rewrite shr_1_half by done; by apply Z.div_pos).
    rewrite !IH, shr_1_half; [|done|done|rewrite IH by done; apply Z.div_pos; lia].
    rewrite !Z.div_div by lia. f_equal. rewrite (Pos2Z.inj_xI p). rewrite Z.pow_add_r, (Z.mul_comm 2 (Zpos p)), Z.pow_mul_r by lia. lia.
  - rewrite !IH; [|done|rewrite IH by done; apply Z.div_pos; lia].
    rewrite Z.div_div by lia. f_equal. rewrite (Pos2Z.inj_xO p). rewrite (Z.mul_comm 2 (Zpos p)), Z.pow_mul_r by lia. lia.
  - by apply shr_1_half.
Qed.

Lemma shr_fexp_cut (m e : Z) :
  0 < m -> let k := Z.max 0 (Z.max (Z.log2 m + 1 + e - 53) (-1074) - e) in
  shr_m (shr_fexp 53 1024 m e loc_Exact).1 = m / 2 ^ k /\ (shr_fexp 53 1024 m e loc_Exact).2 = e + k.
Proof.
  intros Hm k. unfold shr_fexp, shr_record_of_loc, shr.
  assert (Zdigits2 m = Z.log2 m + 1) as -> by (destruct m; [lia|apply digits2_log2|lia]).
  unfold fexp, emin. change (3 - 1024 - 53) with (-1074).
  destruct (Z.max (Z.log2 m + 1 + e - 53) (-1074) - e) as [|p|p] eqn:E; cbn [fst snd shr_m].
  - subst k. cbn. by rewrite Z.div_1_r, Z.add_0_r.
  - rewrite shr_iter by (cbn; lia). by subst k.
  - subst k. cbn. by rewrite Z.div_1_r, Z.add_0_r.
Qed.

Lemma round_nearest_even_le (m : Z) (l : location) : m <= round_nearest_even m l <= m + 1.
Proof. unfold round_nearest_even. destruct l as [|[]]; [lia| |lia|lia]. destruct (Z.even m); lia. Qed.

(** Of a product rounded to a number below 2^53: its integral part. *)
Lemma round_trunc (P e : Z) :
  0 < P -> let k := Z.max 0 (Z.max (Z.log2 P + 1 + e - 53) (-1074) - e) in
  0 < P / 2 ^ k -> e + k < 0 ->
  0 <= f64_trunc (binary_round_aux 53 1024 false P e loc_Exact) <= (P / 2 ^ k + 1) / 2 ^ (- (e + k)).
Proof.
  intros HP k Hq Hk. unfold binary_round_aux. pose proof (shr_fexp_cut P e HP) as C1. fold k in C1.
  destruct (shr_fexp 53 1024 P e loc_Exact) as [r1 e1]. cbn [fst snd] in C1. destruct C1 as [Em1 ->].
  pose proof (round_nearest_even_le (shr_m r1) (loc_of_shr_record r1)) as Hm2. rewrite Em1 in Hm2 |- *.
  set (m2 := round_nearest_even _ _) in *.
  assert (P / 2 ^ k < 2 ^ 53) as Hlt.
  { apply Z.div_lt_upper_bound; [apply Z.pow_pos_nonneg; lia|]. rewrite <- Z.pow_add_r by lia.
    apply Z.log2_lt_pow2; [done|]. lia. }
  pose proof (shr_fexp_cut m2 (e + k) ltac:(lia)) as C2. cbv zeta in C2. set (k2 := Z.max 0 _) in C2.
  destruct (shr_fexp 53 1024 m2 (e + k) loc_Exact) as [r2 e2]. cbn [fst snd] in C2. destruct C2 as [Em2 ->].
  assert (Z.log2 m2 <= 53) as Hl2 by (change 53 with (Z.log2 (2 ^ 53)); apply Z.log2_le_mono; lia).
  assert (0 <= k2 <= 1) as Hk2 by (subst k2 k; lia).
  assert (0 <= m2 / 2 ^ (- (e + k)) <= (P / 2 ^ k + 1) / 2 ^ (- (e + k))) as Hb.
  { split; [apply Z.div_pos; [lia|apply Z.pow_pos_nonneg; lia]|]. apply Z.div_le_mono; [apply Z.pow_pos_nonneg; lia|lia]. }
  rewrite Em2. destruct (m2 / 2 ^ k2) as [|m3|m3] eqn:E3; cbn [f64_trunc]; [lia| |].
  - destruct (_ <=? _); cbn [f64_trunc]; [|lia].
    replace (Z.shiftl (Zpos m3) (e + k + k2)) with (m2 / 2 ^ (- (e + k))); [done|].
    rewrite Z.shiftl_div_pow2, <- E3, Z.div_div by (try apply Z.pow_pos_nonneg; try apply Z.pow_nonzero; lia).
    rewrite <- Z.pow_add_r by lia. do 2 f_equal. lia.
  - exfalso. pose proof (Z.div_pos m2 (2 ^ k2) ltac:(lia) ltac:(apply Z.pow_pos_nonneg; lia)). lia.
Qed.

(** Integers below 2^52 are doubles. *)
Lemma shr_fexp_id (m e : Z) :
  0 < m -> Z.max (Z.log2 m + 1 + e - 53) (-1074) <= e ->
  shr_fexp 53 1024 m e loc_Exact = (Build_shr_record m false false, e).
Proof.
  intros Hm He. unfold shr_fexp, shr_record_of_loc, shr.
  assert (Zdigits2 m = Z.log2 m + 1) as -> by (destruct m; [lia|apply digits2_log2|lia]).
  unfold fexp, emin. change (3 - 1024 - 53) with (-1074). by destruct (_ - e) as [|p|p] eqn:E; [|lia|].
Qed.

Lemma iter_xO (m d : positive) : Zpos (Pos.iter xO m d) = Zpos m * 2 ^ Zpos d.
Proof.
  induction d as [|d IH] using Pos.peano_ind; [change (Pos.iter xO m 1) with (xO m); rewrite (Pos2Z.inj_xO m); lia|].
  rewrite Pos.iter_succ, Pos2Z.inj_xO, IH, Pos2Z.inj_succ, Z.pow_succ_r by lia. lia.
Qed.

Lemma f64_of_small (n : Z) :
  1 <= n < 2 ^ 52 ->
  exists m, f64_of_Z n = S754_finite false m (Z.log2 n - 52) /\ Zpos m = n * 2 ^ (52 - Z.log2 n).
Proof.
  intros Hn. assert (0 <= Z.log2 n < 52) as Hl by (split; [apply Z.log2_nonneg|apply Z.log2_lt_pow2; lia]).
  unfold f64_of_Z, binary_normalize. destruct n as [|p|p]; [lia| |lia]. unfold binary_round, shl_align.
  rewrite digits2_log2. unfold fexp, emin. change (3 - 1024 - 53) with (-1074).
  replace (Z.max (Z.log2 (Zpos p) + 1 + 0 - 53) (-1074)) with (Z.log2 (Zpos p) - 52) by lia.
  destruct (Z.log2 (Zpos p) - 52 - 0) as [|d|d] eqn:Ed; [lia|lia|].
  assert (Zpos d = 52 - Z.log2 (Zpos p)) as Hd by lia. pose proof (iter_xO p d) as Em. rewrite Hd in Em.
  set (m := Pos.iter xO p d) in *.
  assert (Z.log2 (Zpos m) = 52) as Hlm by (rewrite Em, Z.log2_mul_pow2; lia).
  unfold binary_round_aux. rewrite shr_fexp_id by (rewrite ?Hlm; lia). cbn [shr_m loc_of_shr_record round_nearest_even].
  rewrite shr_fexp_id by (rewrite ?Hlm; lia). cbn [shr_m]. rewrite (proj2 (Z.leb_le _ _)) by lia. by exists m.
Qed.
