(* ===== verification/Base62.v ===== *)
(** * Base62: [internal/base62/base62.go] and the alphabet table of [store.go]

    The 62-character alphabet, [Encode] with its fixed 11-byte buffer, and
    [alphaIdx], the inverse of the alphabet that [tailOwner] uses. *)

From S2P Require Import Prelude GoStd.
From stdpp Require Import options.

Definition ALPHABET : bytes := Eval vm_compute in
  lit "0123456789abcdefghijklmnopqrstuvwxyzABCDEFGHIJKLMNOPQRSTUVWXYZ".

(** [ALPHABET[i]]: out of range the program panics. *)
Definition alpha_at (i : Z) : go byte :=
  if (i <? 0) then Panic
  else match ALPHABET !! Z.to_nat i with Some c => Ret c | None => Panic end.

(** The loop of [Encode]: [i] is the write position in the 11-byte buffer,
    [buf] the bytes from [i] on; writing below index 0 panics. *)
Fixpoint encode_loop (fuel : nat) (n i : Z) (buf : bytes) : go bytes :=
  match fuel with
  | O => Diverge
  | S fuel' =>
      if 0 <? n then
        if i - 1 <? 0 then Panic
        else let* c := alpha_at (n mod 62) in
             encode_loop fuel' (n / 62) (i - 1) (c :: buf)
      else Ret buf
  end.

(** [Encode]: at most 11 digits, so 12 rounds of the loop test. *)
Definition Encode (n : Z) : go bytes :=
  if n =? 0 then Ret [x30] else encode_loop 12 n 11 [].

(** [alphaIdx]: every byte's position in the alphabet, or -1. *)
Definition alphaIdx : list Z := Eval vm_compute in
  foldl (fun t '(i, c) => <[Z.to_nat (bZ c) := Z.of_nat i]> t)
    (replicate 256 (-1)) (zip (seq 0 62) ALPHABET).

Definition alpha_index (c : byte) : Z := default (-1) (alphaIdx !! Z.to_nat (bZ c)).

(** The value a base-62 text denotes (reference decoder). *)
Definition decode62 (s : bytes) : Z := foldl (fun v c => v * 62 + alpha_index c) 0 s.

(** * Lemmas *)

Lemma alpha_at_spec i :
  0 <= i < 62 -> exists c, alpha_at i = Ret c /\ alpha_index c = i /\ c ∈ ALPHABET.
Proof.
  intros Hi.
  assert (forall k, (k < 62)%nat ->
    exists c, alpha_at (Z.of_nat k) = Ret c /\ alpha_index c = Z.of_nat k /\ c ∈ ALPHABET) as H.
  { intros k Hk. unfold alpha_at. replace (Z.of_nat k <? 0) with false by lia.
    rewrite Nat2Z.id. destruct (ALPHABET !! k) as [c|] eqn:E.
    - exists c. split; [done|]. split; [|by apply list_elem_of_lookup; exists k].
      do 62 (destruct k as [|k]; [by injection E as <-|]). lia.
    - apply lookup_ge_None in E. simpl in E. lia. }
  destruct (H (Z.to_nat i) ltac:(lia)) as (c & H1 & H2 & H3). exists c.
  rewrite Z2Nat.id in H1, H2 by lia. done.
Qed.

(** The table inverts the alphabet, and only on its characters. *)
Lemma alpha_index_elem c : 0 <= alpha_index c <-> c ∈ ALPHABET.
Proof.
  split.
  - intros H. apply list_elem_of_In. destruct c; vm_compute in H; try congruence;
      vm_compute; tauto.
  - intros H. apply list_elem_of_In in H. vm_compute in H.
    repeat (destruct H as [<-|H]; [by vm_compute|]). done.
Qed.

Lemma alpha_index_inj c d :
  c ∈ ALPHABET -> d ∈ ALPHABET -> alpha_index c = alpha_index d -> c = d.
Proof.
  intros Hc Hd E.
  assert (forall b, b ∈ ALPHABET -> ALPHABET !! Z.to_nat (alpha_index b) = Some b) as H.
  { intros b Hb. apply list_elem_of_In in Hb. vm_compute in Hb.
    repeat (destruct Hb as [<-|Hb]; [done|]). done. }
  pose proof (H c Hc) as Ec. pose proof (H d Hd) as Ed. rewrite E in Ec. congruence.
Qed.

Lemma decode62_from v s :
  foldl (fun v c => v * 62 + alpha_index c) v s
  = v * 62 ^ Z.of_nat (length s) + decode62 s.
Proof.
  unfold decode62. revert v. induction s as [|c s IH]; intros v; [simpl; lia|].
  simpl foldl. rewrite IH, (IH (0 * 62 + _)). simpl length.
  rewrite Nat2Z.inj_succ, Z.pow_succ_r by lia. ring.
Qed.

Lemma decode62_cons c s :
  decode62 (c :: s) = alpha_index c * 62 ^ Z.of_nat (length s) + decode62 s.
Proof.
  unfold decode62 at 1. simpl. rewrite decode62_from. ring.
Qed.

(** Invariant of the loop: the digits of [n] are prepended to [buf]. *)
Lemma encode_loop_spec fuel n i buf :
  0 <= n < 62 ^ i -> 0 <= i < Z.of_nat fuel ->
  Forall (fun c => c ∈ ALPHABET) buf ->
  exists s, encode_loop fuel n i buf = Ret (s ++ buf)
    /\ decode62 s = n /\ Z.of_nat (length s) <= i
    /\ Forall (fun c => c ∈ ALPHABET) (s ++ buf)
    /\ (n = 0 -> s = [])
    /\ (0 < n -> exists c t, s = c :: t /\ 0 < alpha_index c).
Proof.
  revert n i buf. induction fuel as [|fuel IH]; intros n i buf Hn Hi Hb; [lia|].
  simpl. destruct (Z.ltb_spec 0 n) as [Hpos|]; cycle 1.
  { exists []. split; [done|]. simpl. repeat split; [unfold decode62; simpl; lia|lia|done|lia]. }
  assert (0 < i) as Hi0.
  { destruct (Z.eq_dec i 0) as [->|]; [rewrite Z.pow_0_r in Hn; lia|lia]. }
  replace (i - 1 <? 0) with false by lia.
  destruct (alpha_at_spec (n mod 62)) as (c & -> & Hc & Hin); [apply Z.mod_pos_bound; lia|].
  simpl. pose proof (Z.div_mod n 62 ltac:(lia)) as Edm.
  assert (0 <= n / 62 < 62 ^ (i - 1)) as Hdiv.
  { split; [apply Z.div_pos; lia|]. apply Z.div_lt_upper_bound; [lia|].
    rewrite <- Z.pow_succ_r by lia. replace (Z.succ (i - 1)) with i by lia. lia. }
  destruct (IH (n / 62) (i - 1) (c :: buf) Hdiv ltac:(lia) ltac:(by constructor))
    as (s & -> & Hs & Hlen & Hall & Hz & Hlead).
  exists (s ++ [c]). rewrite <- app_assoc. simpl. split; [done|].
  split; [|split; [rewrite length_app; simpl; lia|split; [done|split; [lia|]]]].
  - unfold decode62. rewrite foldl_app. simpl. fold (decode62 s). rewrite Hs, Hc. lia.
  - intros _. destruct (Z.eq_dec (n / 62) 0) as [E0|Hne].
    + rewrite (Hz E0). exists c, []. split; [done|lia].
    + destruct Hlead as (d & t & -> & Hd); [lia|]. by exists d, (t ++ [c]).
Qed.

(** * Properties *)

(** [Encode] is total on every [uint64] (its 11-byte buffer never
    overflows) and is a numeral system: the text it returns has between 1 and
    11 characters, all of the alphabet, without a leading zero unless the value
    is 0, and decodes to the value it was given. *)
Theorem Encode_correct (n : Z) (Hn : 0 <= n < 2 ^ 64) :
  exists s, Encode n = Ret s
    /\ decode62 s = n
    /\ (1 <= length s <= 11)%nat
    /\ Forall (fun c => c ∈ ALPHABET) s
    /\ (n <> 0 -> head s <> Some x30).
Proof.
  unfold Encode. destruct (Z.eqb_spec n 0) as [->|Hne].
  - exists [x30]. split_and!; [done|done|simpl; lia|simpl; lia| |done].
    constructor; [|done]. by apply alpha_index_elem.
  - destruct (encode_loop_spec 12 n 11 []) as (s & -> & Hs & Hlen & Hall & _ & Hlead);
      [lia|lia|constructor|].
    rewrite app_nil_r in *. destruct Hlead as (c & t & -> & Hc); [lia|].
    exists (c :: t). split_and!; [done|done|simpl; lia|lia|done|].
    intros _ [= ->]. vm_compute in Hc. discriminate.
Qed.

Lemma Encode_correct_witness :
  exists s, Encode 3843 = Ret s /\ decode62 s = 3843 /\ (1 <= length s <= 11)%nat
    /\ Forall (fun c => c ∈ ALPHABET) s /\ (3843 <> 0 -> head s <> Some x30).
Proof. apply (Encode_correct 3843). lia. Defined.

Example Encode_table :
  (Encode 0, Encode 1, Encode 61, Encode 62, Encode 3843)
  = (Ret (lit "0"), Ret (lit "1"), Ret (lit "Z"), Ret (lit "10"), Ret (lit "ZZ")).
Proof. vm_compute. reflexivity. Qed.
