(* ===== verification/LogLine.v ===== *)
(** * LogLine: the log line format of [internal/store/store.go]

    Serialization ([esc], [rowLine], [hitLine], [delLine]) and parsing
    ([parseOp], [unescape]) of the three line kinds: rows
    [{'c','u','a','e','i','n'}], hit deltas [{'h','d','i'}] and tombstones
    [{'x'}].  Positions in the Go byte slice are modelled by the suffix that
    remains to be read. *)

From S2P Require Import Prelude GoStd.
From stdpp Require Import options.

(** ** Serialization *)

Definition hexdigits : bytes := Eval vm_compute in lit "0123456789abcdef".

Definition hex_at (i : Z) : byte := default x00 (hexdigits !! Z.to_nat i).

(** What [esc] appends for one byte. *)
Definition esc1 (c : byte) : bytes :=
  if (c =b x22) || (c =b x5c) then [x5c; c]
  else if c =b x0a then [x5c; x6e]
  else if c =b x0d then [x5c; x72]
  else if c =b x09 then [x5c; x74]
  else if c =b x08 then [x5c; x62]
  else if c =b x0c then [x5c; x66]
  else if bZ c <? 0x20 then
    [x5c; x75; x30; x30; hex_at (Z.shiftr (bZ c) 4); hex_at (Z.land (bZ c) 15)]
  else [c].

Definition esc (dst u : bytes) : bytes := foldl (fun d c => d ++ esc1 c) dst u.

Definition t_c : bytes := Eval vm_compute in lit "{'c':'".
Definition t_u : bytes := Eval vm_compute in lit "','u':'".
Definition t_a : bytes := Eval vm_compute in lit "','a':".
Definition t_e : bytes := Eval vm_compute in lit ",'e':".
Definition t_i : bytes := Eval vm_compute in lit ",'i':".
Definition t_n : bytes := Eval vm_compute in lit ",'n':".
Definition t_h : bytes := Eval vm_compute in lit "{'h':'".
Definition t_d : bytes := Eval vm_compute in lit "','d':".
Definition t_x : bytes := Eval vm_compute in lit "{'x':'".
Definition t_null : bytes := Eval vm_compute in lit "null".

Definition rowLine (c u : bytes) (a e i n : Z) : bytes :=
  let b := t_c ++ c ++ t_u in
  let b := esc b u in
  let b := b ++ t_a ++ itoa a in
  let b := b ++ t_e in
  let b := b ++ (if e =? 0 then t_null else itoa e) in
  let b := b ++ t_i ++ itoa i in
  let b := b ++ t_n ++ itoa n in
  b ++ [x7d].

Definition hitLine (c : bytes) (d i : Z) : bytes :=
  t_h ++ c ++ t_d ++ itoa d ++ t_i ++ itoa i ++ [x7d].

Definition delLine (c : bytes) : bytes := t_x ++ c ++ [x22; x7d].

(** ** Parsing *)

(** One parsed line; the string fields are empty and the numbers 0 when the
    line lacks the key. *)
Record op := mkOp {
  o_c : bytes; o_u : bytes; o_h : bytes; o_x : bytes;
  o_a : Z; o_e : Z; o_i : Z; o_n : Z; o_d : Z;
  o_hasE : bool
}.

Definition op_zero : op := mkOp [] [] [] [] 0 0 0 0 0 false.

(** [o.c != '' || o.h != '' || o.x != '']. *)
Definition op_ok (o : op) : bool :=
  negb (bool_decide (o_c o = []) && bool_decide (o_h o = []) && bool_decide (o_x o = [])).

Fixpoint unescape (b : bytes) : bytes :=
  match b with
  | [] => []
  | c :: b' =>
      match b' with
      | [] => [c]
      | d :: b'' =>
          if negb (c =b x5c) then c :: unescape b'
          else if d =b x6e then x0a :: unescape b''
          else if d =b x72 then x0d :: unescape b''
          else if d =b x74 then x09 :: unescape b''
          else if d =b x62 then x08 :: unescape b''
          else if d =b x66 then x0c :: unescape b''
          else if d =b x75 then
            match b'' with
            | h1 :: h2 :: h3 :: h4 :: r =>
                match ParseUint [h1; h2; h3; h4] 16 32 with
                | (v, None) => encode_rune v ++ unescape r
                | (_, Some _) => x75 :: unescape b''
                end
            | _ => x75 :: unescape b''
            end
          else d :: unescape b''
      end
  end.

(** The scan of a string value: the raw text, whether it holds a backslash,
    and what follows the closing quote.  A backslash that ends the line makes
    the scan skip one byte past it, and the slice expression [b[vs:pos]] then
    reads that byte from the rest of the buffer, [cap] (it panics when the
    slice's capacity ends there). *)
Fixpoint scan_string (s cap : bytes) : go (bytes * bool * bytes) :=
  match s with
  | [] => Ret ([], false, [])
  | c :: s' =>
      if c =b x5c then
        match s' with
        | d :: s'' =>
            let* (v, _, r) := scan_string s'' cap in Ret (c :: d :: v, true, r)
        | [] =>
            match cap with
            | d :: _ => Ret ([c; d], true, [])
            | [] => Panic
            end
        end
      else if c =b x22 then Ret ([], false, s')
      else let* (v, e, r) := scan_string s' cap in Ret (c :: v, e, r)
  end.

(** The two assignments a value makes, by the first character of its key. *)
Definition set_string (k : byte) (v : bytes) (o : op) : op :=
  let '(mkOp c u h x a e i n d hasE) := o in
  if k =b x63 then mkOp v u h x a e i n d hasE
  else if k =b x75 then mkOp c v h x a e i n d hasE
  else if k =b x68 then mkOp c u v x a e i n d hasE
  else if k =b x78 then mkOp c u h v a e i n d hasE
  else o.

Definition set_number (k : byte) (num : bytes) (o : op) : op :=
  let '(mkOp c u h x a e i n d hasE) := o in
  if k =b x61 then mkOp c u h x (ParseInt num).1 e i n d hasE
  else if k =b x65 then
    if bool_decide (num = t_null) then o
    else mkOp c u h x a (ParseInt num).1 i n d true
  else if k =b x69 then mkOp c u h x a e (ParseInt num).1 n d hasE
  else if k =b x6e then mkOp c u h x a e i (ParseInt num).1 d hasE
  else if k =b x64 then mkOp c u h x a e i n (ParseInt num).1 hasE
  else o.

Definition is_quote (c : byte) : bool := x22 =b c.
Definition is_colon (c : byte) : bool := x3a =b c.
Definition not_blank (c : byte) : bool := negb ((c =b x20) || (c =b x09)).
Definition is_comma_brace (c : byte) : bool := (c =b x2c) || (c =b x7d).

(** The loop of [parseOp] over the unread suffix [s]: one key and its value
    per round. *)
Fixpoint parse_loop (fuel : nat) (s cap : bytes) (o : op) : go (bool * op) :=
  match fuel with
  | O => Diverge
  | S fuel' =>
      match s with
      | [] => Ret (op_ok o, o)
      | _ =>
          match (break_at is_quote s).2 with
          | [] => Ret (op_ok o, o)
          | _ :: s1 =>
              match break_at is_quote s1 with
              | (_, []) => Ret (false, o)
              | (key, _ :: s2) =>
                  match (break_at is_colon s2).2 with
                  | [] => Ret (false, o)
                  | _ :: s3 =>
                      match (break_at not_blank s3).2 with
                      | [] => Ret (false, o)
                      | c :: s4 =>
                          if c =b x22 then
                            let* (val, escapes, r) := scan_string s4 cap in
                            match key with
                            | [] => Panic
                            | k :: _ =>
                                let v := if (escapes : bool) then unescape val else val in
                                parse_loop fuel' r cap (set_string k v o)
                            end
                          else
                            let '(num, r) := break_at is_comma_brace (c :: s4) in
                            match key with
                            | [] => Panic
                            | k :: _ =>
                                parse_loop fuel' r cap (set_number k (TrimSpace num) o)
                            end
                      end
                  end
              end
          end
      end
  end.

(** [parseOp(b, &o)]: every round consumes at least the key's quotes, so the
    length of the line bounds the rounds. [cap] is what follows the line in
    its buffer. *)
Definition parseOp (b cap : bytes) : go (bool * op) :=
  parse_loop (S (length b)) b cap op_zero.

(** Both readers of a log cut a line out of a larger buffer in which it is
    followed by its newline. *)
Definition parseLine (b : bytes) : go (bool * op) := parseOp b [x0a].

Example parse_row :
  parseLine (rowLine (lit "abc") (lit "http://x/'q'") 5 0 3 7)
  = Ret (true, mkOp (lit "abc") (lit "http://x/'q'") [] [] 5 0 3 7 0 false).
Proof. vm_compute. reflexivity. Qed.

(** * The format as a list of fields

    The reference description of a line: a brace-delimited, comma-separated
    list of fields, each a one-letter key with a string or a number. *)

Inductive field :=
| FStr (k : byte) (raw val : bytes)
| FNum (k : byte) (num : bytes).

Definition field_key (f : field) : byte :=
  match f with FStr k _ _ | FNum k _ => k end.

Definition field_text (f : field) : bytes :=
  match f with
  | FStr k raw _ => x22 :: k :: x22 :: x3a :: x22 :: raw ++ [x22]
  | FNum k num => x22 :: k :: x22 :: x3a :: num
  end.

Fixpoint render_rest (fs : list field) : bytes :=
  match fs with
  | [] => [x7d]
  | f :: fs' => x2c :: field_text f ++ render_rest fs'
  end.

Definition render (fs : list field) : bytes :=
  match fs with
  | [] => [x7b; x7d]
  | f :: fs' => x7b :: field_text f ++ render_rest fs'
  end.

Definition set_field (o : op) (f : field) : op :=
  match f with
  | FStr k _ v => set_string k v o
  | FNum k num => set_number k num o
  end.

(** [raw] is the text between the quotes of a string whose value is [val]. *)
Definition encodes (raw val : bytes) : Prop :=
  exists e : bool,
    (forall r cap, scan_string (raw ++ x22 :: r) cap = Ret (raw, e, r))
    /\ (if e then unescape raw else raw) = val.

Definition num_char (c : byte) : Prop := numeric c \/ 97 <= bZ c <= 122.

Definition number_text (num : bytes) : Prop :=
  num <> [] /\ Forall num_char num /\ TrimSpace num = num.

Definition field_wf (f : field) : Prop :=
  field_key f <> x22 /\
  match f with
  | FStr _ raw val => encodes raw val
  | FNum _ num => number_text num
  end.

(** Codes are written without escaping: they must not hold the characters the
    format gives a meaning to. *)
Definition code_char (c : byte) : bool :=
  negb ((c =b x22) || (c =b x5c) || (c =b x0a)).

Definition code_safe (c : bytes) : bool := forallb code_char c.

(** ** Escaping *)

Definition esc_all (u : bytes) : bytes := concat (map esc1 u).

Lemma esc_eq dst u : esc dst u = dst ++ esc_all u.
Proof.
  unfold esc, esc_all. revert dst. induction u as [|c u IH]; intros dst; simpl.
  - by rewrite app_nil_r.
  - by rewrite IH, app_assoc.
Qed.

Lemma unescape_esc1 c t : unescape (esc1 c ++ t) = c :: unescape t.
Proof. destruct c; destruct t; reflexivity. Qed.

Lemma unescape_esc_all u : unescape (esc_all u) = u.
Proof.
  induction u as [|c u IH]; simpl; [done|].
  unfold esc_all in *. simpl. by rewrite unescape_esc1, IH.
Qed.

(** Scanning past the escaped form of one byte. *)
Lemma scan_esc1 c :
  exists e : bool, (e = false -> esc1 c = [c]) /\
    forall t cap, scan_string (esc1 c ++ t) cap
    = let* (v, e', r) := scan_string t cap in Ret (esc1 c ++ v, e || e', r).
Proof.
  exists (negb (bool_decide (esc1 c = [c]))). split.
  - intros H. apply negb_false_iff, bool_decide_eq_true in H. done.
  - intros t cap. destruct c; simpl; by destruct (scan_string t cap) as [[[? []] ?]| |].
Qed.

Lemma esc_all_cons c u : esc_all (c :: u) = esc1 c ++ esc_all u.
Proof. done. Qed.

Lemma scan_esc_all u : encodes (esc_all u) u.
Proof.
  induction u as [|c u (e & Hscan & Hval)]; [by exists false|].
  destruct (scan_esc1 c) as (e1 & He1 & H1).
  exists (e1 || e). rewrite esc_all_cons. split.
  - intros r cap. rewrite <- app_assoc, H1, Hscan. done.
  - destruct (e1 || e) eqn:E; [by rewrite unescape_esc1, unescape_esc_all|].
    apply orb_false_iff in E as [-> ->]. rewrite He1 by done. simpl. by f_equal.
Qed.

Lemma scan_plain c : code_safe c = true -> encodes c c.
Proof.
  intros Hc. exists false. split; [|done]. intros r cap.
  induction c as [|d c IH]; simpl; [done|].
  simpl in Hc. apply andb_true_iff in Hc as [Hd Hc].
  unfold code_char in Hd. rewrite negb_true_iff, !orb_false_iff in Hd.
  destruct Hd as [[H1 H2] _]. by rewrite H2, H1, IH.
Qed.

(** ** One round of the parser *)

Lemma parse_string_field f pre k raw val r cap o :
  Forall (fun c => is_quote c = false) pre -> k <> x22 -> encodes raw val ->
  parse_loop (S f) (pre ++ x22 :: k :: x22 :: x3a :: x22 :: raw ++ x22 :: r) cap o
  = parse_loop f r cap (set_string k val o).
Proof.
  intros Hpre Hk (e & Hscan & Hval). cbn [parse_loop].
  destruct (pre ++ _) as [|b0 s0] eqn:E0; [by destruct pre|]. rewrite <- E0.
  rewrite break_at_app by done. cbn [snd].
  replace (k :: x22 :: _) with ([k] ++ x22 :: x3a :: x22 :: raw ++ x22 :: r) by done.
  rewrite break_at_app; [|by constructor; [apply byte_eqb_ne; congruence|]|done].
  replace (break_at is_colon _) with
    (break_at is_colon ([] ++ x3a :: x22 :: raw ++ x22 :: r)) by done.
  rewrite break_at_app by done. cbn [snd].
  replace (break_at not_blank _) with ([] : bytes, x22 :: raw ++ x22 :: r) by done.
  cbn [snd]. rewrite byte_eqb_refl, Hscan. cbn [go_bind]. by rewrite Hval.
Qed.

Lemma num_char_facts c :
  num_char c -> is_comma_brace c = false /\ not_blank c = true /\ Byte.eqb c x22 = false.
Proof.
  unfold num_char, numeric. destruct c; vm_compute; intuition congruence.
Qed.

Lemma parse_number_field f pre k num c t cap o :
  Forall (fun c => is_quote c = false) pre -> k <> x22 -> number_text num ->
  is_comma_brace c = true ->
  parse_loop (S f) (pre ++ x22 :: k :: x22 :: x3a :: num ++ c :: t) cap o
  = parse_loop f (c :: t) cap (set_number k num o).
Proof.
  intros Hpre Hk (Hne & Hnum & Htrim) Hc. cbn [parse_loop].
  destruct (pre ++ _) as [|b0 s0] eqn:E0; [by destruct pre|]. rewrite <- E0.
  rewrite break_at_app by done. cbn [snd].
  replace (k :: x22 :: _) with ([k] ++ x22 :: x3a :: num ++ c :: t) by done.
  rewrite break_at_app; [|by constructor; [apply byte_eqb_ne; congruence|]|done].
  replace (break_at is_colon _) with (break_at is_colon ([] ++ x3a :: num ++ c :: t)) by done.
  rewrite break_at_app by done. cbn [snd].
  destruct num as [|d num]; [done|].
  inversion Hnum as [|? ? Hd Hnum']; subst.
  destruct (num_char_facts d Hd) as (Hcb & Hb & Hq).
  cbn [break_at app]. rewrite Hb. cbn [snd]. rewrite Hq, Hcb.
  rewrite break_at_app; [cbv beta iota; by rewrite Htrim| |done].
  eapply Forall_impl; [exact Hnum'|]. intros x Hx. by apply num_char_facts.
Qed.

(** ** Whole lines *)

Lemma encodes_noquote_head k : k <> x22 -> is_quote k = false.
Proof. intros Hk. apply byte_eqb_ne. congruence. Qed.

Lemma render_rest_head fs : exists c t, render_rest fs = c :: t /\ is_comma_brace c = true.
Proof. destruct fs; simpl; eauto. Qed.

Lemma parse_field f fuel pre fs cap o :
  Forall (fun c => is_quote c = false) pre -> field_wf f ->
  parse_loop (S fuel) (pre ++ field_text f ++ render_rest fs) cap o
  = parse_loop fuel (render_rest fs) cap (set_field o f).
Proof.
  intros Hpre [Hk Hf]. destruct f as [k raw val|k num]; simpl in *.
  - rewrite <- app_assoc. by apply parse_string_field.
  - destruct (render_rest_head fs) as (c & t & -> & Hc). by apply parse_number_field.
Qed.

Lemma parse_render_rest fs fuel cap o :
  Forall field_wf fs -> (length fs < fuel)%nat ->
  parse_loop fuel (render_rest fs) cap o
  = Ret (op_ok (foldl set_field o fs), foldl set_field o fs).
Proof.
  revert fuel o. induction fs as [|f fs IH]; intros fuel o Hwf Hlen;
    (destruct fuel as [|fuel]; [simpl in Hlen; lia|]); [done|].
  inversion Hwf; subst. simpl render_rest.
  etrans; [exact (parse_field f fuel [x2c] fs cap o ltac:(by repeat constructor) H1)|].
  apply IH; [done|]. simpl in Hlen. lia.
Qed.

Lemma field_text_length f : (3 <= length (field_text f))%nat.
Proof. destruct f; simpl; lia. Qed.

Lemma render_length fs : (length fs < length (render fs))%nat.
Proof.
  assert (forall l, length l < length (render_rest l))%nat as H.
  { induction l as [|f l IH]; simpl; [lia|]. rewrite length_app. lia. }
  destruct fs as [|f fs]; simpl; [lia|]. rewrite length_app. specialize (H fs). lia.
Qed.

(** Parsing a rendered list of fields performs their assignments in order. *)
Lemma parse_render fs cap :
  fs <> [] -> Forall field_wf fs ->
  parseOp (render fs) cap
  = Ret (op_ok (foldl set_field op_zero fs), foldl set_field op_zero fs).
Proof.
  intros Hne Hwf. unfold parseOp. pose proof (render_length fs) as Hlen.
  destruct fs as [|f fs]; [done|]. inversion Hwf; subst. simpl render in *.
  etrans; [exact (parse_field f _ [x7b] fs cap op_zero ltac:(by repeat constructor) H1)|].
  change (foldl set_field op_zero (f :: fs)) with (foldl set_field (set_field op_zero f) fs).
  apply parse_render_rest; [done|]. cbn [length] in *. lia.
Qed.

(** Assignments to different keys commute. *)
Lemma set_field_comm o f g :
  field_key f <> field_key g ->
  set_field (set_field o f) g = set_field (set_field o g) f.
Proof.
  destruct o as [c u h x a e i n d hasE].
  destruct f as [k raw v|k num], g as [k' raw' v'|k' num']; cbn [field_key set_field];
    intros Hne; unfold set_string, set_number; repeat bcase; subst; try done;
    repeat case_bool_decide; try done; repeat bcase; subst; done.
Qed.

Lemma foldl_set_field_perm fs gs o :
  fs ≡ₚ gs -> NoDup (map field_key fs) ->
  foldl set_field o fs = foldl set_field o gs.
Proof.
  intros Hp. revert o. induction Hp as [|f fs gs Hp IH|f g fs|fs gs hs H1 IH1 H2 IH2];
    intros o Hnd; simpl in *.
  - done.
  - inversion Hnd; subst. by apply IH.
  - inversion Hnd as [|? ? Hni Hnd']; subst.
    rewrite set_field_comm; [done|]. intros E. apply Hni. rewrite E. by left.
  - rewrite IH1 by done. apply IH2. by rewrite <- H1.
Qed.

Lemma number_text_itoa z : number_text (itoa z).
Proof.
  split_and!.
  - unfold itoa. destruct (z <? 0); [done|]. apply utoa_nonempty.
  - eapply Forall_impl; [apply itoa_numeric|]. by left.
  - apply TrimSpace_numeric, itoa_numeric.
Qed.

Lemma number_text_null : number_text t_null.
Proof.
  split_and!; [done| |by vm_compute].
  unfold t_null.
  repeat (apply Forall_cons; split; [right; vm_compute; split; discriminate|]). constructor.
Qed.

(** The three line kinds as field lists. *)
Definition row_fields (c u : bytes) (a e i n : Z) : list field :=
  [FStr x63 c c; FStr x75 (esc_all u) u; FNum x61 (itoa a);
   FNum x65 (if e =? 0 then t_null else itoa e); FNum x69 (itoa i); FNum x6e (itoa n)].

Definition hit_fields (c : bytes) (d i : Z) : list field :=
  [FStr x68 c c; FNum x64 (itoa d); FNum x69 (itoa i)].

Definition del_fields (c : bytes) : list field := [FStr x78 c c].

Ltac norm_app := repeat first [rewrite <- app_assoc | progress cbn [app]].

Lemma rowLine_render c u a e i n : rowLine c u a e i n = render (row_fields c u a e i n).
Proof.
  unfold rowLine. rewrite esc_eq. unfold row_fields, t_c, t_u, t_a, t_e, t_i, t_n.
  cbn [render render_rest field_text]. norm_app. reflexivity.
Qed.

Lemma hitLine_render c d i : hitLine c d i = render (hit_fields c d i).
Proof.
  unfold hitLine, hit_fields, t_h, t_d, t_i.
  cbn [render render_rest field_text]. norm_app. reflexivity.
Qed.

Lemma delLine_render c : delLine c = render (del_fields c).
Proof. unfold delLine, t_x. cbn [render render_rest del_fields field_text]. by norm_app. Qed.

Lemma row_fields_wf c u a e i n :
  code_safe c = true -> Forall field_wf (row_fields c u a e i n).
Proof.
  intros Hc. unfold row_fields.
  repeat (apply Forall_cons; split; [split; [done|]|]); try apply List.Forall_nil.
  - by apply scan_plain.
  - apply scan_esc_all.
  - apply number_text_itoa.
  - destruct (e =? 0); [apply number_text_null|apply number_text_itoa].
  - apply number_text_itoa.
  - apply number_text_itoa.
Qed.

Lemma itoa_not_null z : bool_decide (itoa z = t_null) = false.
Proof.
  apply bool_decide_eq_false. intros E. pose proof (itoa_numeric z) as H. rewrite E in H.
  inversion_clear H as [|? ? Hn _]. destruct Hn as [Hn|Hn]; vm_compute in Hn; discriminate.
Qed.

Definition row_op (c u : bytes) (a e i n : Z) : op :=
  mkOp c u [] [] a e i n 0 (negb (e =? 0)).

Definition hit_op (c : bytes) (d i : Z) : op := mkOp [] [] c [] 0 0 i 0 d false.

Definition del_op (c : bytes) : op := mkOp [] [] [] c 0 0 0 0 0 false.

Lemma row_fields_op c u a e i n :
  is_int64 a -> is_int64 e -> is_int64 i -> is_int64 n ->
  foldl set_field op_zero (row_fields c u a e i n) = row_op c u a e i n.
Proof.
  intros Ha He Hi Hn. unfold row_fields, row_op. cbn -[itoa ParseInt t_null].
  destruct (Z.eqb_spec e 0) as [->|].
  - rewrite bool_decide_eq_true_2 by done. cbn -[itoa ParseInt t_null].
    by rewrite !ParseInt_itoa.
  - rewrite itoa_not_null. cbn -[itoa ParseInt t_null]. by rewrite !ParseInt_itoa.
Qed.

Lemma hit_fields_op c d i :
  is_int64 d -> is_int64 i -> foldl set_field op_zero (hit_fields c d i) = hit_op c d i.
Proof.
  intros Hd Hi. unfold hit_fields, hit_op. cbn -[itoa ParseInt].
  by rewrite !ParseInt_itoa by done.
Qed.

(** ** Lines hold no newline *)

Definition no_nl (s : bytes) : Prop := Forall (fun c => c <> x0a) s.

Lemma esc_all_no_nl u : no_nl (esc_all u).
Proof.
  unfold no_nl. induction u as [|c u IH]; [constructor|]. rewrite esc_all_cons.
  apply Forall_app. split; [|done].
  destruct c; vm_compute; repeat (apply Forall_cons; split; [discriminate|]); constructor.
Qed.

Lemma number_no_nl num : number_text num -> no_nl num.
Proof.
  intros (_ & H & _). eapply Forall_impl; [exact H|]. intros c Hc ->.
  destruct Hc as [[Hc|Hc]|Hc]; vm_compute in Hc; try discriminate. by destruct Hc.
Qed.

Lemma code_safe_no_nl c : code_safe c = true -> no_nl c.
Proof.
  unfold code_safe, no_nl. intros Hc. apply Forall_forall. intros d Hd ->.
  rewrite forallb_forall in Hc. apply list_elem_of_In in Hd. by apply Hc in Hd.
Qed.

(** A field whose text holds no newline. *)
Definition field_no_nl (f : field) : Prop :=
  field_key f <> x0a /\ match f with FStr _ raw _ => no_nl raw | FNum _ num => no_nl num end.

Lemma render_no_nl fs : Forall field_no_nl fs -> no_nl (render fs).
Proof.
  assert (forall f, field_no_nl f -> no_nl (field_text f)) as Hf.
  { intros [k raw v|k num] [Hk Hr]; cbn [field_text field_key] in *;
      do 4 (apply Forall_cons; split; [done|]); [|done].
    apply Forall_cons; split; [done|]. apply Forall_app. split; [done|].
    by repeat constructor. }
  assert (forall l, Forall field_no_nl l -> no_nl (render_rest l)) as Hr.
  { induction 1 as [|f l Hf' Hl IH]; cbn [render_rest]; [by repeat constructor|].
    apply Forall_cons. split; [done|]. apply Forall_app. split; [by apply Hf|done]. }
  intros [|f l Hf' Hl]; cbn [render]; [by repeat constructor|].
  apply Forall_cons. split; [done|]. apply Forall_app. split; [by apply Hf|by apply Hr].
Qed.

Lemma rowLine_no_nl c u a e i n : code_safe c = true -> no_nl (rowLine c u a e i n).
Proof.
  intros Hc. rewrite rowLine_render. apply render_no_nl. unfold row_fields.
  repeat (apply Forall_cons; split; [split; [done|]|]); try apply List.Forall_nil;
    auto using code_safe_no_nl, esc_all_no_nl, number_no_nl, number_text_itoa.
  destruct (e =? 0); auto using number_no_nl, number_text_itoa, number_text_null.
Qed.

Lemma hitLine_no_nl c d i : code_safe c = true -> no_nl (hitLine c d i).
Proof.
  intros Hc. rewrite hitLine_render. apply render_no_nl. unfold hit_fields.
  repeat (apply Forall_cons; split; [split; [done|]|]); try apply List.Forall_nil;
    auto using code_safe_no_nl, number_no_nl, number_text_itoa.
Qed.

Lemma delLine_no_nl c : code_safe c = true -> no_nl (delLine c).
Proof.
  intros Hc. rewrite delLine_render. apply render_no_nl.
  repeat (apply Forall_cons; split; [split; [done|]|]); try apply List.Forall_nil.
  by apply code_safe_no_nl.
Qed.

Lemma parse_rowLine c u a e i n cap :
  code_safe c = true -> is_int64 a -> is_int64 e -> is_int64 i -> is_int64 n ->
  parseOp (rowLine c u a e i n) cap
  = Ret (bool_decide (c <> []), row_op c u a e i n).
Proof.
  intros Hc Ha He Hi Hn. rewrite rowLine_render, parse_render; [|done|by apply row_fields_wf].
  rewrite row_fields_op by done. do 2 f_equal. unfold op_ok, row_op. simpl.
  destruct c; [by case_bool_decide|]. by rewrite (bool_decide_eq_true_2 (_ <> _)).
Qed.

Lemma parse_hitLine c d i cap :
  code_safe c = true -> is_int64 d -> is_int64 i ->
  parseOp (hitLine c d i) cap = Ret (bool_decide (c <> []), hit_op c d i).
Proof.
  intros Hc Hd Hi. rewrite hitLine_render, parse_render; [|done|].
  - rewrite hit_fields_op by done. do 2 f_equal. unfold op_ok, hit_op. simpl.
    destruct c; [by case_bool_decide|]. by rewrite (bool_decide_eq_true_2 (_ <> _)).
  - unfold hit_fields. repeat (apply Forall_cons; split; [split; [done|]|]); try apply List.Forall_nil;
      auto using scan_plain, number_text_itoa.
Qed.

Lemma parse_delLine c cap :
  code_safe c = true -> parseOp (delLine c) cap = Ret (bool_decide (c <> []), del_op c).
Proof.
  intros Hc. rewrite delLine_render, parse_render; [|done|].
  - unfold del_fields, op_ok, del_op. simpl.
    destruct c; [by case_bool_decide|]. by rewrite (bool_decide_eq_true_2 (_ <> _)).
  - repeat (apply Forall_cons; split; [split; [done|]|]); try apply List.Forall_nil.
    by apply scan_plain.
Qed.

(** ** Progress of the parser *)

Lemma scan_string_suffix s cap :
  match scan_string s cap with
  | Ret (_, _, r) => r `suffix_of` s
  | Panic => cap = []
  | Diverge => False
  end.
Proof.
  induction s as [s IH] using (induction_ltof1 _ (@length byte)).
  unfold ltof in IH. destruct s as [|c s]; [by apply suffix_nil|].
  cbn [scan_string]. destruct (c =b x5c).
  - destruct s as [|d s]; [destruct cap; [done|by apply suffix_nil]|].
    specialize (IH s ltac:(simpl; lia)).
    destruct (scan_string s cap) as [[[v e] r]| |]; simpl; [|done|done].
    by do 2 apply suffix_cons_r.
  - destruct (c =b x22); [by apply suffix_cons_r|].
    specialize (IH s ltac:(simpl; lia)).
    destruct (scan_string s cap) as [[[v e] r]| |]; simpl; [|done|done].
    by apply suffix_cons_r.
Qed.

Lemma break_at_suffix p s a b : break_at p s = (a, b) -> b `suffix_of` s.
Proof. intros E. apply break_at_split in E as ->. by exists a. Qed.

(** Two adjacent quotes somewhere in a text. *)
Definition has_empty_key (s : bytes) : Prop := exists t, (x22 :: x22 :: t) `suffix_of` s.

(** One round either ends, or continues on a proper suffix; it panics only on
    an empty key or past the end of the buffer. *)
Lemma parse_loop_cases fuel s cap o :
  (length s < fuel)%nat ->
  match parse_loop fuel s cap o with
  | Ret _ => True
  | Panic => cap = [] \/ has_empty_key s
  | Diverge => False
  end.
Proof.
  revert s o. induction fuel as [|fuel IH]; intros s o Hlen; [lia|].
  cbn [parse_loop]. destruct s as [|b0 s0] eqn:Es; [done|]. rewrite <- Es in *.
  destruct (break_at is_quote s) as [p [|q s1]] eqn:E1; cbn [snd]; [done|].
  destruct (break_at is_quote s1) as [key [|q' s2]] eqn:E2; [done|].
  destruct (break_at is_colon s2) as [p3 [|q3 s3]] eqn:E3; cbn [snd]; [done|].
  destruct (break_at not_blank s3) as [p4 [|c s4]] eqn:E4; cbn [snd]; [done|].
  pose proof (break_at_head _ _ _ _ _ E1) as Hq. pose proof (break_at_head _ _ _ _ _ E2) as Hq'.
  assert (q = x22 /\ q' = x22) as [-> ->].
  { unfold is_quote in *. split; destruct (byte_eqb_spec x22 q), (byte_eqb_spec x22 q'); done. }
  apply break_at_suffix in E1, E3, E4. pose proof (break_at_suffix _ _ _ _ E2) as E2'.
  assert (s1 `suffix_of` s) as S1 by (eapply suffix_cons_l; exact E1).
  assert (s4 `suffix_of` s2) as S42.
  { eapply suffix_cons_l. etrans; [exact E4|]. eapply suffix_cons_l. exact E3. }
  assert (c :: s4 `suffix_of` s2) as S42c.
  { etrans; [exact E4|]. eapply suffix_cons_l. exact E3. }
  assert (s2 `suffix_of` s) as S2 by (etrans; [eapply suffix_cons_l; exact E2'|exact S1]).
  assert (length s2 < length s)%nat as L2.
  { apply suffix_length in E1, E2'. simpl in E1, E2'. lia. }
  assert (key = [] -> has_empty_key s) as Hkey.
  { intros ->. apply break_at_split in E2. simpl in E2. subst s1. by exists s2. }
  assert (forall r o', r `suffix_of` s2 ->
    match parse_loop fuel r cap o' with
    | Ret _ => True | Panic => cap = [] \/ has_empty_key s | Diverge => False end) as Hnext.
  { intros r o' Hr. pose proof (suffix_length _ _ Hr). specialize (IH r o' ltac:(lia)).
    destruct (parse_loop fuel r cap o') as [| |]; [done| |done].
    destruct IH as [|[t Ht]]; [by left|right]. exists t. etrans; [exact Ht|].
    etrans; [exact Hr|exact S2]. }
  destruct (c =b x22).
  - pose proof (scan_string_suffix s4 cap) as Hs.
    destruct (scan_string s4 cap) as [[[v e] r]| |]; cbn [go_bind]; [|by left|done].
    destruct key as [|k key]; [right; by apply Hkey|].
    apply Hnext. by etrans.
  - destruct (break_at is_comma_brace (c :: s4)) as [num r] eqn:E5.
    apply break_at_suffix in E5. destruct key as [|k key]; [right; by apply Hkey|].
    apply Hnext. by etrans.
Qed.

(** * Properties *)

(** escaping is undone: for every byte string [u], [unescape] inverts what
    [esc] appends, and the appended text holds no newline, so one URL never
    spreads over two log lines. *)
Lemma unescape_esc (dst u : bytes) :
  exists t, esc dst u = dst ++ t /\ unescape t = u /\ no_nl t.
Proof.
  exists (esc_all u). rewrite esc_eq.
  auto using unescape_esc_all, esc_all_no_nl.
Qed.

(** C25: a row round-trips: parsing the line [rowLine] writes gives back the
    code, the URL (any bytes at all), the timestamps, the owner and the hit
    count, with [hasE] exactly when the row has an expiry. *)
Theorem parseOp_rowLine (c u cap : bytes) (a e i n : Z)
  (Hc : code_safe c = true) (Hne : c <> [])
  (Ha : is_int64 a) (He : is_int64 e) (Hi : is_int64 i) (Hn : is_int64 n) :
  parseOp (rowLine c u a e i n) cap
  = Ret (true, mkOp c u [] [] a e i n 0 (negb (e =? 0))).
Proof. rewrite parse_rowLine by done. by rewrite bool_decide_eq_true_2. Qed.

Lemma parseOp_rowLine_witness :
  parseOp (rowLine (lit "0abc") [x22; x0a; xff] 1 (-5) 0 9) []
  = Ret (true, mkOp (lit "0abc") [x22; x0a; xff] [] [] 1 (-5) 0 9 0 true).
Proof. apply (parseOp_rowLine (lit "0abc") [x22; x0a; xff]); done. Defined.

(** hit deltas and tombstones round-trip. *)
Lemma parseOp_hit_del (c cap : bytes) (d i : Z)
  (Hc : code_safe c = true) (Hne : c <> []) (Hd : is_int64 d) (Hi : is_int64 i) :
  parseOp (hitLine c d i) cap = Ret (true, mkOp [] [] c [] 0 0 i 0 d false)
  /\ parseOp (delLine c) cap = Ret (true, mkOp [] [] [] c 0 0 0 0 0 false).
Proof.
  rewrite parse_hitLine, parse_delLine by done. by rewrite bool_decide_eq_true_2.
Qed.

(** the parser tolerates field reordering: two lines that hold the same
    fields (each key once) in different orders parse to the same operation. *)
Theorem parseOp_reorder (fs gs : list field) (cap : bytes)
  (Hwf : Forall field_wf fs) (Hp : fs ≡ₚ gs) (Hnd : NoDup (map field_key fs))
  (Hne : fs <> []) :
  parseOp (render fs) cap = parseOp (render gs) cap.
Proof.
  rewrite !parse_render; [|by intros ->; apply Permutation_sym, Permutation_nil in Hp|
    by rewrite <- Hp|done|done].
  by rewrite (foldl_set_field_perm fs gs).
Qed.

Lemma parseOp_reorder_witness :
  parseOp (render (row_fields (lit "a") (lit "u") 1 2 3 4)) []
  = parseOp (render (reverse (row_fields (lit "a") (lit "u") 1 2 3 4))) [].
Proof.
  apply (parseOp_reorder (row_fields (lit "a") (lit "u") 1 2 3 4)).
  - by apply row_fields_wf.
  - by rewrite reverse_Permutation.
  - apply (bool_decide_unpack _). by vm_compute.
  - done.
Defined.

(** the parser terminates on every input, and on a line cut out of a log
    it returns normally unless the line holds two adjacent quotes (an empty
    key indexes out of range). *)
Theorem parseLine_total (b : bytes) :
  (forall cap, parseOp b cap <> Diverge) /\
  (parseLine b = Panic -> has_empty_key b).
Proof.
  split.
  - intros cap E. pose proof (parse_loop_cases (S (length b)) b cap op_zero ltac:(lia)) as H.
    unfold parseOp in E. by rewrite E in H.
  - intros E. pose proof (parse_loop_cases (S (length b)) b [x0a] op_zero ltac:(lia)) as H.
    unfold parseLine, parseOp in E. rewrite E in H. by destruct H.
Qed.

(** a log line with an empty key stops the process: the parser indexes
    [key[0]] without a check, although a replay means to ignore lines it
    cannot parse. *)
Theorem parseLine_empty_key_panics (r : bytes) :
  parseLine (lit "{'':1" ++ r) = Panic.
Proof.
  change (lit _ ++ r) with (x7b :: x22 :: x22 :: x3a :: x31 :: r).
  vm_compute. by case_match.
Qed.
