(* ===== verification/Aof.v ===== *)
(** * Aof: the append-only log of [internal/aof/aof.go]

    Buffered line writes ([Push], [Flush], [Sync], [Truncate], [Close]),
    replay of a log ([ReplayFile]), incremental reading of a sibling's log
    ([TailReader], [ReadNew]), discovery ([ShardFiles]) and the lock files
    behind [ClaimInstance].

    The data directory is a map from file names to files. The operating system
    accepts every write to an open handle; [synced] counts the bytes of a file
    known to be on stable storage, which [Sync] advances and [crash] keeps. *)

From S2P Require Import Prelude GoStd.
From stdpp Require Import options.

Definition NL : byte := x0a.

(** ** The directory *)

Record File := mkFile { content : bytes; synced : nat }.

Abbreviation Disk := (gmap bytes File).

Definition empty_file : File := mkFile [] 0.

Definition file_append (f : File) (b : bytes) : File := mkFile (content f ++ b) (synced f).

(** Creating a file that may already be there ([O_CREATE]). *)
Definition open_create (d : Disk) (name : bytes) : Disk :=
  match d !! name with Some _ => d | None => <[name := empty_file]> d end.

Definition fileSize (d : Disk) (name : bytes) : Z :=
  match d !! name with Some f => Z.of_nat (length (content f)) | None => 0 end.

(** A machine crash keeps some prefix of each file that holds at least what
    was synced. *)
Definition crash_file (f f' : File) : Prop :=
  exists k, (synced f <= k <= length (content f))%nat
    /\ f' = mkFile (take k (content f)) (synced f).

Definition crash (d d' : Disk) : Prop :=
  forall name, option_Forall2 crash_file (d !! name) (d' !! name).

(** ** The writer *)

Record Aof := mkAof { a_buf : bytes; a_path : bytes; a_open : bool }.

Definition New (d : Disk) (name : bytes) : Aof * Disk :=
  (mkAof [] name true, open_create d name).

Definition Push (line : bytes) (a : Aof) : Aof :=
  mkAof (a_buf a ++ line ++ [NL]) (a_path a) (a_open a).

Definition PendingBytes (a : Aof) : Z := Z.of_nat (length (a_buf a)).

(** One write of the whole batch; a write to a closed handle fails and its
    error is dropped, but the buffer is reset all the same. *)
Definition flushLocked (d : Disk) (a : Aof) : Aof * Disk :=
  match a_buf a with
  | [] => (a, d)
  | b =>
      (mkAof [] (a_path a) (a_open a),
       if a_open a then alter (fun f => file_append f b) (a_path a) d else d)
  end.

Definition Flush (d : Disk) (a : Aof) : Aof * Disk := flushLocked d a.

Definition Sync (d : Disk) (a : Aof) : Aof * Disk :=
  let '(a1, d1) := flushLocked d a in
  (a1, if a_open a1
       then alter (fun f => mkFile (content f) (length (content f))) (a_path a1) d1 else d1).

Definition Size (d : Disk) (a : Aof) : Z := if a_open a then fileSize d (a_path a) else 0.

Definition Truncate (d : Disk) (a : Aof) : Aof * Disk :=
  let '(a1, d1) := flushLocked d a in
  (mkAof (a_buf a1) (a_path a1) true, <[a_path a1 := empty_file]> d1).

Definition Close (d : Disk) (a : Aof) : Aof * Disk :=
  let '(a1, d1) := flushLocked d a in
  (mkAof (a_buf a1) (a_path a1) false, d1).

(** ** Replay *)

Definition is_nl (c : byte) : bool := NL =b c.

(** The complete, non-empty lines of a buffer; a torn tail is dropped. *)
Fixpoint replay_loop (fuel : nat) (buf : bytes) : list bytes :=
  match fuel with
  | O => []
  | S fuel' =>
      match break_at is_nl buf with
      | (_, []) => []
      | ([], _ :: rest) => replay_loop fuel' rest
      | (line, _ :: rest) => line :: replay_loop fuel' rest
      end
  end.

Definition replay_lines (buf : bytes) : list bytes := replay_loop (S (length buf)) buf.

Definition ReplayFile {St : Type} (d : Disk) (path : bytes) (cb : bytes -> St -> go St) (s : St) : go St :=
  match d !! path with
  | None => Ret s
  | Some f => go_fold cb (replay_lines (content f)) s
  end.

(** ** Tailing *)

Record TailReader := mkTail { t_path : bytes; t_offset : Z; t_leftover : bytes }.

Definition TailFromStart (path : bytes) : TailReader := mkTail path 0 [].

(** The scan of [ReadNew] over the bytes still unread, [cur] being the bytes
    of the current line seen so far: the complete lines and the leftover. *)
Fixpoint scan_lines (data cur : bytes) : list bytes * bytes :=
  match data with
  | [] => ([], cur)
  | c :: data' =>
      if is_nl c then
        let '(ls, rest) := scan_lines data' [] in
        (match cur with [] => ls | _ => cur :: ls end, rest)
      else scan_lines data' (cur ++ [c])
  end.

Definition tail_reset (size : Z) (t : TailReader) : TailReader :=
  if size <? t_offset t then mkTail (t_path t) 0 [] else t.

(** What one [ReadNew] delivers: the reader afterwards and the lines. *)
Definition read_step (d : Disk) (t : TailReader) : TailReader * list bytes :=
  let size := fileSize d (t_path t) in
  let t1 := tail_reset size t in
  if size <=? t_offset t1 then (t1, [])
  else
    match d !! t_path t with
    | None => (t1, [])
    | Some f =>
        let buf := drop (Z.to_nat (t_offset t1)) (content f) in
        let '(ls, rest) := scan_lines (t_leftover t1 ++ buf) [] in
        (mkTail (t_path t1) (t_offset t1 + Z.of_nat (length buf)) rest, ls)
    end.

Definition ReadNew {St : Type} (d : Disk) (t : TailReader) (cb : bytes -> St -> go St) (s : St)
    : go (TailReader * St) :=
  let '(t', ls) := read_step d t in
  let* s' := go_fold cb ls s in Ret (t', s').

(** ** Shard discovery *)

Fixpoint bytes_le (a b : bytes) : bool :=
  match a, b with
  | [], _ => true
  | _ :: _, [] => false
  | c :: a', d :: b' =>
      if bZ c <? bZ d then true else if bZ d <? bZ c then false else bytes_le a' b'
  end.

Definition bytes_leR (a b : bytes) : Prop := bytes_le a b = true.

#[export] Instance bytes_leR_dec : RelDecision bytes_leR.
Proof. intros a b. unfold bytes_leR. apply _. Defined.

#[export] Instance bytes_leR_total : Total bytes_leR.
Proof.
  intros a. unfold bytes_leR. induction a as [|c a IH]; intros [|d b]; simpl; auto.
  repeat bcase; auto; lia.
Qed.

Definition s_data : bytes := Eval vm_compute in lit "data-".
Definition s_log : bytes := Eval vm_compute in lit ".log".
Definition s_snap : bytes := Eval vm_compute in lit ".snap".

Definition shard_name (own n : bytes) : bool :=
  HasPrefix n s_data && HasSuffix n s_log && negb (bool_decide (n = own)).

Definition ShardFiles (d : Disk) (own : bytes) : list bytes :=
  merge_sort bytes_leR
    (filter (fun n => shard_name own n = true) (map_to_list d).*1).

(** ** Instance locks *)

Definition s_instance : bytes := Eval vm_compute in lit "instance-".
Definition s_lock : bytes := Eval vm_compute in lit ".lock".

Definition lock_name (i : Z) : bytes := s_instance ++ itoa i ++ s_lock.

Section Locks.

(** [alive pid]: signal 0 reaches the process (or is refused with [EPERM]);
    [self] is [os.Getpid()]. *)
Context (alive : Z -> bool) (self : Z).

Definition tryLock (d : Disk) (lock : bytes) : bool * Disk :=
  match d !! lock with
  | Some _ => (false, d)
  | None => (true, <[lock := mkFile (itoa self) 0]> d)
  end.

(** Whether the holder recorded in a lock file is known to be dead. *)
Definition stale (f : File) : bool :=
  match ParseInt (TrimSpace (content f)) with
  | (pid, None) => (0 <? pid) && negb (alive pid)
  | (_, Some _) => false
  end.

Fixpoint claim_loop (n : nat) (i : Z) (d : Disk) : option Z * Disk :=
  match n with
  | O => (None, d)
  | S n' =>
      let lock := lock_name i in
      match tryLock d lock with
      | (true, d1) => (Some i, d1)
      | (false, d1) =>
          match d1 !! lock with
          | None => claim_loop n' (i + 1) d1
          | Some f =>
              if stale f then
                match tryLock (delete lock d1) lock with
                | (true, d2) => (Some i, d2)
                | (false, d2) => claim_loop n' (i + 1) d2
                end
              else claim_loop n' (i + 1) d1
          end
      end
  end.

(** [None] is the error "no free instance id". *)
Definition ClaimInstance (d : Disk) : option Z * Disk := claim_loop 1024 0 d.

(** The release function of a claim. *)
Definition release (i : Z) (d : Disk) : Disk := delete (lock_name i) d.

(** The same claim of one index as the atomic file-system calls it is made
    of, for interleaving several processes: [PRead] after a failed create,
    [PCheck] with the lock's content, [PRemove], and the second create. *)
Inductive claim_pc := PTry | PRead | PCheck (f : File) | PRemove | PRetry | PClaimed | PNext.

Definition claim_step (i : Z) (d : Disk) (pc : claim_pc) : Disk * claim_pc :=
  let lock := lock_name i in
  match pc with
  | PTry =>
      match tryLock d lock with (true, d1) => (d1, PClaimed) | (false, d1) => (d1, PRead) end
  | PRead => match d !! lock with Some f => (d, PCheck f) | None => (d, PNext) end
  | PCheck f => (d, if stale f then PRemove else PNext)
  | PRemove => (delete lock d, PRetry)
  | PRetry =>
      match tryLock d lock with (true, d1) => (d1, PClaimed) | (false, d1) => (d1, PNext) end
  | PClaimed => (d, PClaimed)
  | PNext => (d, PNext)
  end.

End Locks.

(** Two processes [p1] and [p2] claiming index [i]; [true] in the schedule
    lets the first one take a step. *)
Fixpoint race (alive : Z -> bool) (p1 p2 i : Z) (sched : list bool)
    (d : Disk) (c1 c2 : claim_pc) : Disk * claim_pc * claim_pc :=
  match sched with
  | [] => (d, c1, c2)
  | true :: sched' =>
      let '(d', c1') := claim_step alive p1 i d c1 in race alive p1 p2 i sched' d' c1' c2
  | false :: sched' =>
      let '(d', c2') := claim_step alive p2 i d c2 in race alive p1 p2 i sched' d' c1 c2'
  end.

(** * Lemmas *)

(** ** Lines *)

(** The bytes [Push] queues for one line, and for a list of lines. *)
Definition frame (l : bytes) : bytes := l ++ [NL].
Definition frames (ls : list bytes) : bytes := concat (map frame ls).

Definition good_line (l : bytes) : Prop := l <> [] /\ Forall (fun c => c <> x0a) l.

Lemma is_nl_ne c : c <> x0a -> is_nl c = false.
Proof. intros H. apply byte_eqb_ne. unfold NL. congruence. Qed.

Lemma is_nl_true c : is_nl c = true -> c = NL.
Proof. unfold is_nl. by destruct (byte_eqb_spec NL c). Qed.

Lemma scan_lines_nonl s cur :
  Forall (fun c => is_nl c = false) s -> scan_lines s cur = ([], cur ++ s).
Proof.
  intros H. revert cur. induction H as [|c s Hc Hs IH]; intros cur; simpl.
  - by rewrite app_nil_r.
  - rewrite Hc, IH. by rewrite <- app_assoc.
Qed.

Lemma scan_lines_app a b cur :
  scan_lines (a ++ b) cur
  = let '(l1, r1) := scan_lines a cur in
    let '(l2, r2) := scan_lines b r1 in (l1 ++ l2, r2).
Proof.
  revert cur. induction a as [|c a IH]; intros cur; simpl.
  - by destruct (scan_lines b cur).
  - destruct (is_nl c); [|apply IH]. rewrite IH.
    destruct (scan_lines a []) as [l1 r1], (scan_lines b r1) as [l2 r2].
    by destruct cur.
Qed.

Lemma scan_lines_rest data cur :
  Forall (fun c => is_nl c = false) cur ->
  Forall (fun c => is_nl c = false) (scan_lines data cur).2.
Proof.
  revert cur. induction data as [|c data IH]; intros cur Hcur; simpl; [done|].
  destruct (is_nl c) eqn:E.
  - specialize (IH [] (Forall_nil_2 _)). by destruct (scan_lines data []).
  - apply IH. apply Forall_app. by repeat constructor.
Qed.

(** [ReplayFile] and [ReadNew] cut the same lines. *)
Lemma replay_loop_scan fuel buf :
  (length buf < fuel)%nat -> replay_loop fuel buf = (scan_lines buf []).1.
Proof.
  revert buf. induction fuel as [|fuel IH]; intros buf Hlen; [lia|]. simpl.
  destruct (break_at is_nl buf) as [line rest] eqn:E.
  pose proof (break_at_before _ _ _ _ E) as Hl. pose proof (break_at_split _ _ _ _ E) as ->.
  rewrite scan_lines_app, scan_lines_nonl by done. simpl.
  destruct rest as [|c rest]; [by destruct line|].
  apply break_at_head in E. rewrite length_app in Hlen. simpl in Hlen.
  specialize (IH rest ltac:(lia)). simpl. rewrite E.
  destruct (scan_lines rest []) as [ls r]. simpl in *. by destruct line; simpl; rewrite IH.
Qed.

Lemma replay_lines_scan buf : replay_lines buf = (scan_lines buf []).1.
Proof. apply replay_loop_scan. lia. Qed.

Lemma replay_lines_app a b :
  replay_lines (a ++ b)
  = replay_lines a ++ (scan_lines b (scan_lines a []).2).1.
Proof.
  rewrite !replay_lines_scan, scan_lines_app.
  destruct (scan_lines a []) as [l1 r1]. simpl. by destruct (scan_lines b r1).
Qed.

Lemma good_line_nonl l : good_line l -> Forall (fun c => is_nl c = false) l.
Proof. intros [_ H]. eapply Forall_impl; [exact H|]. apply is_nl_ne. Qed.

Lemma scan_lines_frame l cur :
  Forall (fun c => is_nl c = false) l ->
  scan_lines (frame l) cur = (match cur ++ l with [] => [] | x => [x] end, []).
Proof.
  intros Hl. unfold frame. rewrite scan_lines_app, scan_lines_nonl by done. simpl.
  by destruct (cur ++ l).
Qed.

Lemma scan_lines_frames ls :
  Forall good_line ls -> scan_lines (frames ls) [] = (ls, []).
Proof.
  induction 1 as [|l ls Hl Hls IH]; [done|].
  unfold frames in *. simpl. rewrite scan_lines_app, scan_lines_frame by by apply good_line_nonl.
  simpl. rewrite IH. destruct Hl as [Hne _]. by destruct l.
Qed.

Lemma replay_lines_frames ls : Forall good_line ls -> replay_lines (frames ls) = ls.
Proof. intros H. by rewrite replay_lines_scan, scan_lines_frames. Qed.

Lemma frames_app ls1 ls2 : frames (ls1 ++ ls2) = frames ls1 ++ frames ls2.
Proof. unfold frames. by rewrite map_app, concat_app. Qed.

Lemma frames_length_prefix ls k : (k <= length ls)%nat ->
  frames ls = frames (take k ls) ++ frames (drop k ls).
Proof. intros _. by rewrite <- frames_app, take_drop. Qed.

(** A prefix of framed lines replays to a prefix of the lines, and to all
    those that fit. *)
Lemma replay_take_frames ls n :
  Forall good_line ls ->
  exists k, replay_lines (take n (frames ls)) = take k ls
    /\ forall j, (length (frames (take j ls)) <= n)%nat -> (j <= k \/ length ls <= k)%nat.
Proof.
  intros H. revert n. induction H as [|l ls Hl Hls IH]; intros n.
  - exists 0%nat. split; [by destruct n|]. intros j _. right. simpl. lia.
  - change (frames (l :: ls)) with (frame l ++ frames ls).
    destruct (decide (n < length (frame l))%nat) as [Hlt|Hge].
    + exists 0%nat. rewrite take_app_le by lia. split.
      * unfold frame in *. rewrite length_app in Hlt. simpl in Hlt.
        rewrite take_app_le by lia. rewrite replay_lines_scan, scan_lines_nonl; [done|].
        apply Forall_take. by apply good_line_nonl.
      * intros [|j]; [lia|]. simpl. change (frames (l :: ?x)) with (frame l ++ frames x).
        rewrite length_app. lia.
    + destruct (IH (n - length (frame l))%nat) as (k & Hk & Hj).
      exists (S k). rewrite take_app_ge by lia. split.
      * rewrite replay_lines_app, replay_lines_scan, scan_lines_frame by by apply good_line_nonl.
        simpl. rewrite <- replay_lines_scan, Hk. destruct Hl as [Hne _]. by destruct l.
      * intros [|j]; [lia|]. simpl. change (frames (l :: ?x)) with (frame l ++ frames x).
        rewrite length_app. intros Hle. destruct (Hj j ltac:(lia)); lia.
Qed.

(** ** The writer's contract *)

Definition file_bytes (d : Disk) (name : bytes) : bytes :=
  match d !! name with Some f => content f | None => [] end.

(** The open log [a] holds the lines [ls]: those written, then those queued;
    at least [n] bytes are synced. *)
Definition log_holds (d : Disk) (a : Aof) (ls : list bytes) (n : nat) : Prop :=
  a_open a = true /\
  exists f, d !! a_path a = Some f /\ content f ++ a_buf a = frames ls
    /\ (n <= synced f <= length (content f))%nat.

Inductive wop := WPush (l : bytes) | WFlush | WSync.

Definition wstep (o : wop) (s : Disk * Aof) : Disk * Aof :=
  let '(d, a) := s in
  match o with
  | WPush l => (d, Push l a)
  | WFlush => let '(a', d') := Flush d a in (d', a')
  | WSync => let '(a', d') := Sync d a in (d', a')
  end.

Definition pushed (os : list wop) : list bytes :=
  omap (fun o => match o with WPush l => Some l | _ => None end) os.

Lemma log_holds_push d a ls n l :
  log_holds d a ls n -> log_holds d (Push l a) (ls ++ [l]) n.
Proof.
  intros (Ho & f & Hf & Hc & Hn). split; [done|]. exists f. split; [done|].
  split; [|done]. simpl. rewrite frames_app, <- Hc, <- app_assoc. unfold frames, frame.
  simpl. by rewrite app_nil_r.
Qed.

(** [Flush] moves the queue into the file and changes nothing else. *)
Lemma flushLocked_holds d a ls n :
  log_holds d a ls n ->
  let '(a', d') := flushLocked d a in
  log_holds d' a' ls n /\ a_buf a' = [] /\ a_path a' = a_path a
  /\ (exists f, d' !! a_path a = Some f /\ content f = frames ls)
  /\ forall name, name <> a_path a -> d' !! name = d !! name.
Proof.
  intros (Ho & f & Hf & Hc & Hn). unfold flushLocked.
  destruct (a_buf a) as [|b0 b] eqn:Eb.
  - rewrite app_nil_r in Hc. split_and!; try done.
    + split; [done|]. exists f. by rewrite Eb, app_nil_r.
    + by exists f.
  - rewrite Ho. assert (alter (fun f => file_append f (b0 :: b)) (a_path a) d !! a_path a
      = Some (file_append f (b0 :: b))) as E by (rewrite lookup_alter_eq, Hf; done).
    split_and!; simpl; try done.
    + split; [done|]. exists (file_append f (b0 :: b)). simpl. split; [done|].
      rewrite app_nil_r. split; [done|]. rewrite length_app. lia.
    + exists (file_append f (b0 :: b)). by split.
    + intros name Hne. by rewrite lookup_alter_ne.
Qed.

Lemma Sync_holds d a ls n :
  log_holds d a ls n ->
  let '(a', d') := Sync d a in
  log_holds d' a' ls (length (frames ls)) /\ a_path a' = a_path a.
Proof.
  intros H. unfold Sync. pose proof (flushLocked_holds d a ls n H) as F.
  destruct (flushLocked d a) as [a1 d1].
  destruct F as ((Ho & f & Hf & Hc & Hn) & Hb & Hp & (g & Hg & Hgc) & _).
  split; [|done]. split; [done|]. rewrite Ho, lookup_alter_eq, Hf. rewrite Hp in Hf.
  assert (f = g) as -> by congruence.
  eexists. split; [done|]. simpl. rewrite Hb, Hgc, app_nil_r. split; [done|]. lia.
Qed.

Lemma wstep_holds o d a ls n :
  log_holds d a ls n ->
  let '(d', a') := wstep o (d, a) in
  log_holds d' a' (ls ++ pushed [o]) n /\ a_path a' = a_path a.
Proof.
  intros H. destruct o as [l| |]; simpl.
  - split; [by apply log_holds_push|done].
  - pose proof (flushLocked_holds d a ls n H) as F. unfold Flush.
    destruct (flushLocked d a) as [a' d']. rewrite app_nil_r. by destruct F as (? & _ & ? & _).
  - pose proof (Sync_holds d a ls n H) as F. destruct (Sync d a) as [a' d'].
    rewrite app_nil_r. destruct F as [(Ho & f & Hf & Hc & Hn) Hp]. split; [|done].
    split; [done|]. exists f. split; [done|]. split; [done|].
    destruct H as (_ & f0 & _ & Hc0 & Hn0). rewrite <- Hc0, length_app in Hn. lia.
Qed.

Lemma wsteps_holds os d a ls n :
  log_holds d a ls n ->
  let '(d', a') := foldl (fun s o => wstep o s) (d, a) os in
  log_holds d' a' (ls ++ pushed os) n /\ a_path a' = a_path a.
Proof.
  revert d a ls. induction os as [|o os IH]; intros d a ls H; cbn [foldl].
  - by rewrite app_nil_r.
  - pose proof (wstep_holds o d a ls n H) as Hs. destruct (wstep o (d, a)) as [d1 a1].
    destruct Hs as [H1 P1]. specialize (IH d1 a1 _ H1).
    destruct (foldl _ (d1, a1) os) as [d2 a2]. destruct IH as [H2 P2].
    split; [|congruence]. rewrite <- app_assoc in H2.
    replace (pushed (o :: os)) with (pushed [o] ++ pushed os); [done|]. by destruct o.
Qed.

Lemma crash_replay d d' a ls n m :
  log_holds d a ls n -> Forall good_line ls -> crash d d' ->
  (length (frames (take m ls)) <= n)%nat -> (m <= length ls)%nat ->
  exists k, (m <= k)%nat /\ replay_lines (file_bytes d' (a_path a)) = take k ls.
Proof.
  intros (_ & f & Hf & Hc & Hn) Hg Hcr Hm Hml. specialize (Hcr (a_path a)).
  rewrite Hf in Hcr. inversion Hcr as [? f' Hff E1 E2|]; subst.
  destruct Hff as (k & Hk & ->). unfold file_bytes. rewrite <- E2. simpl.
  assert (take k (content f) = take k (frames ls)) as ->.
  { rewrite <- Hc, take_app_le by lia. done. }
  destruct (replay_take_frames ls k Hg) as (j & -> & Hj).
  destruct (Hj m ltac:(lia)) as [Hle|Hge]; [by exists j|].
  exists (Nat.max j m). split; [lia|]. rewrite !take_ge by lia. done.
Qed.

(** ** Tailing *)

(** The reader has consumed exactly the prefix [p] of its file. *)
Definition tail_at (t : TailReader) (p : bytes) : Prop :=
  t_offset t = Z.of_nat (length p) /\ t_leftover t = (scan_lines p []).2.

Lemma tail_at_start path : tail_at (TailFromStart path) [].
Proof. done. Qed.

Lemma read_step_grow d t p q f :
  tail_at t p -> d !! t_path t = Some f -> content f = p ++ q ->
  exists t', read_step d t = (t', (scan_lines q (t_leftover t)).1)
    /\ tail_at t' (p ++ q) /\ t_path t' = t_path t.
Proof.
  intros [Ho Hl] Hf Hc. unfold read_step, tail_reset, fileSize.
  rewrite Hf, Hc, Ho, length_app.
  destruct (Z.ltb_spec (Z.of_nat (length p + length q)) (Z.of_nat (length p))); [lia|].
  rewrite Ho.
  assert (scan_lines (t_leftover t ++ q) [] = scan_lines q (t_leftover t)) as E.
  { rewrite scan_lines_app, scan_lines_nonl; [|rewrite Hl; by apply scan_lines_rest].
    simpl. by destruct (scan_lines q (t_leftover t)). }
  destruct (Z.leb_spec (Z.of_nat (length p + length q)) (Z.of_nat (length p))) as [Hle|Hgt].
  - assert (q = []) as -> by (destruct q; [done|simpl in Hle; lia]).
    exists t. rewrite app_nil_r. by repeat split.
  - rewrite Nat2Z.id, drop_app_length, E.
    destruct (scan_lines q (t_leftover t)) as [ls r] eqn:Eq.
    eexists. split; [done|]. split; [|done]. split; simpl.
    + rewrite length_app. lia.
    + rewrite scan_lines_app. destruct (scan_lines p []) as [l1 r1]. simpl in *. subst r1.
      by rewrite Eq.
Qed.

(** ** Locks *)

Lemma itoa_inj y z : is_int64 y -> is_int64 z -> itoa y = itoa z -> y = z.
Proof.
  intros Hy Hz E. pose proof (ParseInt_itoa y Hy) as P. rewrite E, ParseInt_itoa in P by done.
  congruence.
Qed.

Lemma lock_name_inj i j : is_int64 i -> is_int64 j -> lock_name i = lock_name j -> i = j.
Proof.
  unfold lock_name. intros Hi Hj E. apply app_inv_head, app_inv_tail in E.
  by apply itoa_inj.
Qed.

(** A lock file that names a live process is never taken for stale. *)
Lemma stale_live alive pid n :
  is_int64 pid -> alive pid = true -> stale alive (mkFile (itoa pid) n) = false.
Proof.
  intros Hp Ha. unfold stale. simpl.
  rewrite TrimSpace_numeric, ParseInt_itoa by auto using itoa_numeric.
  rewrite Ha. apply andb_false_r.
Qed.

Definition held (alive : Z -> bool) (d : Disk) (i : Z) : Prop :=
  exists f, d !! lock_name i = Some f /\ stale alive f = false.

Lemma claim_loop_spec alive self n i d :
  match claim_loop alive self n i d with
  | (Some k, d') =>
      i <= k < i + Z.of_nat n /\ d' = <[lock_name k := mkFile (itoa self) 0]> d
      /\ ~ held alive d k /\ forall j, i <= j < k -> held alive d j
  | (None, d') => d' = d /\ forall j, i <= j < i + Z.of_nat n -> held alive d j
  end.
Proof.
  revert i d. induction n as [|n IH]; intros i d; cbn [claim_loop]; [split; [done|lia]|].
  unfold tryLock at 1. destruct (d !! lock_name i) as [f|] eqn:E; rewrite ?E.
  - destruct (stale alive f) eqn:Es.
    + unfold tryLock. rewrite lookup_delete_eq.
      split_and!; [lia|lia|by rewrite insert_delete_eq| |lia].
      intros (g & Hg & Hs). congruence.
    + specialize (IH (i + 1) d).
      assert (held alive d i) as Hi by (exists f; done).
      destruct (claim_loop alive self n (i + 1) d) as [[k|] d'].
      * destruct IH as (Hk & -> & Hh & Hj). split_and!; [lia|lia|done|done|].
        intros j Hjk. destruct (decide (j = i)) as [->|]; [done|apply Hj; lia].
      * destruct IH as (-> & Hj). split; [done|]. intros j Hjk.
        destruct (decide (j = i)) as [->|]; [done|apply Hj; lia].
  - split_and!; [lia|lia|done| |lia]. intros (g & Hg & _). congruence.
Qed.

Lemma ClaimInstance_cases alive self d :
  match ClaimInstance alive self d with
  | (Some k, d') =>
      0 <= k < 1024 /\ d' = <[lock_name k := mkFile (itoa self) 0]> d
      /\ ~ held alive d k /\ forall j, 0 <= j < k -> held alive d j
  | (None, d') => d' = d /\ forall j, 0 <= j < 1024 -> held alive d j
  end.
Proof. exact (claim_loop_spec alive self 1024 0 d). Qed.

(** One round of a claim, on a free index and on a held one. *)
Lemma claim_round_free (alive : Z -> bool) (self : Z) (n : nat) (i : Z) (d : Disk) :
  d !! lock_name i = None ->
  claim_loop alive self (S n) i d = (Some i, <[lock_name i := mkFile (itoa self) 0]> d).
Proof. intros H. cbn [claim_loop]. unfold tryLock at 1. by rewrite H. Qed.

Lemma claim_round_held (alive : Z -> bool) (self : Z) (n : nat) (i : Z) (d : Disk) :
  held alive d i -> claim_loop alive self (S n) i d = claim_loop alive self n (i + 1) d.
Proof.
  intros (f & Hf & Hs). cbn [claim_loop]. unfold tryLock at 1. rewrite Hf. cbv beta iota.
  by rewrite Hf, Hs.
Qed.

Lemma ShardFiles_elem (d : Disk) (own n : bytes) :
  n ∈ ShardFiles d own <->
    is_Some (d !! n) /\ HasPrefix n s_data = true /\ HasSuffix n s_log = true /\ n <> own.
Proof.
  unfold ShardFiles. rewrite merge_sort_Permutation, list_elem_of_filter, list_elem_of_fmap.
  unfold shard_name. rewrite !andb_true_iff, negb_true_iff, bool_decide_eq_false. split.
  - intros ([[H1 H2] H3] & [k f] & -> & Hin). apply elem_of_map_to_list in Hin. eauto.
  - intros ([f Hf] & H1 & H2 & H3). split; [done|]. exists (n, f). split; [done|].
    by apply elem_of_map_to_list.
Qed.

(** * Properties *)

(** replay is exact and tolerates torn tails: the lines pushed to a log
    come back in order, and from any byte prefix of the file exactly the first
    lines do, including every line that is complete in it. *)
Theorem replay_lines_torn (ls : list bytes) (n : nat) (H : Forall good_line ls) :
  replay_lines (frames ls) = ls /\
  exists k, replay_lines (take n (frames ls)) = take k ls
    /\ forall j, (j <= length ls)%nat -> (length (frames (take j ls)) <= n)%nat -> (j <= k)%nat \/ (length ls <= k)%nat.
Proof.
  split; [by apply replay_lines_frames|].
  destruct (replay_take_frames ls n H) as (k & Hk & Hj). exists k. split; [done|]. auto.
Qed.

Lemma two_good_lines : Forall good_line [lit "ab"; lit "c"].
Proof.
  repeat (apply Forall_cons; split; [split; [done|]|]); try apply List.Forall_nil;
    repeat (apply Forall_cons; split; [done|]); apply List.Forall_nil.
Defined.

Lemma replay_lines_torn_witness :
  replay_lines (frames [lit "ab"; lit "c"]) = [lit "ab"; lit "c"] /\
  exists k, replay_lines (take 4 (frames [lit "ab"; lit "c"])) = take k [lit "ab"; lit "c"]
    /\ forall j, (j <= 2)%nat -> (length (frames (take j [lit "ab"; lit "c"])) <= 4)%nat ->
       (j <= k)%nat \/ (2 <= k)%nat.
Proof. apply (replay_lines_torn [lit "ab"; lit "c"] 4 two_good_lines). Defined.

(** durability across a machine crash: whatever is pushed, flushed or
    synced after a [Sync], the log found after the crash replays to a prefix
    of the lines pushed, and that prefix holds every line the [Sync] covered. *)
Theorem sync_survives_crash (d : Disk) (a : Aof) (ls : list bytes) (n : nat)
  (os : list wop) (d' : Disk)
  (Hlog : log_holds d a ls n) (Hgood : Forall good_line (ls ++ pushed os))
  (Hcrash : let '(a1, d1) := Sync d a in
            crash (foldl (fun s o => wstep o s) (d1, a1) os).1 d') :
  exists k, (length ls <= k)%nat
    /\ replay_lines (file_bytes d' (a_path a)) = take k (ls ++ pushed os).
Proof.
  pose proof (Sync_holds d a ls n Hlog) as Hs. destruct (Sync d a) as [a1 d1].
  destruct Hs as [Hs Hp]. pose proof (wsteps_holds os d1 a1 ls _ Hs) as Hw.
  destruct (foldl _ (d1, a1) os) as [d2 a2]. destruct Hw as [Hw Hp2].
  rewrite <- Hp, <- Hp2. eapply crash_replay; [done..| |].
  - by rewrite take_app_length.
  - rewrite length_app. lia.
Qed.

Lemma sync_survives_crash_witness :
  exists k, (1 <= k)%nat /\
    replay_lines (file_bytes {[ lit "l" := mkFile (lit "ab" ++ [NL; x63]) 3 ]} (lit "l"))
    = take k [lit "ab"; lit "c"].
Proof.
  apply (sync_survives_crash {[ lit "l" := mkFile [] 0 ]} (mkAof (lit "ab" ++ [NL]) (lit "l") true)
    [lit "ab"] 0 [WPush (lit "c"); WFlush]).
  - split; [done|]. exists (mkFile [] 0). split; [by vm_compute|]. split; [done|]. simpl. lia.
  - exact two_good_lines.
  - intros name. destruct (decide (name = lit "l")) as [->|Hne].
    + vm_compute. constructor. exists 4%nat. simpl. split; [lia|done].
    + assert (forall f, ({[lit "l" := f]} : Disk) !! name = None) as E
        by (intros f; by apply lookup_singleton_ne).
      rewrite E. unfold Sync, flushLocked. simpl.
      rewrite !lookup_alter_ne by done. rewrite E. constructor.
Defined.

(** C36: incremental reading equals replay: a reader that has consumed a prefix
    [p] of a log and calls [ReadNew] once the log has grown to [p ++ q] has
    then delivered, over all its calls, exactly the lines a replay of the whole
    log yields, however the growth was cut, and it is again in that state. *)
Theorem ReadNew_equals_replay (d : Disk) (t : TailReader) (p q : bytes) (n : nat)
  (Ht : tail_at t p) (Hf : d !! t_path t = Some (mkFile (p ++ q) n)) :
  exists t' ls, read_step d t = (t', ls)
    /\ replay_lines (p ++ q) = replay_lines p ++ ls
    /\ tail_at t' (p ++ q) /\ t_path t' = t_path t.
Proof.
  destruct (read_step_grow d t p q _ Ht Hf eq_refl) as (t' & E & Ht' & Hp).
  exists t', (scan_lines q (t_leftover t)).1. split_and!; [done| |done|done].
  rewrite replay_lines_app. by destruct Ht as [_ ->].
Qed.

Lemma ReadNew_equals_replay_witness :
  exists t' ls,
    read_step {[ lit "l" := mkFile (lit "ab" ++ [NL; x63; NL]) 0 ]} (mkTail (lit "l") 1 (lit "a"))
      = (t', ls)
    /\ replay_lines (lit "ab" ++ [NL; x63; NL]) = replay_lines (lit "a") ++ ls
    /\ tail_at t' (lit "ab" ++ [NL; x63; NL]) /\ t_path t' = lit "l".
Proof.
  apply (ReadNew_equals_replay _ (mkTail (lit "l") 1 (lit "a")) (lit "a") (lit "b" ++ [NL; x63; NL]) 0);
    [done|by vm_compute].
Defined.

(** a reader misses lines when the log was truncated and has grown back:
    only a size below the offset makes it start over, so whatever now occupies
    the first [offset] bytes of the file is never delivered. *)
Theorem ReadNew_misses_regrown (d : Disk) (t : TailReader) (ls ls' : list bytes) (n : nat)
  (Ht : tail_at t (frames ls)) (Hg : Forall good_line ls') (Hne : ls' <> [])
  (Hlen : length (frames ls') = length (frames ls))
  (Hf : d !! t_path t = Some (mkFile (frames ls') n)) :
  read_step d t = (t, []) /\ replay_lines (frames ls') = ls'.
Proof.
  split; [|by apply replay_lines_frames]. destruct Ht as [Ho _].
  unfold read_step, tail_reset, fileSize. rewrite Hf. simpl. rewrite Hlen, Ho.
  rewrite Z.ltb_irrefl. rewrite Ho, Z.leb_refl. done.
Qed.

Lemma ReadNew_misses_regrown_witness :
  read_step {[ lit "l" := mkFile (frames [lit "new"]) 0 ]} (mkTail (lit "l") 4 [])
    = (mkTail (lit "l") 4 [], [])
  /\ replay_lines (frames [lit "new"]) = [lit "new"].
Proof.
  apply (ReadNew_misses_regrown _ (mkTail (lit "l") 4 []) [lit "old"] [lit "new"] 0);
    [done| |done|done|by vm_compute].
  repeat (apply Forall_cons; split; [split; [done|]|]); try apply List.Forall_nil;
    repeat (apply Forall_cons; split; [done|]); apply List.Forall_nil.
Defined.

(** a torn tail left by a crash is not repaired on reopening: [New] appends
    after it, so the first line written afterwards is glued to the fragment and
    the next replay sees neither. *)
Theorem torn_tail_swallows_next_line (ls : list bytes) (torn l : bytes)
  (H : Forall good_line ls) (Ht : good_line torn) (Hl : good_line l) :
  replay_lines ((frames ls ++ torn) ++ frame l) = ls ++ [torn ++ l].
Proof.
  rewrite <- app_assoc, replay_lines_app, replay_lines_frames, scan_lines_frames by done.
  cbn [snd]. rewrite scan_lines_app, scan_lines_nonl by by apply good_line_nonl.
  rewrite scan_lines_frame by by apply good_line_nonl.
  destruct Ht as [Hne _]. by destruct torn.
Qed.

Lemma torn_tail_swallows_next_line_witness :
  replay_lines ((frames [lit "ab"; lit "c"] ++ lit "ab") ++ frame (lit "c"))
  = [lit "ab"; lit "c"] ++ [lit "abc"].
Proof.
  pose proof two_good_lines as G. apply (torn_tail_swallows_next_line [lit "ab"; lit "c"]); [done|..];
    inversion G as [|? ? G1 G']; subst; inversion G'; done.
Defined.

(** [ClaimInstance] takes the lowest index that is not held by a live
    process, records the claimer's pid in its lock file and touches no other
    file; when all 1024 are held it changes nothing and fails. *)
Theorem ClaimInstance_lowest (alive : Z -> bool) (self : Z) (d : Disk) :
  match ClaimInstance alive self d with
  | (Some k, d') =>
      0 <= k < 1024 /\ d' = <[lock_name k := mkFile (itoa self) 0]> d
      /\ ~ held alive d k /\ forall j, 0 <= j < k -> held alive d j
  | (None, d') => d' = d /\ forall j, 0 <= j < 1024 -> held alive d j
  end.
Proof. apply ClaimInstance_cases. Qed.

(** two live processes that claim one after the other get different
    instances, and the second leaves the first one's lock in place. *)
Theorem ClaimInstance_exclusive (alive : Z -> bool) (p1 p2 i j : Z) (d d1 d2 : Disk)
  (Hp1 : is_int64 p1) (Ha : alive p1 = true)
  (H1 : ClaimInstance alive p1 d = (Some i, d1))
  (H2 : ClaimInstance alive p2 d1 = (Some j, d2)) :
  i <> j /\ d2 !! lock_name i = Some (mkFile (itoa p1) 0).
Proof.
  pose proof (ClaimInstance_cases alive p1 d) as S1.
  pose proof (ClaimInstance_cases alive p2 d1) as S2. rewrite H1 in S1. rewrite H2 in S2.
  destruct S1 as (Hi & E1 & _ & _), S2 as (Hj & E2 & Hfree & _).
  assert (d1 !! lock_name i = Some (mkFile (itoa p1) 0)) as L by (rewrite E1; apply lookup_insert_eq).
  assert (i <> j) as Hij.
  { intros ->. apply Hfree. eexists. split; [exact L|]. by apply stale_live. }
  split; [done|]. rewrite E2, lookup_insert_ne; [done|].
  intros E. apply lock_name_inj in E; [done|unfold is_int64; lia|unfold is_int64; lia].
Qed.

Lemma ClaimInstance_exclusive_witness :
  0 <> 1 /\
  (<[lock_name 1 := mkFile (itoa 8) 0]> (<[lock_name 0 := mkFile (itoa 7) 0]> (∅ : Disk)))
    !! lock_name 0 = Some (mkFile (itoa 7) 0).
Proof.
  apply (ClaimInstance_exclusive (fun _ => true) 7 8 0 1 ∅
    (<[lock_name 0 := mkFile (itoa 7) 0]> ∅)
    (<[lock_name 1 := mkFile (itoa 8) 0]> (<[lock_name 0 := mkFile (itoa 7) 0]> ∅)));
    [done|done|exact (claim_round_free _ 7 1023 0 ∅ eq_refl)|].
  etrans; [apply (claim_round_held _ 8 1023 0)|apply (claim_round_free _ 8 1022 1)].
  - exists (mkFile (itoa 7) 0). split; [apply lookup_insert_eq|by apply stale_live].
  - by rewrite lookup_insert_ne.
Defined.

(** stealing a stale lock is not atomic: two processes that interleave the
    file-system calls of [ClaimInstance] on an index whose holder is dead can
    both claim it, the second one deleting the first one's fresh lock. *)
Theorem ClaimInstance_steal_race (alive : Z -> bool) (p1 p2 i : Z) (d : Disk) (f : File)
  (Hf : d !! lock_name i = Some f) (Hs : stale alive f = true) :
  exists sched d', race alive p1 p2 i sched d PTry PTry = (d', PClaimed, PClaimed).
Proof.
  exists [true; true; true; false; false; false; true; true; false; false].
  cbn [race]. unfold claim_step, tryLock.
  repeat first [rewrite Hf | rewrite Hs | rewrite lookup_delete_eq | progress cbv beta iota].
  eauto.
Qed.

Lemma ClaimInstance_steal_race_witness :
  exists sched d', race (fun _ => false) 7 8 0 sched {[ lock_name 0 := mkFile (itoa 3) 0 ]}
    PTry PTry = (d', PClaimed, PClaimed).
Proof.
  apply (ClaimInstance_steal_race _ 7 8 0 _ (mkFile (itoa 3) 0)); by vm_compute.
Defined.

(** [ShardFiles] lists exactly the sibling logs present, sorted by name. *)
Lemma ShardFiles_spec (d : Disk) (own : bytes) :
  (forall n, n ∈ ShardFiles d own <->
    is_Some (d !! n) /\ HasPrefix n s_data = true /\ HasSuffix n s_log = true /\ n <> own)
  /\ NoDup (ShardFiles d own) /\ Sorted bytes_leR (ShardFiles d own).
Proof.
  split; [intros n; apply ShardFiles_elem|]. split.
  - unfold ShardFiles. rewrite merge_sort_Permutation. apply NoDup_filter, NoDup_fst_map_to_list.
  - apply (Sorted_merge_sort bytes_leR _).
Qed.
