(* ===== verification/Store.v ===== *)
(** * Store: the in-process engine of [internal/store/store.go]

    The 256-way sharded index, the hit counters, the application of parsed log
    lines, sibling tailing and the public operations, each as a function on
    the store and the data directory. Every call of [nowMs] is an argument, as
    are the random bytes a call draws; an operation runs as one step, as the
    locks it takes make it. *)

From S2P Require Import Prelude GoStd Base62 LogLine Aof.
From stdpp Require Import options.

Definition tailMinInterval : Z := 200.
Definition flushBytes : Z := Z.shiftl 256 10.
Definition codeLen : nat := 8.
Definition maxInstances : Z := 62.
Definition maxStrayHits : nat := Z.to_nat 10000.
Definition numShards : nat := 256.

(** ** Data *)

(** The public view of an entry; [ExpiresAt] is a nil-able pointer. *)
Record Link := mkLink {
  Code : bytes; URL : bytes; Hits : Z; CreatedAt : Z; ExpiresAt : option Z
}.

Record entry := mkEntry {
  e_u : bytes;
  e_a : Z;  (* created_at ms *)
  e_e : Z;  (* expires_at ms, 0 = never *)
  e_i : Z;  (* owning instance, an int32 *)
  e_h : Z;  (* hits *)
  e_oh : Z  (* own hits *)
}.

Record strayHit := mkStray { st_t : Z; st_o : Z }.

Record shard := mkShard { data : gmap bytes entry; dirty : gmap bytes Z }.

Inductive MutResult := MutOK | MutMissing | MutRemote.

Record Store := mkStore {
  shards : list shard;
  strayHits : gmap bytes strayHit;
  aof : option Aof;
  instance : Z;
  prefix : byte;
  claimed : option Z;  (* the index [release] gives back *)
  ownName : bytes;
  tails : gmap bytes TailReader;
  lastPoll : Z;
  closed : bool
}.

Definition set_shards (f : list shard -> list shard) (s : Store) : Store :=
  mkStore (f (shards s)) (strayHits s) (aof s) (instance s) (prefix s) (claimed s)
    (ownName s) (tails s) (lastPoll s) (closed s).
Definition set_stray (f : gmap bytes strayHit -> gmap bytes strayHit) (s : Store) : Store :=
  mkStore (shards s) (f (strayHits s)) (aof s) (instance s) (prefix s) (claimed s)
    (ownName s) (tails s) (lastPoll s) (closed s).
Definition set_aof (a : option Aof) (s : Store) : Store :=
  mkStore (shards s) (strayHits s) a (instance s) (prefix s) (claimed s)
    (ownName s) (tails s) (lastPoll s) (closed s).
Definition set_tails (f : gmap bytes TailReader -> gmap bytes TailReader) (s : Store) : Store :=
  mkStore (shards s) (strayHits s) (aof s) (instance s) (prefix s) (claimed s)
    (ownName s) (f (tails s)) (lastPoll s) (closed s).
Definition set_lastPoll (t : Z) (s : Store) : Store :=
  mkStore (shards s) (strayHits s) (aof s) (instance s) (prefix s) (claimed s)
    (ownName s) (tails s) t (closed s).
Definition set_closed (s : Store) : Store :=
  mkStore (shards s) (strayHits s) (aof s) (instance s) (prefix s) (claimed s)
    (ownName s) (tails s) (lastPoll s) true.

(** FNV-1a over the code, on 32 bits, masked to the shard count. *)
Definition shardOf (code : bytes) : nat :=
  Z.to_nat (Z.land
    (foldl (fun h c => uint32 (Z.lxor h (bZ c) * 16777619)) 2166136261 code)
    (Z.of_nat numShards - 1)).

Definition empty_shard : shard := mkShard ∅ ∅.

Definition get_shard (s : Store) (k : nat) : shard := default empty_shard (shards s !! k).

(** [sh.data[code]] and its updates, for [sh = &s.shards[shardOf(code)]]. *)
Definition index (s : Store) (code : bytes) : option entry :=
  data (get_shard s (shardOf code)) !! code.

Definition alter_data (f : gmap bytes entry -> gmap bytes entry) (sh : shard) : shard :=
  mkShard (f (data sh)) (dirty sh).
Definition alter_dirty (f : gmap bytes Z -> gmap bytes Z) (sh : shard) : shard :=
  mkShard (data sh) (f (dirty sh)).

Definition put_entry (code : bytes) (e : entry) (s : Store) : Store :=
  set_shards (alter (alter_data (insert code e)) (shardOf code)) s.
Definition del_entry (code : bytes) (s : Store) : Store :=
  set_shards (alter (alter_data (delete code)) (shardOf code)) s.
Definition dirty_of (s : Store) (code : bytes) : Z :=
  default 0 (dirty (get_shard s (shardOf code)) !! code).
Definition bump_dirty (code : bytes) (s : Store) : Store :=
  set_shards (alter (alter_dirty (insert code (int64 (dirty_of s code + 1)))) (shardOf code)) s.

Section Engine.
Context `{MapOrder} `{SliceSort}.

(** ** Applying log lines *)

(** Room for a new stray entry: at the bound, an arbitrary key is dropped. *)
Definition evict_stray (m : gmap bytes strayHit) : gmap bytes strayHit :=
  if decide (maxStrayHits <= size m)%nat
  then match range_keys m with k :: _ => delete k m | [] => m end
  else m.

Definition apply_del (x : bytes) (s : Store) : Store :=
  set_stray (delete x) (del_entry x s).

Definition apply_hit (h : bytes) (d i : Z) (s : Store) : Store :=
  let own := instance s =? i in
  match index s h with
  | Some e =>
      put_entry h (mkEntry (e_u e) (e_a e) (e_e e) (e_i e) (int64 (e_h e + d))
        (if own then int64 (e_oh e + d) else e_oh e)) s
  | None =>
      let m := evict_stray (strayHits s) in
      let st := default (mkStray 0 0) (m !! h) in
      set_stray (fun _ => <[h := mkStray (int64 (st_t st + d))
        (if own then int64 (st_o st + d) else st_o st)]> m) s
  end.

Definition apply_row (o : op) (s : Store) : Store :=
  let '(stT, stO) := match strayHits s !! o_c o with
                     | Some st => (st_t st, st_o st)
                     | None => (0, 0)
                     end in
  put_entry (o_c o)
    (mkEntry (o_u o) (o_a o) (if o_hasE o then o_e o else 0) (int32 (o_i o))
       (int64 (o_n o + stT)) (int64 (o_n o + stO)))
    (set_stray (delete (o_c o)) s).

Definition apply (o : op) (s : Store) : Store :=
  if bool_decide (o_x o <> []) then apply_del (o_x o) s
  else if bool_decide (o_h o <> []) then apply_hit (o_h o) (o_d o) (o_i o) s
  else if bool_decide (o_c o = []) then s
  else apply_row o s.

Definition applyLine (line : bytes) (s : Store) : go Store :=
  let* (ok, o) := parseLine line in
  Ret (if (ok : bool) then apply o s else s).

(** ** Replay and tailing *)

Definition snapName (i : Z) : bytes := s_data ++ itoa i ++ s_snap.
Definition logName (i : Z) : bytes := s_data ++ itoa i ++ s_log.

Definition load_sibling (d : Disk) (f : bytes) (s : Store) : go Store :=
  let snap := TrimSuffix f s_log ++ s_snap in
  let* s1 := ReplayFile d snap applyLine s in
  Ret (set_tails (insert f (TailFromStart f)) s1).

Definition loadAll (d : Disk) (s : Store) : go Store :=
  let* s1 := ReplayFile d (snapName (instance s)) applyLine s in
  let* s2 := ReplayFile d (ownName s1) applyLine s1 in
  go_fold (load_sibling d) (ShardFiles d (ownName s2)) s2.

(** [t.ReadNew(s.applyLine)] for the reader stored under [name]. *)
Definition read_tail (d : Disk) (name : bytes) (s : Store) : go Store :=
  match tails s !! name with
  | None => Ret s
  | Some t =>
      let* (t', s') := ReadNew d t applyLine s in
      Ret (set_tails (insert name t') s')
  end.

Definition discover (f : bytes) (s : Store) : Store :=
  match tails s !! f with
  | Some _ => s
  | None => set_tails (insert f (TailFromStart f)) s
  end.

Definition PollTails (now : Z) (d : Disk) (s : Store) : go Store :=
  match aof s with
  | None => Ret s
  | Some _ =>
      let s1 := foldl (fun s f => discover f s) s (ShardFiles d (ownName s)) in
      let* s2 := go_fold (read_tail d) (range_keys (tails s1)) s1 in
      Ret (set_lastPoll now s2)
  end.

Definition lazyPoll (now1 now2 : Z) (d : Disk) (s : Store) : go Store :=
  if int64 (now1 - lastPoll s) <? tailMinInterval then Ret s
  else PollTails now2 d (set_lastPoll now1 s).

Definition tailOwner (code : bytes) (d : Disk) (s : Store) : go Store :=
  match code with
  | [] => Ret s
  | c :: _ =>
      let owner := alpha_index c in
      match aof s with
      | None => Ret s
      | Some _ =>
          if (owner <? 0) || (owner =? instance s) then Ret s
          else read_tail d (logName owner) (discover (logName owner) s)
      end
  end.

(** ** Creating links *)

(** [randSuffix] on seven random bytes. *)
Definition rand_char (b : byte) : byte :=
  default x00 (ALPHABET !! Z.to_nat (bZ b mod maxInstances)).
Definition randSuffix (buf : bytes) : bytes := map rand_char buf.

(** The retry loops of [Shorten] and [ShortenMany]: draw codes until one is
    free; [rnds] is the random source, exhausting it is not returning. *)
Fixpoint free_code (s : Store) (rnds : list bytes) : go (bytes * list bytes) :=
  match rnds with
  | [] => Diverge
  | buf :: rnds' =>
      let code := prefix s :: randSuffix buf in
      match index s code with
      | None => Ret (code, rnds')
      | Some _ => free_code s rnds'
      end
  end.

Definition expiry (now ttlMs : Z) : Z := if 0 <? ttlMs then int64 (now + ttlMs) else 0.

Definition push_line (line : bytes) (s : Store) : Store :=
  set_aof (Push line <$> aof s) s.

(** [if s.aof.PendingBytes() > flushBytes { s.aof.Flush() }]. *)
Definition flush_if_big (s : Store) (d : Disk) : Store * Disk :=
  match aof s with
  | None => (s, d)
  | Some a =>
      if flushBytes <? PendingBytes a
      then let '(a', d') := Flush d a in (set_aof (Some a') s, d')
      else (s, d)
  end.

Definition create (code url : bytes) (now exp : Z) (s : Store) : Store :=
  push_line (rowLine code url now exp (instance s) 0)
    (put_entry code (mkEntry url now exp (int32 (instance s)) 0 0) s).

Definition Shorten (url alias : bytes) (hasAlias : bool) (ttlMs now : Z)
    (rnds : list bytes) (s : Store) (d : Disk) : go (bytes * Store * Disk) :=
  let exp := expiry now ttlMs in
  if hasAlias && bool_decide (is_Some (index s alias)) then Ret ([], s, d)
  else
    let* (code, _) := (if hasAlias then Ret (alias, rnds) else free_code s rnds) in
    let '(s1, d1) := flush_if_big (create code url now exp s) d in
    Ret (code, s1, d1).

(** One URL of [ShortenMany]: the code made of its seven bytes of the batch's
    random buffer, or a drawn one when that is taken. *)
Definition many_step (now exp : Z) (url buf : bytes) (s : Store) (rnds : list bytes)
    : go (bytes * Store * list bytes) :=
  let code := prefix s :: randSuffix buf in
  let* (code, rnds') :=
    (match index s code with None => Ret (code, rnds) | Some _ => free_code s rnds end) in
  Ret (code, create code url now exp s, rnds').

Fixpoint many_loop (now exp : Z) (urls : list bytes) (rnd : bytes) (s : Store)
    (rnds : list bytes) : go (list bytes * Store) :=
  match urls with
  | [] => Ret ([], s)
  | u :: urls' =>
      let* (code, s1, rnds') := many_step now exp u (take (codeLen - 1) rnd) s rnds in
      let* (codes, s2) := many_loop now exp urls' (drop (codeLen - 1) rnd) s1 rnds' in
      Ret (code :: codes, s2)
  end.

Definition ShortenMany (urls : list bytes) (ttlMs now : Z) (rnd : bytes) (rnds : list bytes)
    (s : Store) (d : Disk) : go (list bytes * Store * Disk) :=
  let* (codes, s1) := many_loop now (expiry now ttlMs) urls rnd s rnds in
  let '(s2, d1) := flush_if_big s1 d in
  Ret (codes, s2, d1).

(** ** Reading *)

Definition live (e : entry) (now : Z) : bool := (e_e e =? 0) || (now <? e_e e).

(** The two sibling look-ups of a miss. *)
Definition resolve_miss (code : bytes) (t1 t2 : Z) (d : Disk) (s : Store) : go Store :=
  match index s code, aof s with
  | None, Some _ =>
      let* s1 := tailOwner code d s in
      match index s1 code with
      | Some _ => Ret s1
      | None => lazyPoll t1 t2 d s1
      end
  | _, _ => Ret s
  end.

Definition count_hit (code : bytes) (e : entry) (s : Store) : Store :=
  bump_dirty code (put_entry code
    (mkEntry (e_u e) (e_a e) (e_e e) (e_i e) (int64 (e_h e + 1)) (int64 (e_oh e + 1))) s).

Definition Resolve (trackHits : bool) (code : bytes) (t1 t2 now : Z) (d : Disk) (s : Store)
    : go (option bytes * Store) :=
  let* s1 := resolve_miss code t1 t2 d s in
  match index s1 code with
  | None => Ret (None, s1)
  | Some e =>
      if live e now
      then Ret (Some (e_u e), if trackHits then count_hit code e s1 else s1)
      else Ret (None, s1)
  end.

Definition Healthy (s : Store) : bool := true.

Definition IsEmpty (s : Store) : bool :=
  forallb (fun sh => bool_decide (data sh = ∅)) (shards s).

Definition link_of (code : bytes) (e : entry) : Link :=
  mkLink code (e_u e) (e_h e) (e_a e) (if e_e e =? 0 then None else Some (e_e e)).

Definition Stats (code : bytes) (s : Store) : option Link := link_of code <$> index s code.

(** The two [less] functions of [List]: descending hits, or creation time. *)
Definition more_hits (x y : Link) : bool := Hits y <? Hits x.
Definition newer (x y : Link) : bool := CreatedAt y <? CreatedAt x.

Definition s_hits : bytes := Eval vm_compute in lit "hits".

Definition matches_query (q code : bytes) (e : entry) : bool :=
  bool_decide (q = []) || Contains code q || Contains (e_u e) q.

Definition shard_links (q : bytes) (sh : shard) : list Link :=
  omap (fun code => match data sh !! code with
                    | Some e => if matches_query q code e then Some (link_of code e) else None
                    | None => None
                    end) (range_keys (data sh)).

(** [items[offset:end]] after clamping; a negative bound panics. *)
Definition page (limit offset : Z) (items : list Link) : go (list Link) :=
  let total := Z.of_nat (length items) in
  let offset := if total <? offset then total else offset in
  let stop := int64 (offset + limit) in
  let stop := if total <? stop then total else stop in
  if (offset <? 0) || (stop <? offset) then Panic
  else Ret (take (Z.to_nat (stop - offset)) (drop (Z.to_nat offset) items)).

Definition List (limit offset : Z) (sortBy q : bytes) (s : Store) : go (list Link * Z) :=
  let items := concat (map (shard_links q) (shards s)) in
  let items := sort_slice (if bool_decide (sortBy = s_hits) then more_hits else newer) items in
  let* p := page limit offset items in
  Ret (p, Z.of_nat (length items)).

(** ** Mutations *)

Definition Update (code url : bytes) (ttlMs : Z) (hasTTL : bool) (now : Z) (s : Store)
    : MutResult * Store :=
  match index s code with
  | None => (MutMissing, s)
  | Some e =>
      if negb (e_i e =? instance s) then (MutRemote, s)
      else
        let exp := if hasTTL then expiry now ttlMs else e_e e in
        (MutOK,
         push_line (rowLine code url (e_a e) exp (instance s) 0)
           (put_entry code (mkEntry url (e_a e) exp (e_i e) (e_h e) (e_oh e)) s))
  end.

Definition Remove (code : bytes) (s : Store) : MutResult * Store :=
  match index s code with
  | None => (MutMissing, s)
  | Some e =>
      if negb (e_i e =? instance s) then (MutRemote, s)
      else (MutOK, push_line (delLine code) (del_entry code s))
  end.

(** ** Persistence *)

(** The hit lines of one shard, in iteration order. *)
Definition shard_hit_lines (inst : Z) (sh : shard) : list bytes :=
  map (fun code => hitLine code (default 0 (dirty sh !! code)) inst) (range_keys (dirty sh)).

Definition hit_lines (s : Store) : list bytes :=
  concat (map (shard_hit_lines (instance s)) (shards s)).

Definition clear_dirty (s : Store) : Store :=
  set_shards (map (alter_dirty (fun _ => ∅))) s.

Definition flushLocked (s : Store) (d : Disk) : Store * Disk :=
  match aof s with
  | None => (s, d)
  | Some a =>
      let a1 := foldl (fun a l => Push l a) a (hit_lines s) in
      let '(a2, d2) := Flush d a1 in
      (set_aof (Some a2) (clear_dirty s), d2)
  end.

Definition Flush (s : Store) (d : Disk) : Store * Disk := flushLocked s d.

Definition Seed (urls : list bytes) (now : Z) (rnd : bytes) (rnds : list bytes)
    (s : Store) (d : Disk) : go (Z * Store * Disk) :=
  let* (_, s1, d1) := ShortenMany urls 0 now rnd rnds s d in
  let '(s2, d2) := Flush s1 d1 in
  Ret (Z.of_nat (length urls), s2, d2).

Definition shard_rows (inst : Z) (sh : shard) : list bytes :=
  omap (fun code => match data sh !! code with
                    | Some e => if e_i e =? inst
                                then Some (rowLine code (e_u e) (e_a e) (e_e e) (e_i e) (e_oh e))
                                else None
                    | None => None
                    end) (range_keys (data sh)).

Definition snapshot_rows (s : Store) : list bytes :=
  concat (map (shard_rows (instance s)) (shards s)).

Definition s_tmp : bytes := Eval vm_compute in lit ".tmp".

(** The snapshot written to a temporary file (which [os.Create] truncates),
    closed without a sync, and renamed into place. *)
Definition write_snapshot (s : Store) (d : Disk) : Disk :=
  let snap := snapName (instance s) in
  <[snap := mkFile (frames (snapshot_rows s)) 0]> (delete (snap ++ s_tmp) d).

Definition Compact (s : Store) (d : Disk) : Store * Disk :=
  match aof s with
  | None => (s, d)
  | Some _ =>
      let '(s1, d1) := flushLocked s d in
      let d2 := write_snapshot s1 d1 in
      match aof s1 with
      | None => (s1, d2)
      | Some a => let '(a', d3) := Truncate d2 a in (set_aof (Some a') s1, d3)
      end
  end.

Definition Close (s : Store) (d : Disk) : Store * Disk :=
  if closed s then (s, d)
  else
    let s1 := set_tails (fun _ => ∅) (set_closed s) in
    let '(s2, d2) := Flush s1 d in
    let '(s3, d3) :=
      match aof s2 with
      | None => (s2, d2)
      | Some a => let '(a1, d') := Sync d2 a in
                  let '(a2, d'') := Aof.Close d' a1 in (set_aof (Some a2) s2, d'')
      end in
    (s3, match claimed s3 with Some i => release i d3 | None => d3 end).

(** ** Opening *)

Definition fresh_store (id : Z) (p : byte) (cl : option Z) (a : option Aof) (own : bytes) : Store :=
  mkStore (replicate numShards empty_shard) ∅ a id p cl own ∅ 0 false.

(** [New(':memory:', _)]. *)
Definition NewMem : Store := fresh_store 0 x30 None None [].

Inductive new_error := ErrNoFreeInstance | ErrInstance (id : Z).

Definition New (alive : Z -> bool) (self inst : Z) (d : Disk)
    : go ((Store + new_error) * Disk) :=
  let '(claim, d1) :=
    if 0 <=? inst then (Some (inst, None), d)
    else match ClaimInstance alive self d with
         | (Some i, d1) => (Some (i, Some i), d1)
         | (None, d1) => (None, d1)
         end in
  match claim with
  | None => Ret (inr ErrNoFreeInstance, d1)
  | Some (id, cl) =>
      if maxInstances <=? id then
        Ret (inr (ErrInstance id), match cl with Some i => release i d1 | None => d1 end)
      else
        let* p := alpha_at id in
        let own := logName id in
        let '(a, d2) := Aof.New d1 own in
        let* s := loadAll d2 (fresh_store id p cl (Some a) own) in
        Ret (inl s, d2)
  end.

End Engine.
