(* ===== verification/StoreSpec.v ===== *)
(** * StoreSpec: the sharded index as one map, and the public operations

    The 256 shards behave as a single map from codes to entries: [index] reads
    it, [put_entry]/[del_entry] update it at one code. On top of that, the
    behaviour of every public operation of [store.go] on all its branches. *)

From S2P Require Import Prelude GoStd Base62 LogLine Aof Store.
From stdpp Require Import options.

(** ** Shards *)

Lemma shardOf_bound (c : bytes) : (shardOf c < numShards)%nat.
Proof.
  unfold shardOf. change (Z.of_nat numShards - 1) with (Z.ones 8).
  rewrite Z.land_ones by lia. unfold numShards.
  match goal with |- context [?x mod 2 ^ 8] => pose proof (Z.mod_pos_bound x (2 ^ 8) ltac:(lia)) end.
  change (2 ^ 8) with 256 in *. lia.
Qed.

(** Every key is filed under its own shard. *)
Record wf (s : Store) : Prop := {
  wf_len : length (shards s) = numShards;
  wf_data : forall k c, is_Some (data (get_shard s k) !! c) -> shardOf c = k;
  wf_dirty : forall k c, is_Some (dirty (get_shard s k) !! c) -> shardOf c = k
}.

Lemma expiry_int64 (now ttl : Z) : is_int64 (expiry now ttl).
Proof. unfold expiry. destruct (0 <? ttl); [apply int64_range|unfold is_int64; lia]. Qed.
#[export] Hint Resolve expiry_int64 : goint.

Lemma get_shard_alter (f : shard -> shard) (s : Store) (k k' : nat) :
  length (shards s) = numShards -> (k < numShards)%nat ->
  get_shard (set_shards (alter f k) s) k'
  = if decide (k = k') then f (get_shard s k) else get_shard s k'.
Proof.
  intros Hl Hk. unfold get_shard. simpl. case_decide as E.
  - subst k'. rewrite list_lookup_alter. rewrite decide_True by done.
    destruct (lookup_lt_is_Some_2 (shards s) k) as [sh Hsh]; [lia|]. by rewrite Hsh.
  - by rewrite list_lookup_alter_ne.
Qed.

Lemma index_put (s : Store) (c c' : bytes) (e : entry) :
  length (shards s) = numShards ->
  index (put_entry c e s) c' = if decide (c = c') then Some e else index s c'.
Proof.
  intros Hl. unfold index, put_entry.
  rewrite get_shard_alter by auto using shardOf_bound.
  destruct (decide (c = c')) as [->|Hne].
  - rewrite decide_True by done. simpl. apply lookup_insert_eq.
  - case_decide as E; [|done]. simpl. by rewrite lookup_insert_ne, E by done.
Qed.

Lemma index_del (s : Store) (c c' : bytes) :
  length (shards s) = numShards ->
  index (del_entry c s) c' = if decide (c = c') then None else index s c'.
Proof.
  intros Hl. unfold index, del_entry.
  rewrite get_shard_alter by auto using shardOf_bound.
  destruct (decide (c = c')) as [->|Hne].
  - rewrite decide_True by done. simpl. apply lookup_delete_eq.
  - case_decide as E; [|done]. simpl. by rewrite lookup_delete_ne, E by done.
Qed.

Lemma dirty_of_data (f : gmap bytes entry -> gmap bytes entry) (k : nat) (s : Store) (c : bytes) :
  length (shards s) = numShards -> (k < numShards)%nat ->
  dirty_of (set_shards (alter (alter_data f) k) s) c = dirty_of s c.
Proof.
  intros Hl Hk. unfold dirty_of. rewrite get_shard_alter by done. case_decide as E; [|done].
  simpl. by rewrite E.
Qed.

Lemma dirty_of_put (s : Store) (c c' : bytes) (e : entry) :
  length (shards s) = numShards -> dirty_of (put_entry c e s) c' = dirty_of s c'.
Proof. intros. apply dirty_of_data; auto using shardOf_bound. Qed.

Lemma dirty_of_del (s : Store) (c c' : bytes) :
  length (shards s) = numShards -> dirty_of (del_entry c s) c' = dirty_of s c'.
Proof. intros. apply dirty_of_data; auto using shardOf_bound. Qed.

Lemma index_bump (s : Store) (c c' : bytes) :
  length (shards s) = numShards -> index (bump_dirty c s) c' = index s c'.
Proof.
  intros Hl. unfold index, bump_dirty. rewrite get_shard_alter by auto using shardOf_bound.
  case_decide as E; [|done]. simpl. by rewrite E.
Qed.

Lemma dirty_of_bump (s : Store) (c c' : bytes) :
  length (shards s) = numShards ->
  dirty_of (bump_dirty c s) c'
  = if decide (c = c') then int64 (dirty_of s c + 1) else dirty_of s c'.
Proof.
  intros Hl. unfold dirty_of at 1, bump_dirty. rewrite get_shard_alter by auto using shardOf_bound.
  destruct (decide (c = c')) as [->|Hne].
  - rewrite decide_True by done. simpl. by rewrite lookup_insert_eq.
  - case_decide as E; [|done]. simpl. rewrite lookup_insert_ne by done. unfold dirty_of.
    by rewrite E.
Qed.

Create HintDb store.
Create Rewrite HintDb storeview.
#[export] Hint Rewrite index_put index_del dirty_of_put dirty_of_del index_bump dirty_of_bump
  using done : storeview.

Lemma shards_put_len (s : Store) (c : bytes) (e : entry) :
  length (shards s) = numShards -> length (shards (put_entry c e s)) = numShards.
Proof. intros Hl. simpl. by rewrite length_alter. Qed.

Lemma shards_del_len (s : Store) (c : bytes) :
  length (shards s) = numShards -> length (shards (del_entry c s)) = numShards.
Proof. intros Hl. simpl. by rewrite length_alter. Qed.

#[export] Hint Resolve wf_len shards_put_len shards_del_len : store.

(** An update of one shard's maps keeps the filing, if it only adds [c]. *)
Lemma wf_alter (f : shard -> shard) (c : bytes) (s : Store) :
  wf s ->
  (forall sh c', is_Some (data (f sh) !! c') -> c' = c \/ is_Some (data sh !! c')) ->
  (forall sh c', is_Some (dirty (f sh) !! c') -> c' = c \/ is_Some (dirty sh !! c')) ->
  wf (set_shards (alter f (shardOf c)) s).
Proof.
  intros [Hl Hd Hy] Fd Fy. pose proof (shardOf_bound c). split.
  - simpl. by rewrite length_alter.
  - intros k c'. rewrite get_shard_alter by done. case_decide as E; [|apply Hd].
    intros [->|Hs]%Fd; [done|]. rewrite <- E. by apply Hd.
  - intros k c'. rewrite get_shard_alter by done. case_decide as E; [|apply Hy].
    intros [->|Hs]%Fy; [done|]. rewrite <- E. by apply Hy.
Qed.

Lemma wf_put (s : Store) (c : bytes) (e : entry) : wf s -> wf (put_entry c e s).
Proof.
  intros Hw. apply wf_alter; [done| |by right]. intros sh c'. simpl.
  rewrite lookup_insert_is_Some. intros [->|[_ ?]]; auto.
Qed.

Lemma wf_del (s : Store) (c : bytes) : wf s -> wf (del_entry c s).
Proof.
  intros Hw. apply wf_alter; [done| |by right]. intros sh c'. simpl.
  rewrite lookup_delete_is_Some. intros [_ ?]; auto.
Qed.

Lemma wf_bump (s : Store) (c : bytes) : wf s -> wf (bump_dirty c s).
Proof.
  intros Hw. apply wf_alter; [done|by right|]. intros sh c'. simpl.
  rewrite lookup_insert_is_Some. intros [->|[_ ?]]; auto.
Qed.

Lemma wf_same (s s' : Store) : shards s' = shards s -> wf s -> wf s'.
Proof. intros E [Hl Hd Hy]. unfold get_shard in *. split; unfold get_shard; by rewrite E. Qed.

Lemma index_same (s s' : Store) (c : bytes) : shards s' = shards s -> index s' c = index s c.
Proof. intros E. unfold index, get_shard. by rewrite E. Qed.

Lemma wf_fresh (id : Z) (p : byte) (cl : option Z) (a : option Aof) (own : bytes) :
  wf (fresh_store id p cl a own).
Proof.
  assert (forall k, get_shard (fresh_store id p cl a own) k = empty_shard) as E.
  { intros k. unfold get_shard. cbn [shards fresh_store].
    destruct (replicate numShards empty_shard !! k) as [sh|] eqn:Ek; [|done].
    by apply lookup_replicate in Ek as [-> _]. }
  split; [apply length_replicate|..]; intros k c; rewrite E; simpl;
    rewrite lookup_empty; by intros [? ?].
Qed.

Lemma index_fresh (id : Z) (p : byte) (cl : option Z) (a : option Aof) (own c : bytes) :
  index (fresh_store id p cl a own) c = None.
Proof.
  unfold index, get_shard. cbn [shards fresh_store].
  rewrite lookup_replicate_2 by apply shardOf_bound. simpl. apply lookup_empty.
Qed.

#[export] Hint Resolve wf_put wf_del wf_bump wf_fresh : store.

(** ** The public operations *)

Section Ops.
Context `{MapOrder} `{SliceSort}.

Lemma flush_if_big_shards (s : Store) (d : Disk) :
  shards (flush_if_big s d).1 = shards s /\ instance (flush_if_big s d).1 = instance s.
Proof.
  unfold flush_if_big. destruct (aof s) as [a|]; [|done].
  destruct (flushBytes <? PendingBytes a); [|done]. by destruct (Aof.Flush d a).
Qed.

Lemma index_create (code url c : bytes) (now exp : Z) (s : Store) :
  length (shards s) = numShards ->
  index (create code url now exp s) c
  = if decide (code = c) then Some (mkEntry url now exp (int32 (instance s)) 0 0) else index s c.
Proof. intros Hl. exact (index_put s code c _ Hl). Qed.

Lemma wf_create (code url : bytes) (now exp : Z) (s : Store) :
  wf s -> wf (create code url now exp s).
Proof. intros Hw. by eapply wf_same, (wf_put s code). Qed.

Lemma rand_char_elem (b : byte) : rand_char b ∈ ALPHABET.
Proof.
  unfold rand_char. destruct (ALPHABET !! Z.to_nat (bZ b mod maxInstances)) as [c|] eqn:E.
  - simpl. apply list_elem_of_lookup. eauto.
  - apply lookup_ge_None in E. pose proof (Z.mod_pos_bound (bZ b) maxInstances ltac:(done)).
    unfold maxInstances in *. simpl in E. lia.
Qed.

(** What the retry loop finds. *)
Lemma free_code_spec (s : Store) (rnds : list bytes) :
  match free_code s rnds with
  | Ret (code, rest) =>
      index s code = None /\ exists pre buf, rnds = pre ++ buf :: rest
        /\ code = prefix s :: randSuffix buf
        /\ forall b, b ∈ pre -> is_Some (index s (prefix s :: randSuffix b))
  | Panic => False
  | Diverge => forall buf, buf ∈ rnds -> is_Some (index s (prefix s :: randSuffix buf))
  end.
Proof.
  induction rnds as [|buf rnds IH]; simpl; [by intros buf ?%not_elem_of_nil|].
  destruct (index s (prefix s :: randSuffix buf)) as [e|] eqn:E.
  - destruct (free_code s rnds) as [[code rest]| |].
    + destruct IH as (Hf & pre & b & -> & -> & Hpre). split; [done|].
      exists (buf :: pre), b. split_and!; [done|done|].
      intros b' [->|Hb]%elem_of_cons; [by exists e|by apply Hpre].
    + done.
    + intros b [->|Hb]%elem_of_cons; [by exists e|by apply IH].
  - split; [done|]. exists [], buf. split_and!; [done|done|by intros b ?%not_elem_of_nil].
Qed.

(** All codes of the index. *)
Definition entries (s : Store) : list bytes :=
  concat (map (fun sh => (map_to_list (data sh)).*1) (shards s)).

Lemma entries_elem (s : Store) (c : bytes) : wf s -> c ∈ entries s <-> is_Some (index s c).
Proof.
  intros Hw. unfold entries. rewrite list_elem_of_In, in_concat. split.
  - intros (l & Hl & Hc). apply in_map_iff in Hl as (sh & <- & Hsh).
    apply list_elem_of_In, list_elem_of_lookup in Hsh as [k Hk].
    apply list_elem_of_In, list_elem_of_fmap in Hc as ([c' e] & -> & Hin).
    apply elem_of_map_to_list in Hin. simpl.
    assert (get_shard s k = sh) as Ek by (unfold get_shard; by rewrite Hk).
    assert (shardOf c' = k) as Es by (apply (wf_data s Hw); rewrite Ek; by exists e).
    unfold index. rewrite Es, Ek. by exists e.
  - intros [e He]. unfold index, get_shard in He.
    destruct (shards s !! shardOf c) as [sh|] eqn:Ek; simpl in He; [|by rewrite lookup_empty in He].
    exists (map_to_list (data sh)).*1. split.
    + apply in_map_iff. exists sh. split; [done|]. apply list_elem_of_In, list_elem_of_lookup. eauto.
    + apply list_elem_of_In, list_elem_of_fmap. exists (c, e). split; [done|].
      by apply elem_of_map_to_list.
Qed.

Lemma get_shard_lookup (s : Store) (k : nat) (sh : shard) :
  shards s !! k = Some sh -> get_shard s k = sh.
Proof. intros E. unfold get_shard. by rewrite E. Qed.

(** A per-shard list of codes filed there has no duplicates overall. *)
Lemma NoDup_shards {A} (s : Store) (f : shard -> list A) (code : A -> bytes) :
  wf s -> (forall sh, NoDup (f sh)) ->
  (forall sh x, x ∈ f sh ->
     is_Some (data sh !! code x) \/ is_Some (dirty sh !! code x)) ->
  NoDup (concat (map f (shards s))).
Proof.
  intros Hw Hnd Hin. apply NoDup_concat.
  - intros l Hl. apply list_elem_of_fmap in Hl as (sh & -> & _). apply Hnd.
  - assert (forall i l x, map f (shards s) !! i = Some l -> x ∈ l -> shardOf (code x) = i) as Hk.
    { intros i l x Hi Hx. apply list_lookup_fmap_Some in Hi as (sh & -> & Hsh).
      apply get_shard_lookup in Hsh. destruct (Hin sh x Hx) as [Hs|Hs].
      - apply (wf_data s Hw). by rewrite Hsh.
      - apply (wf_dirty s Hw). by rewrite Hsh. }
    intros i j l l' x Hi Hj Hx Hx'. by rewrite <- (Hk _ _ _ Hi Hx), <- (Hk _ _ _ Hj Hx').
Qed.

Lemma NoDup_entries (s : Store) : wf s -> NoDup (entries s).
Proof.
  intros Hw. apply (NoDup_shards s _ id); [done|intros; apply NoDup_fst_map_to_list|].
  intros sh x Hx. left. apply list_elem_of_fmap in Hx as ([c e] & -> & Hc).
  apply elem_of_map_to_list in Hc. by exists e.
Qed.

Lemma entries_add (s s' : Store) (code : bytes) (e : entry) :
  wf s -> wf s' ->
  (forall c, index s' c = if decide (code = c) then Some e else index s c) ->
  (length (entries s') <= S (length (entries s)))%nat.
Proof.
  intros Hw Hw' Hi. change (S (length (entries s))) with (length (code :: entries s)).
  apply submseteq_length, NoDup_submseteq; [by apply NoDup_entries|].
  intros c Hc. apply entries_elem in Hc; [|done]. rewrite Hi in Hc. case_decide as E.
  - subst. by left.
  - right. by apply entries_elem.
Qed.

(** Distinct suffixes whose codes are all taken are at most as many as there
    are links. *)
Lemma taken_suffixes (s : Store) (rnds : list bytes) :
  wf s -> NoDup (map randSuffix rnds) ->
  (forall buf, buf ∈ rnds -> is_Some (index s (prefix s :: randSuffix buf))) ->
  (length rnds <= length (entries s))%nat.
Proof.
  intros Hw Hnd Ht.
  assert (map (cons (prefix s)) (map randSuffix rnds) ⊆+ entries s) as Hsub.
  { apply NoDup_submseteq.
    - by apply NoDup_fmap_2; [intros x y [=]|].
    - intros c Hc. apply list_elem_of_fmap in Hc as (x & -> & Hx).
      apply list_elem_of_fmap in Hx as (b & -> & Hb). apply entries_elem; auto. }
  apply submseteq_length in Hsub. by rewrite !length_map in Hsub.
Qed.

(** Drawing more distinct suffixes than there are links finds a free code. *)
Lemma free_code_total (s : Store) (rnds : list bytes) :
  wf s -> NoDup (map randSuffix rnds) -> (length (entries s) < length rnds)%nat ->
  exists code rest, free_code s rnds = Ret (code, rest).
Proof.
  intros Hw Hnd Hlen. pose proof (free_code_spec s rnds) as F.
  destruct (free_code s rnds) as [[code rest]| |]; [eauto|done|exfalso].
  pose proof (taken_suffixes s rnds Hw Hnd F). lia.
Qed.

Lemma Shorten_cases (url alias : bytes) (hasAlias : bool) (ttlMs now : Z)
  (rnds : list bytes) (s : Store) (d : Disk) (Hw : wf s) :
  match Shorten url alias hasAlias ttlMs now rnds s d with
  | Ret (code, s', d') =>
      (hasAlias = true /\ is_Some (index s alias) /\ code = [] /\ s' = s /\ d' = d)
      \/ ((if hasAlias then code = alias
           else exists buf, buf ∈ rnds /\ code = prefix s :: randSuffix buf)
          /\ index s code = None
          /\ (forall c, index s' c = if decide (code = c)
                then Some (mkEntry url now (if 0 <? ttlMs then int64 (now + ttlMs) else 0)
                             (int32 (instance s)) 0 0)
                else index s c)
          /\ wf s')
  | Panic => False
  | Diverge =>
      hasAlias = false /\ forall buf, buf ∈ rnds -> is_Some (index s (prefix s :: randSuffix buf))
  end.
Proof.
  assert (forall code, index s code = None ->
    let '(s1, d1) := flush_if_big (create code url now (expiry now ttlMs) s) d in
    (forall c, index s1 c = if decide (code = c)
       then Some (mkEntry url now (expiry now ttlMs) (int32 (instance s)) 0 0) else index s c)
    /\ wf s1) as Hmk.
  { intros code Hfree. pose proof (flush_if_big_shards (create code url now (expiry now ttlMs) s) d) as [F _].
    destruct (flush_if_big _ d) as [s1 d1]. cbn [fst] in F. split.
    - intros c. rewrite <- index_create by apply Hw. by apply index_same.
    - by eapply wf_same, wf_create. }
  unfold Shorten. destruct hasAlias; cbn [andb].
  - case_bool_decide as Ht; [by left|]. cbn [go_bind].
    assert (index s alias = None) as Hfree by (by apply eq_None_not_Some).
    specialize (Hmk alias Hfree). destruct (flush_if_big _ d) as [s1 d1]. right.
    by destruct Hmk.
  - pose proof (free_code_spec s rnds) as F.
    destruct (free_code s rnds) as [[code rest]| |]; cbn [go_bind]; [|done|done].
    destruct F as (Hfree & pre & buf & -> & Hc & _).
    specialize (Hmk code Hfree). destruct (flush_if_big _ d) as [s1 d1]. right.
    split; [|by destruct Hmk]. exists buf. split; [|done].
    apply elem_of_app. right. by left.
Qed.

(** C9: [Shorten] on every branch. A taken alias changes nothing and returns
    the empty code. Otherwise the code is the alias, or the instance prefix and
    a drawn suffix; it was free; the new entry is filed under it with no hits,
    the current time, the expiry and the owner; every other code keeps its
    entry. The loop goes on only while every code drawn so far is taken. *)
Theorem Shorten_spec (url alias : bytes) (hasAlias : bool) (ttlMs now : Z)
  (rnds : list bytes) (s : Store) (d : Disk) (Hw : wf s) :
  match Shorten url alias hasAlias ttlMs now rnds s d with
  | Ret (code, s', d') =>
      (hasAlias = true /\ is_Some (index s alias) /\ code = [] /\ s' = s /\ d' = d)
      \/ ((if hasAlias then code = alias
           else exists buf, buf ∈ rnds /\ code = prefix s :: randSuffix buf)
          /\ index s code = None
          /\ (forall c, index s' c = if decide (code = c)
                then Some (mkEntry url now (if 0 <? ttlMs then int64 (now + ttlMs) else 0)
                             (int32 (instance s)) 0 0)
                else index s c)
          /\ wf s')
  | Panic => False
  | Diverge =>
      hasAlias = false /\ forall buf, buf ∈ rnds -> is_Some (index s (prefix s :: randSuffix buf))
  end.
Proof. exact (Shorten_cases url alias hasAlias ttlMs now rnds s d Hw). Qed.

(** C40: [Shorten] returns: as soon as the random source yields more distinct
    suffixes than there are links, some free code is found. *)
Theorem Shorten_terminates (url alias : bytes) (hasAlias : bool) (ttlMs now : Z)
  (rnds : list bytes) (s : Store) (d : Disk) (Hw : wf s)
  (Hnd : NoDup (map randSuffix rnds)) (Hlen : (length (entries s) < length rnds)%nat) :
  exists r, Shorten url alias hasAlias ttlMs now rnds s d = Ret r.
Proof.
  unfold Shorten. destruct (hasAlias && _); [eauto|].
  destruct (free_code_total s rnds Hw Hnd Hlen) as (code & rest & E).
  destruct hasAlias; [|rewrite E]; cbn [go_bind]; destruct (flush_if_big _ d); eauto.
Qed.

(** generated codes have 8 characters, all of them alphanumeric, and start
    with the character of the creating instance, so two instances (below the
    limit of 62) never generate the same code. *)
Theorem generated_codes_disjoint (s1 s2 : Store) (rnds1 rnds2 rest1 rest2 : list bytes)
  (c1 c2 : bytes)
  (Hp1 : alpha_at (instance s1) = Ret (prefix s1)) (Hp2 : alpha_at (instance s2) = Ret (prefix s2))
  (Hi : instance s1 <> instance s2)
  (Hr1 : Forall (fun b => length b = 7%nat) rnds1)
  (Hc1 : free_code s1 rnds1 = Ret (c1, rest1)) (Hc2 : free_code s2 rnds2 = Ret (c2, rest2)) :
  c1 <> c2 /\ length c1 = codeLen /\ Forall (fun c => c ∈ ALPHABET) c1.
Proof.
  pose proof (free_code_spec s1 rnds1) as F1. pose proof (free_code_spec s2 rnds2) as F2.
  rewrite Hc1 in F1. rewrite Hc2 in F2.
  destruct F1 as (_ & pre1 & b1 & -> & -> & _), F2 as (_ & pre2 & b2 & -> & -> & _).
  assert (forall i p, alpha_at i = Ret p -> p ∈ ALPHABET /\ alpha_index p = i) as Ha.
  { intros i p Hp. destruct (decide (0 <= i < 62)) as [Hr|Hr].
    - destruct (alpha_at_spec i Hr) as (c & Ec & Hx & Hin). rewrite Ec in Hp. by injection Hp as <-.
    - unfold alpha_at in Hp. destruct (Z.ltb_spec i 0); [done|].
      destruct (ALPHABET !! Z.to_nat i) eqn:E; [|done]. apply lookup_lt_Some in E. simpl in E. lia. }
  split; [|split].
  - intros [= E _]. apply Hi. apply Ha in Hp1 as [_ <-], Hp2 as [_ <-]. by rewrite E.
  - simpl. unfold randSuffix. rewrite length_map. rewrite Forall_app in Hr1.
    destruct Hr1 as [_ Hr1]. inversion_clear Hr1 as [|? ? Hb _]. by rewrite Hb.
  - constructor; [by apply (Ha _ _ Hp1)|]. apply Forall_forall. intros c Hc.
    apply list_elem_of_fmap in Hc as (b & -> & _). apply rand_char_elem.
Qed.

(** ** Bulk creation *)

Lemma many_step_spec (now exp : Z) (url buf : bytes) (s : Store) (rnds : list bytes) :
  wf s ->
  match many_step now exp url buf s rnds with
  | Ret (code, s', _) =>
      index s code = None /\ instance s' = instance s /\ wf s'
      /\ forall c, index s' c = if decide (code = c)
           then Some (mkEntry url now exp (int32 (instance s)) 0 0) else index s c
  | Panic => False
  | Diverge => True
  end.
Proof.
  intros Hw. unfold many_step.
  assert (forall code, index s code = None ->
    let s' := create code url now exp s in
    index s code = None /\ instance s' = instance s /\ wf s'
    /\ forall c, index s' c = if decide (code = c)
         then Some (mkEntry url now exp (int32 (instance s)) 0 0) else index s c) as Hmk.
  { intros code Hf. split_and!; [done|done|by apply wf_create|].
    intros c. apply index_create, Hw. }
  destruct (index s (prefix s :: randSuffix buf)) as [e|] eqn:E; cbn [go_bind].
  - pose proof (free_code_spec s rnds) as F.
    destruct (free_code s rnds) as [[code rest]| |]; cbn [go_bind]; [|done|done].
    destruct F as [Hf _]. exact (Hmk code Hf).
  - exact (Hmk _ E).
Qed.

Lemma many_loop_spec (now exp : Z) (urls : list bytes) (rnd : bytes) (s : Store) (rnds : list bytes) :
  wf s ->
  match many_loop now exp urls rnd s rnds with
  | Ret (codes, s') =>
      length codes = length urls /\ NoDup codes /\ wf s' /\ instance s' = instance s
      /\ (forall c, c ∈ codes -> index s c = None)
      /\ (forall i c u, codes !! i = Some c -> urls !! i = Some u ->
             index s' c = Some (mkEntry u now exp (int32 (instance s)) 0 0))
      /\ forall c, c ∉ codes -> index s' c = index s c
  | Panic => False
  | Diverge => True
  end.
Proof.
  revert rnd s rnds. induction urls as [|u urls IH]; intros rnd s rnds Hw; simpl.
  { split_and!; first [done | apply NoDup_nil_2 | by intros c ?%not_elem_of_nil | idtac]. }
  pose proof (many_step_spec now exp u (take (codeLen - 1) rnd) s rnds Hw) as M.
  destruct (many_step _ _ _ _ _ _) as [[[code s1] rnds']| |]; cbn [go_bind]; [|done|done].
  destruct M as (Hfree & Hin1 & Hw1 & Hidx1).
  specialize (IH (drop (codeLen - 1) rnd) s1 rnds' Hw1).
  destruct (many_loop _ _ _ _ _ _) as [[codes s2]| |]; cbn [go_bind]; [|done|done].
  destruct IH as (Hlen & Hnd & Hw2 & Hin2 & Hnew & Hget & Hold).
  assert (code ∉ codes) as Hni.
  { intros Hc. apply Hnew in Hc. by rewrite Hidx1, decide_True in Hc. }
  split_and!; [by simpl; f_equal|by constructor|done|congruence| | |].
  - intros c [->|Hc]%elem_of_cons; [done|]. apply Hnew in Hc. rewrite Hidx1 in Hc.
    by case_decide.
  - intros [|i] c u' Hc Hu; simpl in Hc, Hu; simplify_eq.
    + by rewrite Hold, Hidx1, decide_True.
    + rewrite <- Hin1. by eapply Hget.
  - intros c [Hne Hc]%not_elem_of_cons. rewrite Hold, Hidx1, decide_False by done. done.
Qed.

(** [used] are the draws consumed so far: each is taken by now. *)
Lemma many_loop_total (now exp : Z) (urls : list bytes) (rnd : bytes) (s : Store)
    (used rnds : list bytes) :
  wf s -> NoDup (map randSuffix (used ++ rnds)) ->
  (forall b, b ∈ used -> is_Some (index s (prefix s :: randSuffix b))) ->
  (length (entries s) + length urls < length (used ++ rnds))%nat ->
  many_loop now exp urls rnd s rnds <> Diverge.
Proof.
  revert rnd s used rnds. induction urls as [|u urls IH]; intros rnd s used rnds Hw Hnd Hu Hlen;
    [done|]. cbn [many_loop]. unfold many_step. set (buf0 := take _ rnd).
  assert (forall code used' rest, index s code = None -> used ++ rnds = used' ++ rest ->
    (forall b, b ∈ used' -> prefix s :: randSuffix b = code
       \/ is_Some (index s (prefix s :: randSuffix b))) ->
    many_loop now exp urls (drop (codeLen - 1) rnd) (create code u now exp s) rest <> Diverge)
    as Hnext.
  { intros code used' rest Hf E Hused'.
    assert (wf (create code u now exp s)) as Hw' by by apply wf_create.
    apply (IH _ _ used'); [done|by rewrite <- E| |].
    - intros b Hb. change (prefix (create _ _ _ _ _)) with (prefix s).
      rewrite index_create by apply Hw. case_decide; [done|].
      destruct (Hused' b Hb); [congruence|done].
    - pose proof (entries_add s _ code _ Hw Hw' (fun c => index_create code u c now exp s (wf_len s Hw))).
      rewrite <- E. simpl in Hlen. lia. }
  destruct (index s (prefix s :: randSuffix buf0)) as [e|] eqn:E0; cbn [go_bind].
  - pose proof (free_code_spec s rnds) as F.
    destruct (free_code s rnds) as [[code rest]| |]; cbn [go_bind]; [|done|].
    + destruct F as (Hf & pre & buf & -> & -> & Hpre).
      specialize (Hnext _ (used ++ pre ++ [buf]) rest Hf).
      rewrite <- !app_assoc in Hnext. specialize (Hnext eq_refl).
      destruct (many_loop _ _ _ _ _ _) as [[? ?]| |]; cbn [go_bind]; [done|done|].
      intros _. apply Hnext; [|done].
      intros b. rewrite !elem_of_app, list_elem_of_singleton.
      intros [Hb|[Hb| ->]]; [right; auto|right; auto|by left].
    + intros _. assert (length (used ++ rnds) <= length (entries s))%nat; [|simpl in Hlen; lia].
      apply taken_suffixes; [done|done|]. intros b [Hb|Hb]%elem_of_app; auto.
  - specialize (Hnext _ used rnds E0 eq_refl).
    destruct (many_loop _ _ _ _ _ _) as [[? ?]| |]; cbn [go_bind]; [done|done|].
    intros _. apply Hnext; [|done]. auto.
Qed.

Lemma ShortenMany_cases (urls : list bytes) (ttlMs now : Z) (rnd : bytes) (rnds : list bytes)
  (s : Store) (d : Disk) (Hw : wf s) :
  match ShortenMany urls ttlMs now rnd rnds s d with
  | Ret (codes, s', d') =>
      length codes = length urls /\ NoDup codes
      /\ (forall c, c ∈ codes -> index s c = None)
      /\ (forall i c u, codes !! i = Some c -> urls !! i = Some u ->
             index s' c = Some (mkEntry u now (if 0 <? ttlMs then int64 (now + ttlMs) else 0)
                                  (int32 (instance s)) 0 0))
      /\ forall c, c ∉ codes -> index s' c = index s c
  | Panic => False
  | Diverge =>
      NoDup (map randSuffix rnds) -> (length rnds <= length (entries s) + length urls)%nat
  end.
Proof.
  unfold ShortenMany. pose proof (many_loop_spec now (expiry now ttlMs) urls rnd s rnds Hw) as M.
  destruct (many_loop _ _ _ _ _ _) as [[codes s1]| |] eqn:E; cbn [go_bind]; [|done|].
  - destruct M as (Hlen & Hnd & _ & _ & Hnew & Hget & Hold).
    pose proof (flush_if_big_shards s1 d) as [F _]. destruct (flush_if_big s1 d) as [s2 d1].
    cbn [fst] in F. split_and!; [done|done|done| |].
    + intros i c u Hc Hu. rewrite (index_same _ _ _ F). by eapply Hget.
    + intros c Hc. rewrite (index_same _ _ _ F). by apply Hold.
  - intros Hnd. destruct (decide (length rnds <= length (entries s) + length urls)%nat) as [|Hgt];
      [done|exfalso].
    apply (many_loop_total now (expiry now ttlMs) urls rnd s [] rnds); [done|done| | |done].
    + by intros b ?%not_elem_of_nil.
    + simpl. lia.
Qed.

(** C30: [ShortenMany] returns one code per URL, aligned with its input: the
    codes are pairwise distinct and were all free, the i-th one now leads to the
    i-th URL, and every other code keeps its entry. It returns as soon as the
    source for the retries yields more distinct suffixes than there are links
    and URLs. *)
Theorem ShortenMany_spec (urls : list bytes) (ttlMs now : Z) (rnd : bytes) (rnds : list bytes)
  (s : Store) (d : Disk) (Hw : wf s) :
  match ShortenMany urls ttlMs now rnd rnds s d with
  | Ret (codes, s', d') =>
      length codes = length urls /\ NoDup codes
      /\ (forall c, c ∈ codes -> index s c = None)
      /\ (forall i c u, codes !! i = Some c -> urls !! i = Some u ->
             index s' c = Some (mkEntry u now (if 0 <? ttlMs then int64 (now + ttlMs) else 0)
                                  (int32 (instance s)) 0 0))
      /\ forall c, c ∉ codes -> index s' c = index s c
  | Panic => False
  | Diverge =>
      NoDup (map randSuffix rnds) -> (length rnds <= length (entries s) + length urls)%nat
  end.
Proof. by apply ShortenMany_cases. Qed.

End Ops.

(** * Witnesses *)

Lemma Shorten_spec_witness :
  exists c s' d', Shorten (lit "http://a") [] false 5 100 [lit "abcdefg"] NewMem ∅ = Ret (c, s', d')
    /\ index s' c = Some (mkEntry (lit "http://a") 100 105 0 0 0).
Proof.
  pose proof (Shorten_spec (lit "http://a") [] false 5 100 [lit "abcdefg"] NewMem ∅
    (wf_fresh _ _ _ _ _)) as P.
  assert (is_ret (Shorten (lit "http://a") [] false 5 100 [lit "abcdefg"] NewMem ∅) = true) as R
    by (vm_compute; reflexivity).
  destruct (Shorten _ _ _ _ _ _ _ _) as [[[c s'] d']| |] eqn:E;
    [|discriminate R|discriminate R].
  exists c, s', d'. split; [reflexivity|].
  destruct P as [(F & _)|(_ & _ & Hi & _)]; [discriminate F|].
  rewrite Hi, decide_True by reflexivity. reflexivity.
Defined.

Lemma Shorten_terminates_witness :
  exists r, Shorten [] [] false 0 0 [lit "1234567"] NewMem ∅ = Ret r.
Proof.
  apply (Shorten_terminates [] [] false 0 0 [lit "1234567"] NewMem ∅ (wf_fresh _ _ _ _ _)).
  - apply NoDup_singleton.
  - vm_compute. lia.
Defined.

Definition mem_instance (i : Z) (p : byte) : Store := fresh_store i p None None [].

Lemma generated_codes_disjoint_witness :
  lit "01234567" <> lit "z1234567" /\ length (lit "01234567") = codeLen
  /\ Forall (fun c => c ∈ ALPHABET) (lit "01234567").
Proof.
  apply (generated_codes_disjoint (mem_instance 0 x30) (mem_instance 35 x7a)
    [[x01; x02; x03; x04; x05; x06; x07]] [[x01; x02; x03; x04; x05; x06; x07]] [] []);
    [done|done|done|by repeat constructor|by vm_compute|by vm_compute].
Defined.

Lemma ShortenMany_spec_witness :
  exists codes s' d',
    ShortenMany [lit "u"; lit "v"] 0 7 (lit "AAAAAAABBBBBBB") [] NewMem ∅ = Ret (codes, s', d')
    /\ length codes = 2%nat /\ NoDup codes.
Proof.
  pose proof (ShortenMany_spec [lit "u"; lit "v"] 0 7 (lit "AAAAAAABBBBBBB") [] NewMem ∅
    (wf_fresh _ _ _ _ _)) as P.
  assert (is_ret (ShortenMany [lit "u"; lit "v"] 0 7 (lit "AAAAAAABBBBBBB") [] NewMem ∅) = true)
    as R by (vm_compute; reflexivity).
  destruct (ShortenMany _ _ _ _ _ _ _) as [[[codes s'] d']| |] eqn:E;
    [|discriminate R|discriminate R].
  exists codes, s', d'. split; [reflexivity|].
  destruct P as (Hl & Hn & _). split; [exact Hl|exact Hn].
Defined.
