(* ===== verification/StoreRead.v ===== *)
(** * StoreRead: reading, changing and listing links

    The behaviour of [Resolve], [Update], [Remove], [Stats] and [List] on all
    their branches, against the single-map view of [StoreSpec]. *)

From S2P Require Import Prelude GoStd LogLine Aof Store StoreSpec.
From stdpp Require Import options.

Section Read.
Context `{MapOrder} `{SliceSort}.

Lemma index_count_hit (c c' : bytes) (e : entry) (s : Store) :
  length (shards s) = numShards ->
  index (count_hit c e s) c'
  = if decide (c = c')
    then Some (mkEntry (e_u e) (e_a e) (e_e e) (e_i e) (int64 (e_h e + 1)) (int64 (e_oh e + 1)))
    else index s c'.
Proof.
  intros Hl. unfold count_hit. rewrite index_bump by auto with store. by apply index_put.
Qed.

Lemma dirty_of_count_hit (c c' : bytes) (e : entry) (s : Store) :
  length (shards s) = numShards ->
  dirty_of (count_hit c e s) c'
  = if decide (c = c') then int64 (dirty_of s c + 1) else dirty_of s c'.
Proof.
  intros Hl. unfold count_hit. rewrite dirty_of_bump, !dirty_of_put by auto with store. done.
Qed.

Lemma Resolve_hit (trackHits : bool) (code : bytes) (t1 t2 now : Z) (d : Disk) (s : Store)
  (e : entry) (Hw : wf s) (He : index s code = Some e) :
  exists r s', Resolve trackHits code t1 t2 now d s = Ret (r, s')
    /\ r = (if (e_e e =? 0) || (now <? e_e e) then Some (e_u e) else None)
    /\ (r = None \/ trackHits = false -> s' = s)
    /\ (is_Some r -> trackHits = true ->
        dirty_of s' code = int64 (dirty_of s code + 1)
        /\ (forall c, c <> code -> index s' c = index s c /\ dirty_of s' c = dirty_of s c)
        /\ index s' code = Some (mkEntry (e_u e) (e_a e) (e_e e) (e_i e)
             (int64 (e_h e + 1)) (int64 (e_oh e + 1)))).
Proof.
  unfold Resolve, resolve_miss. rewrite He. cbn [go_bind]. rewrite He.
  unfold live. destruct ((e_e e =? 0) || (now <? e_e e)).
  - exists (Some (e_u e)), (if trackHits then count_hit code e s else s).
    split_and!; [done|done|by intros [[=]| ->]|]. intros _ ->. split_and!.
    + rewrite dirty_of_count_hit, decide_True by auto with store. done.
    + intros c Hc. by rewrite index_count_hit, dirty_of_count_hit, !decide_False by auto with store.
    + by rewrite index_count_hit, decide_True by auto with store.
  - exists None, s. split_and!; [done|done|done|by intros [? [=]]].
Qed.

(** [Resolve] of a code the index holds. A live link yields its URL and is
    counted: its two counters and the pending delta of its code grow by one,
    and nothing else changes. An expired one ([expires_at] reached) yields
    nothing and is left as it is. *)
Theorem Resolve_present (trackHits : bool) (code : bytes) (t1 t2 now : Z) (d : Disk) (s : Store)
  (e : entry) (Hw : wf s) (He : index s code = Some e) :
  exists r s', Resolve trackHits code t1 t2 now d s = Ret (r, s')
    /\ r = (if (e_e e =? 0) || (now <? e_e e) then Some (e_u e) else None)
    /\ (r = None \/ trackHits = false -> s' = s)
    /\ (is_Some r -> trackHits = true ->
        dirty_of s' code = int64 (dirty_of s code + 1)
        /\ (forall c, c <> code -> index s' c = index s c /\ dirty_of s' c = dirty_of s c)
        /\ index s' code = Some (mkEntry (e_u e) (e_a e) (e_e e) (e_i e)
             (int64 (e_h e + 1)) (int64 (e_oh e + 1)))).
Proof. exact (Resolve_hit trackHits code t1 t2 now d s e Hw He). Qed.

(** [Resolve] of a code no one has: without a log to tail, nothing is found
    and nothing changes. *)
Lemma Resolve_absent (trackHits : bool) (code : bytes) (t1 t2 now : Z) (d : Disk) (s : Store)
  (He : index s code = None) (Ha : aof s = None) :
  Resolve trackHits code t1 t2 now d s = Ret (None, s).
Proof. unfold Resolve, resolve_miss. rewrite He, Ha. cbn [go_bind]. by rewrite He. Qed.

Lemma Update_cases (code url : bytes) (ttlMs : Z) (hasTTL : bool) (now : Z) (s : Store)
  (Hw : wf s) :
  let '(r, s') := Update code url ttlMs hasTTL now s in
  match index s code with
  | None => r = MutMissing /\ s' = s
  | Some e =>
      if e_i e =? instance s then
        let exp := if hasTTL then (if 0 <? ttlMs then int64 (now + ttlMs) else 0) else e_e e in
        r = MutOK
        /\ (forall c, index s' c = if decide (code = c)
              then Some (mkEntry url (e_a e) exp (e_i e) (e_h e) (e_oh e)) else index s c)
        /\ aof s' = Push (rowLine code url (e_a e) exp (instance s) 0) <$> aof s
        /\ wf s'
      else r = MutRemote /\ s' = s
  end.
Proof.
  unfold Update. destruct (index s code) as [e|]; [|done].
  destruct (e_i e =? instance s); cbn [negb]; [|done]. split_and!; [done| |done|].
  - intros c. exact (index_put s code c _ (wf_len s Hw)).
  - eapply wf_same; [|by apply wf_put]. done.
Qed.

(** [Update] on every branch: an unknown code and one owned by another
    instance leave the store alone; otherwise the URL is replaced, the expiry
    kept, renewed or cleared, the creation time, owner and counters kept, and
    the row is queued for the log. *)
Theorem Update_spec (code url : bytes) (ttlMs : Z) (hasTTL : bool) (now : Z) (s : Store)
  (Hw : wf s) :
  let '(r, s') := Update code url ttlMs hasTTL now s in
  match index s code with
  | None => r = MutMissing /\ s' = s
  | Some e =>
      if e_i e =? instance s then
        let exp := if hasTTL then (if 0 <? ttlMs then int64 (now + ttlMs) else 0) else e_e e in
        r = MutOK
        /\ (forall c, index s' c = if decide (code = c)
              then Some (mkEntry url (e_a e) exp (e_i e) (e_h e) (e_oh e)) else index s c)
        /\ aof s' = Push (rowLine code url (e_a e) exp (instance s) 0) <$> aof s
        /\ wf s'
      else r = MutRemote /\ s' = s
  end.
Proof. by apply Update_cases. Qed.

Lemma Remove_cases (code : bytes) (s : Store) (Hw : wf s) :
  let '(r, s') := Remove code s in
  match index s code with
  | None => r = MutMissing /\ s' = s
  | Some e =>
      if e_i e =? instance s then
        r = MutOK
        /\ (forall c, index s' c = if decide (code = c) then None else index s c)
        /\ aof s' = Push (delLine code) <$> aof s
        /\ wf s'
      else r = MutRemote /\ s' = s
  end.
Proof.
  unfold Remove. destruct (index s code) as [e|]; [|done].
  destruct (e_i e =? instance s); cbn [negb]; [|done]. split_and!; [done| |done|].
  - intros c. exact (index_del s code c (wf_len s Hw)).
  - eapply wf_same; [|by apply wf_del]. done.
Qed.

(** [Remove] on every branch, with the same owner rule. *)
Theorem Remove_spec (code : bytes) (s : Store) (Hw : wf s) :
  let '(r, s') := Remove code s in
  match index s code with
  | None => r = MutMissing /\ s' = s
  | Some e =>
      if e_i e =? instance s then
        r = MutOK
        /\ (forall c, index s' c = if decide (code = c) then None else index s c)
        /\ aof s' = Push (delLine code) <$> aof s
        /\ wf s'
      else r = MutRemote /\ s' = s
  end.
Proof. by apply Remove_cases. Qed.

(** ** Listing *)

Lemma shard_links_elem (q : bytes) (sh : shard) (l : Link) :
  l ∈ shard_links q sh <->
    exists e, data sh !! Code l = Some e /\ matches_query q (Code l) e = true /\ l = link_of (Code l) e.
Proof.
  unfold shard_links. rewrite list_elem_of_omap. split.
  - intros (c & _ & Hc). destruct (data sh !! c) as [e|] eqn:E; [|done].
    destruct (matches_query q c e) eqn:Em; [|done]. injection Hc as <-. simpl. eauto.
  - intros (e & He & Hm & Hl). exists (Code l). rewrite He, Hm. split; [|by f_equal].
    apply range_keys_elem. by exists e.
Qed.

Lemma NoDup_shard_links (q : bytes) (sh : shard) : NoDup (shard_links q sh).
Proof.
  unfold shard_links. pose proof (range_keys_NoDup (data sh)) as Hnd.
  induction Hnd as [|c l Hc Hnd IH]; simpl; [apply NoDup_nil_2|].
  destruct (data sh !! c) as [e|]; [|done]. destruct (matches_query q c e); [|done].
  apply NoDup_cons. split; [|done]. intros Hin.
  apply list_elem_of_omap in Hin as (c' & Hc' & E).
  destruct (data sh !! c') as [e'|]; [|done]. destruct (matches_query q c' e'); [|done].
  assert (c' = c) by (by injection E). congruence.
Qed.

Definition all_links (q : bytes) (s : Store) : list Link :=
  concat (map (shard_links q) (shards s)).

Lemma all_links_spec (q : bytes) (s : Store) :
  wf s ->
  NoDup (all_links q s) /\
  forall l, l ∈ all_links q s <->
    exists c e, index s c = Some e /\ matches_query q c e = true /\ l = link_of c e.
Proof.
  intros Hw. split.
  - apply (NoDup_shards s _ Code); [done|apply NoDup_shard_links|].
    intros sh l Hl. apply shard_links_elem in Hl as (e & He & _). left. by exists e.
  - intros l. unfold all_links. rewrite list_elem_of_In, in_concat. split.
    + intros (ls & Hls & Hl). apply in_map_iff in Hls as (sh & <- & Hsh).
      apply list_elem_of_In, list_elem_of_lookup in Hsh as [k Hk].
      apply list_elem_of_In, shard_links_elem in Hl as (e & He & Hm & Hl).
      apply get_shard_lookup in Hk. exists (Code l), e. split_and!; [|done|done].
      assert (shardOf (Code l) = k) as Ek by (apply (wf_data s Hw); rewrite Hk; by exists e).
      unfold index. by rewrite Ek, Hk.
    + intros (c & e & He & Hm & ->). unfold index, get_shard in He.
      destruct (shards s !! shardOf c) as [sh|] eqn:Ek; simpl in He; [|by rewrite lookup_empty in He].
      exists (shard_links q sh). split.
      * apply in_map_iff. exists sh. split; [done|].
        apply list_elem_of_In, list_elem_of_lookup. eauto.
      * apply list_elem_of_In, shard_links_elem. simpl. eauto.
Qed.

Lemma page_ok (limit offset : Z) (items : list Link) :
  0 <= limit < 2 ^ 32 -> 0 <= offset < 2 ^ 63 -> Z.of_nat (length items) < 2 ^ 62 ->
  page limit offset items = Ret (take (Z.to_nat limit) (drop (Z.to_nat offset) items)).
Proof.
  intros Hl Ho Hn. unfold page. remember (Z.of_nat (length items)) as total eqn:Et.
  destruct (Z.ltb_spec total offset) as [Hlt|Hge].
  - rewrite int64_id by (unfold is_int64; lia).
    assert ((if total <? total + limit then total else total + limit) = total) as ->
      by (destruct (Z.ltb_spec total (total + limit)); lia).
    replace (total <? 0) with false by lia. rewrite Z.ltb_irrefl. cbn [orb].
    by rewrite !drop_ge, !take_nil by lia.
  - rewrite int64_id by (unfold is_int64; lia).
    destruct (Z.ltb_spec total (offset + limit)).
    + replace (offset <? 0) with false by lia. replace (total <? offset) with false by lia.
      cbn [orb]. by rewrite !take_ge by (rewrite length_drop; lia).
    + replace (offset <? 0) with false by lia.
      replace (offset + limit <? offset) with false by lia. cbn [orb].
      do 2 f_equal. lia.
Qed.

(** C31: [List] returns the requested window of all matching links: there is a
    list of exactly the links whose code or URL contains the query (each once),
    ordered by descending hits or descending creation time, of which the
    result is the [limit] items from [offset] on and the total the length. *)
Theorem List_spec (limit offset : Z) (sortBy q : bytes) (s : Store) (Hw : wf s)
  (Hl : 0 <= limit < 2 ^ 32) (Ho : 0 <= offset < 2 ^ 63)
  (Hn : Z.of_nat (length (all_links q s)) < 2 ^ 62) :
  exists items,
    List limit offset sortBy q s
      = Ret (take (Z.to_nat limit) (drop (Z.to_nat offset) items), Z.of_nat (length items))
    /\ NoDup items
    /\ (forall l, l ∈ items <->
          exists c e, index s c = Some e /\ matches_query q c e = true /\ l = link_of c e)
    /\ StronglySorted
         (fun x y => if bool_decide (sortBy = s_hits) then Hits y <= Hits x
                     else CreatedAt y <= CreatedAt x) items.
Proof.
  set (less := if bool_decide (sortBy = s_hits) then more_hits else newer).
  pose proof (all_links_spec q s Hw) as [Hnd Hel].
  pose proof (sort_slice_perm less (all_links q s)) as Hp.
  exists (sort_slice less (all_links q s)). split_and!.
  - unfold List. fold less. fold (all_links q s).
    rewrite page_ok; [done|done|done|by rewrite Hp].
  - by rewrite Hp.
  - intros l. by rewrite Hp.
  - assert (StronglySorted (fun x y => less y x = false) (sort_slice less (all_links q s))) as Hs.
    { apply sort_slice_sorted; unfold less, more_hits, newer; intros *;
        destruct (bool_decide (sortBy = s_hits)); lia. }
    eapply StronglySorted_weaken; [|exact Hs]. unfold less, more_hits, newer.
    intros x y. destruct (bool_decide (sortBy = s_hits)); lia.
Qed.

End Read.

(** * Witnesses

    A memory store with one link of its own that expires at 50 and one that
    instance 3 owns. *)

Definition demo_own : entry := mkEntry (lit "http://a") 10 50 0 4 4.
Definition demo_other : entry := mkEntry (lit "http://b") 20 0 3 1 0.
Definition demo : Store :=
  put_entry (lit "own") demo_own (put_entry (lit "other") demo_other NewMem).

Lemma demo_wf : wf demo.
Proof. apply wf_put, wf_put, wf_fresh. Qed.

Lemma demo_own_index : index demo (lit "own") = Some demo_own.
Proof. vm_compute. reflexivity. Qed.

Lemma Resolve_present_witness :
  exists r s', Resolve true (lit "own") 0 0 49 ∅ demo = Ret (r, s') /\ r = Some (lit "http://a").
Proof.
  destruct (Resolve_present true (lit "own") 0 0 49 ∅ demo demo_own demo_wf demo_own_index)
    as (r & s' & E & Hr & _).
  exists r, s'. split; [exact E|exact Hr].
Defined.

Lemma Update_spec_witness :
  (Update (lit "own") (lit "http://c") 0 true 30 demo).1 = MutOK
  /\ (Update (lit "other") (lit "http://c") 0 true 30 demo).1 = MutRemote.
Proof.
  pose proof (Update_spec (lit "own") (lit "http://c") 0 true 30 demo demo_wf) as P.
  pose proof (Update_spec (lit "other") (lit "http://c") 0 true 30 demo demo_wf) as Q.
  rewrite demo_own_index in P.
  replace (index demo (lit "other")) with (Some demo_other) in Q by (vm_compute; reflexivity).
  destruct (Update (lit "own") _ _ _ _ _) as [r s1], (Update (lit "other") _ _ _ _ _) as [r' s2].
  split; [exact (proj1 P)|exact (proj1 Q)].
Defined.

Lemma Remove_spec_witness :
  (Remove (lit "own") demo).1 = MutOK /\ (Remove (lit "no") demo).1 = MutMissing.
Proof.
  pose proof (Remove_spec (lit "own") demo demo_wf) as P.
  pose proof (Remove_spec (lit "no") demo demo_wf) as Q.
  rewrite demo_own_index in P.
  replace (index demo (lit "no")) with (@None entry) in Q by (vm_compute; reflexivity).
  destruct (Remove (lit "own") _) as [r s1], (Remove (lit "no") _) as [r' s2].
  split; [exact (proj1 P)|exact (proj1 Q)].
Defined.

Lemma List_spec_witness :
  exists items, List 1 1 s_hits (lit "http") demo = Ret (take 1 (drop 1 items), Z.of_nat (length items))
    /\ NoDup items.
Proof.
  destruct (List_spec 1 1 s_hits (lit "http") demo demo_wf) as (items & E & Hnd & _).
  - lia.
  - lia.
  - vm_compute. reflexivity.
  - exists items. split; [exact E|exact Hnd].
Defined.
