(* ===== verification/Replay.v ===== *)
(** * Replay: log lines as operations on the index

    A log written by the store is a sequence of [lop]s: their text is what the
    store pushes, parsing and applying it is one update of the index. This file
    relates the two, gives the effect of each on the single-map view, and
    states what the order of hit deltas and rows does to the counters. *)

From S2P Require Import Prelude GoStd LogLine Aof Store StoreSpec.
From stdpp Require Import options.

Inductive lop :=
| LRow (c u : bytes) (a e i n : Z)
| LHit (c : bytes) (d i : Z)
| LDel (c : bytes).

Definition line_of (x : lop) : bytes :=
  match x with
  | LRow c u a e i n => rowLine c u a e i n
  | LHit c d i => hitLine c d i
  | LDel c => delLine c
  end.

Definition op_of (x : lop) : op :=
  match x with
  | LRow c u a e i n => row_op c u a e i n
  | LHit c d i => hit_op c d i
  | LDel c => del_op c
  end.

Definition code_ok (c : bytes) : Prop := c <> [] /\ code_safe c = true.

Definition lop_ok (x : lop) : Prop :=
  match x with
  | LRow c u a e i n => code_ok c /\ is_int64 a /\ is_int64 e /\ is_int64 i /\ is_int64 n
  | LHit c d i => code_ok c /\ is_int64 d /\ is_int64 i
  | LDel c => code_ok c
  end.

Lemma parse_line_of (x : lop) : lop_ok x -> parseLine (line_of x) = Ret (true, op_of x).
Proof.
  unfold parseLine. destruct x as [c u a e i n|c d i|c]; simpl.
  - intros ([Hc Hs] & ? & ? & ? & ?). rewrite parse_rowLine by done.
    by rewrite bool_decide_eq_true_2.
  - intros ([Hc Hs] & ? & ?). rewrite parse_hitLine by done. by rewrite bool_decide_eq_true_2.
  - intros [Hc Hs]. rewrite parse_delLine by done. by rewrite bool_decide_eq_true_2.
Qed.

Lemma good_line_of (x : lop) : lop_ok x -> good_line (line_of x).
Proof.
  destruct x as [c u a e i n|c d i|c]; simpl.
  - intros ([Hc Hs] & _). split; [|by apply rowLine_no_nl].
    rewrite rowLine_render. unfold row_fields. by simpl.
  - intros ([Hc Hs] & _). split; [done|by apply hitLine_no_nl].
  - intros [Hc Hs]. split; [done|by apply delLine_no_nl].
Qed.

Lemma good_lines_of (xs : list lop) : Forall lop_ok xs -> Forall good_line (map line_of xs).
Proof. intros H. apply Forall_fmap. eapply Forall_impl; [exact H|]. apply good_line_of. Qed.

Section Replay.
Context `{MapOrder} `{SliceSort}.

Definition apply_lop (s : Store) (x : lop) : Store := apply (op_of x) s.

(** The store a log rebuilds from nothing. *)
Definition replay (inst : Z) (xs : list lop) : Store :=
  foldl apply_lop (fresh_store inst x30 None None []) xs.

Lemma applyLine_lop (x : lop) (s : Store) : lop_ok x -> applyLine (line_of x) s = Ret (apply_lop s x).
Proof. intros Hx. unfold applyLine. by rewrite parse_line_of. Qed.

Lemma go_fold_lops (xs : list lop) (s : Store) :
  Forall lop_ok xs -> go_fold applyLine (map line_of xs) s = Ret (foldl apply_lop s xs).
Proof.
  intros Hx. revert s. induction Hx as [|x xs Hx Hxs IH]; intros s; [done|].
  cbn [map go_fold foldl]. by rewrite applyLine_lop, <- IH.
Qed.

Lemma ReplayFile_bytes {A : Type} (d : Disk) (path : bytes) (cb : bytes -> A -> go A) (s : A) :
  ReplayFile d path cb s = go_fold cb (replay_lines (file_bytes d path)) s.
Proof. unfold ReplayFile, file_bytes. by destruct (d !! path). Qed.

(** Replaying a file of log operations applies them in order. *)
Lemma ReplayFile_lops (d : Disk) (path : bytes) (xs : list lop) (s : Store) :
  Forall lop_ok xs -> file_bytes d path = frames (map line_of xs) ->
  ReplayFile d path applyLine s = Ret (foldl apply_lop s xs).
Proof.
  intros Hx Hf. rewrite ReplayFile_bytes, Hf, replay_lines_frames by by apply good_lines_of.
  by apply go_fold_lops.
Qed.

(** ** Effects on the index *)

Definition stray_of (s : Store) (c : bytes) : strayHit := default (mkStray 0 0) (strayHits s !! c).

Lemma bool_decide_ne_nil (c : bytes) : c <> [] -> bool_decide (c <> []) = true.
Proof. intros. by apply bool_decide_eq_true_2. Qed.

Lemma apply_lop_row (s : Store) (c u : bytes) (a e i n : Z) :
  c <> [] -> apply_lop s (LRow c u a e i n) = apply_row (row_op c u a e i n) s.
Proof.
  intros Hc. unfold apply_lop, apply. simpl. by rewrite bool_decide_eq_false_2.
Qed.

Lemma apply_lop_hit (s : Store) (c : bytes) (d i : Z) :
  c <> [] -> apply_lop s (LHit c d i) = apply_hit c d i s.
Proof. intros Hc. unfold apply_lop, apply. simpl. by rewrite bool_decide_ne_nil. Qed.

Lemma apply_lop_del (s : Store) (c : bytes) :
  c <> [] -> apply_lop s (LDel c) = apply_del c s.
Proof. intros Hc. unfold apply_lop, apply. simpl. by rewrite bool_decide_ne_nil. Qed.

Lemma index_apply_row (s : Store) (c u c' : bytes) (a e i n : Z) :
  length (shards s) = numShards ->
  index (apply_row (row_op c u a e i n) s) c'
  = if decide (c = c')
    then Some (mkEntry u a e (int32 i) (int64 (n + st_t (stray_of s c)))
                 (int64 (n + st_o (stray_of s c))))
    else index s c'.
Proof.
  intros Hl. unfold apply_row, stray_of. cbn [o_c row_op].
  assert ((if o_hasE (row_op c u a e i n) then o_e (row_op c u a e i n) else 0) = e) as ->.
  { cbn. by destruct (Z.eqb_spec e 0) as [->|]. }
  by destruct (strayHits s !! c) as [st|]; simpl; rewrite index_put.
Qed.

Definition add_hits (own : bool) (d : Z) (e : entry) : entry :=
  mkEntry (e_u e) (e_a e) (e_e e) (e_i e) (int64 (e_h e + d))
    (if own then int64 (e_oh e + d) else e_oh e).

Lemma index_apply_hit (s : Store) (c c' : bytes) (d i : Z) :
  length (shards s) = numShards ->
  index (apply_hit c d i s) c'
  = if decide (c = c') then add_hits (instance s =? i) d <$> index s c else index s c'.
Proof.
  intros Hl. unfold apply_hit. destruct (index s c) as [e|] eqn:E.
  - rewrite index_put by done. by destruct (decide (c = c')).
  - transitivity (index s c'); [done|]. case_decide as Ec; [|done]. subst c'. by rewrite E.
Qed.

Lemma index_apply_del (s : Store) (c c' : bytes) :
  length (shards s) = numShards ->
  index (apply_del c s) c' = if decide (c = c') then None else index s c'.
Proof. intros Hl. exact (index_del s c c' Hl). Qed.

Lemma wf_apply (o : op) (s : Store) : wf s -> wf (apply o s).
Proof.
  intros Hw. unfold apply. case_bool_decide.
  - unfold apply_del. eapply wf_same; [|by apply wf_del]. done.
  - case_bool_decide.
    + unfold apply_hit. destruct (index s (o_h o)); [by apply wf_put|]. by apply (wf_same s).
    + case_bool_decide; [done|]. unfold apply_row.
      destruct (match strayHits s !! o_c o with Some st => _ | None => _ end) as [stT stO].
      apply wf_put. by apply (wf_same s).
Qed.

Lemma instance_apply (o : op) (s : Store) : instance (apply o s) = instance s.
Proof.
  unfold apply. repeat case_bool_decide; try done.
  - unfold apply_hit. by destruct (index s (o_h o)).
  - unfold apply_row. by destruct (strayHits s !! o_c o).
Qed.

Lemma foldl_apply_facts (xs : list lop) (s : Store) :
  wf s -> wf (foldl apply_lop s xs) /\ instance (foldl apply_lop s xs) = instance s.
Proof.
  revert s. induction xs as [|x xs IH]; intros s Hw; [done|]. simpl.
  destruct (IH (apply_lop s x)) as [Hw' Hi]; [by apply wf_apply|]. split; [done|].
  rewrite Hi. apply instance_apply.
Qed.

Lemma wf_replay (inst : Z) (xs : list lop) : wf (replay inst xs).
Proof. apply foldl_apply_facts, wf_fresh. Qed.

Lemma instance_replay (inst : Z) (xs : list lop) : instance (replay inst xs) = inst.
Proof. unfold replay. by destruct (foldl_apply_facts xs _ (wf_fresh inst x30 None None [])) as [_ ->]. Qed.

(** Applying lines reads and writes only the shards, the stray counters and
    the instance number. *)
Definition same_core (s s' : Store) : Prop :=
  shards s = shards s' /\ strayHits s = strayHits s' /\ instance s = instance s'.

Lemma same_core_index (s s' : Store) (c : bytes) : same_core s s' -> index s c = index s' c.
Proof. intros [E _]. unfold index, get_shard. by rewrite E. Qed.

Lemma apply_core (o : op) (s s' : Store) : same_core s s' -> same_core (apply o s) (apply o s').
Proof.
  intros Hc. pose proof (fun c : bytes => same_core_index s s' c Hc) as Hi. destruct Hc as (E1 & E2 & E3).
  unfold apply. repeat case_bool_decide.
  - unfold apply_del, same_core. simpl. by rewrite E1, E2, E3.
  - unfold apply_hit, same_core. rewrite Hi. destruct (index s' (o_h o)); simpl; rewrite ?E1, ?E2, ?E3; done.
  - done.
  - unfold apply_row, same_core. rewrite E2.
    destruct (strayHits s' !! o_c o); simpl; by rewrite E1, E2, E3.
Qed.

Lemma foldl_core (xs : list lop) (s s' : Store) :
  same_core s s' -> same_core (foldl apply_lop s xs) (foldl apply_lop s' xs).
Proof.
  revert s s'. induction xs as [|x xs IH]; intros s s' Hc; [done|]. apply IH. by apply apply_core.
Qed.

(** ** What a log without updates and removals amounts to *)

(** The deltas on a code, all of them or those one instance logged. *)
Definition hits_on (c : bytes) (xs : list lop) : Z :=
  foldr (fun x t => match x with LHit c' d _ => if decide (c' = c) then d + t else t | _ => t end) 0 xs.

Definition own_hits_on (inst : Z) (c : bytes) (xs : list lop) : Z :=
  foldr (fun x t => match x with
                    | LHit c' d i => if decide (c' = c /\ inst = i) then d + t else t
                    | _ => t
                    end) 0 xs.

Definition row_codes (xs : list lop) : list bytes :=
  omap (fun x => match x with LRow c _ _ _ _ _ => Some c | _ => None end) xs.

Definition hit_codes (xs : list lop) : gset bytes :=
  list_to_set (omap (fun x => match x with LHit c _ _ => Some c | _ => None end) xs).

(** Rows create each code once, nothing is removed, every code is non-empty. *)
Definition creates_only (xs : list lop) : Prop :=
  NoDup (row_codes xs) /\
  Forall (fun x => match x with LRow c _ _ _ _ _ | LHit c _ _ => c <> [] | LDel _ => False end) xs.

(** The entry of [c] and its stray counters, read off the log as a whole. *)
Definition log_entry (inst : Z) (xs : list lop) (c : bytes) (o : option entry) : Prop :=
  match o with
  | Some e => exists u a ex i n, LRow c u a ex i n ∈ xs
      /\ e = mkEntry u a ex (int32 i) (int64 (n + hits_on c xs)) (int64 (n + own_hits_on inst c xs))
  | None => c ∉ row_codes xs
  end.

Definition log_stray (inst : Z) (xs : list lop) (c : bytes) (o : option strayHit) : Prop :=
  match o with
  | Some st => (c ∉ row_codes xs)
      /\ st = mkStray (int64 (hits_on c xs)) (int64 (own_hits_on inst c xs))
  | None => (c ∈ row_codes xs) \/ hits_on c xs = 0 /\ own_hits_on inst c xs = 0
  end.

Lemma hits_on_snoc (c : bytes) (xs : list lop) (x : lop) :
  hits_on c (xs ++ [x]) = hits_on c xs + hits_on c [x].
Proof.
  induction xs as [|y xs IH]; [done|]. simpl in *. destruct y as [| c' d i|]; try done.
  case_decide; lia.
Qed.

Lemma own_hits_on_snoc (inst : Z) (c : bytes) (xs : list lop) (x : lop) :
  own_hits_on inst c (xs ++ [x]) = own_hits_on inst c xs + own_hits_on inst c [x].
Proof.
  induction xs as [|y xs IH]; [done|]. simpl in *. destruct y as [| c' d i|]; try done.
  case_decide; lia.
Qed.

Lemma row_codes_snoc (xs : list lop) (x : lop) :
  row_codes (xs ++ [x]) = row_codes xs ++ row_codes [x].
Proof. unfold row_codes. by rewrite omap_app. Qed.

Lemma row_codes_elem (xs : list lop) (c : bytes) :
  c ∈ row_codes xs <-> exists u a e i n, LRow c u a e i n ∈ xs.
Proof.
  unfold row_codes. rewrite list_elem_of_omap. split.
  - intros ([c' u a e i n| |] & Hx & E); simplify_eq. eauto 6.
  - intros (u & a & e & i & n & Hx). by exists (LRow c u a e i n).
Qed.

(** Reading off is compatible with one more hit delta, or one more row. *)
Lemma log_entry_snoc_hit (inst : Z) (xs : list lop) (c c' : bytes) (d i : Z) (o : option entry) :
  log_entry inst xs c' o ->
  log_entry inst (xs ++ [LHit c d i]) c'
    (if decide (c = c') then add_hits (inst =? i) d <$> o else o).
Proof.
  destruct o as [e|]; simpl.
  - intros (u & a & ex & j & n & Hx & ->). case_decide as Ec; simpl.
    + exists u, a, ex, j, n. split; [apply elem_of_app; by left|]. subst c'. unfold add_hits. simpl.
      rewrite hits_on_snoc, own_hits_on_snoc. simpl. rewrite decide_True by done.
      f_equal; [rewrite int64_add_l; f_equal; lia|].
      destruct (Z.eqb_spec inst i) as [->|Hi].
      * rewrite decide_True, int64_add_l by done. f_equal. lia.
      * rewrite decide_False by naive_solver. f_equal. lia.
    + exists u, a, ex, j, n. split; [apply elem_of_app; by left|].
      rewrite hits_on_snoc, own_hits_on_snoc. simpl.
      rewrite !decide_False by naive_solver. by rewrite !Z.add_0_r.
  - intros Hc. assert (c' ∉ row_codes (xs ++ [LHit c d i])) as H'.
    { rewrite row_codes_snoc. simpl. by rewrite app_nil_r. }
    by case_decide.
Qed.

Lemma evict_stray_id (m : gmap bytes strayHit) : (size m < maxStrayHits)%nat -> evict_stray m = m.
Proof. intros Hs. unfold evict_stray. rewrite decide_False; [done|lia]. Qed.

Lemma stray_apply_hit (s : Store) (c c' : bytes) (d i : Z) :
  (size (strayHits s) < maxStrayHits)%nat ->
  strayHits (apply_hit c d i s) !! c'
  = if decide (c = c' /\ index s c = None)
    then Some (mkStray (int64 (st_t (stray_of s c) + d))
           (if instance s =? i then int64 (st_o (stray_of s c) + d) else st_o (stray_of s c)))
    else strayHits s !! c'.
Proof.
  intros Hs. unfold apply_hit. destruct (index s c) as [e|] eqn:E; simpl.
  - rewrite decide_False by naive_solver. done.
  - rewrite evict_stray_id by done. destruct (decide (c = c')) as [<-|Hne].
    + rewrite decide_True by done. by rewrite lookup_insert_eq.
    + rewrite decide_False by naive_solver. by rewrite lookup_insert_ne.
Qed.

Lemma creates_only_snoc (xs : list lop) (x : lop) :
  creates_only (xs ++ [x]) -> creates_only xs /\ creates_only [x]
    /\ (forall c, c ∈ row_codes [x] -> c ∉ row_codes xs).
Proof.
  unfold creates_only. rewrite row_codes_snoc, NoDup_app, Forall_app. naive_solver.
Qed.

Lemma hit_codes_snoc (xs : list lop) (x : lop) : hit_codes (xs ++ [x]) = hit_codes xs ∪ hit_codes [x].
Proof. unfold hit_codes. rewrite omap_app. apply list_to_set_app_L. Qed.

(** The state replay has reached, in terms of the whole log. *)
Definition log_state (inst : Z) (xs : list lop) (s : Store) : Prop :=
  wf s /\ instance s = inst /\ dom (strayHits s) ⊆ hit_codes xs
  /\ forall c, log_entry inst xs c (index s c) /\ log_stray inst xs c (strayHits s !! c).

Lemma log_state_stray (inst : Z) (xs : list lop) (s : Store) (c : bytes) :
  log_state inst xs s -> c ∉ row_codes xs ->
  st_t (stray_of s c) = int64 (hits_on c xs) /\ st_o (stray_of s c) = int64 (own_hits_on inst c xs).
Proof.
  intros (_ & _ & _ & Hc) Hn. destruct (Hc c) as [_ Hs]. unfold stray_of.
  destruct (strayHits s !! c) as [st|]; simpl in *.
  - by destruct Hs as [_ ->].
  - destruct Hs as [?|[-> ->]]; [done|]. done.
Qed.

Lemma log_state_none (inst : Z) (xs : list lop) (s : Store) (c : bytes) :
  log_state inst xs s -> c ∈ row_codes xs -> index s c <> None.
Proof. intros (_ & _ & _ & Hc) Hr E. destruct (Hc c) as [He _]. rewrite E in He. by apply He. Qed.

Lemma log_state_hit (inst : Z) (xs : list lop) (s : Store) (c : bytes) (d i : Z) :
  c <> [] -> (size (hit_codes xs) < maxStrayHits)%nat -> log_state inst xs s ->
  log_state inst (xs ++ [LHit c d i]) (apply_lop s (LHit c d i)).
Proof.
  intros Hne Hsz Hst. pose proof Hst as (Hw & Hi & Hd & Hc).
  assert (size (strayHits s) < maxStrayHits)%nat as Hs.
  { rewrite <- size_dom. eapply Nat.le_lt_trans; [by apply subseteq_size|done]. }
  split; [by apply wf_apply|]. split; [unfold apply_lop; by rewrite instance_apply|].
  rewrite apply_lop_hit by done. split.
  - intros c' Hx. rewrite hit_codes_snoc. apply elem_of_dom in Hx. rewrite stray_apply_hit in Hx by done.
    apply elem_of_union. case_decide as Ec; [right; set_solver|].
    left. by apply Hd, elem_of_dom.
  - intros c'. destruct (Hc c') as [He Hstray]. split.
    + rewrite index_apply_hit, Hi by apply Hw.
      pose proof (log_entry_snoc_hit inst xs c c' d i _ He) as Hl. by case_decide; [subst c'|].
    + rewrite stray_apply_hit by done. rewrite Hi.
      pose proof (row_codes_snoc xs (LHit c d i)) as Hrow. simpl in Hrow. rewrite app_nil_r in Hrow.
      case_decide as Ec.
      * destruct Ec as [<- En]. rewrite En in He. simpl in He.
        destruct (log_state_stray inst xs s c Hst He) as [-> ->]. simpl. rewrite Hrow.
        split; [done|]. rewrite hits_on_snoc, own_hits_on_snoc. simpl. rewrite decide_True by done.
        rewrite int64_add_l. f_equal; [f_equal; lia|]. destruct (Z.eqb_spec inst i) as [->|Hni].
        -- rewrite decide_True, int64_add_l by done. f_equal. lia.
        -- rewrite decide_False by naive_solver. f_equal. lia.
      * destruct (decide (c = c')) as [<-|Hcc].
        -- assert (c ∈ row_codes xs) as Hr.
           { destruct (index s c) as [e|] eqn:E; [|naive_solver].
             simpl in He. destruct He as (u & a & ex & j & n & Hx & _).
             apply row_codes_elem. eauto 6. }
           destruct (strayHits s !! c); simpl in *; rewrite ?Hrow; naive_solver.
        -- destruct (strayHits s !! c'); simpl in *; rewrite ?Hrow, hits_on_snoc, own_hits_on_snoc; simpl;
             rewrite !decide_False, !Z.add_0_r by naive_solver; done.
Qed.

Lemma log_state_row (inst : Z) (xs : list lop) (s : Store) (c u : bytes) (a e i n : Z) :
  c <> [] -> c ∉ row_codes xs -> log_state inst xs s ->
  log_state inst (xs ++ [LRow c u a e i n]) (apply_lop s (LRow c u a e i n)).
Proof.
  intros Hne Hn Hst. pose proof Hst as (Hw & Hi & Hd & Hc).
  split; [by apply wf_apply|]. split; [unfold apply_lop; by rewrite instance_apply|].
  rewrite apply_lop_row by done.
  assert (forall c', strayHits (apply_row (row_op c u a e i n) s) !! c'
            = if decide (c = c') then None else strayHits s !! c') as Hsl.
  { intros c'. transitivity (delete c (strayHits s) !! c').
    - unfold apply_row. cbn [o_c row_op]. by destruct (strayHits s !! c).
    - case_decide; [subst; by apply lookup_delete_eq|by apply lookup_delete_ne]. }
  pose proof (row_codes_snoc xs (LRow c u a e i n)) as Hrow. simpl in Hrow.
  split.
  - intros c' Hx. rewrite hit_codes_snoc. apply elem_of_dom in Hx. rewrite Hsl in Hx.
    apply elem_of_union_l. case_decide; [by destruct Hx|]. by apply Hd, elem_of_dom.
  - intros c'. destruct (Hc c') as [He Hs'].
    assert (hits_on c' (xs ++ [LRow c u a e i n]) = hits_on c' xs) as Eh.
    { rewrite hits_on_snoc. simpl. lia. }
    assert (own_hits_on inst c' (xs ++ [LRow c u a e i n]) = own_hits_on inst c' xs) as Eo.
    { rewrite own_hits_on_snoc. simpl. lia. }
    rewrite Hsl, index_apply_row by apply Hw. destruct (decide (c = c')) as [<-|Hcc].
    + split; simpl; [|left; rewrite Hrow; apply elem_of_app; right; by apply list_elem_of_singleton].
      destruct (log_state_stray inst xs s c Hst Hn) as [-> ->].
      exists u, a, e, i, n. split; [apply elem_of_app; right; by apply list_elem_of_singleton|]. by rewrite Eh, Eo, !int64_add_r.
    + split.
      * destruct (index s c') as [e'|]; simpl in *; rewrite ?Eh, ?Eo.
        -- destruct He as (u' & a' & ex & j & m & Hx & ->). exists u', a', ex, j, m.
           split; [apply elem_of_app; by left|done].
        -- rewrite Hrow, not_elem_of_app, list_elem_of_singleton. naive_solver.
      * destruct (strayHits s !! c') as [st|]; simpl in *; rewrite ?Eh, ?Eo, Hrow.
        -- rewrite not_elem_of_app, list_elem_of_singleton. naive_solver.
        -- rewrite elem_of_app. naive_solver.
Qed.

Lemma log_state_replay (inst : Z) (xs : list lop) :
  creates_only xs -> (size (hit_codes xs) < maxStrayHits)%nat -> log_state inst xs (replay inst xs).
Proof.
  induction xs as [|x xs IH] using rev_ind; intros Hcr Hsz.
  - split; [apply wf_fresh|]. split; [done|]. split; [done|]. intros c.
    unfold replay. simpl. rewrite index_fresh, lookup_empty. simpl. split; [by apply not_elem_of_nil|by right].
  - destruct (creates_only_snoc _ _ Hcr) as (Hxs & Hx & Hd).
    assert (size (hit_codes xs) < maxStrayHits)%nat as Hsz'.
    { eapply Nat.le_lt_trans; [|exact Hsz]. apply subseteq_size. rewrite hit_codes_snoc. set_solver. }
    unfold replay. rewrite foldl_snoc. fold (replay inst xs).
    destruct Hx as [_ Hx]. rewrite Forall_singleton in Hx.
    destruct x as [c u a e i n|c d i|c]; simpl in Hx; [| |done].
    + apply log_state_row; [done| |by apply IH]. apply Hd. by apply list_elem_of_here.
    + apply log_state_hit; [done|done|by apply IH].
Qed.

Lemma hits_on_perm (c : bytes) (xs ys : list lop) : xs ≡ₚ ys -> hits_on c xs = hits_on c ys.
Proof.
  induction 1 as [|[]|[] []|]; simpl; try done; repeat case_decide; lia.
Qed.

Lemma own_hits_on_perm (inst : Z) (c : bytes) (xs ys : list lop) :
  xs ≡ₚ ys -> own_hits_on inst c xs = own_hits_on inst c ys.
Proof.
  induction 1 as [|[]|[] []|]; simpl; try done; repeat case_decide; lia.
Qed.

Lemma row_codes_perm (xs ys : list lop) : xs ≡ₚ ys -> row_codes xs ≡ₚ row_codes ys.
Proof. intros Hp. unfold row_codes. by rewrite Hp. Qed.

Lemma creates_only_perm (xs ys : list lop) : xs ≡ₚ ys -> creates_only xs -> creates_only ys.
Proof.
  intros Hp [Hn Hf]. split; [by rewrite <- (row_codes_perm _ _ Hp)|by rewrite <- Hp].
Qed.

Lemma row_unique (xs : list lop) (c u u' : bytes) (a e i n a' e' i' n' : Z) :
  NoDup (row_codes xs) -> LRow c u a e i n ∈ xs -> LRow c u' a' e' i' n' ∈ xs ->
  LRow c u a e i n = LRow c u' a' e' i' n'.
Proof.
  induction xs as [|x xs IH]; intros Hn Hx Hx'; [by apply not_elem_of_nil in Hx|].
  assert (forall u a e i n, LRow c u a e i n ∈ xs -> c ∈ row_codes xs) as Hin.
  { intros. apply row_codes_elem. eauto 6. }
  apply elem_of_cons in Hx as [Hx|Hx], Hx' as [Hx'|Hx']; [congruence|subst x..|].
  - apply NoDup_cons in Hn as [Hn _]. exfalso. eauto.
  - apply NoDup_cons in Hn as [Hn _]. exfalso. eauto.
  - apply IH; [|done|done]. destruct x; [|done|done]. by apply NoDup_cons in Hn as [_ Hn].
Qed.

(** The entry read off a log does not depend on the order of its lines. *)
Lemma log_entry_perm (inst : Z) (xs ys : list lop) (c : bytes) (o o' : option entry) :
  xs ≡ₚ ys -> NoDup (row_codes xs) -> log_entry inst xs c o -> log_entry inst ys c o' -> o = o'.
Proof.
  intros Hp Hn Ho Ho'. pose proof (row_codes_perm _ _ Hp) as Hr.
  destruct o as [e|], o' as [e'|]; simpl in *; [| | |done].
  - destruct Ho as (u & a & ex & i & n & Hx & ->), Ho' as (u' & a' & ex' & i' & n' & Hx' & ->).
    rewrite <- Hp in Hx'. pose proof (row_unique _ _ _ _ _ _ _ _ _ _ _ _ Hn Hx Hx') as [=].
    subst. by rewrite (hits_on_perm c _ _ Hp), (own_hits_on_perm inst c _ _ Hp).
  - destruct Ho as (u & a & ex & i & n & Hx & ->). exfalso. apply Ho'. rewrite <- Hr.
    apply row_codes_elem. eauto 6.
  - destruct Ho' as (u & a & ex & i & n & Hx & ->). exfalso. apply Ho. rewrite Hr.
    apply row_codes_elem. eauto 6.
Qed.

(** C14: replay converges: two logs that hold the same lines in any order (as
    interleavings of the same sibling logs do, hit deltas overtaking the rows
    they count included), with at most one row line for a code (an update would
    write a second one) and no removal, load into the same links. A link's hit count is its row's plus every delta of
    its code, and its own hits those this instance logged, as long as fewer than
    10000 codes are counted. *)
Theorem replay_order_irrelevant (inst : Z) (d : Disk) (p q : bytes) (xs ys : list lop)
  (Hok : Forall lop_ok xs) (Hcr : creates_only xs) (Hsz : (size (hit_codes xs) < maxStrayHits)%nat)
  (Hp : xs ≡ₚ ys)
  (Fp : file_bytes d p = frames (map line_of xs)) (Fq : file_bytes d q = frames (map line_of ys)) :
  exists s1 s2,
    ReplayFile d p applyLine (fresh_store inst x30 None None []) = Ret s1
    /\ ReplayFile d q applyLine (fresh_store inst x30 None None []) = Ret s2
    /\ forall c, index s1 c = index s2 c
         /\ match index s1 c with
            | Some e => exists u a ex i n, LRow c u a ex i n ∈ xs
                /\ e = mkEntry u a ex (int32 i) (int64 (n + hits_on c xs))
                         (int64 (n + own_hits_on inst c xs))
            | None => c ∉ row_codes xs
            end.
Proof.
  exists (replay inst xs), (replay inst ys). split; [by apply ReplayFile_lops|].
  split; [apply ReplayFile_lops; [by rewrite <- Hp|done]|]. intros c.
  destruct (log_state_replay inst xs Hcr Hsz) as (_ & _ & _ & Hx).
  destruct (log_state_replay inst ys) as (_ & _ & _ & Hy); [by eapply creates_only_perm| |].
  { enough (hit_codes xs = hit_codes ys) as <- by done.
    apply set_eq. intros c'. unfold hit_codes. by rewrite !elem_of_list_to_set, Hp. }
  destruct (Hx c) as [Ex _], (Hy c) as [Ey _].
  split; [|exact Ex]. eapply log_entry_perm; [done|apply Hcr|done|done].
Qed.

End Replay.

Definition demo_row : lop := LRow (lit "0aaaaaaa") (lit "http://a") 10 0 0 0.
Definition demo_hit : lop := LHit (lit "0aaaaaaa") 3 5.
Definition demo_logs : Disk :=
  <[lit "p" := mkFile (frames (map line_of [demo_row; demo_hit])) 0]>
  {[lit "q" := mkFile (frames (map line_of [demo_hit; demo_row])) 0]}.

Lemma replay_order_irrelevant_witness :
  exists s1 s2,
    ReplayFile demo_logs (lit "p") applyLine (fresh_store 0 x30 None None []) = Ret s1
    /\ ReplayFile demo_logs (lit "q") applyLine (fresh_store 0 x30 None None []) = Ret s2
    /\ forall c, index s1 c = index s2 c.
Proof.
  destruct (replay_order_irrelevant 0 demo_logs (lit "p") (lit "q") [demo_row; demo_hit]
    [demo_hit; demo_row]) as (s1 & s2 & E1 & E2 & Hc).
  - repeat (apply Forall_cons; split; [by vm_compute|]); apply List.Forall_nil.
  - split; [apply NoDup_singleton|].
    repeat (apply Forall_cons; split; [done|]); apply List.Forall_nil.
  - assert (size (hit_codes [demo_row; demo_hit]) = 1%nat) as -> by (vm_compute; reflexivity).
    apply Nat.ltb_lt. vm_compute. reflexivity.
  - apply Permutation_swap.
  - vm_compute. reflexivity.
  - vm_compute. reflexivity.
  - exists s1, s2. split; [exact E1|]. split; [exact E2|]. intros c. apply Hc.
Defined.
