(* ===== verification/Alone.v ===== *)
(** * Alone: an instance without siblings, and what a flush queues

    Two groups of lemmas the durability proofs rest on. With no sibling log in
    the directory, tailing reads nothing: a miss leaves the index, the
    counters and the writer as they are. And the hit lines of a flush are the
    pending deltas of the index, each code once. *)

From S2P Require Import Prelude GoStd Base62 LogLine Aof Store StoreSpec Replay.
From stdpp Require Import options.

(** ** The fields a step leaves alone *)

(** Everything but the tails and the time of the last poll. *)
Definition same_but_tails (s s' : Store) : Prop :=
  shards s' = shards s /\ strayHits s' = strayHits s /\ aof s' = aof s /\ instance s' = instance s
  /\ prefix s' = prefix s /\ claimed s' = claimed s /\ ownName s' = ownName s /\ closed s' = closed s.

#[export] Instance same_but_tails_preorder : PreOrder same_but_tails.
Proof.
  split; [done|]. intros s1 s2 s3 H1 H2. unfold same_but_tails in *.
  destruct H1 as (? & ? & ? & ? & ? & ? & ? & ?), H2 as (? & ? & ? & ? & ? & ? & ? & ?).
  split_and!; congruence.
Qed.

(** Everything but the index and the stray counters. *)
Definition same_frame (s s' : Store) : Prop :=
  aof s' = aof s /\ instance s' = instance s /\ prefix s' = prefix s /\ claimed s' = claimed s
  /\ ownName s' = ownName s /\ tails s' = tails s /\ closed s' = closed s.

#[export] Instance same_frame_preorder : PreOrder same_frame.
Proof.
  split; [done|]. intros s1 s2 s3 H1 H2. unfold same_frame in *.
  destruct H1 as (? & ? & ? & ? & ? & ? & ?), H2 as (? & ? & ? & ? & ? & ? & ?).
  split_and!; congruence.
Qed.

(** The pending delta of a code, if it has one. *)
Definition dirty_at (s : Store) (c : bytes) : option Z := dirty (get_shard s (shardOf c)) !! c.

Lemma dirty_of_at (s : Store) (c : bytes) : dirty_of s c = default 0 (dirty_at s c).
Proof. done. Qed.

Lemma dirty_at_data (f : gmap bytes entry -> gmap bytes entry) (k : nat) (s : Store) (c : bytes) :
  length (shards s) = numShards -> (k < numShards)%nat ->
  dirty_at (set_shards (alter (alter_data f) k) s) c = dirty_at s c.
Proof.
  intros Hl Hk. unfold dirty_at. rewrite get_shard_alter by done. case_decide as E; [|done].
  simpl. by rewrite E.
Qed.

Lemma dirty_at_bump (s : Store) (c c' : bytes) :
  length (shards s) = numShards ->
  dirty_at (bump_dirty c s) c' = if decide (c = c') then Some (int64 (dirty_of s c + 1)) else dirty_at s c'.
Proof.
  intros Hl. unfold dirty_at, bump_dirty. rewrite get_shard_alter by auto using shardOf_bound.
  destruct (decide (c = c')) as [->|Hne].
  - rewrite decide_True by done. simpl. by rewrite lookup_insert_eq.
  - case_decide as E; [|done]. simpl. by rewrite lookup_insert_ne, E.
Qed.

Lemma dirty_at_same (s s' : Store) (c : bytes) : shards s' = shards s -> dirty_at s' c = dirty_at s c.
Proof. intros E. unfold dirty_at, get_shard. by rewrite E. Qed.

Section Alone.
Context `{MapOrder} `{SliceSort}.

Lemma same_frame_apply (o : op) (s : Store) : same_frame s (apply o s).
Proof.
  unfold apply. repeat case_bool_decide; try done.
  - unfold apply_hit. by destruct (index s (o_h o)).
  - unfold apply_row. by destruct (strayHits s !! o_c o).
Qed.

Lemma dirty_at_apply (o : op) (s : Store) (c : bytes) : wf s -> dirty_at (apply o s) c = dirty_at s c.
Proof.
  intros [Hl _ _]. pose proof shardOf_bound as Hb. unfold apply. repeat case_bool_decide.
  - unfold apply_del, del_entry. rewrite (dirty_at_same (del_entry (o_x o) s)) by done.
    unfold del_entry. by apply dirty_at_data.
  - unfold apply_hit. destruct (index s (o_h o)); [by apply dirty_at_data|done].
  - done.
  - unfold apply_row. destruct (strayHits s !! o_c o); unfold put_entry; by rewrite dirty_at_data.
Qed.

Lemma foldl_apply_frame (xs : list lop) (s : Store) :
  wf s -> same_frame s (foldl apply_lop s xs) /\ forall c, dirty_at (foldl apply_lop s xs) c = dirty_at s c.
Proof.
  revert s. induction xs as [|x xs IH]; intros s Hw; [done|]. simpl.
  destruct (IH (apply_lop s x)) as [Hf Hd]; [by apply wf_apply|]. split.
  - etransitivity; [apply same_frame_apply|exact Hf].
  - intros c. rewrite Hd. by apply dirty_at_apply.
Qed.

(** ** No siblings *)

Definition sibling_name (own n : bytes) : Prop :=
  HasPrefix n s_data = true /\ HasSuffix n s_log = true /\ n <> own.

(** No sibling log exists, and no reader has read anything. *)
Definition alone (s : Store) (d : Disk) : Prop :=
  ShardFiles d (ownName s) = [] /\
  forall n t, tails s !! n = Some t -> t = TailFromStart n /\ sibling_name (ownName s) n.

Lemma alone_absent (d : Disk) (own n : bytes) :
  ShardFiles d own = [] -> sibling_name own n -> d !! n = None.
Proof.
  intros E (Hp & Hs & Hn). apply eq_None_not_Some. intros Hd.
  apply (not_elem_of_nil n). rewrite <- E. by apply ShardFiles_elem.
Qed.

Lemma read_step_absent (d : Disk) (n : bytes) :
  d !! n = None -> read_step d (TailFromStart n) = (TailFromStart n, []).
Proof. intros E. unfold read_step, fileSize, tail_reset. simpl. by rewrite E. Qed.

Lemma read_tail_alone (d : Disk) (n : bytes) (s : Store) :
  alone s d ->
  exists s', read_tail d n s = Ret s' /\ same_but_tails s s' /\ alone s' d.
Proof.
  intros [Hs Ht]. unfold read_tail. destruct (tails s !! n) as [t|] eqn:E; [|by exists s].
  destruct (Ht n t E) as [-> Hn]. unfold ReadNew.
  rewrite read_step_absent by by eapply alone_absent. cbn [go_fold go_bind].
  eexists. split; [done|]. split; [done|]. split; [done|]. intros n' t'. simpl.
  rewrite lookup_insert_Some. intros [[<- <-]|[_ ?]]; [done|by apply Ht].
Qed.

Lemma discover_alone (d : Disk) (n : bytes) (s : Store) :
  sibling_name (ownName s) n -> alone s d ->
  same_but_tails s (discover n s) /\ alone (discover n s) d.
Proof.
  intros Hn [Hs Ht]. unfold discover. destruct (tails s !! n) as [t|] eqn:E; [done|].
  split; [done|]. split; [done|]. intros n' t'. simpl.
  rewrite lookup_insert_Some. intros [[<- <-]|[_ ?]]; [done|by apply Ht].
Qed.

Lemma PollTails_alone (now : Z) (d : Disk) (s : Store) :
  alone s d -> exists s', PollTails now d s = Ret s' /\ same_but_tails s s' /\ alone s' d.
Proof.
  intros Ha. unfold PollTails. destruct (aof s); [|by exists s].
  destruct Ha as [Hs Ht]. rewrite Hs. cbn [foldl].
  assert (forall ks s0, alone s0 d ->
    exists s1, go_fold (read_tail d) ks s0 = Ret s1 /\ same_but_tails s0 s1 /\ alone s1 d) as Hfold.
  { induction ks as [|k ks IH]; intros s0 A0; [by exists s0|].
    destruct (read_tail_alone d k s0 A0) as (s1 & E1 & F1 & A1).
    destruct (IH s1 A1) as (s2 & E2 & F2 & A2). exists s2. cbn [go_fold]. rewrite E1.
    split; [exact E2|]. split; [by transitivity s1|done]. }
  destruct (Hfold (range_keys (tails s)) s) as (s1 & -> & F & A); [done|]. cbn [go_bind].
  exists (set_lastPoll now s1). split; [done|]. split; [by transitivity s1|done].
Qed.

Lemma logName_sibling (own : Z) (owner : Z) :
  is_int64 own -> is_int64 owner -> owner <> own -> sibling_name (logName own) (logName owner).
Proof.
  intros Ho Hw Hne. split; [|split].
  - apply HasPrefix_spec. by eexists.
  - unfold logName. rewrite app_assoc. apply HasSuffix_app.
  - intros E. apply Hne. apply app_inv_head, app_inv_tail in E. by apply itoa_inj.
Qed.

Lemma alpha_index_range (c : byte) : -1 <= alpha_index c < 62.
Proof.
  assert (forallb (fun z => (-1 <=? z) && (z <? 62)) alphaIdx = true) as Hf by (by vm_compute).
  unfold alpha_index. destruct (alphaIdx !! Z.to_nat (bZ c)) as [z|] eqn:E; simpl; [|lia].
  rewrite forallb_forall in Hf. specialize (Hf z). rewrite <- list_elem_of_In in Hf.
  apply list_elem_of_lookup_2 in E. apply Hf in E. lia.
Qed.

(** A miss finds nothing and changes nothing but the readers. *)
Lemma resolve_miss_alone (code : bytes) (t1 t2 : Z) (d : Disk) (s : Store) :
  is_int64 (instance s) -> ownName s = logName (instance s) -> alone s d ->
  exists s', resolve_miss code t1 t2 d s = Ret s' /\ same_but_tails s s' /\ alone s' d.
Proof.
  intros Hi Ho Ha. unfold resolve_miss. destruct (index s code) eqn:E; [by exists s|].
  destruct (aof s) as [a|] eqn:Eaof; [|by exists s].
  assert (exists s1, tailOwner code d s = Ret s1 /\ same_but_tails s s1 /\ alone s1 d)
    as (s1 & -> & F1 & A1).
  { unfold tailOwner. destruct code as [|c code]; [by exists s|]. rewrite Eaof.
    pose proof (alpha_index_range c) as Hr.
    destruct ((alpha_index c <? 0) || (alpha_index c =? instance s)) eqn:Eo; [by exists s|].
    apply orb_false_iff in Eo as [Eo1 Eo2].
    destruct (discover_alone d (logName (alpha_index c)) s) as [F A]; [|done|].
    { rewrite Ho. apply logName_sibling; [done|unfold is_int64; lia|lia]. }
    destruct (read_tail_alone d (logName (alpha_index c)) _ A) as (s' & E' & F' & A').
    exists s'. split; [done|]. split; [by etransitivity|done]. }
  cbn [go_bind]. destruct (index s1 code); [by exists s1|].
  unfold lazyPoll. destruct (int64 (t1 - lastPoll s1) <? tailMinInterval); [by exists s1|].
  assert (alone (set_lastPoll t1 s1) d) as A1' by done.
  destruct (PollTails_alone t2 d _ A1') as (s2 & -> & F2 & A2).
  exists s2. split; [done|]. split; [|done]. etransitivity; [exact F1|].
  etransitivity; [|exact F2]. done.
Qed.

End Alone.
