(* ===== verification/Sibling.v ===== *)
(** * Sibling: reading the logs of other instances

    What a running instance learns from its siblings' logs and when: [Resolve]
    of an unknown code reads the log of the instance its prefix names before it
    answers; a start reads the siblings' snapshots but not their logs; and a
    running instance never reads a snapshot. *)

From S2P Require Import Prelude GoStd Base62 LogLine Aof Store StoreSpec Replay Alone.
From stdpp Require Import options.

Section Sibling.
Context `{MapOrder} `{SliceSort}.

(** The owner's log has grown by the lines [ys] since this reader's last call. *)
Definition behind (s : Store) (d : Disk) (name : bytes) (xs ys : list lop) : Prop :=
  let t := default (TailFromStart name) (tails s !! name) in
  t_path t = name /\ tail_at t (frames (map line_of xs))
  /\ exists n, d !! name = Some (mkFile (frames (map line_of (xs ++ ys))) n).

Lemma frames_map_app (xs ys : list lop) :
  frames (map line_of (xs ++ ys)) = frames (map line_of xs) ++ frames (map line_of ys).
Proof. by rewrite map_app, frames_app. Qed.

Lemma read_tail_behind (s : Store) (d : Disk) (name : bytes) (xs ys : list lop) :
  Forall lop_ok xs -> Forall lop_ok ys -> behind s d name xs ys ->
  exists t', read_tail d name (discover name s)
    = Ret (set_tails (insert name t') (foldl apply_lop (discover name s) ys)).
Proof.
  intros Hx Hy (Hp & Ht & n & Hf).
  assert (tails (discover name s) !! name = Some (default (TailFromStart name) (tails s !! name))) as E.
  { unfold discover. destruct (tails s !! name) as [t|] eqn:Et; [done|]. apply lookup_insert_eq. }
  unfold read_tail. rewrite E. set (t := default _ _) in *. unfold ReadNew.
  rewrite frames_map_app in Hf. rewrite <- Hp in Hf.
  destruct (read_step_grow d t _ _ _ Ht Hf eq_refl) as (t' & -> & _ & _). destruct Ht as [_ ->].
  rewrite (scan_lines_frames (map line_of xs)) by by apply good_lines_of. cbn [snd].
  rewrite scan_lines_frames by by apply good_lines_of. cbn [fst].
  rewrite go_fold_lops by done. by exists t'.
Qed.

(** Later lines that neither redefine nor remove a code keep its row. *)
Definition spares (c : bytes) (x : lop) : Prop :=
  match x with LRow c' _ _ _ _ _ | LDel c' => c' <> [] /\ c' <> c | LHit c' _ _ => c' <> [] end.

Definition has_row (s : Store) (c u : bytes) (a e i : Z) : Prop :=
  exists h oh, index s c = Some (mkEntry u a e i h oh).

Lemma foldl_spares (xs : list lop) (s : Store) (c u : bytes) (a e i : Z) :
  wf s -> Forall (spares c) xs -> has_row s c u a e i -> has_row (foldl apply_lop s xs) c u a e i.
Proof.
  revert s. induction xs as [|x xs IH]; intros s Hw Hx Hr; [done|]. apply Forall_cons in Hx as [Hx Hxs].
  apply IH; [by apply wf_apply|done|]. destruct Hr as (h & oh & Hr). unfold has_row.
  destruct x as [c' u' a' e' i' n'|c' d i'|c']; simpl in Hx.
  - rewrite apply_lop_row, index_apply_row, decide_False by first [apply Hw|naive_solver]. eauto.
  - rewrite apply_lop_hit, index_apply_hit by (apply Hw || done). case_decide; [subst c'|eauto].
    rewrite Hr. simpl. eauto.
  - rewrite apply_lop_del, index_apply_del, decide_False by first [apply Hw|naive_solver]. eauto.
Qed.

Lemma wf_discover (name : bytes) (s : Store) : wf s -> wf (discover name s).
Proof. intros Hw. unfold discover. destruct (tails s !! name); [done|]. by apply (wf_same s). Qed.

(** a link created by a sibling is found as soon as its row is in the
    sibling's log. [Resolve] of a code unknown here, whose first character names
    another instance, reads what that instance's log gained since the last
    look; if that holds a row for the code (not redefined or removed after it),
    the result is the row's URL, unless the row has expired. *)
Theorem Resolve_sees_sibling_row (trackHits : bool) (t1 t2 now : Z) (d : Disk) (s : Store) (ow : Aof)
  (p : byte) (rest u : bytes) (a e i n : Z) (xs ys1 ys2 : list lop)
  (Hw : wf s) (Haof : aof s = Some ow)
  (Hnone : index s (p :: rest) = None) (Ho : 0 <= alpha_index p) (Hi : alpha_index p <> instance s)
  (Hx : Forall lop_ok xs) (Hy : Forall lop_ok (ys1 ++ LRow (p :: rest) u a e i n :: ys2))
  (Hsp : Forall (spares (p :: rest)) ys2)
  (Hbeh : behind s d (logName (alpha_index p)) xs (ys1 ++ LRow (p :: rest) u a e i n :: ys2)) :
  exists s', Resolve trackHits (p :: rest) t1 t2 now d s
    = Ret (if (e =? 0) || (now <? e) then Some u else None, s').
Proof.
  destruct (read_tail_behind s d _ xs _ Hx Hy Hbeh) as (t' & E).
  set (name := logName (alpha_index p)) in *. set (code := p :: rest) in *.
  set (s1 := foldl apply_lop (discover name s) (ys1 ++ LRow code u a e i n :: ys2)) in *.
  assert (has_row s1 code u a e (int32 i)) as (h & oh & Hr).
  { unfold s1. rewrite foldl_app. cbn [foldl].
    set (s2 := foldl apply_lop (discover name s) ys1).
    assert (wf s2) as Hw2 by by apply foldl_apply_facts, wf_discover.
    apply foldl_spares; [by apply wf_apply|done|]. unfold has_row.
    rewrite apply_lop_row, index_apply_row, decide_True by (done || apply Hw2). eauto. }
  unfold Resolve, resolve_miss. rewrite Hnone, Haof. unfold tailOwner. subst code.
  cbv zeta. rewrite Haof. destruct (Z.ltb_spec (alpha_index p) 0); [lia|].
  destruct (Z.eqb_spec (alpha_index p) (instance s)); [done|]. cbn [orb]. fold name. rewrite E.
  cbn [go_bind]. set (s3 := set_tails (insert name t') s1).
  assert (index s3 (p :: rest) = Some (mkEntry u a e (int32 i) h oh)) as Hr3 by exact Hr.
  rewrite Hr3. cbn [go_bind]. rewrite Hr3. unfold live. cbn [e_e e_u].
  destruct ((e =? 0) || (now <? e)); eauto.
Qed.

(** ** What is only in a snapshot *)

Lemma read_tail_empty (d : Disk) (n : bytes) (s : Store) :
  (forall t, tails s !! n = Some t -> file_bytes d (t_path t) = [] /\ 0 <= t_offset t) ->
  exists s', read_tail d n s = Ret s' /\ same_but_tails s s'
    /\ forall k t', tails s' !! k = Some t' -> tails s !! k = Some t' \/ exists t, tails s !! k = Some t
         /\ t_path t' = t_path t /\ 0 <= t_offset t'.
Proof.
  intros Ht. unfold read_tail. destruct (tails s !! n) as [t|] eqn:E.
  2: { exists s. split_and!; [done|done|]. intros k t' Hk. by left. }
  destruct (Ht t eq_refl) as [Hf Ho].
  assert (exists t', read_step d t = (t', []) /\ t_path t' = t_path t /\ 0 <= t_offset t') as (t' & Er & Hp & Ho').
  { unfold read_step, fileSize, file_bytes in *.
    assert (match d !! t_path t with Some f => Z.of_nat (length (content f)) | None => 0 end = 0) as ->.
    { destruct (d !! t_path t) as [f|]; [by rewrite Hf|done]. }
    unfold tail_reset. destruct (Z.ltb_spec 0 (t_offset t)) as [Hlt|Hge].
    - exists (mkTail (t_path t) 0 []). simpl. split_and!; [done|done|lia].
    - destruct (Z.leb_spec 0 (t_offset t)); [|lia]. by exists t. }
  unfold ReadNew. rewrite Er. cbn [go_fold go_bind]. eexists. split; [done|]. split; [done|].
  intros k t2. simpl. rewrite lookup_insert_Some. intros [[<- <-]|[_ Hk]]; [|by left].
  right. by exists t.
Qed.

Definition logs_empty (s : Store) (d : Disk) : Prop :=
  (forall n, n <> ownName s -> HasSuffix n s_log = true -> file_bytes d n = [])
  /\ forall n t, tails s !! n = Some t -> t_path t = n /\ 0 <= t_offset t /\ n <> ownName s
       /\ HasSuffix n s_log = true.

Lemma read_tail_quiet (d : Disk) (n : bytes) (s : Store) :
  logs_empty s d -> exists s', read_tail d n s = Ret s' /\ same_but_tails s s' /\ logs_empty s' d.
Proof.
  intros [Hl Ht]. destruct (read_tail_empty d n s) as (s' & E & F & Hk).
  { intros t Hn. destruct (Ht n t Hn) as (-> & ? & ? & ?). split; [by apply Hl|done]. }
  exists s'. split; [done|]. split; [done|]. destruct F as (_ & _ & _ & _ & _ & _ & Eo & _).
  split; [by rewrite Eo|]. intros k t'. rewrite Eo. intros Hs. destruct (Hk k t' Hs) as [Hs'|(t & Hs' & Hp & Hof)].
  - by apply Ht.
  - destruct (Ht k t Hs') as (Ep & _ & Hne & Hsf). split_and!; [congruence|done|done|done].
Qed.

Lemma discover_quiet (d : Disk) (n : bytes) (s : Store) :
  n <> ownName s -> HasSuffix n s_log = true -> logs_empty s d ->
  same_but_tails s (discover n s) /\ logs_empty (discover n s) d.
Proof.
  intros Hn Hs [Hl Ht]. unfold discover. destruct (tails s !! n); [done|]. split; [done|]. split; [done|].
  intros k t. simpl. rewrite lookup_insert_Some. intros [[<- <-]|[_ Hk]]; [|by apply Ht]. by simpl.
Qed.

Lemma PollTails_quiet (now : Z) (d : Disk) (s : Store) :
  logs_empty s d -> exists s', PollTails now d s = Ret s' /\ same_but_tails s s'.
Proof.
  intros Hq. unfold PollTails. destruct (aof s); [|by exists s].
  assert (forall fs s0, Forall (fun n => n <> ownName s0 /\ HasSuffix n s_log = true) fs -> logs_empty s0 d ->
    same_but_tails s0 (foldl (fun s f => discover f s) s0 fs)
    /\ logs_empty (foldl (fun s f => discover f s) s0 fs) d) as Hdisc.
  { induction fs as [|f fs IH]; intros s0 Hf Hq0; [done|]. apply Forall_cons in Hf as [[Hf1 Hf2] Hf].
    destruct (discover_quiet d f s0 Hf1 Hf2 Hq0) as [F Q].
    assert (ownName (discover f s0) = ownName s0) as Eo by apply F.
    destruct (IH (discover f s0)) as [F' Q']; [by rewrite Eo|done|]. split; [by etransitivity|done]. }
  assert (forall ks s0, logs_empty s0 d ->
    exists s1, go_fold (read_tail d) ks s0 = Ret s1 /\ same_but_tails s0 s1) as Hfold.
  { induction ks as [|k ks IH]; intros s0 Q0; [by exists s0|].
    destruct (read_tail_quiet d k s0 Q0) as (s1 & E1 & F1 & Q1). destruct (IH s1 Q1) as (s2 & E2 & F2).
    exists s2. cbn [go_fold]. rewrite E1. split; [exact E2|by transitivity s1]. }
  destruct (Hdisc (ShardFiles d (ownName s)) s) as [F Q]; [|done|].
  { apply Forall_forall. intros n Hn. by apply ShardFiles_elem in Hn as (_ & _ & ? & ?). }
  destruct (Hfold (range_keys (tails (foldl (fun s f => discover f s) s (ShardFiles d (ownName s))))) _ Q)
    as (s2 & -> & F2). cbn [go_bind].
  exists (set_lastPoll now s2). split; [done|]. etransitivity; [exact F|]. etransitivity; [exact F2|done].
Qed.

(** a running instance never sees links that are only in a sibling's
    snapshot. Once a sibling has compacted, its log is empty and its rows are
    in its snapshot; an instance that had not read them before answers every
    one of those codes with a miss, whatever the snapshots hold. *)
Theorem Resolve_misses_compacted (trackHits : bool) (code : bytes) (t1 t2 now : Z) (d : Disk) (s : Store)
  (Hi : is_int64 (instance s)) (Ho : ownName s = logName (instance s))
  (Hnone : index s code = None) (Hq : logs_empty s d) :
  exists s', Resolve trackHits code t1 t2 now d s = Ret (None, s') /\ index s' code = None.
Proof.
  assert (exists s', resolve_miss code t1 t2 d s = Ret s' /\ same_but_tails s s') as (s' & E & F).
  { unfold resolve_miss. rewrite Hnone. destruct (aof s) as [a|] eqn:Ea; [|by exists s].
    assert (exists s1, tailOwner code d s = Ret s1 /\ same_but_tails s s1 /\ logs_empty s1 d) as (s1 & -> & F1 & Q1).
    { unfold tailOwner. destruct code as [|c code]; [by exists s|]. rewrite Ea.
      pose proof (alpha_index_range c) as Hr.
      destruct ((alpha_index c <? 0) || (alpha_index c =? instance s)) eqn:Eo; [by exists s|].
      apply orb_false_iff in Eo as [Eo1 Eo2].
      assert (sibling_name (ownName s) (logName (alpha_index c))) as (_ & Hs & Hn).
      { rewrite Ho. apply logName_sibling; [done|unfold is_int64; lia|lia]. }
      destruct (discover_quiet d (logName (alpha_index c)) s Hn Hs Hq) as [F Q].
      destruct (read_tail_quiet d (logName (alpha_index c)) _ Q) as (s1 & E1 & F1 & Q1).
      exists s1. split; [done|]. split; [by etransitivity|done]. }
    cbn [go_bind]. destruct (index s1 code); [by exists s1|]. unfold lazyPoll.
    destruct (int64 (t1 - lastPoll s1) <? tailMinInterval); [by exists s1|].
    destruct (PollTails_quiet t2 d (set_lastPoll t1 s1) Q1) as (s2 & -> & F2). exists s2. split; [done|].
    etransitivity; [exact F1|]. etransitivity; [|exact F2]. done. }
  assert (index s' code = None) as Hn' by (rewrite (index_same s) by apply F; done).
  exists s'. split; [|done]. unfold Resolve. rewrite E. cbn [go_bind]. by rewrite Hn'.
Qed.

(** ** Starting among siblings *)

(** a start does not read the siblings' logs. Two directories that differ
    only in what the sibling logs hold give the same store: their rows wait for
    the first look-up or poll. *)
Theorem loadAll_skips_sibling_logs (d d' : Disk) (s : Store)
  (Hown : ownName s = logName (instance s))
  (Hsame : forall n, ~ sibling_name (ownName s) n -> d' !! n = d !! n)
  (Hnames : ShardFiles d' (ownName s) = ShardFiles d (ownName s)) :
  loadAll d' s = loadAll d s.
Proof.
  assert (forall n, HasSuffix n s_log = false \/ n = ownName s -> d' !! n = d !! n) as Hd.
  { intros n Hn. apply Hsame. intros (_ & Hs & Hne). destruct Hn; congruence. }
  assert (ReplayFile d' (snapName (instance s)) applyLine s = ReplayFile d (snapName (instance s)) applyLine s) as E1.
  { unfold ReplayFile. rewrite Hd; [done|]. left. unfold HasSuffix, snapName. by rewrite app_assoc, rev_app_distr. }
  unfold loadAll. rewrite E1.
  assert (forall fs s0, go_fold (load_sibling d') fs s0 = go_fold (load_sibling d) fs s0) as Hfold.
  { induction fs as [|f fs IH]; intros s0; [done|]. cbn [go_fold].
    assert (load_sibling d' f s0 = load_sibling d f s0) as ->.
    { unfold load_sibling, ReplayFile. rewrite Hd; [done|]. left. unfold HasSuffix. by rewrite rev_app_distr. }
    destruct (load_sibling d f s0); [apply IH|done|done]. }
  assert (forall path (s1 s2 : Store), ReplayFile d path applyLine s1 = Ret s2 -> ownName s2 = ownName s1) as Hkeep.
  { intros path s1 s2. unfold ReplayFile. destruct (d !! path) as [f|]; [|by intros [= <-]].
    generalize (replay_lines (content f)). intros ls. revert s1.
    induction ls as [|l ls IH]; intros s1; cbn [go_fold]; [by intros [= <-]|].
    unfold applyLine at 1. destruct (parseLine l) as [[ok o]| |]; [|done|done]. cbn [go_bind].
    intros E. apply IH in E. rewrite E. destruct ok; [|done]. apply (same_frame_apply o s1). }
  destruct (ReplayFile d (snapName (instance s)) applyLine s) as [s1| |] eqn:Es; [|done|done]. cbn [go_bind].
  assert (ownName s1 = ownName s) as Eo1 by by eapply Hkeep.
  assert (ReplayFile d' (ownName s1) applyLine s1 = ReplayFile d (ownName s1) applyLine s1) as ->.
  { unfold ReplayFile. rewrite Hd; [done|]. by right. }
  destruct (ReplayFile d (ownName s1) applyLine s1) as [s2| |] eqn:Es2; [|done|done]. cbn [go_bind].
  assert (ownName s2 = ownName s) as -> by (rewrite <- Eo1; by eapply Hkeep). rewrite Hnames. apply Hfold.
Qed.

End Sibling.

(** * Witnesses

    Instance 1, and what instance 0 has written. *)

Definition demo_inst1 : Store := fresh_store 1 x31 None (Some (mkAof [] (logName 1) true)) (logName 1).
Definition demo_row0 : lop := LRow (lit "0aaaaaaa") (lit "http://a") 10 0 0 0.

Definition demo_log0 : Disk := {[ logName 0 := mkFile (frames (map line_of [demo_row0])) 0 ]}.
Definition demo_snap0 : Disk :=
  <[snapName 0 := mkFile (frames (map line_of [demo_row0])) 0]> {[ logName 0 := empty_file ]}.

Lemma Resolve_sees_sibling_row_witness :
  exists s', Resolve true (lit "0aaaaaaa") 300 300 300 demo_log0 demo_inst1 = Ret (Some (lit "http://a"), s').
Proof.
  apply (Resolve_sees_sibling_row true 300 300 300 demo_log0 demo_inst1 (mkAof [] (logName 1) true)
    x30 (lit "aaaaaaa") (lit "http://a") 10 0 0 0 [] [] []).
  - apply wf_fresh.
  - reflexivity.
  - vm_compute. reflexivity.
  - vm_compute. discriminate.
  - vm_compute. discriminate.
  - apply List.Forall_nil.
  - apply Forall_cons. split; [by vm_compute|apply List.Forall_nil].
  - apply List.Forall_nil.
  - split; [vm_compute; reflexivity|]. split; [by vm_compute|]. exists 0%nat. vm_compute. reflexivity.
Defined.

Lemma demo_snap0_quiet : logs_empty demo_inst1 demo_snap0.
Proof.
  split.
  - intros n _ Hs. unfold file_bytes, demo_snap0.
    destruct (decide (n = snapName 0)) as [->|Hn]; [by vm_compute in Hs|].
    rewrite lookup_insert_ne by done. rewrite lookup_singleton. by case_decide.
  - intros n t. simpl. rewrite lookup_empty. intros [=].
Qed.

Lemma Resolve_misses_compacted_witness :
  (exists s', Resolve true (lit "0aaaaaaa") 300 300 300 demo_snap0 demo_inst1 = Ret (None, s'))
  /\ match loadAll demo_snap0 demo_inst1 with
     | Ret s => e_u <$> index s (lit "0aaaaaaa") = Some (lit "http://a")
     | _ => False
     end.
Proof.
  split; [|vm_compute; reflexivity].
  destruct (Resolve_misses_compacted true (lit "0aaaaaaa") 300 300 300 demo_snap0 demo_inst1)
    as (s' & E & _).
  - vm_compute. split; [discriminate|reflexivity].
  - reflexivity.
  - vm_compute. reflexivity.
  - exact demo_snap0_quiet.
  - exists s'. exact E.
Defined.

Lemma loadAll_skips_sibling_logs_witness :
  loadAll {[ logName 0 := empty_file ]} demo_inst1 = loadAll demo_log0 demo_inst1.
Proof.
  apply loadAll_skips_sibling_logs.
  - reflexivity.
  - intros n Hn. unfold demo_log0. destruct (decide (n = logName 0)) as [->|Hne].
    + exfalso. apply Hn. split; [by vm_compute|]. split; [by vm_compute|]. by vm_compute.
    + by rewrite !lookup_singleton_ne by congruence.
  - vm_compute. reflexivity.
Defined.
