(* ===== verification/Queue.v ===== *)
(** * Queue: what a flush and a compaction write

    The hit lines of a flush are the pending deltas of the index, each code
    once; the rows of a snapshot are the entries the instance owns, each code
    once. Replaying either has the effect one expects on every code. *)

From S2P Require Import Prelude GoStd LogLine Aof Store StoreSpec Replay Alone.
From stdpp Require Import options.

Section Queue.
Context `{MapOrder} `{SliceSort}.

(** ** Hit deltas *)

Definition shard_pending (sh : shard) : list (bytes * Z) :=
  map (fun c => (c, default 0 (dirty sh !! c))) (range_keys (dirty sh)).

Definition pending (s : Store) : list (bytes * Z) := concat (map shard_pending (shards s)).

Definition hit_of (inst : Z) (p : bytes * Z) : lop := LHit p.1 p.2 inst.

Lemma hit_lines_pending (s : Store) :
  hit_lines s = map line_of (map (hit_of (instance s)) (pending s)).
Proof.
  unfold hit_lines, pending. rewrite !concat_map, !map_map. f_equal. apply map_ext. intros sh.
  unfold shard_hit_lines, shard_pending. by rewrite !map_map.
Qed.

Lemma shard_pending_elem (sh : shard) (c : bytes) (d : Z) :
  (c, d) ∈ shard_pending sh <-> dirty sh !! c = Some d.
Proof.
  unfold shard_pending. rewrite list_elem_of_fmap. split.
  - intros (c' & [= -> ->] & Hc). apply range_keys_elem in Hc as [d Hd]. by rewrite Hd.
  - intros E. exists c. rewrite E. split; [done|]. apply range_keys_elem. by exists d.
Qed.

Lemma pending_elem (s : Store) (c : bytes) (d : Z) :
  wf s -> (c, d) ∈ pending s <-> dirty_at s c = Some d.
Proof.
  intros Hw. unfold pending. rewrite list_elem_of_In, in_concat. split.
  - intros (l & Hl & Hc). apply in_map_iff in Hl as (sh & <- & Hsh).
    apply list_elem_of_In, list_elem_of_lookup in Hsh as [k Hk].
    apply list_elem_of_In, shard_pending_elem in Hc. apply get_shard_lookup in Hk.
    assert (shardOf c = k) as Es by (apply (wf_dirty s Hw); rewrite Hk; by exists d).
    unfold dirty_at. by rewrite Es, Hk.
  - intros Hd. unfold dirty_at, get_shard in Hd.
    destruct (shards s !! shardOf c) as [sh|] eqn:Ek; simpl in Hd; [|by rewrite lookup_empty in Hd].
    exists (shard_pending sh). split.
    + apply in_map_iff. exists sh. split; [done|]. apply list_elem_of_In, list_elem_of_lookup. eauto.
    + by apply list_elem_of_In, shard_pending_elem.
Qed.

Lemma NoDup_pending (s : Store) : wf s -> NoDup (pending s).*1.
Proof.
  intros Hw. unfold pending.
  assert ((concat (map shard_pending (shards s))).*1
          = concat (map (fun sh => range_keys (dirty sh)) (shards s))) as ->.
  { change (fmap fst ?l) with (map fst l). rewrite concat_map, map_map. f_equal. apply map_ext.
    intros sh. unfold shard_pending. rewrite map_map. apply map_id. }
  apply (NoDup_shards s _ id); [done|intros; apply range_keys_NoDup|].
  intros sh c Hc. right. by apply range_keys_elem.
Qed.

(** Replaying deltas of distinct codes adds each to its entry. *)
Lemma replay_hits (ps : list (bytes * Z)) (r : Store) (c : bytes) :
  wf r -> NoDup ps.*1 -> Forall (fun p => p.1 <> []) ps ->
  index (foldl apply_lop r (map (hit_of (instance r)) ps)) c
  = match list_find (fun p => p.1 = c) ps with
    | Some (_, (_, d)) => add_hits true d <$> index r c
    | None => index r c
    end.
Proof.
  revert r. induction ps as [|[c0 d0] ps IH]; intros r Hw Hnd Hne; [done|].
  apply Forall_cons in Hne as [Hc0 Hne]. apply NoDup_cons in Hnd as [Hni Hnd].
  set (r1 := apply_lop r (LHit c0 d0 (instance r))).
  assert (instance r1 = instance r) as Hi by apply instance_apply.
  specialize (IH r1 (wf_apply _ _ Hw) Hnd Hne). rewrite Hi in IH.
  cbn [map foldl]. change (apply_lop r (hit_of (instance r) (c0, d0))) with r1. rewrite IH.
  assert (index r1 c = if decide (c0 = c) then add_hits true d0 <$> index r c else index r c) as E1.
  { unfold r1. rewrite apply_lop_hit, index_apply_hit, Z.eqb_refl by (apply Hw || done).
    by case_decide; [subst|]. }
  rewrite E1. cbn [list_find fst]. destruct (decide (c0 = c)) as [->|Hne0].
  - assert (list_find (fun p => p.1 = c) ps = None) as ->; [|done].
    apply list_find_None, Forall_forall. intros [c' d'] Hp E. simpl in E. subst c'.
    apply Hni. apply list_elem_of_fmap. by exists (c, d').
  - destruct (list_find (fun p => p.1 = c) ps) as [[k [c' d']]|]; done.
Qed.

Lemma list_find_pending (s : Store) (c : bytes) :
  wf s ->
  match list_find (fun p => p.1 = c) (pending s) with
  | Some (_, (_, d)) => dirty_at s c = Some d
  | None => dirty_at s c = None
  end.
Proof.
  intros Hw. destruct (list_find _ _) as [[k [c' d]]|] eqn:E.
  - apply list_find_Some in E as (Hk & Ec & _). simpl in Ec. subst c'.
    apply pending_elem; [done|]. by eapply list_elem_of_lookup_2.
  - apply list_find_None in E. destruct (dirty_at s c) as [d|] eqn:Ed; [|done].
    apply pending_elem in Ed; [|done]. rewrite Forall_forall in E. by destruct (E _ Ed).
Qed.

(** After a flush the index is what it was and nothing is pending. *)
Lemma clear_dirty_view (s : Store) (c : bytes) :
  index (clear_dirty s) c = index s c /\ dirty_at (clear_dirty s) c = None.
Proof.
  unfold index, dirty_at, get_shard. simpl. rewrite list_lookup_fmap.
  destruct (shards s !! shardOf c); simpl; [done|]. by rewrite lookup_empty.
Qed.

Lemma wf_clear_dirty (s : Store) : wf s -> wf (clear_dirty s).
Proof.
  intros [Hl Hd Hy]. split.
  - simpl. by rewrite length_map.
  - intros k c. unfold get_shard. simpl. rewrite list_lookup_fmap. intros Hs. apply Hd.
    unfold get_shard. by destruct (shards s !! k).
  - intros k c. unfold get_shard. simpl. rewrite list_lookup_fmap.
    destruct (shards s !! k); simpl; rewrite lookup_empty; by intros [? ?].
Qed.

(** ** Snapshot rows *)

Definition own_row (inst : Z) (sh : shard) (c : bytes) : option lop :=
  match data sh !! c with
  | Some e => if e_i e =? inst then Some (LRow c (e_u e) (e_a e) (e_e e) (e_i e) (e_oh e)) else None
  | None => None
  end.

Definition own_rows (s : Store) : list lop :=
  concat (map (fun sh => omap (own_row (instance s) sh) (range_keys (data sh))) (shards s)).

Lemma snapshot_rows_own (s : Store) : snapshot_rows s = map line_of (own_rows s).
Proof.
  unfold snapshot_rows, own_rows. rewrite concat_map, map_map. f_equal. apply map_ext. intros sh.
  unfold shard_rows. induction (range_keys (data sh)) as [|c l IH]; simpl; [done|].
  unfold own_row at 1. destruct (data sh !! c) as [e|]; [|done].
  destruct (e_i e =? instance s); [|done]. simpl. by f_equal.
Qed.

Lemma own_rows_elem (s : Store) (x : lop) :
  wf s ->
  x ∈ own_rows s <-> exists c e, index s c = Some e /\ e_i e = instance s
    /\ x = LRow c (e_u e) (e_a e) (e_e e) (e_i e) (e_oh e).
Proof.
  intros Hw. unfold own_rows. rewrite list_elem_of_In, in_concat. split.
  - intros (l & Hl & Hx). apply in_map_iff in Hl as (sh & <- & Hsh).
    apply list_elem_of_In, list_elem_of_lookup in Hsh as [k Hk].
    apply list_elem_of_In, list_elem_of_omap in Hx as (c & _ & Hx). unfold own_row in Hx.
    destruct (data sh !! c) as [e|] eqn:E; [|done].
    destruct (Z.eqb_spec (e_i e) (instance s)) as [Ei|]; [|done]. injection Hx as <-.
    apply get_shard_lookup in Hk.
    assert (shardOf c = k) as Ek by (apply (wf_data s Hw); rewrite Hk; by exists e).
    exists c, e. split; [unfold index; by rewrite Ek, Hk|done].
  - intros (c & e & He & Ei & ->). unfold index, get_shard in He.
    destruct (shards s !! shardOf c) as [sh|] eqn:Ek; simpl in He; [|by rewrite lookup_empty in He].
    eexists. split.
    + apply in_map_iff. exists sh. split; [done|]. apply list_elem_of_In, list_elem_of_lookup. eauto.
    + apply list_elem_of_In, list_elem_of_omap. exists c. split; [by apply range_keys_elem; exists e|].
      unfold own_row. by rewrite He, Ei, Z.eqb_refl.
Qed.

Lemma row_codes_own (inst : Z) (sh : shard) (l : list bytes) :
  row_codes (omap (own_row inst sh) l) `sublist_of` l.
Proof.
  induction l as [|c l IH]; simpl; [constructor|]. unfold own_row at 1.
  destruct (data sh !! c) as [e|]; [|by apply sublist_cons].
  destruct (e_i e =? inst); [by apply sublist_skip|by apply sublist_cons].
Qed.

Lemma row_codes_concat (ls : list (list lop)) : row_codes (concat ls) = concat (map row_codes ls).
Proof. induction ls as [|l ls IH]; [done|]. unfold row_codes in *. simpl. by rewrite omap_app, IH. Qed.

Lemma own_rows_creates (s : Store) :
  wf s -> (forall c e, index s c = Some e -> c <> []) -> creates_only (own_rows s).
Proof.
  intros Hw Hne. split.
  - unfold own_rows. rewrite row_codes_concat, map_map. apply (NoDup_shards s _ id); [done|..].
    + intros sh. eapply sublist_NoDup; [apply (range_keys_NoDup (data sh))|apply row_codes_own].
    + intros sh c Hc. left. apply range_keys_elem.
      eapply elem_of_sublist; [exact Hc|apply row_codes_own].
  - apply Forall_forall. intros x Hx. apply own_rows_elem in Hx as (c & e & He & _ & ->); [|done].
    by eapply Hne.
Qed.

(** Loading a snapshot: the owned entries, with their own hits as hits. *)
Lemma replay_own_rows (s : Store) (c : bytes) :
  wf s -> (forall c e, index s c = Some e -> c <> []) ->
  (forall k, strayHits (replay (instance s) (own_rows s)) !! k = None)
  /\ index (replay (instance s) (own_rows s)) c
  = match index s c with
    | Some e => if e_i e =? instance s
                then Some (mkEntry (e_u e) (e_a e) (e_e e) (int32 (e_i e)) (int64 (e_oh e)) (int64 (e_oh e)))
                else None
    | None => None
    end.
Proof.
  intros Hw Hne. pose proof (own_rows_creates s Hw Hne) as Hcr.
  assert (forall x, x ∈ own_rows s -> exists c u a e i n, x = LRow c u a e i n) as Hrows.
  { intros x Hx. apply own_rows_elem in Hx as (c' & e & _ & _ & ->); [|done]. eauto 7. }
  assert (omap (fun x => match x with LHit c _ _ => Some c | _ => None end) (own_rows s) = []) as Ehc.
  { induction (own_rows s) as [|x l IH]; [done|]. simpl.
    destruct (Hrows x) as (? & ? & ? & ? & ? & ? & ->); [by left|]. apply IH.
    - destruct Hcr as [Hcr1 Hcr2]. split; [by apply NoDup_cons in Hcr1 as [_ ?]|by inversion Hcr2].
    - intros y Hy. apply Hrows. by right. }
  assert (hit_codes (own_rows s) = ∅) as Eh by (unfold hit_codes; by rewrite Ehc).
  assert (forall c, hits_on c (own_rows s) = 0 /\ own_hits_on (instance s) c (own_rows s) = 0) as H0s.
  { intros c'. induction (own_rows s) as [|x l IH]; [done|]. simpl.
    destruct (Hrows x) as (? & ? & ? & ? & ? & ? & ->); [by left|]. simpl in Ehc, Eh. apply IH; try done.
    - destruct Hcr as [Hcr1 Hcr2]. split; [by apply NoDup_cons in Hcr1 as [_ ?]|by inversion Hcr2].
    - intros y Hy. apply Hrows. by right. }
  destruct (log_state_replay (instance s) (own_rows s) Hcr) as (_ & _ & Hd & Hc).
  { rewrite Eh, size_empty. unfold maxStrayHits. lia. }
  split.
  - intros k. apply not_elem_of_dom. rewrite Eh in Hd. set_solver.
  - destruct (Hc c) as [He _]. destruct (H0s c) as [E1 E2].
    destruct (index (replay (instance s) (own_rows s)) c) as [e'|]; simpl in He.
    + destruct He as (u & a & ex & i & n & Hx & ->). rewrite E1, E2, !Z.add_0_r.
      apply own_rows_elem in Hx as (c' & e & He & Ei & [=]); [|done]. subst.
      by rewrite He, Ei, Z.eqb_refl.
    + destruct (index s c) as [e|] eqn:Ee; [|done].
      destruct (Z.eqb_spec (e_i e) (instance s)) as [Ei|]; [|done]. exfalso. apply He.
      apply row_codes_elem. do 5 eexists. apply own_rows_elem; [done|]. eauto.
Qed.

End Queue.
