(* ===== verification/Durable.v ===== *)
(** * Durable: the index, and what its files would load into

    The invariant between a running store with no siblings and its directory:
    the snapshot and the log, followed by what is still queued, replay to the
    same links, and as long as no link was updated or removed, the replayed
    counters plus the pending deltas are the counters of the index. Every
    operation keeps it. *)

From S2P Require Import Prelude GoStd Base62 LogLine Aof Store StoreSpec Replay Alone Queue.
From stdpp Require Import options.

(** The persisted part of an entry, and an entry the store can write down. *)
Definition same_row (e e' : entry) : Prop :=
  e_u e = e_u e' /\ e_a e = e_a e' /\ e_e e = e_e e' /\ e_i e = e_i e'.

Definition entry_ok (inst : Z) (c : bytes) (e : entry) : Prop :=
  code_ok c /\ is_int64 (e_a e) /\ is_int64 (e_e e) /\ e_i e = inst
  /\ is_int64 (e_h e) /\ is_int64 (e_oh e).

(** The index [s] against what replay gives, [r]; with [strict], counters too. *)
Definition agrees (strict : bool) (s r : Store) : Prop :=
  (forall c, option_Forall2 same_row (index s c) (index r c))
  /\ (strict = true ->
      (forall c, strayHits r !! c = None) /\
      (forall c, index s c = None -> dirty_at s c = None) /\
      forall c e e', index s c = Some e -> index r c = Some e' ->
        e_h e = e_oh e /\ e_h e = int64 (e_h e' + dirty_of s c)
        /\ e_oh e = int64 (e_oh e' + dirty_of s c)).

Section Durable.
Context `{MapOrder} `{SliceSort}.

Definition replayed (s : Store) (xs : list lop) : Store := replay (instance s) xs.

(** What the store has, apart from the files. *)
Record sane (s : Store) : Prop := {
  sa_wf : wf s;
  sa_inst : 0 <= instance s < 62;
  sa_prefix : alpha_at (instance s) = Ret (prefix s);
  sa_own : ownName s = logName (instance s);
  sa_entries : forall c e, index s c = Some e -> entry_ok (instance s) c e;
  sa_dirty : forall c d, dirty_at s c = Some d -> code_ok c /\ is_int64 d
}.

(** What its files hold: [snap] in the snapshot, [log] in the log and queue. *)
Record filed (s : Store) (d : Disk) (snap log : list lop) : Prop := {
  fi_aof : exists a, aof s = Some a /\ a_path a = logName (instance s)
             /\ log_holds d a (map line_of log) 0;
  fi_ok : Forall lop_ok (snap ++ log);
  fi_snap : file_bytes d (snapName (instance s)) = frames (map line_of snap);
  fi_synced : forall n f, d !! n = Some f -> (synced f <= length (content f))%nat;
  fi_alone : alone s d
}.

Record durable (strict : bool) (s : Store) (d : Disk) (snap log : list lop) : Prop := {
  du_sane : sane s;
  du_filed : filed s d snap log;
  du_agrees : agrees strict s (replayed s (snap ++ log))
}.

Lemma replayed_snoc (s : Store) (xs : list lop) (x : lop) :
  replayed s (xs ++ [x]) = apply_lop (replayed s xs) x.
Proof. unfold replayed, replay. by rewrite foldl_snoc. Qed.

Lemma inst_int32 (i : Z) : 0 <= i < 62 -> int32 i = i.
Proof. intros. apply int32_id. unfold is_int32. lia. Qed.

Lemma inst_int64 (i : Z) : 0 <= i < 62 -> is_int64 i.
Proof. unfold is_int64. lia. Qed.

Lemma sane_same (s s' : Store) :
  shards s' = shards s -> instance s' = instance s -> prefix s' = prefix s ->
  ownName s' = ownName s -> sane s -> sane s'.
Proof.
  intros E Ei Ep Eo [Hw Hi Hp Ho He Hd].
  split; rewrite ?Ei, ?Ep, ?Eo; try done.
  - by apply (wf_same s).
  - intros c e. rewrite (index_same s) by done. apply He.
  - intros c x. rewrite (dirty_at_same s) by done. apply Hd.
Qed.

Lemma agrees_same (strict : bool) (s s' r : Store) :
  shards s' = shards s -> agrees strict s r -> agrees strict s' r.
Proof.
  intros E. unfold agrees, index, dirty_of, dirty_at, get_shard. by rewrite E.
Qed.

(** ** Names *)

Lemma snapName_ne_logName (i j : Z) : snapName i <> logName j.
Proof.
  assert (forall X Y : bytes, rev s_snap ++ X <> rev s_log ++ Y) as Hne by (intros X Y E; discriminate E).
  unfold snapName, logName. intros E. apply (f_equal (@rev byte)) in E.
  rewrite !rev_app_distr, <- !app_assoc in E. by apply Hne in E.
Qed.

Lemma snapName_no_log (i : Z) : HasSuffix (snapName i) s_log = false.
Proof. unfold HasSuffix, snapName. by rewrite app_assoc, rev_app_distr. Qed.

Lemma tmp_no_log (n : bytes) : HasSuffix (n ++ s_tmp) s_log = false.
Proof. unfold HasSuffix. by rewrite rev_app_distr. Qed.

Lemma lock_no_log (i : Z) : HasSuffix (lock_name i) s_log = false.
Proof. unfold HasSuffix, lock_name. by rewrite app_assoc, rev_app_distr. Qed.

(** A lock file is neither log nor snapshot. *)
Lemma lock_ne (i j : Z) : lock_name i <> logName j /\ lock_name i <> snapName j.
Proof.
  split; intros E; apply (f_equal (@rev byte)) in E; unfold lock_name, logName, snapName in E;
    rewrite !rev_app_distr, <- ?app_assoc in E; discriminate E.
Qed.

(** ** The steps on the agreement *)

(** A new link, or a new row for a link: the row that is logged is the one
    that is filed. *)
Lemma agrees_row (strict : bool) (s s' r : Store) (c u : bytes) (a e h oh : Z) :
  0 <= instance s < 62 -> c <> [] -> length (shards r) = numShards ->
  (forall c', index s' c' = if decide (c = c') then Some (mkEntry u a e (instance s) h oh) else index s c') ->
  (forall c', dirty_at s' c' = dirty_at s c') ->
  (strict = true -> index s c = None /\ h = 0 /\ oh = 0) ->
  agrees strict s r -> agrees strict s' (apply_lop r (LRow c u a e (instance s) 0)).
Proof.
  intros Hi Hc Hl Hidx Hdirty Hstr [Hrow Hcnt].
  assert (forall c', index (apply_lop r (LRow c u a e (instance s) 0)) c' = if decide (c = c')
    then Some (mkEntry u a e (instance s) (int64 (st_t (stray_of r c))) (int64 (st_o (stray_of r c))))
    else index r c') as Hr.
  { intros c'. rewrite apply_lop_row, index_apply_row, inst_int32 by done. done. }
  split.
  - intros c'. rewrite Hidx, Hr. case_decide; [|done]. by constructor.
  - intros Hst. destruct (Hstr Hst) as (Hn & -> & ->). destruct (Hcnt Hst) as (Hs & Hd & He).
    split_and!.
    + intros c'. rewrite apply_lop_row by done. transitivity (delete c (strayHits r) !! c').
      { unfold apply_row. cbn [o_c row_op]. by destruct (strayHits r !! c). }
      destruct (decide (c = c')) as [<-|]; [apply lookup_delete_eq|by rewrite lookup_delete_ne].
    + intros c'. rewrite Hidx, Hdirty. case_decide; [done|apply Hd].
    + intros c' e1 e2. rewrite Hidx, Hr, dirty_of_at, Hdirty. case_decide as Ec; [|apply He].
      subst c'. intros [= <-] [= <-]. simpl. unfold stray_of. rewrite Hs, (Hd c Hn). done.
Qed.

(** One counted hit, still pending. *)
Lemma agrees_count (strict : bool) (s r : Store) (c : bytes) (e : entry) :
  wf s -> index s c = Some e -> agrees strict s r -> agrees strict (count_hit c e s) r.
Proof.
  intros Hw He [Hrow Hcnt].
  assert (forall c', index (count_hit c e s) c' = if decide (c = c')
    then Some (mkEntry (e_u e) (e_a e) (e_e e) (e_i e) (int64 (e_h e + 1)) (int64 (e_oh e + 1)))
    else index s c') as Hidx.
  { intros c'. unfold count_hit. rewrite index_bump by auto with store. apply index_put, Hw. }
  assert (forall c', dirty_at (count_hit c e s) c'
    = if decide (c = c') then Some (int64 (dirty_of s c + 1)) else dirty_at s c') as Hd.
  { intros c'. unfold count_hit. rewrite dirty_at_bump by auto with store.
    rewrite dirty_of_put by auto with store. unfold put_entry.
    by rewrite dirty_at_data by auto using shardOf_bound with store. }
  split.
  - intros c'. rewrite Hidx. case_decide as Ec; [|done]. subst c'. specialize (Hrow c).
    rewrite He in Hrow. inversion Hrow as [? e' Hsr|]; subst. by constructor.
  - intros Hst. destruct (Hcnt Hst) as (Hs & Hdn & Hce). split_and!; [done| |].
    + intros c'. rewrite Hidx, Hd. case_decide; [done|apply Hdn].
    + intros c' e1 e2. rewrite Hidx, dirty_of_at, Hd. case_decide as Ec; [|apply Hce].
      subst c'. intros [= <-] E2. destruct (Hce c e e2 He E2) as (E & Eh & Eo). simpl.
      rewrite Eh, Eo, int64_add_l, int64_add_r, int64_add_l, int64_add_r.
      split_and!; [|f_equal; lia|f_equal; lia]. rewrite <- int64_add_l, <- Eh, E, Eo.
      by rewrite int64_add_l.
Qed.

Lemma agrees_del (s s' r : Store) (c : bytes) :
  c <> [] -> length (shards r) = numShards ->
  (forall c', index s' c' = if decide (c = c') then None else index s c') ->
  agrees false s r -> agrees false s' (apply_lop r (LDel c)).
Proof.
  intros Hc Hl Hidx [Hrow _]. split; [|done]. intros c'.
  rewrite Hidx, apply_lop_del, index_apply_del by done. by case_decide; [constructor|].
Qed.

Lemma same_row_add_hits (own : bool) (d : Z) (e e' : entry) : same_row e e' -> same_row e (add_hits own d e').
Proof. done. Qed.

Lemma stray_hits_none (ps : list (bytes * Z)) (r : Store) :
  wf r -> Forall (fun p => p.1 <> [] /\ is_Some (index r p.1)) ps -> (forall c, strayHits r !! c = None) ->
  forall c, strayHits (foldl apply_lop r (map (hit_of (instance r)) ps)) !! c = None.
Proof.
  revert r. induction ps as [|[c0 d0] ps IH]; intros r Hw Hf Hn c; [apply Hn|].
  apply Forall_cons in Hf as [[Hc0 [e0 He0]] Hf]. cbn [map foldl]. simpl in Hc0, He0.
  specialize (IH (apply_lop r (hit_of (instance r) (c0, d0)))).
  replace (instance (apply_lop _ _)) with (instance r) in IH by (symmetry; apply instance_apply).
  apply IH; [by apply wf_apply| |]; unfold hit_of; cbn [fst snd]; rewrite apply_lop_hit by done.
  - eapply Forall_impl; [exact Hf|]. intros [c1 d1] [Hc1 Hs1]. split; [done|]. simpl in *.
    rewrite index_apply_hit by apply Hw. case_decide as Ec; [|done]. rewrite Ec. by apply fmap_is_Some.
  - intros c1. unfold apply_hit. by rewrite He0.
Qed.

(** The pending deltas, once logged, are in the replayed counters. *)
Lemma agrees_flush (strict : bool) (s s' r : Store) :
  wf s -> wf r -> instance r = instance s ->
  (forall c d, dirty_at s c = Some d -> c <> []) ->
  (forall c, index s' c = index s c /\ dirty_at s' c = None) ->
  agrees strict s r ->
  agrees strict s' (foldl apply_lop r (map (hit_of (instance s)) (pending s))).
Proof.
  intros Hw Hr Ei Hne Hs' [Hrow Hcnt].
  assert (Forall (fun p => p.1 <> []) (pending s)) as Hpn.
  { apply Forall_forall. intros [c d] Hp. apply pending_elem in Hp; [|done]. by eapply Hne. }
  assert (forall c, index (foldl apply_lop r (map (hit_of (instance s)) (pending s))) c
    = match dirty_at s c with Some d => add_hits true d <$> index r c | None => index r c end) as Hidx.
  { intros c. rewrite <- Ei, replay_hits by (done || by apply NoDup_pending).
    pose proof (list_find_pending s c Hw) as Hf. by destruct (list_find _ _) as [[k [c' d]]|]; rewrite Hf. }
  split.
  - intros c. destruct (Hs' c) as [-> _]. rewrite Hidx. specialize (Hrow c).
    destruct (dirty_at s c); [|done]. inversion Hrow as [e e' Hsr|]; constructor. by apply same_row_add_hits.
  - intros Hst. destruct (Hcnt Hst) as (Hstr & Hdn & Hce). split_and!.
    + rewrite <- Ei. apply stray_hits_none; [done| |done]. apply Forall_forall. intros [c d] Hp.
      apply pending_elem in Hp; [|done]. split; [by eapply Hne|]. simpl. specialize (Hrow c).
      destruct (index s c) as [e|] eqn:E; [inversion Hrow; eauto|]. apply Hdn in E. congruence.
    + intros c _. apply Hs'.
    + intros c e e2. destruct (Hs' c) as [-> Ed]. rewrite dirty_of_at, Ed, Hidx. intros He Hr2.
      destruct (dirty_at s c) as [d|] eqn:Edc.
      * apply fmap_Some in Hr2 as (e' & He' & ->). destruct (Hce c e e' He He') as (E & Eh & Eo).
        rewrite dirty_of_at, Edc in Eh, Eo. simpl in *. by rewrite !Z.add_0_r, !int64_idem.
      * destruct (Hce c e e2 He Hr2) as (E & Eh & Eo). by rewrite dirty_of_at, Edc in Eh, Eo.
Qed.

(** ** The files *)

Lemma file_bytes_same (d d' : Disk) (n : bytes) : d' !! n = d !! n -> file_bytes d' n = file_bytes d n.
Proof. intros E. unfold file_bytes. by rewrite E. Qed.

Lemma alone_disk (s s' : Store) (d d' : Disk) :
  ownName s' = ownName s -> tails s' = tails s ->
  (forall n, sibling_name (ownName s) n -> d' !! n = d !! n) -> alone s d -> alone s' d'.
Proof.
  intros Eo Et Hd [Hs Ht]. split; [|by rewrite Et, Eo]. rewrite Eo.
  destruct (ShardFiles d' (ownName s)) as [|n l] eqn:E; [done|exfalso].
  assert (n ∈ ShardFiles d' (ownName s)) as Hn by (rewrite E; by left).
  apply ShardFiles_elem in Hn as (Hi & Hsib). rewrite Hd in Hi by done.
  destruct Hi as [f Hf]. by rewrite (alone_absent d _ n Hs Hsib) in Hf.
Qed.

(** An operation of the writer: it touches its own file only. *)
Lemma filed_write (s s' : Store) (d d' : Disk) (snap log log' : list lop) (a' : Aof) :
  0 <= instance s < 62 -> ownName s = logName (instance s) ->
  instance s' = instance s -> ownName s' = ownName s -> tails s' = tails s -> aof s' = Some a' ->
  a_path a' = logName (instance s) -> log_holds d' a' (map line_of log') 0 ->
  (forall n, n <> logName (instance s) -> d' !! n = d !! n) ->
  Forall lop_ok (snap ++ log') ->
  filed s d snap log -> filed s' d' snap log'.
Proof.
  intros Hi Ho Ei Eo Et Ea Hp Hl Hd Hok [_ _ Hs Hsy Hal]. split.
  - exists a'. by rewrite Ei.
  - done.
  - rewrite Ei. rewrite (file_bytes_same d) by (apply Hd, snapName_ne_logName). done.
  - intros n f. destruct (decide (n = logName (instance s))) as [->|Hn]; [|rewrite Hd by done; apply Hsy].
    destruct Hl as (_ & f' & Hf' & _ & Hn). rewrite <- Hp, Hf'. intros [= <-]. lia.
  - eapply alone_disk; [done|done| |done]. intros n (_ & _ & Hn). apply Hd. by rewrite <- Ho.
Qed.

Lemma filed_push (s s' : Store) (d : Disk) (snap log : list lop) (x : lop) :
  0 <= instance s < 62 -> ownName s = logName (instance s) ->
  instance s' = instance s -> ownName s' = ownName s -> tails s' = tails s ->
  aof s' = Push (line_of x) <$> aof s -> lop_ok x ->
  filed s d snap log -> filed s' d snap (log ++ [x]).
Proof.
  intros Hi Ho Ei Eo Et Ea Hx Hf. pose proof Hf as [(a & Ha & Hp & Hl) Hok _ _ _].
  rewrite Ha in Ea. eapply filed_write; try done.
  - rewrite map_app. by apply log_holds_push.
  - rewrite app_assoc. apply Forall_app. split; [done|]. by apply Forall_singleton.
Qed.

Lemma push_all_holds (d : Disk) (a : Aof) (ls ls' : list bytes) (n : nat) :
  log_holds d a ls n ->
  log_holds d (foldl (fun a l => Push l a) a ls') (ls ++ ls') n
  /\ a_path (foldl (fun a l => Push l a) a ls') = a_path a.
Proof.
  revert a ls. induction ls' as [|l ls' IH]; intros a ls Hl; [by rewrite app_nil_r|].
  destruct (IH (Push l a) (ls ++ [l]) (log_holds_push _ _ _ _ _ Hl)) as [Hh Hp].
  rewrite <- app_assoc in Hh. by split.
Qed.

(** ** Flushing *)

Lemma pending_lops_ok (s : Store) : sane s -> Forall lop_ok (map (hit_of (instance s)) (pending s)).
Proof.
  intros Hs. apply Forall_fmap, Forall_forall. intros [c d] Hp.
  apply pending_elem in Hp; [|apply Hs]. apply (sa_dirty s Hs) in Hp as [Hc Hd].
  simpl. split; [done|]. split; [done|]. apply inst_int64, Hs.
Qed.

(** What a flush does to the store and its files, whatever the index agrees with. *)
Lemma flush_filed (s : Store) (d : Disk) (snap log : list lop) :
  sane s -> filed s d snap log ->
  let log' := log ++ map (hit_of (instance s)) (pending s) in
  let '(s', d') := flushLocked s d in
  sane s' /\ filed s' d' snap log'
  /\ (forall c, index s' c = index s c /\ dirty_at s' c = None)
  /\ instance s' = instance s /\ closed s' = closed s
  /\ (exists a', aof s' = Some a' /\ a_buf a' = [])
  /\ file_bytes d' (logName (instance s)) = frames (map line_of log').
Proof.
  intros Hsane Hfiled. pose proof Hsane as [Hw Hi Hp Ho He Hd].
  pose proof Hfiled as [(a & Ha & Hpath & Hl) Hok _ _ _]. cbv zeta. unfold flushLocked. rewrite Ha.
  destruct (push_all_holds d a _ (hit_lines s) 0 Hl) as [Hl1 Hp1].
  unfold Aof.Flush. pose proof (flushLocked_holds _ _ _ _ Hl1) as F.
  destruct (Aof.flushLocked d _) as [a2 d2]. destruct F as (Hl2 & Hb & Hp2 & (f & Hf & Hc) & Hd2).
  rewrite Hp1, Hpath in *. rewrite hit_lines_pending, <- map_app in *.
  set (s' := set_aof (Some a2) (clear_dirty s)).
  assert (forall c, index s' c = index s c /\ dirty_at s' c = None) as Hview.
  { intros c. destruct (clear_dirty_view s c) as [E1 E2]. by rewrite <- E1, <- E2. }
  split_and!; [| |done|done|done|by exists a2|by unfold file_bytes; rewrite Hf].
  - split; try done.
    + by apply (wf_same (clear_dirty s)), wf_clear_dirty.
    + intros c e. destruct (Hview c) as [-> _]. apply He.
    + intros c x. destruct (Hview c) as [_ ->]. done.
  - eapply (filed_write s); try done. rewrite app_assoc. apply Forall_app. split; [done|].
    by apply pending_lops_ok.
Qed.

Lemma flush_durable (strict : bool) (s : Store) (d : Disk) (snap log : list lop) :
  durable strict s d snap log ->
  let log' := log ++ map (hit_of (instance s)) (pending s) in
  let '(s', d') := flushLocked s d in
  durable strict s' d' snap log'
  /\ (forall c, index s' c = index s c /\ dirty_at s' c = None)
  /\ instance s' = instance s /\ closed s' = closed s
  /\ (exists a', aof s' = Some a' /\ a_buf a' = [])
  /\ file_bytes d' (logName (instance s)) = frames (map line_of log').
Proof.
  intros [Hsane Hfiled Hag]. pose proof (flush_filed s d snap log Hsane Hfiled) as F. cbv zeta in *.
  destruct (flushLocked s d) as [s' d']. destruct F as (Hs' & Hf' & Hview & Ei & Hrest).
  split_and!; [|done|done|apply Hrest..]. split; [done|done|].
  unfold replayed, replay in *. rewrite Ei, app_assoc, foldl_app.
  apply (agrees_flush strict s); try done; [apply Hsane|apply wf_replay|apply instance_replay|].
  intros c x Hx. by apply (sa_dirty s Hsane) in Hx as [[? _] _].
Qed.

End Durable.
