(* ===== verification/Restart.v ===== *)
(** * Restart: closing a store and opening it again

    Every operation keeps the invariant of [Durable], so whatever a store
    without siblings has done, a clean shutdown followed by [New] finds the same
    links; and without updates and removals the same hit counts. *)

From S2P Require Import Prelude GoStd Base62 LogLine Aof Store StoreSpec Replay Alone Queue Durable.
From stdpp Require Import options.

Section Restart.
Context `{MapOrder} `{SliceSort}.

(** ** Opening *)

(** What any replayed entry looks like. *)
Definition loaded_ok (c : bytes) (e : entry) : Prop :=
  code_ok c /\ is_int64 (e_a e) /\ is_int64 (e_e e) /\ is_int64 (e_h e) /\ is_int64 (e_oh e).

Lemma apply_loaded (s : Store) (x : lop) :
  wf s -> lop_ok x -> (forall c e, index s c = Some e -> loaded_ok c e) ->
  forall c e, index (apply_lop s x) c = Some e -> loaded_ok c e.
Proof.
  intros Hw Hx Hs c e. destruct x as [c0 u a ex i n|c0 d i|c0]; simpl in Hx.
  - destruct Hx as (Hc & Ha & He & _). rewrite apply_lop_row, index_apply_row by apply Hw || apply Hc.
    case_decide as E; [|apply Hs]. subst c0. intros [= <-]. unfold loaded_ok. simpl.
    split_and!; try done; apply int64_range.
  - destruct Hx as (Hc & _). rewrite apply_lop_hit, index_apply_hit by apply Hw || apply Hc.
    case_decide as E; [|apply Hs]. subst c0. intros (e0 & He0 & ->)%fmap_Some.
    destruct (Hs c e0 He0) as (? & ? & ? & ? & ?). unfold loaded_ok, add_hits. simpl.
    split_and!; try done; [apply int64_range|]. destruct (instance s =? i); [apply int64_range|done].
  - rewrite apply_lop_del, index_apply_del by apply Hw || apply Hx. case_decide; [done|apply Hs].
Qed.

Lemma foldl_loaded (xs : list lop) (s : Store) :
  wf s -> Forall lop_ok xs -> (forall c e, index s c = Some e -> loaded_ok c e) ->
  forall c e, index (foldl apply_lop s xs) c = Some e -> loaded_ok c e.
Proof.
  revert s. induction xs as [|x xs IH]; intros s Hw Hxs Hs; [done|]. apply Forall_cons in Hxs as [Hx Hxs].
  apply IH; [by apply wf_apply|done|by apply apply_loaded].
Qed.

Lemma replay_loaded (inst : Z) (xs : list lop) (c : bytes) (e : entry) :
  Forall lop_ok xs -> index (replay inst xs) c = Some e -> loaded_ok c e.
Proof.
  intros Hxs. apply foldl_loaded; [apply wf_fresh|done|]. intros c' e'. by rewrite index_fresh.
Qed.

Lemma open_create_same (d : Disk) (name n : bytes) :
  n <> name -> open_create d name !! n = d !! n.
Proof. intros Hn. unfold open_create. destruct (d !! name); [done|by rewrite lookup_insert_ne]. Qed.

(** The files of an instance: the snapshot holds [snap], the log [log]. *)
Record on_disk (inst : Z) (d : Disk) (snap log : list lop) : Prop := {
  od_ok : Forall lop_ok (snap ++ log);
  od_snap : file_bytes d (snapName inst) = frames (map line_of snap);
  od_log : file_bytes d (logName inst) = frames (map line_of log);
  od_synced : forall n f, d !! n = Some f -> (synced f <= length (content f))%nat;
  od_alone : ShardFiles d (logName inst) = []
}.

(** Lock files do not matter. *)
Lemma on_disk_locks (inst : Z) (d d' : Disk) (snap log : list lop) (k : Z) :
  (forall n, n <> lock_name k -> d' !! n = d !! n) ->
  (forall f, d' !! lock_name k = Some f -> (synced f <= length (content f))%nat) ->
  on_disk inst d snap log -> on_disk inst d' snap log.
Proof.
  intros Hd Hk [Hok Hs Hl Hsy Hal]. destruct (lock_ne k inst) as [Hnl Hns]. split.
  - done.
  - by rewrite (file_bytes_same d) by (by apply Hd).
  - by rewrite (file_bytes_same d) by (by apply Hd).
  - intros n f. destruct (decide (n = lock_name k)) as [->|Hne]; [apply Hk|]. rewrite Hd by done. apply Hsy.
  - destruct (ShardFiles d' (logName inst)) as [|n l] eqn:E; [done|exfalso].
    assert (n ∈ ShardFiles d' (logName inst)) as Hn by (rewrite E; by left).
    apply ShardFiles_elem in Hn as (Hi & Hsib). rewrite Hd in Hi.
    + destruct Hi as [f Hf]. by rewrite (alone_absent d _ n Hal Hsib) in Hf.
    + intros ->. destruct Hsib as (_ & Hsuf & _). by rewrite lock_no_log in Hsuf.
Qed.

Lemma on_disk_claimed (inst : Z) (d : Disk) (snap log : list lop) (k self : Z) :
  on_disk inst d snap log -> on_disk inst (<[lock_name k := mkFile (itoa self) 0]> d) snap log.
Proof.
  apply (on_disk_locks inst d _ snap log k).
  - intros n Hn. by rewrite lookup_insert_ne.
  - intros f. rewrite lookup_insert_eq. intros [= <-]. cbn. lia.
Qed.

Lemma on_disk_released (inst : Z) (d : Disk) (snap log : list lop) (k : Z) :
  on_disk inst d snap log -> on_disk inst (release k d) snap log.
Proof.
  unfold release. apply (on_disk_locks inst d _ snap log k).
  - intros n Hn. by rewrite lookup_delete_ne.
  - intros f. by rewrite lookup_delete_eq.
Qed.

Lemma open_create_holds (inst : Z) (d : Disk) (snap log : list lop) :
  on_disk inst d snap log ->
  log_holds (open_create d (logName inst)) (mkAof [] (logName inst) true) (map line_of log) 0.
Proof.
  intros [_ _ Hf Hs _]. unfold file_bytes, open_create in *. split; [done|]. simpl.
  destruct (d !! logName inst) as [f|] eqn:E.
  - exists f. rewrite E, app_nil_r. split_and!; [done|done|lia|by eapply Hs].
  - exists empty_file. rewrite lookup_insert_eq. simpl. rewrite <- Hf. split_and!; [done|done|lia|lia].
Qed.

Lemma replay_core (inst : Z) (p : byte) (cl : option Z) (a : option Aof) (own : bytes) (xs : list lop) :
  same_core (foldl apply_lop (fresh_store inst p cl a own) xs) (replay inst xs).
Proof. by apply foldl_core. Qed.

(** What [New] does once it has its instance number. *)
Definition open_as (inst : Z) (cl : option Z) (d : Disk) : go ((Store + new_error) * Disk) :=
  let* p := alpha_at inst in
  let own := logName inst in
  let '(a, d2) := Aof.New d own in
  let* s := loadAll d2 (fresh_store inst p cl (Some a) own) in
  Ret (inl s, d2).

(** What an instance without siblings loads: its snapshot, then its log. *)
Lemma loadAll_own (inst : Z) (s0 : Store) (d : Disk) (snap log : list lop) :
  let a := mkAof [] (logName inst) true in
  let s1 := foldl apply_lop s0 (snap ++ log) in
  wf s0 -> instance s0 = inst -> ownName s0 = logName inst ->
  Forall lop_ok (snap ++ log) -> file_bytes d (snapName inst) = frames (map line_of snap) ->
  log_holds d a (map line_of log) 0 -> alone s1 d -> loadAll d s0 = Ret s1.
Proof.
  intros a s1 Hw0 Hi Ho Hok Hsnap Hl Hal. apply Forall_app in Hok as [Hok1 Hok2]. unfold loadAll. rewrite Hi.
  rewrite (ReplayFile_lops d (snapName inst) snap s0) by done. cbn [go_bind].
  destruct (foldl_apply_frame snap s0 Hw0) as [(_ & _ & _ & _ & Eo1 & _) _].
  destruct (foldl_apply_frame (snap ++ log) s0 Hw0) as [(_ & _ & _ & _ & Eo & _) _].
  rewrite Eo1, Ho, (ReplayFile_lops d (logName inst) log) by
    (done || destruct Hl as (_ & f & Hf & Hc & _); simpl in Hf, Hc; unfold file_bytes; by rewrite Hf, <- Hc, app_nil_r).
  cbn [go_bind]. rewrite <- foldl_app. fold s1 in Eo |- *. rewrite Eo. destruct Hal as [Hs _]. rewrite Eo in Hs. by rewrite Hs.
Qed.

(** [New] on the files of an instance. *)
Lemma open_as_on_disk (inst : Z) (cl : option Z) (d : Disk) (snap log : list lop) :
  0 <= inst < 62 -> on_disk inst d snap log ->
  (forall c e, index (replay inst (snap ++ log)) c = Some e -> e_i e = inst) ->
  exists s' d', open_as inst cl d = Ret (inl s', d')
    /\ sane s' /\ closed s' = false /\ filed s' d' snap log /\ instance s' = inst
    /\ forall c, index s' c = index (replay inst (snap ++ log)) c /\ dirty_at s' c = None.
Proof.
  intros Hi Hod Hown. pose proof Hod as [Hok Hsnap Hlog Hsy Hal].
  pose proof (open_create_holds inst d snap log Hod) as Hl.
  destruct (alpha_at_spec inst Hi) as (p & Hp & _).
  set (d' := open_create d (logName inst)) in *.
  set (a := mkAof [] (logName inst) true) in *.
  set (s0 := fresh_store inst p cl (Some a) (logName inst)).
  set (s1 := foldl apply_lop s0 (snap ++ log)).
  assert (wf s0) as Hw0 by apply wf_fresh.
  destruct (foldl_apply_frame (snap ++ log) s0 Hw0) as [(Ea & Ei & Ep & Ec & Eo & Et & El) Hdirty].
  fold s1 in Ea, Ei, Ep, Ec, Eo, Et, El, Hdirty.
  assert (forall n, n <> logName inst -> d' !! n = d !! n) as Hd' by (intros; by apply open_create_same).
  assert (alone s1 d') as Hal'.
  { apply (alone_disk s0 s1 d d'); [done|done| |].
    - intros n (_ & _ & Hn). by apply Hd'.
    - split; [done|]. intros n t. simpl. by rewrite lookup_empty. }
  assert (loadAll d' s0 = Ret s1) as Hload.
  { apply (loadAll_own inst s0 d'); try done. by rewrite (file_bytes_same d) by apply Hd', snapName_ne_logName. }
  assert (forall c, index s1 c = index (replay inst (snap ++ log)) c) as Hidx.
  { intros c. apply same_core_index, replay_core. }
  assert (forall c, dirty_at s1 c = None) as Hdn.
  { intros c. rewrite Hdirty. unfold dirty_at, get_shard. cbn [shards s0 fresh_store].
    rewrite lookup_replicate_2 by apply shardOf_bound. apply lookup_empty. }
  exists s1, d'. split_and!; [| |done| |done|done].
  - unfold open_as. rewrite Hp. cbn [go_bind]. unfold Aof.New. fold d' a s0. by rewrite Hload.
  - split; try done.
    + by apply foldl_apply_facts.
    + by rewrite Ei.
    + by rewrite Ei, Ep.
    + by rewrite Eo, Ei.
    + intros c e. rewrite Hidx, Ei. intros He. destruct (replay_loaded inst _ c e Hok He) as (? & ? & ? & ? & ?).
      unfold entry_ok. split_and!; try done. by eapply Hown.
    + intros c x. by rewrite Hdn.
  - split; try done.
    + exists a. by rewrite Ea, Ei.
    + rewrite Ei. change (instance s0) with inst. rewrite (file_bytes_same d) by apply Hd', snapName_ne_logName. done.
    + intros n f. unfold d', open_create. destruct (d !! logName inst); [apply Hsy|].
      rewrite lookup_insert_Some. intros [[_ <-]|[_ ?]]; [simpl; lia|by eapply Hsy].
Qed.

(** The instance number [New] ends up with: the one asked for, or the lowest a
    live process does not hold. *)
Definition picks (alive : Z -> bool) (inst k : Z) (d : Disk) : Prop :=
  inst = k \/ inst < 0 /\ ~ held alive d k /\ forall j, 0 <= j < k -> held alive d j.

Lemma New_on_disk (alive : Z -> bool) (self inst k : Z) (d : Disk) (snap log : list lop) :
  0 <= k < 62 -> picks alive inst k d -> on_disk k d snap log ->
  (forall c e, index (replay k (snap ++ log)) c = Some e -> e_i e = k) ->
  exists s' d', New alive self inst d = Ret (inl s', d')
    /\ sane s' /\ closed s' = false /\ filed s' d' snap log /\ instance s' = k
    /\ forall c, index s' c = index (replay k (snap ++ log)) c /\ dirty_at s' c = None.
Proof.
  intros Hk Hp Hod Hown.
  assert (exists cl d1, on_disk k d1 snap log /\ New alive self inst d = open_as k cl d1) as (cl & d1 & Hod1 & ->).
  { unfold New. destruct Hp as [->|(Hi & Hfree & Hheld)].
    - exists None, d. split; [done|]. destruct (Z.leb_spec 0 k); [|lia]. unfold maxInstances.
      by destruct (Z.leb_spec 62 k); [lia|].
    - destruct (Z.leb_spec 0 inst); [lia|]. pose proof (ClaimInstance_cases alive self d) as C.
      destruct (ClaimInstance alive self d) as [[j|] d1].
      2: { exfalso. apply Hfree, C. lia. }
      destruct C as (Hj & -> & Hnj & Hjs).
      assert (j = k) as ->.
      { destruct (Z.lt_trichotomy j k) as [?|[?|?]]; [|done|]; [by destruct Hnj; apply Hheld; lia|by destruct Hfree; apply Hjs; lia]. }
      exists (Some k), (<[lock_name k := mkFile (itoa self) 0]> d). split; [by apply on_disk_claimed|].
      unfold maxInstances. by destruct (Z.leb_spec 62 k); [lia|]. }
  by apply open_as_on_disk.
Qed.

(** ** Closing *)

Lemma Sync_files (d : Disk) (a : Aof) (ls : list bytes) (n : nat) :
  log_holds d a ls n ->
  let '(a', d') := Sync d a in
  log_holds d' a' ls 0 /\ a_path a' = a_path a /\ a_buf a' = []
  /\ forall name, name <> a_path a -> d' !! name = d !! name.
Proof.
  intros Hl. pose proof (Sync_holds d a ls n Hl) as Hs. unfold Sync in *.
  pose proof (flushLocked_holds d a ls n Hl) as F. destruct (Aof.flushLocked d a) as [a1 d1].
  destruct F as (Hl1 & Hb & Hp & _ & Hd1). destruct Hs as [(Ho & f & Hf & Hc & Hn) _].
  rewrite Ho in *. split_and!; [|done|done|].
  - split; [done|]. exists f. split; [done|]. split; [done|lia].
  - intros name Hne. rewrite <- Hd1 by done. apply lookup_alter_ne. congruence.
Qed.

Lemma Close_on_disk (strict : bool) (s : Store) (d : Disk) (snap log : list lop) :
  durable strict s d snap log -> closed s = false ->
  let log' := log ++ map (hit_of (instance s)) (pending s) in
  let '(s', d') := Close s d in
  on_disk (instance s) d' snap log'
  /\ (forall c, index s' c = index s c /\ dirty_at s' c = None)
  /\ agrees strict s' (replay (instance s) (snap ++ log')).
Proof.
  intros Hdu Hcl. cbv zeta. unfold Close. rewrite Hcl.
  set (s1 := set_tails (fun _ => ∅) (set_closed s)).
  assert (durable strict s1 d snap log) as Hdu1.
  { destruct Hdu as [Hs [? ? ? ? [Hsf Hts]] Hag]. split; [by apply (sane_same s)| |exact Hag].
    split; [done|done|done|done|]. split; [done|]. intros n t. simpl. by rewrite lookup_empty. }
  pose proof (flush_durable strict s1 d snap log Hdu1) as F. cbv zeta in F. unfold Flush.
  destruct (flushLocked s1 d) as [s2 d2]. destruct F as (Hdu2 & Hview & Ei & _ & (a & Ha & Hb) & _).
  change (instance s1) with (instance s) in *. change (pending s1) with (pending s) in *.
  set (log' := log ++ _) in *.
  destruct Hdu2 as [Hsane [(a0 & Ha0 & Hp & Hl) Hok Hsnap Hsy [Hsf _]] Hag].
  assert (a0 = a) as -> by congruence. rewrite Ha.
  pose proof (Sync_files d2 a _ _ Hl) as Hsync. destruct (Sync d2 a) as [a3 d3].
  destruct Hsync as (Hl3 & Hp3 & Hb3 & Hd3).
  unfold Aof.Close, Aof.flushLocked. rewrite Hb3. cbn [claimed set_aof].
  rewrite Hp, Ei in *. split; [|split].
  - assert (forall d', on_disk (instance s) d' snap log' ->
      on_disk (instance s) (match claimed s2 with Some i => release i d' | None => d' end) snap log') as Hrel.
    { intros d' Hd'. destruct (claimed s2); [by apply on_disk_released|done]. }
    apply Hrel. destruct Hl3 as (_ & f & Hf & Hc & Hn). rewrite Hb3, app_nil_r in Hc. rewrite Hp3 in Hf. split.
    + done.
    + by rewrite (file_bytes_same d2) by apply Hd3, snapName_ne_logName.
    + unfold file_bytes. by rewrite Hf.
    + intros n f'. destruct (decide (n = logName (instance s))) as [->|Hne]; [|rewrite Hd3 by done; apply Hsy].
      rewrite Hf. intros [= <-]. lia.
    + assert (alone (set_tails (fun _ => ∅) s2) d3) as [Hs3 _].
      { apply (alone_disk (set_tails (fun _ => ∅) s2) _ d2 d3); [done|done| |].
        - intros n (_ & _ & Hn'). apply Hd3. simpl in Hn'. by rewrite (sa_own _ Hsane), Ei in Hn'.
        - split; [done|]. intros n t. simpl. by rewrite lookup_empty. }
      simpl in Hs3. by rewrite (sa_own _ Hsane), Ei in Hs3.
  - done.
  - unfold replayed in Hag. by rewrite Ei in Hag.
Qed.

End Restart.
