(* ===== verification/Trace.v ===== *)
(** * Trace: every operation keeps index and files together

    A session is any sequence of public operations, timer ticks, compactions
    and restarts of one instance. Each step keeps the invariant of [Durable];
    the theorems about whole sessions follow. *)

From S2P Require Import Prelude GoStd Base62 LogLine Aof Store StoreSpec StoreRead Replay.
From S2P Require Import Alone Queue Durable Restart.
From stdpp Require Import options.

Section Trace.
Context `{MapOrder} `{SliceSort}.

(** ** Codes *)

Lemma ALPHABET_safe (c : byte) : c ∈ ALPHABET -> code_char c = true.
Proof.
  assert (forallb code_char ALPHABET = true) as Hf by (vm_compute; reflexivity).
  rewrite forallb_forall in Hf. intros Hc. by apply Hf, list_elem_of_In.
Qed.

Lemma rand_char_safe (b : byte) : code_char (rand_char b) = true.
Proof. apply ALPHABET_safe, rand_char_elem. Qed.

Lemma generated_code_ok (s : Store) (buf : bytes) : sane s -> code_ok (prefix s :: randSuffix buf).
Proof.
  intros Hs. split; [done|]. unfold code_safe. simpl. apply andb_true_iff. split.
  - destruct (alpha_at_spec (instance s) (sa_inst s Hs)) as (c & Ec & _ & Hin).
    rewrite (sa_prefix s Hs) in Ec. injection Ec as <-. by apply ALPHABET_safe.
  - apply forallb_forall. intros c Hc. apply in_map_iff in Hc as (b & <- & _). apply rand_char_safe.
Qed.

(** ** Rows *)

(** Filing a row under a code and queueing its line. *)
Lemma row_durable (strict : bool) (s : Store) (d : Disk) (snap log : list lop)
    (c u : bytes) (a e h oh : Z) :
  durable strict s d snap log -> code_ok c -> is_int64 a -> is_int64 e -> is_int64 h -> is_int64 oh ->
  (strict = true -> index s c = None /\ h = 0 /\ oh = 0) ->
  durable strict
    (push_line (rowLine c u a e (instance s) 0) (put_entry c (mkEntry u a e (instance s) h oh) s))
    d snap (log ++ [LRow c u a e (instance s) 0]).
Proof.
  intros [Hs Hf Hag] Hc Ha He Hh Hoh Hstr. pose proof Hs as [Hw Hi Hp Ho Hent Hdirty].
  set (s' := push_line _ _).
  assert (forall c', index s' c'
    = if decide (c = c') then Some (mkEntry u a e (instance s) h oh) else index s c') as Hidx.
  { intros c'. exact (index_put s c c' _ (wf_len s Hw)). }
  assert (forall c', dirty_at s' c' = dirty_at s c') as Hd.
  { intros c'. exact (dirty_at_data _ _ s c' (wf_len s Hw) (shardOf_bound c)). }
  split.
  - split; try done.
    + by apply (wf_same (put_entry c (mkEntry u a e (instance s) h oh) s)), wf_put.
    + intros c' e'. rewrite Hidx. case_decide as Ec; [|apply Hent]. subst c'. by intros [= <-].
    + intros c' x. rewrite Hd. apply Hdirty.
  - eapply (filed_push s); try done. simpl. pose proof (inst_int64 _ Hi).
    split_and!; try done; unfold is_int64; lia.
  - rewrite app_assoc. rewrite replayed_snoc. change (replayed s') with (replayed s).
    eapply agrees_row; try done; [apply Hc|apply wf_replay].
Qed.

Lemma create_durable (strict : bool) (s : Store) (d : Disk) (snap log : list lop)
    (code url : bytes) (now exp : Z) :
  durable strict s d snap log -> index s code = None -> code_ok code -> is_int64 now -> is_int64 exp ->
  durable strict (create code url now exp s) d snap (log ++ [LRow code url now exp (instance s) 0]).
Proof.
  intros Hdu Hn Hc Hnow Hexp. unfold create.
  rewrite (inst_int32 (instance s)) by apply (du_sane _ _ _ _ _ Hdu).
  apply row_durable; try done; unfold is_int64; lia.
Qed.

(** An operation of the writer alone. *)
Lemma writer_filed (s : Store) (d d' : Disk) (snap log : list lop) (a a' : Aof) :
  sane s -> filed s d snap log -> aof s = Some a -> a_path a' = a_path a ->
  (log_holds d a (map line_of log) 0 -> log_holds d' a' (map line_of log) 0) ->
  (forall n, n <> a_path a -> d' !! n = d !! n) ->
  sane (set_aof (Some a') s) /\ filed (set_aof (Some a') s) d' snap log.
Proof.
  intros Hs Hf Ha Hp Hl Hd. split; [by apply (sane_same s)|].
  pose proof Hf as [(a0 & Ha0 & Hp0 & Hl0) Hok _ _ _]. assert (a0 = a) as -> by congruence.
  eapply (filed_write s _ d d'); try done; [apply Hs|apply Hs|congruence|by apply Hl|].
  intros n Hn. apply Hd. congruence.
Qed.

Lemma writer_durable (strict : bool) (s : Store) (d d' : Disk) (snap log : list lop) (a a' : Aof) :
  durable strict s d snap log -> aof s = Some a -> a_path a' = a_path a ->
  (log_holds d a (map line_of log) 0 -> log_holds d' a' (map line_of log) 0) ->
  (forall n, n <> a_path a -> d' !! n = d !! n) ->
  durable strict (set_aof (Some a') s) d' snap log.
Proof.
  intros [Hs Hf Hag] Ha Hp Hl Hd.
  by destruct (writer_filed s d d' snap log a a' Hs Hf Ha Hp Hl Hd).
Qed.

Lemma flush_if_big_durable (strict : bool) (s : Store) (d : Disk) (snap log : list lop) :
  durable strict s d snap log ->
  let '(s', d') := flush_if_big s d in
  durable strict s' d' snap log /\ shards s' = shards s /\ instance s' = instance s /\ closed s' = closed s.
Proof.
  intros Hdu. unfold flush_if_big. pose proof (du_filed _ _ _ _ _ Hdu) as [(a & Ha & Hp & Hl) _ _ _ _].
  rewrite Ha. destruct (flushBytes <? PendingBytes a); [|done].
  pose proof (flushLocked_holds d a _ 0 Hl) as F. unfold Aof.Flush.
  destruct (Aof.flushLocked d a) as [a' d']. destruct F as (Hl' & _ & Hp' & _ & Hd').
  split; [|done]. by eapply writer_durable.
Qed.

Lemma Sync_durable (strict : bool) (s : Store) (d : Disk) (snap log : list lop) (a : Aof) :
  durable strict s d snap log -> aof s = Some a ->
  let '(a', d') := Sync d a in durable strict (set_aof (Some a') s) d' snap log.
Proof.
  intros Hdu Ha. pose proof (du_filed _ _ _ _ _ Hdu) as [(a0 & Ha0 & Hp & Hl) _ _ _ _].
  assert (a0 = a) as -> by congruence. pose proof (Sync_files d a _ 0 Hl) as F.
  destruct (Sync d a) as [a' d']. destruct F as (Hl' & Hp' & _ & Hd'). by eapply writer_durable.
Qed.

(** ** Operations *)

(** The result of an operation: some logs the invariant holds of again. *)
Definition kept (strict : bool) (inst : Z) (s' : Store) (d' : Disk) : Prop :=
  (exists snap log, durable strict s' d' snap log) /\ instance s' = inst /\ closed s' = false.

Lemma Shorten_durable (strict : bool) (s : Store) (d : Disk) (snap log : list lop)
    (url alias : bytes) (hasAlias : bool) (ttlMs now : Z) (rnds : list bytes) :
  durable strict s d snap log -> closed s = false -> is_int64 now -> (hasAlias = true -> code_ok alias) ->
  match Shorten url alias hasAlias ttlMs now rnds s d with
  | Ret (_, s', d') => kept strict (instance s) s' d'
  | Panic => False
  | Diverge => True
  end.
Proof.
  intros Hdu Hcl Hnow Hal. unfold Shorten.
  assert (forall code, index s code = None -> code_ok code ->
    let '(s1, d1) := flush_if_big (create code url now (expiry now ttlMs) s) d in
    kept strict (instance s) s1 d1) as Hmk.
  { intros code Hn Hc.
    pose proof (flush_if_big_durable strict _ d snap _
      (create_durable strict s d snap log code url now (expiry now ttlMs) Hdu Hn Hc Hnow (expiry_int64 _ _))) as F.
    destruct (flush_if_big _ d) as [s1 d1]. destruct F as (F & _ & Ei & Ec).
    split; [eauto|]. by rewrite Ei, Ec. }
  destruct hasAlias; cbn [andb].
  - case_bool_decide as Ht; [by split; [eauto|]|]. cbn [go_bind].
    specialize (Hmk alias). apply eq_None_not_Some in Ht. specialize (Hmk Ht (Hal eq_refl)).
    by destruct (flush_if_big _ d).
  - pose proof (free_code_spec s rnds) as F.
    destruct (free_code s rnds) as [[code rest]| |]; cbn [go_bind]; [|done|done].
    destruct F as (Hn & pre & buf & _ & -> & _).
    specialize (Hmk _ Hn (generated_code_ok s buf (du_sane _ _ _ _ _ Hdu))).
    by destruct (flush_if_big _ d).
Qed.

Lemma many_loop_durable (strict : bool) (now exp : Z) (urls : list bytes) (rnd : bytes) (s : Store)
    (rnds : list bytes) (d : Disk) (snap log : list lop) :
  durable strict s d snap log -> is_int64 now -> is_int64 exp ->
  match many_loop now exp urls rnd s rnds with
  | Ret (_, s') => (exists log', durable strict s' d snap log') /\ instance s' = instance s /\ closed s' = closed s
  | Panic => False
  | Diverge => True
  end.
Proof.
  intros Hdu Hnow Hexp. revert rnd s rnds log Hdu.
  induction urls as [|u urls IH]; intros rnd s rnds log Hdu; simpl; [by split; [eauto|]|].
  unfold many_step. set (buf := take _ rnd).
  assert (forall code rnds', index s code = None -> code_ok code ->
    match many_loop now exp urls (drop (codeLen - 1) rnd) (create code u now exp s) rnds' with
    | Ret (_, s') => (exists log', durable strict s' d snap log') /\ instance s' = instance s /\ closed s' = closed s
    | Panic => False
    | Diverge => True
    end) as Hnext.
  { intros code rnds' Hn Hc.
    exact (IH _ _ rnds' _ (create_durable strict s d snap log code u now exp Hdu Hn Hc Hnow Hexp)). }
  pose proof (generated_code_ok s) as Hgen. specialize (fun b => Hgen b (du_sane _ _ _ _ _ Hdu)) as Hgen'.
  destruct (index s (prefix s :: randSuffix buf)) as [e|] eqn:E; cbn [go_bind].
  - pose proof (free_code_spec s rnds) as F.
    destruct (free_code s rnds) as [[code rest]| |]; cbn [go_bind]; [|done|done].
    destruct F as (Hn & pre & b & _ & -> & _). specialize (Hnext _ rest Hn (Hgen' b)).
    by destruct (many_loop _ _ _ _ _ _) as [[? ?]| |].
  - specialize (Hnext _ rnds E (Hgen' buf)). by destruct (many_loop _ _ _ _ _ _) as [[? ?]| |].
Qed.

Lemma ShortenMany_durable (strict : bool) (s : Store) (d : Disk) (snap log : list lop)
    (urls : list bytes) (ttlMs now : Z) (rnd : bytes) (rnds : list bytes) :
  durable strict s d snap log -> closed s = false -> is_int64 now ->
  match ShortenMany urls ttlMs now rnd rnds s d with
  | Ret (_, s', d') => kept strict (instance s) s' d'
  | Panic => False
  | Diverge => True
  end.
Proof.
  intros Hdu Hcl Hnow. unfold ShortenMany.
  pose proof (many_loop_durable strict now (expiry now ttlMs) urls rnd s rnds d snap log Hdu Hnow
    (expiry_int64 _ _)) as M.
  destruct (many_loop _ _ _ _ _ _) as [[codes s1]| |]; cbn [go_bind]; [|done|done].
  destruct M as ((log1 & Hdu1) & Ei & Ec).
  pose proof (flush_if_big_durable strict s1 d snap log1 Hdu1) as F.
  destruct (flush_if_big s1 d) as [s2 d2]. destruct F as (Hdu2 & _ & Ei2 & Ec2).
  split; [eauto|]. by rewrite Ei2, Ec2, Ei, Ec.
Qed.

Lemma tails_filed (s s' : Store) (d : Disk) (snap log : list lop) :
  same_but_tails s s' -> alone s' d -> sane s -> filed s d snap log -> sane s' /\ filed s' d snap log.
Proof.
  intros (Es & _ & Ea & Ei & Ep & Ec & Eo & _) Hal Hs [(a & Ha & Hp & Hl) Hok Hsnap Hsy _].
  split; [by apply (sane_same s)|]. split; rewrite ?Ei; try done. exists a. by rewrite Ea.
Qed.

Lemma tails_durable (strict : bool) (s s' : Store) (d : Disk) (snap log : list lop) :
  same_but_tails s s' -> alone s' d -> durable strict s d snap log -> durable strict s' d snap log.
Proof.
  intros Hsame Hal [Hs Hf Hag]. destruct (tails_filed s s' d snap log Hsame Hal Hs Hf).
  destruct Hsame as (Es & _ & _ & Ei & _). split; [done|done|].
  unfold replayed. rewrite Ei. by apply (agrees_same strict s).
Qed.

Lemma count_filed (s : Store) (d : Disk) (snap log : list lop) (c : bytes) (e : entry) :
  index s c = Some e -> sane s -> filed s d snap log -> sane (count_hit c e s) /\ filed (count_hit c e s) d snap log.
Proof.
  intros He Hs Hf. pose proof Hs as [Hw Hi Hp Ho Hent Hdirty]. split; [|by destruct Hf].
  split; try done.
  - unfold count_hit. by apply wf_bump, wf_put.
  - intros c' e'. rewrite index_count_hit by apply Hw. case_decide as Ec; [|apply Hent]. subst c'.
    intros [= <-]. destruct (Hent c e He) as (? & ? & ? & ? & ? & ?). unfold entry_ok. simpl.
    split_and!; try done; apply int64_range.
  - intros c' x. unfold count_hit. rewrite dirty_at_bump by auto with store. case_decide as Ec.
    + subst c'. intros [= <-]. split; [by apply (Hent c e He)|apply int64_range].
    + unfold put_entry. rewrite dirty_at_data by auto using shardOf_bound with store. apply Hdirty.
Qed.

Lemma count_durable (strict : bool) (s : Store) (d : Disk) (snap log : list lop) (c : bytes) (e : entry) :
  durable strict s d snap log -> index s c = Some e -> durable strict (count_hit c e s) d snap log.
Proof.
  intros [Hs Hf Hag] He. destruct (count_filed s d snap log c e He Hs Hf).
  split; [done|done|]. apply agrees_count; [apply Hs|done|done].
Qed.

Lemma Resolve_durable (strict : bool) (s : Store) (d : Disk) (snap log : list lop)
    (trackHits : bool) (code : bytes) (t1 t2 now : Z) :
  durable strict s d snap log -> closed s = false ->
  match Resolve trackHits code t1 t2 now d s with
  | Ret (_, s') => kept strict (instance s) s' d
  | _ => False
  end.
Proof.
  intros Hdu Hcl. pose proof Hdu as [Hs [_ _ _ _ Hal] _]. unfold Resolve.
  destruct (resolve_miss_alone code t1 t2 d s) as (s1 & -> & Hsame & Hal1);
    [by apply inst_int64, Hs|by apply Hs|done|]. cbn [go_bind].
  pose proof (tails_durable strict s s1 d snap log Hsame Hal1 Hdu) as Hdu1.
  destruct Hsame as (_ & _ & _ & Ei & _ & _ & _ & Ec).
  assert (kept strict (instance s) s1 d) as Hk1 by (split; [eauto|]; by rewrite Ec).
  destruct (index s1 code) as [e|] eqn:E; [|done]. destruct (live e now); [|done].
  destruct trackHits; [|done]. split; [|by rewrite <- Ei, <- Hcl, <- Ec].
  do 2 eexists. by apply count_durable.
Qed.

Lemma PollTails_durable (strict : bool) (s : Store) (d : Disk) (snap log : list lop) (now : Z) :
  durable strict s d snap log -> closed s = false ->
  match PollTails now d s with Ret s' => kept strict (instance s) s' d | _ => False end.
Proof.
  intros Hdu Hcl. pose proof Hdu as [Hs [_ _ _ _ Hal] _].
  destruct (PollTails_alone now d s Hal) as (s1 & -> & Hsame & Hal1).
  pose proof (tails_durable strict s s1 d snap log Hsame Hal1 Hdu) as Hdu1.
  destruct Hsame as (_ & _ & _ & Ei & _ & _ & _ & Ec). split; [eauto|]. by rewrite Ei, Ec.
Qed.

Lemma Update_durable (s : Store) (d : Disk) (snap log : list lop)
    (code url : bytes) (ttlMs : Z) (hasTTL : bool) (now : Z) :
  durable false s d snap log -> closed s = false ->
  kept false (instance s) (Update code url ttlMs hasTTL now s).2 d.
Proof.
  intros Hdu Hcl. unfold Update. destruct (index s code) as [e|] eqn:E; [|split; eauto].
  destruct (sa_entries s (du_sane _ _ _ _ _ Hdu) code e E) as (Hc & Ha & He & Hi & Hh & Hoh).
  rewrite Hi, Z.eqb_refl. cbn [negb snd]. split; [|done]. do 2 eexists.
  apply row_durable; try done. destruct hasTTL; [apply expiry_int64|done].
Qed.

Lemma Remove_durable (s : Store) (d : Disk) (snap log : list lop) (code : bytes) :
  durable false s d snap log -> closed s = false -> kept false (instance s) (Remove code s).2 d.
Proof.
  intros Hdu Hcl. unfold Remove. destruct (index s code) as [e|] eqn:E; [|split; eauto].
  pose proof Hdu as [Hs Hf Hag]. pose proof Hs as [Hw Hi Hp Ho Hent Hdirty].
  destruct (Hent code e E) as (Hc & _ & _ & Ei & _).
  rewrite Ei, Z.eqb_refl. cbn [negb snd]. split; [|done]. exists snap, (log ++ [LDel code]).
  set (s' := push_line _ _).
  assert (forall c', index s' c' = if decide (code = c') then None else index s c') as Hidx.
  { intros c'. exact (index_del s code c' (wf_len s Hw)). }
  split.
  - split; try done.
    + by apply (wf_same (del_entry code s)), wf_del.
    + intros c' e'. rewrite Hidx. case_decide; [done|apply Hent].
    + intros c' x. unfold s'. rewrite (dirty_at_same (del_entry code s)) by done. unfold del_entry.
      rewrite dirty_at_data by auto using shardOf_bound with store. apply Hdirty.
  - by eapply (filed_push s).
  - rewrite app_assoc, replayed_snoc. eapply agrees_del; try done; [apply Hc|apply wf_replay].
Qed.

End Trace.
