(* ===== verification/Session.v ===== *)
(** * Session: whole runs of an instance

    Compaction and restarts on top of the steps of [Trace], and the theorems on
    whole runs: a restart finds the links, compaction keeps them, and what each
    loses when a link is updated, removed, or the machine stops. *)

From S2P Require Import Prelude GoStd Base62 LogLine Aof Store StoreSpec Replay Alone.
From S2P Require Import Queue Durable Restart Trace.
From stdpp Require Import options.

Inductive sop :=
| OShorten (url alias : bytes) (hasAlias : bool) (ttlMs now : Z) (rnds : list bytes)
| OShortenMany (urls : list bytes) (ttlMs now : Z) (rnd : bytes) (rnds : list bytes)
| OResolve (trackHits : bool) (code : bytes) (t1 t2 now : Z)
| OUpdate (code url : bytes) (ttlMs : Z) (hasTTL : bool) (now : Z)
| ORemove (code : bytes)
| OFlush | OSync | OPoll (now : Z) | OCompact | OReopen.

Section Session.
Context `{MapOrder} `{SliceSort}.

(** A clean shutdown, and a start with the same instance number. *)
Definition reopen (alive : Z -> bool) (self : Z) (s : Store) (d : Disk) : go (Store * Disk) :=
  let '(s1, d1) := Close s d in
  let* (r, d2) := New alive self (instance s) d1 in
  match r with inl s2 => Ret (s2, d2) | inr _ => Panic end.

Definition sstep (o : sop) (sd : Store * Disk) : go (Store * Disk) :=
  let '(s, d) := sd in
  match o with
  | OShorten url alias hasAlias ttlMs now rnds =>
      let* (_, s', d') := Shorten url alias hasAlias ttlMs now rnds s d in Ret (s', d')
  | OShortenMany urls ttlMs now rnd rnds =>
      let* (_, s', d') := ShortenMany urls ttlMs now rnd rnds s d in Ret (s', d')
  | OResolve trackHits code t1 t2 now =>
      let* (_, s') := Resolve trackHits code t1 t2 now d s in Ret (s', d)
  | OUpdate code url ttlMs hasTTL now => Ret ((Update code url ttlMs hasTTL now s).2, d)
  | ORemove code => Ret ((Remove code s).2, d)
  | OFlush => Ret (Flush s d)
  | OSync => match aof s with
             | Some a => let '(a', d') := Sync d a in Ret (set_aof (Some a') s, d')
             | None => Ret (s, d)
             end
  | OPoll now => let* s' := PollTails now d s in Ret (s', d)
  | OCompact => Ret (Compact s d)
  | OReopen => reopen (fun _ => false) 0 s d
  end.

(** What the caller must respect: the clock is an int64, and an alias does not
    hold the characters the log format cannot write (the HTTP layer admits only
    letters, digits, [_] and [-]). *)
Definition sop_ok (o : sop) : Prop :=
  match o with
  | OShorten _ alias hasAlias _ now _ => is_int64 now /\ (hasAlias = true -> code_ok alias)
  | OShortenMany _ _ now _ _ => is_int64 now
  | _ => True
  end.

Definition keeps_rows (o : sop) : bool :=
  match o with OUpdate _ _ _ _ _ | ORemove _ => false | _ => true end.

(** ** Compaction *)

(** After a compaction the snapshot alone replays to the store. *)
Lemma own_rows_replayed (strict : bool) (s : Store) (o : option Aof) (d : Disk) (snap log : list lop) :
  durable strict s d snap log -> (forall c, dirty_at s c = None) -> agrees strict (set_aof o s) (replayed (set_aof o s) (own_rows s)).
Proof.
  intros Hdu Hclean. pose proof Hdu as [Hs1 _ [Hrow Hcnt]]. pose proof Hs1 as [Hw Hi _ _ Hent _].
  assert (forall c e, index s c = Some e -> c <> []) as Hne by (intros c e He; apply (Hent c e He)).
  unfold replayed. change (instance (set_aof o s)) with (instance s). split.
  - intros c. change (index (set_aof o s) c) with (index s c).
    destruct (replay_own_rows s c Hw Hne) as [_ ->].
    destruct (index s c) as [e|] eqn:E; [|constructor].
    destruct (Hent c e E) as (_ & _ & _ & Eie & _). rewrite Eie, Z.eqb_refl. constructor.
    unfold same_row. simpl. by rewrite inst_int32.
  - intros Hst. destruct (Hcnt Hst) as (_ & _ & Hce). split_and!.
    + intros c. by destruct (replay_own_rows s c Hw Hne) as [-> _].
    + intros c _. change (dirty_at s c = None). apply Hclean.
    + intros c e e'. change (index (set_aof o s) c) with (index s c). intros E.
      destruct (replay_own_rows s c Hw Hne) as [_ ->]. rewrite E.
      destruct (Hent c e E) as (_ & _ & _ & Eie & Hh & Hoh). rewrite Eie, Z.eqb_refl. intros [= <-].
      simpl. rewrite dirty_of_at. change (dirty_at (set_aof o s) c) with (dirty_at s c).
      rewrite (Hclean c). simpl. rewrite Z.add_0_r, int64_idem.
      specialize (Hrow c). rewrite E in Hrow. inversion Hrow as [? r Hsr E1 Er|]. symmetry in Er.
      destruct (Hce c e r E Er) as (-> & _). by rewrite int64_id.
Qed.

Lemma Compact_durable (strict : bool) (s : Store) (d : Disk) (snap log : list lop) :
  durable strict s d snap log -> closed s = false ->
  let '(s', d') := Compact s d in
  kept strict (instance s) s' d' /\ forall c, index s' c = index s c.
Proof.
  intros Hdu Hcl. unfold Compact.
  pose proof (du_filed _ _ _ _ _ Hdu) as [(a0 & Ha0 & _) _ _ _ _]. rewrite Ha0.
  pose proof (flush_durable strict s d snap log Hdu) as F. cbv zeta in F.
  destruct (flushLocked s d) as [s1 d1]. destruct F as (Hdu1 & Hview & Ei & Ec & (a & Ha & Hb) & _).
  set (log1 := log ++ _) in *. rewrite Ha. unfold Truncate, Aof.flushLocked. rewrite Hb.
  pose proof Hdu1 as [Hs1 [(a1 & Ha1 & Hp & _) _ _ Hsy Hal] [Hrow Hcnt]].
  assert (a1 = a) as -> by congruence. rewrite Hb, Hp.
  pose proof Hs1 as [Hw Hi Hpre Ho Hent Hdirty].
  set (a' := mkAof [] (logName (instance s1)) true).
  set (d2 := <[logName (instance s1) := empty_file]> (write_snapshot s1 d1)).
  set (s2 := set_aof (Some a') s1).
  split; [|intros c; apply Hview]. split; [|by rewrite <- Ei, <- Hcl, <- Ec].
  exists (own_rows s1), [].
  assert (forall c e, index s1 c = Some e -> c <> []) as Hne by (intros c e He; apply (Hent c e He)).
  split.
  - by apply (sane_same s1).
  - split.
    + exists a'. split; [done|]. split; [done|]. split; [done|]. exists empty_file.
      unfold d2. simpl. rewrite lookup_insert_eq. split_and!; [done|done|lia|simpl; lia].
    + rewrite app_nil_r. apply Forall_forall. intros x Hx. apply own_rows_elem in Hx as (c & e & He & Hie & ->); [|done].
      destruct (Hent c e He) as (? & ? & ? & Eie & ? & ?). simpl. rewrite Eie.
      split_and!; try done. by apply inst_int64.
    + unfold file_bytes, d2. change (instance s2) with (instance s1).
      rewrite lookup_insert_ne by (intros E; symmetry in E; by apply snapName_ne_logName in E).
      unfold write_snapshot. rewrite lookup_insert_eq. simpl. by rewrite snapshot_rows_own.
    + intros n f. unfold d2, write_snapshot. rewrite lookup_insert_Some. intros [[_ <-]|[_ Hf]]; [simpl; lia|].
      rewrite lookup_insert_Some in Hf. destruct Hf as [[_ <-]|[_ Hf]]; [simpl; lia|].
      rewrite lookup_delete_Some in Hf. by eapply Hsy, Hf.
    + apply (alone_disk s1 s2 d1 d2); [done|done| |done]. intros n Hn. pose proof Hn as (_ & Hsuf & Hno).
      rewrite Ho in Hno. unfold d2, write_snapshot. rewrite lookup_insert_ne by done.
      rewrite lookup_insert_ne by (intros <-; by rewrite snapName_no_log in Hsuf).
      rewrite lookup_delete_ne by (intros <-; by rewrite tmp_no_log in Hsuf). done.
  - rewrite app_nil_r. apply (own_rows_replayed strict s1 (Some a') d1 snap log1 Hdu1). intros c. apply Hview.
Qed.

(** ** Restarts *)

Lemma agrees_idx (strict : bool) (s s' r : Store) :
  (forall c e, index r c = Some e -> is_int64 (e_h e) /\ is_int64 (e_oh e)) ->
  (forall c, dirty_at s c = None) -> (forall c, index s' c = index r c) ->
  (forall c, dirty_at s' c = None) -> agrees strict s r ->
  agrees strict s' r /\ (strict = true -> forall c, index s' c = index s c).
Proof.
  intros Hint Hd Hi Hd' [Hrow Hcnt].
  assert (strict = true -> forall c e e', index s c = Some e -> index r c = Some e' -> e = e' /\ e_h e = e_oh e) as Heq.
  { intros Hst c e e' E E'. destruct (Hcnt Hst) as (_ & _ & Hce). destruct (Hce c e e' E E') as (Eo & Eh & Eoh).
    specialize (Hrow c). rewrite E, E' in Hrow. inversion Hrow as [? ? Hsr E1 E2|].
    destruct Hsr as (Eu & Ea & Ee & Ei'), (Hint c e' E') as [I1 I2].
    rewrite dirty_of_at, Hd in Eh, Eoh. simpl in Eh, Eoh. rewrite Z.add_0_r, int64_id in Eh, Eoh by done.
    destruct e, e'; simpl in *; subst; done. }
  split.
  - split.
    + intros c. rewrite Hi. destruct (index r c); constructor; done.
    + intros Hst. destruct (Hcnt Hst) as (Hs & _ & _). split_and!; [done|done|].
      intros c e e'. rewrite Hi. intros E E'. assert (e' = e) as -> by congruence.
      specialize (Hrow c). rewrite E in Hrow. inversion Hrow as [e0 ? Hsr E1 E2|].
      symmetry in E1. destruct (Heq Hst c e0 e E1 E) as [-> Eo].
      rewrite dirty_of_at, Hd'. simpl. rewrite !Z.add_0_r.
      destruct (Hint c e E) as [I1 I2]. by rewrite !int64_id.
  - intros Hst c. rewrite Hi. specialize (Hrow c).
    destruct (index s c) as [e|] eqn:E, (index r c) as [e'|] eqn:E'; try by inversion Hrow.
    f_equal. symmetry. by apply (Heq Hst c).
Qed.

Lemma reopen_durable (alive : Z -> bool) (self : Z) (strict : bool) (s : Store) (d : Disk)
    (snap log : list lop) :
  durable strict s d snap log -> closed s = false ->
  let log' := log ++ map (hit_of (instance s)) (pending s) in
  exists s' d', reopen alive self s d = Ret (s', d')
    /\ durable strict s' d' snap log' /\ instance s' = instance s /\ closed s' = false
    /\ (forall c, index s' c = index (replay (instance s) (snap ++ log')) c)
    /\ (forall c, option_Forall2 same_row (index s c) (index s' c))
    /\ (strict = true -> forall c, index s' c = index s c).
Proof.
  intros Hdu Hcl log'. unfold reopen. pose proof (Close_on_disk strict s d snap log Hdu Hcl) as F.
  cbv zeta in F. fold log' in F. destruct (Close s d) as [s1 d1]. destruct F as (Hod & Hview & Hag).
  pose proof (du_sane _ _ _ _ _ Hdu) as Hs. pose proof Hag as [Hrow _].
  destruct (New_on_disk alive self (instance s) (instance s) d1 snap log') as (s' & d' & -> & Hs' & Hcl' & Hf' & Ei & Hidx);
    [apply Hs|by left|done| |].
  { intros c e He. specialize (Hrow c). destruct (Hview c) as [Ev _]. rewrite Ev, He in Hrow.
    inversion Hrow as [e0 ? Hsr E1 E2|]. symmetry in E1. apply (sa_entries s Hs) in E1 as (_ & _ & _ & Ei0 & _).
    destruct Hsr as (_ & _ & _ & Ei'). congruence. }
  cbn [go_bind]. exists s', d'.
  destruct (agrees_idx strict s1 s' (replay (instance s) (snap ++ log'))) as [Hag' Heq].
  - intros c e He. destruct (replay_loaded _ _ c e (od_ok _ _ _ _ Hod) He) as (? & ? & ? & ? & ?). done.
  - apply Hview.
  - apply Hidx.
  - apply Hidx.
  - done.
  - split_and!; [done| |done|done|apply Hidx| |].
    + split; [done|done|]. unfold replayed. by rewrite Ei.
    + intros c. destruct (Hidx c) as [-> _], (Hview c) as [<- _]. apply Hrow.
    + intros Hst c. rewrite Heq by done. apply Hview.
Qed.

(** ** Runs *)

Lemma kept_weaken (strict : bool) (inst : Z) (s : Store) (d : Disk) : kept strict inst s d -> kept false inst s d.
Proof.
  intros [(snap & log & [Hs Hf [Hrow _]]) Hr]. split; [|done]. exists snap, log. split; [done|done|]. by split.
Qed.

Lemma sstep_kept (strict : bool) (o : sop) (s : Store) (d : Disk) (inst : Z) :
  kept strict inst s d -> sop_ok o -> (strict = true -> keeps_rows o = true) ->
  match sstep o (s, d) with
  | Ret (s', d') => kept strict inst s' d'
  | Panic => False
  | Diverge => True
  end.
Proof.
  intros [(snap & log & Hdu) [<- Hcl]] Hok Hstr. destruct o; cbn [sstep sop_ok keeps_rows] in *.
  - destruct Hok as [Hnow Hal].
    pose proof (Shorten_durable strict s d snap log url alias hasAlias ttlMs now rnds Hdu Hcl Hnow Hal) as P.
    by destruct (Shorten _ _ _ _ _ _ _ _) as [[[? ?] ?]| |].
  - pose proof (ShortenMany_durable strict s d snap log urls ttlMs now rnd rnds Hdu Hcl Hok) as P.
    by destruct (ShortenMany _ _ _ _ _ _ _) as [[[? ?] ?]| |].
  - pose proof (Resolve_durable strict s d snap log trackHits code t1 t2 now Hdu Hcl) as P.
    by destruct (Resolve _ _ _ _ _ _ _) as [[? ?]| |].
  - destruct strict; [by specialize (Hstr eq_refl)|]. by apply (Update_durable s d snap log).
  - destruct strict; [by specialize (Hstr eq_refl)|]. by apply (Remove_durable s d snap log).
  - pose proof (flush_durable strict s d snap log Hdu) as P. cbv zeta in P. unfold Flush.
    destruct (flushLocked s d) as [s' d']. destruct P as (P & _ & Ei & Ec & _).
    split; [eauto|]. by rewrite Ei, Ec.
  - destruct (aof s) as [a|] eqn:Ea; [|by split; [eauto|]].
    pose proof (Sync_durable strict s d snap log a Hdu Ea) as P. destruct (Sync d a). by split; [eauto|].
  - pose proof (PollTails_durable strict s d snap log now Hdu Hcl) as P.
    by destruct (PollTails now d s) as [?| |].
  - pose proof (Compact_durable strict s d snap log Hdu Hcl) as P. destruct (Compact s d). by destruct P.
  - destruct (reopen_durable (fun _ => false) 0 strict s d snap log Hdu Hcl)
      as (s' & d' & -> & Hdu' & Ei & Hcl' & _). by split; [eauto|].
Qed.

Lemma session_kept (strict : bool) (ops : list sop) (s : Store) (d : Disk) (inst : Z) :
  kept strict inst s d -> Forall sop_ok ops -> (strict = true -> forallb keeps_rows ops = true) ->
  match go_fold sstep ops (s, d) with
  | Ret (s', d') => kept strict inst s' d'
  | Panic => False
  | Diverge => True
  end.
Proof.
  revert s d. induction ops as [|o ops IH]; intros s d Hk Hok Hstr; [done|].
  apply Forall_cons in Hok as [Ho Hok]. cbn [go_fold].
  assert (strict = true -> keeps_rows o = true /\ forallb keeps_rows ops = true) as Hstr'.
  { intros Hst. specialize (Hstr Hst). by apply andb_true_iff in Hstr. }
  pose proof (sstep_kept strict o s d inst Hk Ho (fun Hst => proj1 (Hstr' Hst))) as P.
  destruct (sstep o (s, d)) as [[s' d']| |]; [|done|done]. cbn [go_bind].
  apply IH; [done|done|]. intros Hst. by apply Hstr'.
Qed.

Lemma New_empty_full (alive : Z -> bool) (self inst : Z) :
  0 <= inst < maxInstances ->
  exists s0 d0, New alive self inst ∅ = Ret (inl s0, d0) /\ kept true inst s0 d0
    /\ forall c, index s0 c = None.
Proof.
  intros Hi. assert (on_disk inst ∅ [] []) as Hod.
  { split; try done. }
  destruct (New_on_disk alive self inst inst ∅ [] [] Hi (or_introl eq_refl) Hod) as (s0 & d0 & E & Hs & Hcl & Hf & Ei & Hidx).
  { intros c e. unfold replay. simpl. by rewrite index_fresh. }
  assert (forall c, index s0 c = None) as Hnone.
  { intros c. destruct (Hidx c) as [-> _]. unfold replay. simpl. apply index_fresh. }
  exists s0, d0. split; [done|]. split; [|done]. split; [|done]. exists [], []. split; [done|done|]. split.
  - intros c. destruct (Hidx c) as [-> _]. unfold replayed. rewrite Ei. simpl.
    unfold replay. simpl. rewrite index_fresh. constructor.
  - intros _. split_and!.
    + intros c. unfold replayed, replay. simpl. apply lookup_empty.
    + intros c _. apply Hidx.
    + intros c e e'. by rewrite Hnone.
Qed.

Lemma New_empty (alive : Z -> bool) (self inst : Z) :
  0 <= inst < maxInstances ->
  exists s0 d0, New alive self inst ∅ = Ret (inl s0, d0) /\ kept true inst s0 d0.
Proof.
  intros Hi. destruct (New_empty_full alive self inst Hi) as (s0 & d0 & E & K & _). eauto.
Qed.

Lemma New_empty_index (alive : Z -> bool) (self inst : Z) (s : Store) (d : Disk) :
  0 <= inst < maxInstances -> New alive self inst ∅ = Ret (inl s, d) -> forall c, index s c = None.
Proof.
  intros Hi E. destruct (New_empty_full alive self inst Hi) as (s0 & d0 & E0 & _ & Hn).
  assert (s0 = s) as <- by congruence. exact Hn.
Qed.

(** The rows a directory holds are those of the instance that opens it. *)
Definition own_dir (k : Z) (d : Disk) (snap log : list lop) : Prop :=
  on_disk k d snap log /\ forall c e, index (replay k (snap ++ log)) c = Some e -> e_i e = k.

Lemma own_dir_empty (k : Z) : own_dir k ∅ [] [].
Proof. split; [by split|]. intros c e. unfold replay. cbn. by rewrite index_fresh. Qed.

(** What an instance leaves when it closes. *)
Lemma Close_own_dir (k : Z) (s : Store) (d : Disk) :
  kept false k s d ->
  exists snap log, own_dir k (Store.Close s d).2 snap log
    /\ forall c, option_Forall2 same_row (index s c) (index (replay k (snap ++ log)) c).
Proof.
  intros [(snap & log & Hdu) [<- Hcl]]. pose proof (Close_on_disk false s d snap log Hdu Hcl) as F. cbv zeta in F.
  destruct (Store.Close s d) as [s1 d1]. destruct F as (Hod & Hview & [Hrow _]).
  assert (forall c, option_Forall2 same_row (index s c) (index (replay (instance s) (snap ++ log ++ map (hit_of (instance s)) (pending s))) c))
    as Hrow'. { intros c. rewrite <- (proj1 (Hview c)). apply Hrow. }
  exists snap, (log ++ map (hit_of (instance s)) (pending s)). split; [|done]. split; [done|]. intros c e He.
  specialize (Hrow' c). rewrite He in Hrow'. inversion Hrow' as [e0 ? Hsr E1 E2|]. symmetry in E1.
  apply (sa_entries s (du_sane _ _ _ _ _ Hdu)) in E1 as (_ & _ & _ & Ei & _).
  destruct Hsr as (_ & _ & _ & Ei'). congruence.
Qed.

(** An instance opened on a directory it closed, or on an empty one. *)
Lemma New_kept (alive : Z -> bool) (self inst k : Z) (d : Disk) (snap log : list lop) :
  0 <= k < maxInstances -> picks alive inst k d -> own_dir k d snap log ->
  exists s0 d0, New alive self inst d = Ret (inl s0, d0) /\ kept false k s0 d0
    /\ forall c, index s0 c = index (replay k (snap ++ log)) c.
Proof.
  intros Hk Hp [Hod Hown].
  destruct (New_on_disk alive self inst k d snap log Hk Hp Hod Hown) as (s0 & d0 & E & Hs & Hcl & Hf & Ei & Hidx).
  exists s0, d0. split; [done|]. split; [|apply Hidx]. split; [|done]. exists snap, log. split; [done|done|].
  split; [|done]. intros c. destruct (Hidx c) as [-> _]. unfold replayed. rewrite Ei.
  destruct (index _ c); by constructor.
Qed.

(** A run of an instance from an empty directory. *)
Definition session (alive : Z -> bool) (self inst : Z) (ops : list sop) : go (Store * Disk) :=
  let* (r, d) := New alive self inst ∅ in
  match r with inl s => go_fold sstep ops (s, d) | inr _ => Panic end.

(** The same link as an API client sees it, with or without its hit count. *)
Definition same_link (counted : bool) (o o' : option Link) : Prop :=
  match o, o' with
  | Some l, Some l' =>
      Code l' = Code l /\ URL l' = URL l /\ CreatedAt l' = CreatedAt l /\ ExpiresAt l' = ExpiresAt l
      /\ (counted = true -> Hits l' = Hits l)
  | None, None => True
  | _, _ => False
  end.

Lemma same_link_index (counted : bool) (s s' : Store) (c : bytes) :
  option_Forall2 same_row (index s c) (index s' c) ->
  (counted = true -> index s' c = index s c) -> same_link counted (Stats c s) (Stats c s').
Proof.
  unfold Stats. intros Hr Hc.
  destruct (index s c) as [e|], (index s' c) as [e'|]; inversion Hr as [? ? (Eu & Ea & Ee & Ei)|]; subst; [|done].
  simpl. rewrite Eu, Ea, Ee. split_and!; try done. intros Hct. specialize (Hc Hct). congruence.
Qed.

Lemma session_cases (alive : Z -> bool) (self inst : Z) (ops : list sop) :
  0 <= inst < maxInstances -> Forall sop_ok ops ->
  match session alive self inst ops with
  | Ret (s, d) => kept (forallb keeps_rows ops) inst s d
  | Panic => False
  | Diverge => True
  end.
Proof.
  intros Hi Hok. unfold session. destruct (New_empty alive self inst Hi) as (s0 & d0 & -> & Hk). cbn [go_bind].
  apply (session_kept (forallb keeps_rows ops)); [|done|done].
  destruct (forallb keeps_rows ops); [done|]. by eapply kept_weaken.
Qed.

(** durability across restarts. Whatever an instance without siblings has
    done since its directory was empty (links created, resolved, updated,
    removed, flushed, compacted, restarted any number of times), a clean
    shutdown and start finds exactly the same links, with URL, creation time
    and expiry; and if no link was updated or removed, with the same hit
    counts. No operation of such a run ever panics. *)
Theorem restart_preserves_links (alive : Z -> bool) (self inst : Z) (ops : list sop)
  (Hi : 0 <= inst < maxInstances) (Hok : Forall sop_ok ops) :
  match session alive self inst ops with
  | Ret (s, d) =>
      exists s' d', reopen alive self s d = Ret (s', d')
        /\ forall c, same_link (forallb keeps_rows ops) (Stats c s) (Stats c s')
  | Panic => False
  | Diverge => True
  end.
Proof.
  pose proof (session_cases alive self inst ops Hi Hok) as Hk.
  destruct (session alive self inst ops) as [[s d]| |]; [|done|done].
  destruct Hk as [(snap & log & Hdu) [Ei Hcl]].
  destruct (reopen_durable alive self _ s d snap log Hdu Hcl) as (s' & d' & E & _ & _ & _ & _ & Hr & Hs).
  exists s', d'. split; [done|]. intros c. apply same_link_index; [apply Hr|]. intros Hc. by apply Hs.
Qed.

(** A directory that agrees on the log and the snapshot up to a crash. *)
Lemma crash_on_disk (inst : Z) (d d' : Disk) (snap log : list lop) :
  on_disk inst d snap log -> crash d d' ->
  d' !! snapName inst = d !! snapName inst ->
  (forall f, d !! logName inst = Some f -> synced f = length (content f)) ->
  on_disk inst d' snap log.
Proof.
  intros [Hok Hs Hl Hsy Hal] Hcr Hsnap Hfull. split; [done| | | |].
  - by rewrite (file_bytes_same d).
  - rewrite <- Hl. unfold file_bytes. specialize (Hcr (logName inst)).
    destruct (d !! logName inst) as [f|] eqn:E; inversion Hcr as [? f' (k & Hk & ->) E1 E2|]; [|done].
    simpl. apply take_ge. rewrite (Hfull f eq_refl) in Hk. lia.
  - intros n f Hf. specialize (Hcr n). rewrite Hf in Hcr.
    inversion Hcr as [f0 ? (k & Hk & ->) E1 E2|]. simpl. rewrite length_take. lia.
  - destruct (ShardFiles d' (logName inst)) as [|n l] eqn:E; [done|exfalso].
    assert (n ∈ ShardFiles d' (logName inst)) as Hn by (rewrite E; by left).
    apply ShardFiles_elem in Hn as ([f Hf] & Hsib). specialize (Hcr n). rewrite Hf in Hcr.
    inversion Hcr as [f0 ? _ E1 E2|]. by rewrite (alone_absent d (logName inst) n) in E1.
Qed.

Lemma New_after_crash (alive : Z -> bool) (self : Z) (strict : bool) (s : Store) (d d' : Disk)
    (snap log : list lop) :
  durable strict s d snap log -> (forall c, dirty_at s c = None) ->
  on_disk (instance s) d' snap log ->
  exists s' d2, New alive self (instance s) d' = Ret (inl s', d2)
    /\ forall c, same_link strict (Stats c s) (Stats c s').
Proof.
  intros Hdu Hd Hod. pose proof Hdu as [Hs _ Hag]. unfold replayed in Hag. pose proof Hag as [Hrow _].
  destruct (New_on_disk alive self (instance s) (instance s) d' snap log) as (s' & d2 & E & Hs' & Hcl' & Hf' & Ei & Hidx);
    [apply Hs|by left|done| |].
  { intros c e He. specialize (Hrow c). rewrite He in Hrow.
    inversion Hrow as [e0 ? Hsr E1 E2|]. symmetry in E1. apply (sa_entries s Hs) in E1 as (_ & _ & _ & Ei0 & _).
    destruct Hsr as (_ & _ & _ & Ei'). congruence. }
  exists s', d2. split; [done|]. intros c. apply same_link_index.
  - destruct (Hidx c) as [-> _]. apply Hrow.
  - intros Hst. revert c. destruct (agrees_idx strict s s' (replay (instance s) (snap ++ log))) as [_ Heq];
      [|done|by apply Hidx|by apply Hidx|done|by apply Heq].
    intros c e He. by destruct (replay_loaded _ _ c e (od_ok _ _ _ _ Hod) He) as (? & ? & ? & ? & ?).
Qed.

(** C13: durability across a machine crash. After a [Flush] and a [Sync] of the
    log, a crash that spares the snapshot file loses nothing: the next start
    finds exactly the links the run had, and their hit counts if no link was
    updated or removed. *)
Theorem flush_sync_survives_crash (alive : Z -> bool) (self inst : Z) (ops : list sop)
  (Hi : 0 <= inst < maxInstances) (Hok : Forall sop_ok ops) :
  match session alive self inst ops with
  | Ret (s, d) =>
      let '(s1, d1) := Flush s d in
      forall a, aof s1 = Some a ->
      let '(_, d2) := Sync d1 a in
      forall d3, crash d2 d3 -> d3 !! snapName inst = d2 !! snapName inst ->
      exists s' d', New alive self inst d3 = Ret (inl s', d')
        /\ forall c, same_link (forallb keeps_rows ops) (Stats c s) (Stats c s')
  | Panic => False
  | Diverge => True
  end.
Proof.
  pose proof (session_cases alive self inst ops Hi Hok) as Hk.
  destruct (session alive self inst ops) as [[s d]| |]; [|done|done].
  destruct Hk as [(snap & log & Hdu) [<- Hcl]]. unfold Flush.
  pose proof (flush_durable _ s d snap log Hdu) as F. cbv zeta in F.
  destruct (flushLocked s d) as [s1 d1]. destruct F as (Hdu1 & Hview & Ei & _). intros a Ha.
  set (log1 := log ++ _) in *.
  pose proof (Sync_durable _ s1 d1 snap log1 a Hdu1 Ha) as P.
  pose proof (du_filed _ _ _ _ _ Hdu1) as [(a0 & Ha0 & Hp & Hl) _ _ _ _].
  assert (a0 = a) as -> by congruence. pose proof (Sync_holds d1 a _ 0 Hl) as Hsy.
  destruct (Sync d1 a) as [a' d2]. destruct Hsy as [(_ & f & Hf & Hc & Hn) Hp'].
  intros d3 Hcr Hsnap. pose proof P as [_ [_ Hok1 Hs1 Hsyn [Hal _]] _]. rewrite <- Ei in *.
  rewrite Hp', Hp in Hf. apply (f_equal length) in Hc as Hcl'. rewrite length_app in Hcl'.
  assert (on_disk (instance s1) d3 snap log1) as Hod.
  { apply (crash_on_disk _ d2); [|done|done|].
    - split; [done|done| |done|].
      + unfold file_bytes. rewrite Hf, <- Hc. assert (a_buf a' = []) as ->; [|by rewrite app_nil_r].
        apply length_zero_iff_nil. lia.
      + simpl in Hal. by rewrite (sa_own _ (du_sane _ _ _ _ _ Hdu1)) in Hal.
    - intros f'. rewrite Hf. intros [= <-]. lia. }
  destruct (New_after_crash alive self _ _ d2 d3 snap log1 P) as (s' & d' & E & Hlink); [by apply Hview|done|].
  exists s', d'. split; [done|]. intros c. specialize (Hlink c).
  replace (Stats c s) with (Stats c (set_aof (Some a') s1)); [done|].
  unfold Stats. f_equal. apply Hview.
Qed.

(** ** What a compaction and an update lose *)

Lemma Compact_disk (strict : bool) (s : Store) (d : Disk) (snap log : list lop) :
  durable strict s d snap log ->
  exists s1 d1, instance s1 = instance s
    /\ (Compact s d).2 = <[logName (instance s) := empty_file]> (write_snapshot s1 d1).
Proof.
  intros Hdu. unfold Compact.
  pose proof (du_filed _ _ _ _ _ Hdu) as [(a0 & Ha0 & _) _ _ _ _]. rewrite Ha0.
  pose proof (flush_durable strict s d snap log Hdu) as F. cbv zeta in F.
  destruct (flushLocked s d) as [s1 d1]. destruct F as (Hdu1 & _ & Ei & _ & (a & Ha & Hb) & _).
  rewrite Ha. unfold Truncate, Aof.flushLocked. rewrite Hb. exists s1, d1. split; [done|]. simpl.
  pose proof Hdu1 as [_ [(a1 & Ha1 & Hp & _) _ _ _ _] _]. assert (a1 = a) as -> by congruence.
  by rewrite Hp, Ei.
Qed.

(** a compaction is not crash-safe. It leaves the index alone, but the
    snapshot it renames into place is never synced while the log it replaces
    is truncated: after any run, a crash right after [Compact] can make the
    next start find no link at all. *)
Theorem Compact_crash_loses_links (alive : Z -> bool) (self inst : Z) (ops : list sop)
  (Hi : 0 <= inst < maxInstances) (Hok : Forall sop_ok ops) :
  match session alive self inst ops with
  | Ret (s, d) =>
      let '(s1, d1) := Compact s d in
      (forall c, index s1 c = index s c)
      /\ exists d2 s2 d3, crash d1 d2 /\ New alive self inst d2 = Ret (inl s2, d3)
           /\ forall c, index s2 c = None
  | Panic => False
  | Diverge => True
  end.
Proof.
  pose proof (session_cases alive self inst ops Hi Hok) as Hk.
  destruct (session alive self inst ops) as [[s d]| |]; [|done|done].
  destruct Hk as [(snap & log & Hdu) [<- Hcl]].
  pose proof (Compact_durable _ s d snap log Hdu Hcl) as K.
  destruct (Compact_disk _ s d snap log Hdu) as (s0 & d0 & Ei & Ed).
  destruct (Compact s d) as [s1 d1]. destruct K as [[(snap1 & log1 & Hdu1) [Ei1 _]] Hidx]. simpl in Ed.
  split; [done|]. pose proof Hdu1 as [Hs1 [_ _ _ Hsy [Hal _]] _]. rewrite (sa_own _ Hs1), Ei1 in Hal.
  set (inst := instance s) in *. set (d2 := <[snapName inst := mkFile [] 0]> d1).
  pose proof (snapName_ne_logName inst inst) as Hne.
  assert (d1 !! snapName inst = Some (mkFile (frames (snapshot_rows s0)) 0)) as Esnap.
  { rewrite Ed, lookup_insert_ne by done. unfold write_snapshot. rewrite Ei. apply lookup_insert_eq. }
  assert (d1 !! logName inst = Some empty_file) as Elog by (rewrite Ed; apply lookup_insert_eq).
  assert (on_disk inst d2 [] []) as Hod.
  { split; [done| | | |].
    - unfold file_bytes, d2. by rewrite lookup_insert_eq.
    - unfold file_bytes, d2. by rewrite lookup_insert_ne, Elog.
    - intros n f. unfold d2. rewrite lookup_insert_Some. intros [[_ <-]|[_ Hf]]; [done|by eapply Hsy].
    - destruct (ShardFiles d2 (logName inst)) as [|n l] eqn:E; [done|exfalso].
      assert (n ∈ ShardFiles d2 (logName inst)) as Hn by (rewrite E; by left).
      apply ShardFiles_elem in Hn as ([f Hf] & Hsib). unfold d2 in Hf.
      rewrite lookup_insert_ne in Hf; [by rewrite (alone_absent d1 (logName inst) n) in Hf|].
      intros <-. destruct Hsib as (_ & Hsuf & _). by rewrite snapName_no_log in Hsuf. }
  destruct (New_on_disk alive self inst inst d2 [] [] (sa_inst _ (du_sane _ _ _ _ _ Hdu)) (or_introl eq_refl) Hod)
    as (s2 & d3 & E & _ & _ & _ & _ & Hidx2).
  { intros c e. unfold replay. simpl. by rewrite index_fresh. }
  exists d2, s2, d3. split_and!; [|done|].
  - intros n. unfold d2. destruct (decide (n = snapName inst)) as [->|Hn].
    + rewrite Esnap, lookup_insert_eq. constructor. exists 0%nat. simpl. split; [lia|done].
    + rewrite lookup_insert_ne by done. destruct (d1 !! n) as [f|] eqn:Ef; constructor.
      exists (length (content f)). split; [specialize (Hsy n f Ef); lia|]. rewrite take_ge by lia. by destruct f.
  - intros c. destruct (Hidx2 c) as [-> _]. unfold replay. simpl. apply index_fresh.
Qed.

(** updating a link forgets its hits at the next restart. The row [Update]
    logs carries a hit count of 0 while the index keeps the link's counters: in
    a run that has updated and removed nothing so far, after a flush and an
    update the index still counts every hit, and a restart counts none. *)
Theorem Update_forgets_hits (alive : Z -> bool) (self inst : Z) (ops : list sop)
  (code url : bytes) (ttlMs : Z) (hasTTL : bool) (now : Z)
  (Hi : 0 <= inst < maxInstances) (Hok : Forall sop_ok ops) (Hkeep : forallb keeps_rows ops = true) :
  match session alive self inst ops with
  | Ret (s, d) =>
      let '(s1, d1) := Flush s d in
      let '(r, s2) := Update code url ttlMs hasTTL now s1 in
      forall e, index s code = Some e ->
      r = MutOK /\ e_h <$> index s2 code = Some (e_h e)
      /\ exists s3 d3, reopen alive self s2 d1 = Ret (s3, d3) /\ e_h <$> index s3 code = Some 0
  | Panic => False
  | Diverge => True
  end.
Proof.
  pose proof (session_cases alive self inst ops Hi Hok) as Hk. rewrite Hkeep in Hk.
  destruct (session alive self inst ops) as [[s d]| |]; [|done|done].
  destruct Hk as [(snap & log & Hdu) [<- Hcl]]. unfold Flush.
  pose proof (flush_durable true s d snap log Hdu) as F. cbv zeta in F.
  destruct (flushLocked s d) as [s1 d1]. destruct F as (Hdu1 & Hview & Ei & Ec & _).
  set (log1 := log ++ _) in *. destruct (Hview code) as [Hv _].
  unfold Update. rewrite Hv. destruct (index s code) as [e|] eqn:E; [|by intros e0 [=]].
  assert (index s1 code = Some e) as E1 by congruence. pose proof (du_sane _ _ _ _ _ Hdu1) as Hs1.
  destruct (sa_entries s1 Hs1 code e E1) as (Hc & Ha & He & Hie & Hh & Hoh).
  rewrite Hie, Z.eqb_refl. cbn [negb]. intros e0 [= <-]. split; [done|].
  set (exp := if hasTTL then expiry now ttlMs else e_e e).
  assert (durable false s1 d1 snap log1) as Hdu1'.
  { destruct Hdu1 as [? ? [? _]]. by split. }
  assert (is_int64 exp) as Hexp by (unfold exp; destruct hasTTL; [apply expiry_int64|done]).
  pose proof (row_durable false s1 d1 snap log1 code url (e_a e) exp (e_h e) (e_oh e)
    Hdu1' Hc Ha Hexp Hh Hoh (fun F : false = true => False_ind _ (Bool.diff_false_true F))) as Hdu2.
  set (s2 := push_line _ _) in *.
  assert (index s2 code = Some (mkEntry url (e_a e) exp (instance s1) (e_h e) (e_oh e))) as ->.
  { transitivity (index (put_entry code (mkEntry url (e_a e) exp (instance s1) (e_h e) (e_oh e)) s1) code); [done|].
    rewrite index_put by apply Hs1. by rewrite decide_True. }
  split; [done|].
  destruct (reopen_durable alive self false s2 d1 snap _ Hdu2) as (s3 & d3 & E3 & _ & _ & _ & Hidx & _);
    [by change (closed s1 = false); rewrite Ec|].
  exists s3, d3. split; [exact E3|]. rewrite Hidx.
  assert (pending s2 = []) as ->.
  { destruct (pending s2) as [|[c x] l] eqn:Ep; [done|exfalso].
    assert ((c, x) ∈ pending s2) as Hp by (rewrite Ep; by left).
    apply pending_elem in Hp; [|apply Hdu2]. unfold s2 in Hp.
    rewrite (dirty_at_same (put_entry code (mkEntry url (e_a e) exp (instance s1) (e_h e) (e_oh e)) s1)) in Hp by done.
    unfold put_entry in Hp.
    rewrite (dirty_at_data _ _ s1 c (wf_len _ (sa_wf _ Hs1)) (shardOf_bound code)) in Hp.
    destruct (Hview c) as [_ Hn]. congruence. }
  rewrite app_nil_r, app_assoc. change (instance s2) with (instance s1).
  change (replay (instance s1) ?x) with (replayed s1 x). rewrite replayed_snoc.
  rewrite apply_lop_row, index_apply_row by apply (wf_len _ (wf_replay _ _)) || apply Hc.
  rewrite decide_True by done. simpl.
  destruct (du_agrees _ _ _ _ _ Hdu1) as [_ Hcnt]. destruct (Hcnt eq_refl) as (Hstr & _ & _).
  unfold stray_of. by rewrite Hstr.
Qed.

End Session.

(** * Witnesses

    A run that creates a link, counts a hit on it and restarts. *)

Definition demo_code : bytes := lit "0ABCDEFG".
Definition demo_ops : list sop :=
  [OShorten (lit "http://a") [] false 0 100 [map (fun c => bofZ (alpha_index c)) (lit "ABCDEFG")];
   OResolve true demo_code 100 100 100; OSync; OReopen].

Lemma demo_ops_ok : Forall sop_ok demo_ops.
Proof.
  repeat (apply Forall_cons; split; [try done|]); try apply List.Forall_nil.
Defined.

Definition no_proc : Z -> bool := fun _ => false.

Lemma demo_instance : 0 <= 0 < maxInstances.
Proof. unfold maxInstances. lia. Qed.

Lemma restart_preserves_links_witness :
  exists s d s' d', session no_proc 1 0 demo_ops = Ret (s, d) /\ reopen no_proc 1 s d = Ret (s', d')
    /\ forall c, same_link true (Stats c s) (Stats c s').
Proof.
  pose proof (restart_preserves_links no_proc 1 0 demo_ops demo_instance demo_ops_ok) as P.
  assert (is_ret (session no_proc 1 0 demo_ops) = true) as R by (vm_compute; reflexivity).
  destruct (session no_proc 1 0 demo_ops) as [[s d]| |]; [|discriminate R|discriminate R].
  destruct P as (s' & d' & E & L). exists s, d, s', d'. split; [reflexivity|]. split; [exact E|exact L].
Defined.

Lemma flush_sync_survives_crash_witness :
  exists s d, session no_proc 1 0 demo_ops = Ret (s, d)
    /\ forall a, aof (Flush s d).1 = Some a -> forall d3,
       crash (Sync (Flush s d).2 a).2 d3 -> d3 !! snapName 0 = (Sync (Flush s d).2 a).2 !! snapName 0 ->
       exists s' d', New no_proc 1 0 d3 = Ret (inl s', d') /\ forall c, same_link true (Stats c s) (Stats c s').
Proof.
  pose proof (flush_sync_survives_crash no_proc 1 0 demo_ops demo_instance demo_ops_ok) as P.
  assert (is_ret (session no_proc 1 0 demo_ops) = true) as R by (vm_compute; reflexivity).
  destruct (session no_proc 1 0 demo_ops) as [[s d]| |]; [|discriminate R|discriminate R].
  exists s, d. split; [reflexivity|]. destruct (Flush s d) as [s1 d1]. intros a Ha. specialize (P a Ha).
  simpl. destruct (Sync d1 a) as [a' d2]. exact P.
Defined.

Lemma Compact_crash_loses_links_witness :
  exists s d, session no_proc 1 0 demo_ops = Ret (s, d)
    /\ exists d2 s2 d3, crash (Compact s d).2 d2 /\ New no_proc 1 0 d2 = Ret (inl s2, d3)
         /\ forall c, index s2 c = None.
Proof.
  pose proof (Compact_crash_loses_links no_proc 1 0 demo_ops demo_instance demo_ops_ok) as P.
  assert (is_ret (session no_proc 1 0 demo_ops) = true) as R by (vm_compute; reflexivity).
  destruct (session no_proc 1 0 demo_ops) as [[s d]| |]; [|discriminate R|discriminate R].
  exists s, d. split; [reflexivity|]. destruct (Compact s d) as [s1 d1]. exact (proj2 P).
Defined.

Lemma demo_counted :
  match session no_proc 1 0 demo_ops with
  | Ret (s, _) => e_h <$> index s demo_code = Some 1
  | _ => False
  end.
Proof. vm_compute. reflexivity. Qed.

Lemma Update_forgets_hits_witness :
  exists s d s3 d3, session no_proc 1 0 demo_ops = Ret (s, d)
    /\ e_h <$> index (Update demo_code (lit "http://b") 0 false 200 (Flush s d).1).2 demo_code = Some 1
    /\ reopen no_proc 1 (Update demo_code (lit "http://b") 0 false 200 (Flush s d).1).2 (Flush s d).2
       = Ret (s3, d3)
    /\ e_h <$> index s3 demo_code = Some 0.
Proof.
  pose proof (Update_forgets_hits no_proc 1 0 demo_ops demo_code (lit "http://b") 0 false 200
    demo_instance demo_ops_ok eq_refl) as P.
  pose proof demo_counted as R.
  destruct (session no_proc 1 0 demo_ops) as [[s d]| |]; [|destruct R|destruct R].
  destruct (index s demo_code) as [e|]; [|discriminate R]. injection R as R.
  exists s, d. destruct (Flush s d) as [s1 d1]. cbn [fst snd].
  destruct (Update _ _ _ _ _ s1) as [r s2]. cbn [fst snd].
  destruct (P e eq_refl) as (_ & E2 & s3 & d3 & E3 & E4). rewrite R in E2.
  exists s3, d3. split_and!; [reflexivity|exact E2|exact E3|exact E4].
Defined.
