(* ===== verification/Views.v ===== *)
(** * Views: what a store shows of a code, whoever wrote it

    Several instances share a directory; each code has one home, the instance
    that creates, updates and removes it. Two stores show the same of a code
    when their entries have the same row, whatever their counters. A log line
    changes what is shown of its code only, and in the same way everywhere: what
    an instance shows of a code is the replay of the lines of the code's home it
    has read. *)

From S2P Require Import Prelude GoStd Base62 LogLine Aof Store StoreSpec Replay Alone Queue Durable Restart.
From stdpp Require Import options.

Section Views.
Context `{MapOrder} `{SliceSort}.

(** ** The same row *)

#[export] Instance same_row_equiv : Equivalence same_row.
Proof.
  unfold same_row. split.
  - by intros e.
  - intros e e'. naive_solver.
  - intros e1 e2 e3. intros (-> & -> & -> & ->). done.
Qed.

Definition shows_same (c : bytes) (s s' : Store) : Prop := option_Forall2 same_row (index s c) (index s' c).

#[export] Instance shows_same_equiv (c : bytes) : Equivalence (shows_same c).
Proof.
  unfold shows_same. split.
  - intros s. destruct (index s c); by constructor.
  - intros s s' [e e' He|]; [|constructor]. constructor. by symmetry.
  - intros s1 s2 s3 H1 H2. destruct H1 as [e1 e2 He|]; [|done]. inversion H2 as [? e3 He' E|]; subst.
    constructor. by etransitivity.
Qed.

Lemma shows_same_index (c : bytes) (s s' : Store) : index s' c = index s c -> shows_same c s' s.
Proof. intros E. unfold shows_same. rewrite E. destruct (index s c); by constructor. Qed.

(** ** Lines *)

(** The line does not decide what is shown of [c]. *)
Definition elsewhere (c : bytes) (x : lop) : Prop :=
  match x with LRow c' _ _ _ _ _ | LDel c' => c' <> c | LHit _ _ _ => True end.

Lemma apply_elsewhere (c : bytes) (x : lop) (s : Store) :
  wf s -> lop_ok x -> elsewhere c x -> shows_same c (apply_lop s x) s.
Proof.
  intros Hw Hx He. destruct x as [c' u a e i n|c' d i|c']; simpl in Hx, He.
  - apply shows_same_index. rewrite apply_lop_row, index_apply_row by apply Hw || apply Hx. by rewrite decide_False.
  - unfold shows_same. rewrite apply_lop_hit, index_apply_hit by apply Hw || apply Hx.
    case_decide as Ec; [subst c'|]; [destruct (index s c); by constructor|destruct (index s c); by constructor].
  - apply shows_same_index. rewrite apply_lop_del, index_apply_del by apply Hw || apply Hx. by rewrite decide_False.
Qed.

Lemma apply_same (c : bytes) (x : lop) (s s' : Store) :
  wf s -> wf s' -> lop_ok x -> shows_same c s s' -> shows_same c (apply_lop s x) (apply_lop s' x).
Proof.
  intros Hw Hw' Hx Hs. destruct x as [c' u a e i n|c' d i|c']; simpl in Hx; unfold shows_same.
  - rewrite !apply_lop_row, !index_apply_row by apply Hw || apply Hw' || apply Hx.
    case_decide; [by constructor|done].
  - rewrite !apply_lop_hit, !index_apply_hit by apply Hw || apply Hw' || apply Hx.
    case_decide as Ec; [subst c'|done]. destruct Hs; by constructor.
  - rewrite !apply_lop_del, !index_apply_del by apply Hw || apply Hw' || apply Hx.
    case_decide; [constructor|done].
Qed.

Lemma foldl_elsewhere (c : bytes) (xs : list lop) (s : Store) :
  wf s -> Forall lop_ok xs -> Forall (elsewhere c) xs -> shows_same c (foldl apply_lop s xs) s.
Proof.
  revert s. induction xs as [|x xs IH]; intros s Hw Hx He; [reflexivity|].
  apply Forall_cons in Hx as [Hx Hxs]. apply Forall_cons in He as [He Hes]. cbn [foldl].
  etransitivity; [apply IH; [by apply wf_apply|done|done]|by apply apply_elsewhere].
Qed.

Lemma foldl_same (c : bytes) (xs : list lop) (s s' : Store) :
  wf s -> wf s' -> Forall lop_ok xs -> shows_same c s s' ->
  shows_same c (foldl apply_lop s xs) (foldl apply_lop s' xs).
Proof.
  revert s s'. induction xs as [|x xs IH]; intros s s' Hw Hw' Hx Hs; [done|].
  apply Forall_cons in Hx as [Hx Hxs]. apply IH; [by apply wf_apply..|done|by apply apply_same].
Qed.

(** ** Homes *)

Context (home : bytes -> Z).

(** A line of instance [j]: rows and removals of codes at home there. *)
Definition by_home (j : Z) (x : lop) : Prop :=
  match x with LRow c _ _ _ i _ => home c = j /\ i = j | LDel c => home c = j | LHit _ _ i => i = j end.

Lemma by_elsewhere (c : bytes) (j : Z) (x : lop) : by_home j x -> home c <> j -> elsewhere c x.
Proof. destruct x; simpl; [intros [<- _] Hne ->|done|intros <- Hne ->]; done. Qed.

(** What lines of [j] leave of a code. *)
Lemma read_lines (j : Z) (xs ys : list lop) (s : Store) (c : bytes) :
  wf s -> Forall lop_ok ys -> Forall (by_home j) ys ->
  (home c = j -> shows_same c s (replay j xs)) ->
  if decide (home c = j) then shows_same c (foldl apply_lop s ys) (replay j (xs ++ ys))
  else shows_same c (foldl apply_lop s ys) s.
Proof.
  intros Hw Hy Hb Hs. case_decide as E.
  - unfold replay. rewrite foldl_app. apply foldl_same; [done|apply wf_replay|done|by apply Hs].
  - apply foldl_elsewhere; [done|done|]. eapply Forall_impl; [exact Hb|]. intros x Hx. by eapply by_elsewhere.
Qed.

(** Entries name their home. *)
Definition entry_home (s : Store) : Prop := forall c e, index s c = Some e -> loaded_ok c e /\ e_i e = home c.

Lemma apply_entry_home (j : Z) (x : lop) (s : Store) :
  0 <= j < 62 -> wf s -> lop_ok x -> by_home j x -> entry_home s -> entry_home (apply_lop s x).
Proof.
  intros Hj Hw Hx Hb Hs c e E. split; [eapply apply_loaded; [done|exact Hx| |exact E]; intros c' e' E'; by apply (Hs c' e')|].
  destruct x as [c' u a ex i n|c' d i|c']; simpl in Hx, Hb.
  - rewrite apply_lop_row, index_apply_row in E by apply Hw || apply Hx. case_decide as Ec; [|by apply (Hs c e)].
    subst c'. injection E as <-. simpl. destruct Hb as [<- ->]. by apply inst_int32.
  - rewrite apply_lop_hit, index_apply_hit in E by apply Hw || apply Hx. case_decide as Ec; [|by apply (Hs c e)].
    subst c'. apply fmap_Some in E as (e0 & E0 & ->). by apply (Hs c e0).
  - rewrite apply_lop_del, index_apply_del in E by apply Hw || apply Hx. case_decide; [done|by apply (Hs c e)].
Qed.

Lemma foldl_entry_home (j : Z) (xs : list lop) (s : Store) :
  0 <= j < 62 -> wf s -> Forall lop_ok xs -> Forall (by_home j) xs -> entry_home s -> entry_home (foldl apply_lop s xs).
Proof.
  intros Hj. revert s. induction xs as [|x xs IH]; intros s Hw Hx Hb Hs; [done|].
  apply Forall_cons in Hx as [Hx Hxs]. apply Forall_cons in Hb as [Hb Hbs].
  apply IH; [by apply wf_apply|done|done|by eapply apply_entry_home].
Qed.

End Views.
