(* ===== verification/Threads.v ===== *)
(** * Threads: the calls of an instance at their real grain

    [Store.v] makes each call one step. In the source a creation, an update or
    a removal takes the lock of a shard for its change of the index, and
    queues its log line after it has let the lock go; [mutGate] is held in
    shared mode, so other calls run in between. Here a call is a thread whose
    steps are its critical sections: this file has the threads, their
    interleavings with timers and look-ups, and the proof that a thread that
    runs alone does what the operation of [Store.v] does. *)

From S2P Require Import Prelude GoStd Base62 LogLine Aof Store StoreSpec Replay Alone.
From S2P Require Import Queue Durable Restart Trace Session.
From stdpp Require Import options.

(** What a call answers. *)
Inductive tres :=
| RCode (code : bytes)
| RCodes (codes : list bytes)
| RMut (r : MutResult).

(** A call in progress, by what it does next. [TPush x k] has changed the index
    and not yet queued the line [x] of the change. *)
Inductive thread :=
| TAlias (url alias : bytes) (now exp : Z)
| TDraw (url : bytes) (now exp : Z) (rnds : list bytes)
| TMany (now exp : Z) (urls : list bytes) (rnd : bytes) (rnds codes : list bytes)
| TAgain (now exp : Z) (urls : list bytes) (rnd : bytes) (rnds codes : list bytes)
| TUpdate (code url : bytes) (ttlMs : Z) (hasTTL : bool) (now : Z)
| TRemove (code : bytes)
| TPush (x : lop) (k : thread)
| TBig (k : thread)
| TFlush (k : thread)
| TDone (r : tres).

Definition is_done (t : thread) : bool := match t with TDone _ => true | _ => false end.

(** ** Steps *)

(** [sh.data[code] = e], in the critical section that found the code free. *)
Definition file_new (code url : bytes) (now exp : Z) (s : Store) : Store :=
  put_entry code (mkEntry url now exp (int32 (instance s)) 0 0) s.

Definition new_row (code url : bytes) (now exp : Z) (s : Store) : lop :=
  LRow code url now exp (instance s) 0.

(** A creation found [code] free and files the link: its line is in flight when
    the lock is let go, and [k] is what the call does after. *)
Definition take_code (code url : bytes) (now exp : Z) (k : thread) (s : Store) (d : Disk) : go (thread * Store * Disk) :=
  Ret (TPush (new_row code url now exp s) k, file_new code url now exp s, d).

(** [Shorten] with an alias, and one round of its loop without. *)
Definition alias_section (url alias : bytes) (now exp : Z) (s : Store) (d : Disk) : go (thread * Store * Disk) :=
  match index s alias with
  | Some _ => Ret (TDone (RCode []), s, d)
  | None => take_code alias url now exp (TBig (TDone (RCode alias))) s d
  end.

Definition draw_section (url : bytes) (now exp : Z) (buf : bytes) (rnds : list bytes) (s : Store) (d : Disk)
    : go (thread * Store * Disk) :=
  let code := prefix s :: randSuffix buf in
  match index s code with
  | Some _ => Ret (TDraw url now exp rnds, s, d)
  | None => take_code code url now exp (TBig (TDone (RCode code))) s d
  end.

(** One try of [ShortenMany] for a URL, on seven bytes [buf] of the batch's buffer
    or of a new draw; [rnd] starts at the bytes for this URL. *)
Definition many_section (now exp : Z) (url : bytes) (urls : list bytes) (buf rnd : bytes) (rnds codes : list bytes)
    (s : Store) (d : Disk) : go (thread * Store * Disk) :=
  let code := prefix s :: randSuffix buf in
  match index s code with
  | Some _ => Ret (TAgain now exp (url :: urls) rnd rnds codes, s, d)
  | None => take_code code url now exp (TMany now exp urls (drop (codeLen - 1) rnd) rnds (codes ++ [code])) s d
  end.

Definition update_section (code url : bytes) (ttlMs : Z) (hasTTL : bool) (now : Z) (s : Store) (d : Disk)
    : go (thread * Store * Disk) :=
  match index s code with
  | None => Ret (TDone (RMut MutMissing), s, d)
  | Some e =>
      if negb (e_i e =? instance s) then Ret (TDone (RMut MutRemote), s, d)
      else
        let exp := if hasTTL then expiry now ttlMs else e_e e in
        Ret (TPush (LRow code url (e_a e) exp (instance s) 0) (TDone (RMut MutOK)),
             put_entry code (mkEntry url (e_a e) exp (e_i e) (e_h e) (e_oh e)) s, d)
  end.

Definition remove_section (code : bytes) (s : Store) (d : Disk) : go (thread * Store * Disk) :=
  match index s code with
  | None => Ret (TDone (RMut MutMissing), s, d)
  | Some e =>
      if negb (e_i e =? instance s) then Ret (TDone (RMut MutRemote), s, d)
      else Ret (TPush (LDel code) (TDone (RMut MutOK)), del_entry code s, d)
  end.

(** One step: a critical section of the index, or one of the log. *)
Definition thread_step (t : thread) (s : Store) (d : Disk) : go (thread * Store * Disk) :=
  match t with
  | TAlias url alias now exp => alias_section url alias now exp s d
  | TDraw url now exp [] => Diverge
  | TDraw url now exp (buf :: rnds) => draw_section url now exp buf rnds s d
  | TMany now exp [] rnd rnds codes => Ret (TBig (TDone (RCodes codes)), s, d)
  | TMany now exp (u :: urls) rnd rnds codes =>
      many_section now exp u urls (take (codeLen - 1) rnd) rnd rnds codes s d
  | TAgain now exp (u :: urls) rnd (buf :: rnds) codes => many_section now exp u urls buf rnd rnds codes s d
  | TAgain now exp _ rnd _ codes => Diverge
  | TUpdate code url ttlMs hasTTL now => update_section code url ttlMs hasTTL now s d
  | TRemove code => remove_section code s d
  | TPush x k => Ret (k, push_line (line_of x) s, d)
  | TBig k =>
      Ret (match aof s with
           | Some a => if flushBytes <? PendingBytes a then TFlush k else k
           | None => k
           end, s, d)
  | TFlush k =>
      match aof s with
      | Some a => let '(a', d') := Aof.Flush d a in Ret (k, set_aof (Some a') s, d')
      | None => Ret (k, s, d)
      end
  | TDone r => Ret (TDone r, s, d)
  end.

(** Steps a thread to its next state. *)
Create HintDb sections.
#[export] Hint Unfold alias_section draw_section many_section update_section remove_section take_code : sections.
Ltac run_thread := cbn [thread_step go_bind]; repeat autounfold with sections; cbn [go_bind].

(** The thread a call starts as: the clock is read on entry. *)
Definition start (o : sop) : option thread :=
  match o with
  | OShorten url alias hasAlias ttlMs now rnds =>
      Some (if hasAlias then TAlias url alias now (expiry now ttlMs)
            else TDraw url now (expiry now ttlMs) rnds)
  | OShortenMany urls ttlMs now rnd rnds => Some (TMany now (expiry now ttlMs) urls rnd rnds [])
  | OUpdate code url ttlMs hasTTL now => Some (TUpdate code url ttlMs hasTTL now)
  | ORemove code => Some (TRemove code)
  | _ => None
  end.

(** ** Alone *)

Section Threads.
Context `{MapOrder} `{SliceSort}.

Fixpoint thread_run (n : nat) (t : thread) (s : Store) (d : Disk) : go (thread * Store * Disk) :=
  match n with
  | O => Ret (t, s, d)
  | S n => let* (t', s', d') := thread_step t s d in thread_run n t' s' d'
  end.

(** The operation of [Store.v], and what it answers. *)
Definition answer (o : sop) (s : Store) (d : Disk) : go (tres * Store * Disk) :=
  match o with
  | OShorten url alias hasAlias ttlMs now rnds =>
      let* (c, s', d') := Shorten url alias hasAlias ttlMs now rnds s d in Ret (RCode c, s', d')
  | OShortenMany urls ttlMs now rnd rnds =>
      let* (cs, s', d') := ShortenMany urls ttlMs now rnd rnds s d in Ret (RCodes cs, s', d')
  | OUpdate code url ttlMs hasTTL now =>
      let '(r, s') := Update code url ttlMs hasTTL now s in Ret (RMut r, s', d)
  | ORemove code => let '(r, s') := Remove code s in Ret (RMut r, s', d)
  | _ => Panic
  end.

(** Steps a thread can still take. *)
Fixpoint steps_left (t : thread) : nat :=
  match t with
  | TAlias _ _ _ _ => 4
  | TDraw _ _ _ rnds => 4 + length rnds
  | TMany _ _ urls _ rnds _ => 3 + 3 * length urls + length rnds
  | TAgain _ _ urls _ rnds _ => 2 + 3 * length urls + length rnds
  | TUpdate _ _ _ _ _ | TRemove _ => 2
  | TPush _ k | TFlush k => S (steps_left k)
  | TBig k => 2 + steps_left k
  | TDone _ => 0
  end.

Lemma steps_left_step (t : thread) (s : Store) (d : Disk) :
  match thread_step t s d with
  | Ret (t', _, _) => is_done t = true \/ (steps_left t' < steps_left t)%nat
  | Panic => False
  | Diverge => True
  end.
Proof.
  destruct t as [url alias now exp|url now exp [|buf rnds]|now exp [|u urls] rnd rnds codes
    |now exp [|u urls] rnd [|buf rnds] codes|code url ttlMs hasTTL now|code|x k|k|k|r]; run_thread; try done.
  all: repeat case_match; simplify_eq/=; try done; auto; right; lia.
Qed.

Lemma thread_run_done (n : nat) (r : tres) (s : Store) (d : Disk) : thread_run n (TDone r) s d = Ret (TDone r, s, d).
Proof. induction n as [|n IH]; [done|exact IH]. Qed.

(** The tail of a creation: its line, and a flush when the queue is big. *)
Lemma run_big (n : nat) (r : tres) (s : Store) (d : Disk) :
  (2 <= n)%nat ->
  thread_run n (TBig (TDone r)) s d = (let '(s', d') := flush_if_big s d in Ret (TDone r, s', d')).
Proof.
  destruct n as [|[|n]]; [lia|lia|]. intros _. unfold flush_if_big. cbn [thread_run]; run_thread.
  destruct (aof s) as [a|] eqn:Ea; [|apply thread_run_done].
  destruct (_ <? _); [|apply thread_run_done]. cbn [thread_step]. rewrite Ea.
  destruct (Aof.Flush d a) as [a' d']. apply thread_run_done.
Qed.

Lemma run_draw (url : bytes) (now exp : Z) (rnds : list bytes) (s : Store) (d : Disk) (n : nat) :
  (4 + length rnds <= n)%nat ->
  thread_run n (TDraw url now exp rnds) s d
  = (let* (code, _) := free_code s rnds in
     let '(s', d') := flush_if_big (create code url now exp s) d in Ret (TDone (RCode code), s', d')).
Proof.
  revert n. induction rnds as [|buf rnds IH]; intros [|n] Hn; cbn [length] in Hn; [lia|done|lia|].
  cbn [thread_run free_code]; run_thread. destruct (index s _) as [e|]; cbn [go_bind]; [apply IH; lia|].
  destruct n as [|n]; [lia|]. cbn [thread_run]; run_thread. apply run_big. lia.
Qed.

(** The loop of [ShortenMany] from the URL at hand, its first code made or not. *)
Definition many_answer (m : go (list bytes * Store)) (codes : list bytes) (d : Disk) : go (thread * Store * Disk) :=
  let* (cs, s1) := m in
  let '(s', d') := flush_if_big s1 d in Ret (TDone (RCodes (codes ++ cs)), s', d').

Definition again_loop (now exp : Z) (u : bytes) (urls : list bytes) (rnd : bytes) (s : Store) (rnds : list bytes)
    : go (list bytes * Store) :=
  let* (code, rnds') := free_code s rnds in
  let* (cs, s2) := many_loop now exp urls (drop (codeLen - 1) rnd) (create code u now exp s) rnds' in
  Ret (code :: cs, s2).

Lemma many_answer_cons (code : bytes) (m : go (list bytes * Store)) (codes : list bytes) (d : Disk) :
  many_answer m (codes ++ [code]) d = many_answer (let* (cs, s2) := m in Ret (code :: cs, s2)) codes d.
Proof.
  unfold many_answer. destruct m as [[cs s2]| |]; cbn [go_bind]; [|done|done].
  destruct (flush_if_big s2 d). by rewrite <- app_assoc.
Qed.

Lemma run_again (now exp : Z) (u : bytes) (urls : list bytes) (rnd : bytes) (codes : list bytes) (d : Disk) :
  (forall s rnds rnd codes n, (3 + 3 * length urls + length rnds <= n)%nat ->
     thread_run n (TMany now exp urls rnd rnds codes) s d
     = many_answer (many_loop now exp urls rnd s rnds) codes d) ->
  forall rnds s n, (2 + 3 * length (u :: urls) + length rnds <= n)%nat ->
  thread_run n (TAgain now exp (u :: urls) rnd rnds codes) s d
  = many_answer (again_loop now exp u urls rnd s rnds) codes d.
Proof.
  intros Hrun. induction rnds as [|buf rnds IH]; intros s [|n] Hn; cbn [length] in Hn; [lia|done|lia|].
  unfold again_loop. cbn [thread_run free_code]; run_thread.
  destruct (index s _) as [e|]; cbn [go_bind]; [apply IH; cbn [length]; lia|].
  destruct n as [|n]; [lia|]. cbn [thread_run]; run_thread.
  rewrite Hrun by lia. apply many_answer_cons.
Qed.

Lemma run_many (now exp : Z) (urls : list bytes) (d : Disk) (s : Store) (rnds : list bytes) (rnd : bytes)
    (codes : list bytes) (n : nat) :
  (3 + 3 * length urls + length rnds <= n)%nat ->
  thread_run n (TMany now exp urls rnd rnds codes) s d = many_answer (many_loop now exp urls rnd s rnds) codes d.
Proof.
  revert s rnds rnd codes n. induction urls as [|u urls IH]; intros s rnds rnd codes [|n] Hn; cbn [length] in Hn; try lia.
  - cbn [thread_run many_loop]; run_thread. unfold many_answer. cbn [go_bind]. rewrite app_nil_r.
    apply run_big. lia.
  - cbn [thread_run many_loop]; run_thread. unfold many_step.
    destruct (index s _) as [e|]; cbn [go_bind].
    + rewrite run_again; [|exact IH|cbn [length]; lia]. unfold again_loop.
      by destruct (free_code s rnds) as [[? ?]| |].
    + destruct n as [|n]; [lia|]. cbn [thread_run]; run_thread. rewrite IH by lia. apply many_answer_cons.
Qed.

(** the grain of [Store.v] is right for calls that do not overlap. A call
    that runs alone takes at most [steps_left] steps, and ends with the answer,
    the store and the directory that its operation gives; where the operation
    runs out of random bytes, so does the thread. *)
Theorem thread_alone (o : sop) (t : thread) (s : Store) (d : Disk) (n : nat)
  (Ho : start o = Some t) (Hn : (steps_left t <= n)%nat) :
  thread_run n t s d = (let* (r, s', d') := answer o s d in Ret (TDone r, s', d')).
Proof.
  destruct o; cbn [start] in Ho; try discriminate Ho; injection Ho as <-; cbn [answer].
  - unfold Shorten. destruct hasAlias; cbn [andb steps_left] in *.
    + destruct n as [|[|n]]; [lia|lia|]. cbn [thread_run]; run_thread.
      destruct (index s alias) as [e|] eqn:E.
      * rewrite bool_decide_true by eauto. apply thread_run_done.
      * rewrite bool_decide_false by (by intros [? ?]). run_thread. rewrite run_big by lia.
        change (push_line _ _) with (create alias url now (expiry now ttlMs) s). by destruct (flush_if_big _ d).
    + rewrite run_draw by done. destruct (free_code s rnds) as [[code rest]| |]; cbn [go_bind]; [|done|done].
      by destruct (flush_if_big _ d).
  - unfold ShortenMany. rewrite run_many by done. unfold many_answer.
    destruct (many_loop _ _ _ _ _ _) as [[cs s1]| |]; cbn [go_bind]; [|done|done]. by destruct (flush_if_big s1 d).
  - unfold Update. cbn [steps_left] in Hn. destruct n as [|[|n]]; [lia|lia|]. cbn [thread_run]; run_thread.
    destruct (index s code) as [e|]; [|apply thread_run_done].
    destruct (negb _); [apply thread_run_done|]. run_thread. apply thread_run_done.
  - unfold Remove. cbn [steps_left] in Hn. destruct n as [|[|n]]; [lia|lia|]. cbn [thread_run]; run_thread.
    destruct (index s code) as [e|]; [|apply thread_run_done].
    destruct (negb _); [apply thread_run_done|]. run_thread. apply thread_run_done.
Qed.

End Threads.
