(* ===== verification/Interleave.v ===== *)
(** * Interleave: calls of one instance running at the same time

    Any number of calls at the grain of [Threads.v], with timers and look-ups in
    between. The lines that are in flight (their change is in the index, but
    they are not queued yet) are queued in an order of the scheduler's choice:
    as long as lines in flight together concern different codes, index and
    files stay in step, and calls that only create links always are like that.
    An update and a removal of the same link that overlap are not, and a link
    answered as deleted is back after a restart. *)

From S2P Require Import Prelude GoStd Base62 LogLine Aof Store StoreSpec StoreRead Replay Alone.
From S2P Require Import Queue Durable Restart Trace Session Views Threads.
From stdpp Require Import options.

Record conc := mkConc { threads : list thread; c_st : Store; c_disk : Disk }.

Inductive tev :=
| ECall (o : sop)     (* a call starts *)
| ERun (i : nat)      (* call [i] takes a step *)
| ETick (o : sop).    (* a timer, a look-up, a compaction or a restart *)

(** [mutGate.Lock] waits for the calls in progress, and so does a restart. *)
Definition waits (o : sop) : bool := match o with OCompact | OReopen => true | _ => false end.

(** The line a thread is about to queue. *)
Definition flight (t : thread) : option lop := match t with TPush x _ => Some x | _ => None end.
Definition flights (ts : list thread) : list lop := omap flight ts.

Definition lop_code (x : lop) : bytes := match x with LRow c _ _ _ _ _ | LHit c _ _ | LDel c => c end.

(** The lines in flight concern different codes. *)
Definition apart (ts : list thread) : Prop := NoDup (map lop_code (flights ts)).

#[export] Instance apart_dec (ts : list thread) : Decision (apart ts).
Proof. unfold apart. apply _. Defined.

(** Calls that only create links, and runs of such calls. *)
Fixpoint creating (t : thread) : bool :=
  match t with
  | TUpdate _ _ _ _ _ | TRemove _ => false
  | TPush (LRow _ _ _ _ _ _) k => creating k
  | TPush _ _ => false
  | TBig k | TFlush k => creating k
  | _ => true
  end.

Definition creation (e : tev) : bool := match e with ECall o => keeps_rows o | _ => true end.

Definition tev_ok (e : tev) : Prop := match e with ECall o | ETick o => sop_ok o | ERun _ => True end.

Section Interleave.
Context `{MapOrder} `{SliceSort}.

Definition conc_step (e : tev) (c : conc) : go conc :=
  let '(mkConc ts s d) := c in
  match e with
  | ECall o => Ret (match start o with Some t => mkConc (ts ++ [t]) s d | None => c end)
  | ERun i =>
      match ts !! i with
      | Some t => let* (t', s', d') := thread_step t s d in Ret (mkConc (<[i := t']> ts) s' d')
      | None => Ret c
      end
  | ETick o =>
      if bool_decide (is_Some (start o)) || waits o && negb (forallb is_done ts) then Ret c
      else let* (s', d') := sstep o (s, d) in Ret (mkConc ts s' d')
  end.

Definition conc_run (es : list tev) (c : conc) : go conc := go_fold conc_step es c.

(** Lines in flight are apart all along the run. *)
Fixpoint calm (es : list tev) (c : conc) : bool :=
  bool_decide (apart (threads c)) &&
  match es with
  | [] => true
  | e :: es' => match conc_step e c with Ret c' => calm es' c' | _ => true end
  end.

(** ** Lines in flight *)

Lemma flights_at (ts : list thread) (i : nat) (t : thread) :
  ts !! i = Some t -> exists rest, flights ts ≡ₚ option_list (flight t) ++ rest
    /\ forall t', flights (<[i := t']> ts) ≡ₚ option_list (flight t') ++ rest.
Proof.
  intros Hi. exists (flights (take i ts) ++ flights (drop (S i) ts)). unfold flights.
  assert (forall t', omap flight (take i ts ++ t' :: drop (S i) ts)
    ≡ₚ option_list (flight t') ++ omap flight (take i ts) ++ omap flight (drop (S i) ts)) as Hp.
  { intros t'. rewrite omap_app. cbn [omap list_omap]. destruct (flight t'); cbn [option_list app].
    - by rewrite <- Permutation_middle.
    - done. }
  split.
  - by rewrite <- Hp, take_drop_middle by done.
  - intros t'. rewrite insert_take_drop by (by eapply lookup_lt_Some). apply Hp.
Qed.

Lemma flights_done (ts : list thread) : forallb is_done ts = true -> flights ts = [].
Proof.
  induction ts as [|t ts IH]; [done|]. intros [Ht Hts]%andb_true_iff. unfold flights in *. cbn [omap list_omap].
  rewrite IH by done. by destruct t.
Qed.

Lemma lop_code_elsewhere (c : bytes) (x : lop) : lop_code x <> c -> elsewhere c x.
Proof. by destruct x. Qed.

(** The order of lines on different codes does not matter. *)
Lemma foldl_perm (c : bytes) (xs ys : list lop) (r : Store) :
  xs ≡ₚ ys -> NoDup (map lop_code xs) -> Forall lop_ok xs -> wf r ->
  shows_same c (foldl apply_lop r xs) (foldl apply_lop r ys).
Proof.
  intros Hp. revert r. induction Hp as [|x xs ys Hp IH|y x xs|xs ys zs Hp1 IH1 Hp2 IH2]; intros r Hn Hx Hw.
  - reflexivity.
  - apply NoDup_cons in Hn as [_ Hn]. apply Forall_cons in Hx as [Hx Hxs]. apply IH; [done|done|by apply wf_apply].
  - cbn [foldl map] in *. apply NoDup_cons in Hn as [Hne _]. apply Forall_cons in Hx as [Hy Hx].
    apply Forall_cons in Hx as [Hx Hxs]. apply foldl_same; [by do 2 apply wf_apply..|done|].
    destruct (decide (lop_code x = c)) as [<-|Hc].
    + assert (elsewhere (lop_code x) y) as He.
      { apply lop_code_elsewhere. intros E. apply Hne. rewrite E. by left. }
      etransitivity; [apply apply_elsewhere; [by apply wf_apply|done|done]|].
      apply apply_same; [done|by apply wf_apply|done|]. symmetry. by apply apply_elsewhere.
    + apply lop_code_elsewhere in Hc.
      etransitivity; [apply apply_same; [by apply wf_apply|exact Hw|done|by apply apply_elsewhere]|].
      symmetry. apply apply_elsewhere; [by apply wf_apply|done|done].
  - etransitivity; [by apply IH1|]. apply IH2; [by rewrite <- Hp1|by rewrite <- Hp1|done].
Qed.

Lemma agrees_shows (s r r' : Store) :
  agrees false s r -> (forall c, shows_same c r r') -> agrees false s r'.
Proof.
  intros [Hr _] Hs. split; [|done]. intros c. specialize (Hr c). specialize (Hs c). unfold shows_same in Hs.
  destruct Hr as [e e' He|]; [|by inversion Hs]. inversion Hs as [? e2 He' E1 E2|]; subst. constructor. by etransitivity.
Qed.

Lemma agrees_perm (s r : Store) (xs ys : list lop) :
  xs ≡ₚ ys -> NoDup (map lop_code xs) -> Forall lop_ok xs -> wf r ->
  agrees false s (foldl apply_lop r xs) -> agrees false s (foldl apply_lop r ys).
Proof. intros Hp Hn Hx Hw Ha. eapply agrees_shows; [exact Ha|]. intros c. by apply foldl_perm. Qed.

(** ** One step of a thread *)

(** What the rest of the call may do. *)
Fixpoint thread_ok (t : thread) : Prop :=
  match t with
  | TAlias _ alias now exp => code_ok alias /\ is_int64 now /\ is_int64 exp
  | TDraw _ now exp _ | TMany now exp _ _ _ _ | TAgain now exp _ _ _ _ => is_int64 now /\ is_int64 exp
  | TPush x k => lop_ok x /\ flight k = None /\ thread_ok k
  | TBig k | TFlush k => flight k = None /\ thread_ok k
  | _ => True
  end.

(** The change of the index that the line [x] tells. *)
Definition changed (x : lop) (s s' : Store) : Prop :=
  match x with
  | LRow c u a e i n => exists h oh, is_int64 h /\ is_int64 oh /\ i = instance s /\ n = 0
      /\ s' = put_entry c (mkEntry u a e i h oh) s
  | LDel c => s' = del_entry c s
  | LHit _ _ _ => False
  end.

Lemma changed_spec (x : lop) (s s' : Store) (d : Disk) (snap log : list lop) (r : Store) :
  sane s -> filed s d snap log -> lop_ok x -> changed x s s' -> length (shards r) = numShards -> agrees false s r ->
  sane s' /\ filed s' d snap log /\ agrees false s' (apply_lop r x) /\ instance s' = instance s /\ closed s' = closed s.
Proof.
  intros Hs Hf Hx Hc Hl Hag. pose proof Hs as [Hw Hi Hp Ho Hent Hdirty].
  destruct x as [c u a e i n|c d0 i|c]; cbn in Hx, Hc; [|done|].
  - destruct Hc as (h & oh & Hh & Hoh & -> & -> & ->). destruct Hx as (Hc & Ha & He & _).
    assert (forall c', index (put_entry c (mkEntry u a e (instance s) h oh) s) c'
      = if decide (c = c') then Some (mkEntry u a e (instance s) h oh) else index s c') as Hidx
      by (intros c'; apply index_put, Hw).
    assert (forall c', dirty_at (put_entry c (mkEntry u a e (instance s) h oh) s) c' = dirty_at s c') as Hd
      by (intros c'; exact (dirty_at_data _ _ s c' (wf_len s Hw) (shardOf_bound c))).
    split_and!; [| | |done|done].
    + split; try done; [by apply wf_put| |intros c' x; rewrite Hd; apply Hdirty].
      intros c' e'. rewrite Hidx. case_decide as Ec; [|apply Hent]. subst c'. by intros [= <-].
    + by destruct Hf.
    + eapply agrees_row; try done; apply Hc.
  - subst s'.
    assert (forall c', index (del_entry c s) c' = if decide (c = c') then None else index s c') as Hidx
      by (intros c'; apply index_del, Hw).
    split_and!; [| | |done|done].
    + split; try done; [by apply wf_del| |].
      * intros c' e'. rewrite Hidx. case_decide; [done|apply Hent].
      * intros c' x. unfold del_entry. rewrite dirty_at_data by auto using shardOf_bound with store. apply Hdirty.
    + by destruct Hf.
    + eapply agrees_del; try done. apply Hx.
Qed.

Lemma file_new_changed (s : Store) (code url : bytes) (now exp : Z) :
  sane s -> code_ok code -> is_int64 now -> is_int64 exp ->
  lop_ok (new_row code url now exp s) /\ changed (new_row code url now exp s) s (file_new code url now exp s).
Proof.
  intros Hs Hc Hn He. pose proof (inst_int64 _ (sa_inst s Hs)). split.
  - cbn. split_and!; try done; unfold is_int64; lia.
  - exists 0, 0. unfold file_new. rewrite (inst_int32 (instance s)) by apply Hs.
    split_and!; try done; unfold is_int64; lia.
Qed.

(** A step changes the index and takes its line in flight, or queues the line in
    flight, or does neither. *)
Definition quiet (t t' : thread) (s s' : Store) (d' : Disk) (snap log : list lop) : Prop :=
  flight t = None /\ flight t' = None /\ sane s' /\ filed s' d' snap log
  /\ shards s' = shards s /\ instance s' = instance s /\ closed s' = closed s.

Definition takes (x : lop) (t t' : thread) (s s' : Store) (d d' : Disk) : Prop :=
  flight t = None /\ flight t' = Some x /\ lop_ok x /\ changed x s s' /\ d' = d
  /\ (creating t = true -> index s (lop_code x) = None).

Definition queues (x : lop) (t t' : thread) (s s' : Store) (d d' : Disk) : Prop :=
  flight t = Some x /\ flight t' = None /\ lop_ok x /\ s' = push_line (line_of x) s /\ d' = d.

Definition thread_did (t t' : thread) (s s' : Store) (d d' : Disk) (snap log : list lop) : Prop :=
  thread_ok t' /\ (creating t = true -> creating t' = true)
  /\ (quiet t t' s s' d' snap log \/ (exists x, takes x t t' s s' d d') \/ exists x, queues x t t' s s' d d').

Lemma did_nothing (t t' : thread) (s : Store) (d : Disk) (snap log : list lop) :
  sane s -> filed s d snap log -> thread_ok t' -> flight t = None -> flight t' = None ->
  (creating t = true -> creating t' = true) -> thread_did t t' s s d d snap log.
Proof. intros. split; [done|]. split; [done|]. left. by split_and!. Qed.

Lemma did_create (t k : thread) (s : Store) (d : Disk) (snap log : list lop) (code url : bytes) (now exp : Z) :
  sane s -> index s code = None -> code_ok code -> is_int64 now -> is_int64 exp ->
  flight t = None -> thread_ok k -> flight k = None -> (creating t = true -> creating k = true) ->
  thread_did t (TPush (new_row code url now exp s) k) s (file_new code url now exp s) d d snap log.
Proof.
  intros Hs Hn Hc Hnow Hexp Ht Hk Hfk Hcr.
  destruct (file_new_changed s code url now exp Hs Hc Hnow Hexp) as [Hx Hch].
  split; [by cbn|]. split; [done|]. right. left. exists (new_row code url now exp s). by split_and!.
Qed.

Lemma thread_step_did (t t' : thread) (s s' : Store) (d d' : Disk) (snap log : list lop) :
  sane s -> filed s d snap log -> thread_ok t -> thread_step t s d = Ret (t', s', d') ->
  thread_did t t' s s' d d' snap log.
Proof.
  intros Hs Hf Ht. pose proof (fun buf => generated_code_ok s buf Hs) as Hg.
  destruct t as [url alias now exp|url now exp [|buf rnds]|now exp [|u urls] rnd rnds codes
    |now exp [|u urls] rnd [|buf rnds] codes|code url ttlMs hasTTL now|code|x k|k|k|r]; cbn [thread_ok] in *; run_thread; try done.
  - destruct (index s alias) eqn:E; intros [= <- <- <-]; [by apply did_nothing|]. destruct Ht as (? & ? & ?). by apply did_create.
  - destruct (index s _) eqn:E; intros [= <- <- <-]; [by apply did_nothing|]. destruct Ht as [? ?]. by apply did_create.
  - intros [= <- <- <-]. by apply did_nothing.
  - destruct (index s _) eqn:E; intros [= <- <- <-]; [by apply did_nothing|]. destruct Ht as [? ?]. by apply did_create.
  - destruct (index s _) eqn:E; intros [= <- <- <-]; [by apply did_nothing|]. destruct Ht as [? ?]. by apply did_create.
  - destruct (index s code) as [e|] eqn:E; [|intros [= <- <- <-]; by apply did_nothing].
    destruct (sa_entries s Hs code e E) as (Hc & Ha & He & Hi & Hh & Hoh). rewrite Hi, Z.eqb_refl. cbn [negb].
    pose proof (inst_int64 _ (sa_inst s Hs)).
    assert (is_int64 (if hasTTL then expiry now ttlMs else e_e e)) as Hexp by (destruct hasTTL; [apply expiry_int64|done]).
    intros [= <- <- <-]. split; [|split; [done|]].
    + cbn. split_and!; try done; unfold is_int64; lia.
    + right. left. eexists. split_and!; try done.
      exists (e_h e), (e_oh e). by split_and!.
  - destruct (index s code) as [e|] eqn:E; [|intros [= <- <- <-]; by apply did_nothing].
    destruct (sa_entries s Hs code e E) as (Hc & _ & _ & Hi & _). rewrite Hi, Z.eqb_refl. cbn [negb].
    intros [= <- <- <-]. split; [done|]. split; [done|]. right. left. eexists. by split_and!.
  - intros [= <- <- <-]. destruct Ht as (Hx & Hk & Hok). split; [done|]. split; [by destruct x|].
    right. right. exists x. by split_and!.
  - intros [= <- <- <-]. destruct Ht as [Hk Hok].
    destruct (aof s) as [a|]; [destruct (_ <? _)|]; by apply did_nothing.
  - destruct Ht as [Hk Hok]. pose proof Hf as [(a & Ha & Hp & Hl) _ _ _ _]. rewrite Ha.
    unfold Aof.Flush. pose proof (flushLocked_holds d a _ 0 Hl) as F.
    destruct (Aof.flushLocked d a) as [a1 d1]. destruct F as (Hl' & _ & Hp' & _ & Hd'). intros [= <- <- <-].
    destruct (writer_filed s d d1 snap log a a1 Hs Hf Ha Hp' (fun _ => Hl') Hd') as [Hs1 Hf1].
    split; [done|]. split; [done|]. left. by split_and!.
  - intros [= <- <- <-]. by apply did_nothing.
Qed.

(** ** Index and files, with lines in flight *)

(** The index is what the files, the queue and then the lines in flight replay to. *)
Record in_step (c : conc) (snap log : list lop) : Prop := {
  in_sane : sane (c_st c);
  in_filed : filed (c_st c) (c_disk c) snap log;
  in_threads : Forall thread_ok (threads c);
  in_agrees : agrees false (c_st c) (foldl apply_lop (replayed (c_st c) (snap ++ log)) (flights (threads c)))
}.

Definition underway (inst : Z) (c : conc) : Prop :=
  (exists snap log, in_step c snap log) /\ instance (c_st c) = inst /\ closed (c_st c) = false.

Lemma flights_ok (ts : list thread) : Forall thread_ok ts -> Forall lop_ok (flights ts).
Proof.
  intros Hts. apply Forall_forall. intros x (t & Ht & Hx)%list_elem_of_omap.
  rewrite Forall_forall in Hts. specialize (Hts t Ht). destruct t; try done. injection Hx as ->. apply Hts.
Qed.

Lemma wf_replayed (s : Store) (xs : list lop) : wf (replayed s xs).
Proof. apply wf_replay. Qed.

(** Without lines in flight, this is the invariant of [Durable]. *)
Lemma in_step_durable (c : conc) (snap log : list lop) :
  in_step c snap log -> flights (threads c) = [] -> durable false (c_st c) (c_disk c) snap log.
Proof. intros [Hs Hf _ Hag] Hn. rewrite Hn in Hag. by split. Qed.

Lemma durable_in_step (ts : list thread) (s : Store) (d : Disk) (snap log : list lop) :
  durable false s d snap log -> Forall thread_ok ts -> flights ts = [] -> in_step (mkConc ts s d) snap log.
Proof. intros [Hs Hf Hag] Hts Hn. split; [done|done|done|]. cbn [threads c_st c_disk]. by rewrite Hn. Qed.

Lemma underway_kept (inst : Z) (c : conc) :
  underway inst c -> flights (threads c) = [] -> kept false inst (c_st c) (c_disk c).
Proof. intros [(snap & log & Hin) Hr] Hn. split; [|done]. exists snap, log. by apply in_step_durable. Qed.

Lemma kept_underway (inst : Z) (ts : list thread) (s : Store) (d : Disk) :
  kept false inst s d -> Forall thread_ok ts -> flights ts = [] -> underway inst (mkConc ts s d).
Proof. intros [(snap & log & Hdu) Hr] Ht Hn. split; [|done]. exists snap, log. by apply durable_in_step. Qed.

(** A step that leaves what is shown of each code, and queues counters only. *)
Lemma in_step_still (ts : list thread) (s s' : Store) (d d' : Disk) (snap log hits : list lop) :
  in_step (mkConc ts s d) snap log -> sane s' -> filed s' d' snap (log ++ hits) ->
  instance s' = instance s -> (forall c, shows_same c s' s) -> (forall c, Forall (elsewhere c) hits) ->
  in_step (mkConc ts s' d') snap (log ++ hits).
Proof.
  intros [Hs Hf Hts [Hag _]] Hs' Hf' Ei Hsh Hel. cbn [threads c_st c_disk] in *. split; [done|done|done|].
  cbn [threads c_st]. split; [|done]. intros c.
  assert (Forall lop_ok hits) as Hh.
  { pose proof (fi_ok _ _ _ _ Hf') as Hok. rewrite app_assoc in Hok. by apply Forall_app in Hok as [_ Hok]. }
  assert (shows_same c (foldl apply_lop (replayed s' (snap ++ log ++ hits)) (flights ts))
    (foldl apply_lop (replayed s (snap ++ log)) (flights ts))) as Hr.
  { unfold replayed, replay. rewrite Ei, app_assoc, foldl_app.
    apply foldl_same; [apply foldl_apply_facts, wf_replay|apply wf_replay|by apply flights_ok|].
    apply foldl_elsewhere; [apply wf_replay|done|done]. }
  specialize (Hag c). specialize (Hsh c). unfold shows_same in Hr, Hsh. etransitivity; [exact Hsh|].
  etransitivity; [exact Hag|]. by symmetry.
Qed.

Lemma in_step_take (ts : list thread) (i : nat) (t t' : thread) (x : lop) (s s' : Store) (d d' : Disk) (snap log : list lop) :
  in_step (mkConc ts s d) snap log -> ts !! i = Some t -> takes x t t' s s' d d' -> thread_ok t' ->
  apart (<[i := t']> ts) ->
  in_step (mkConc (<[i := t']> ts) s' d') snap log /\ instance s' = instance s /\ closed s' = closed s.
Proof.
  intros [Hs Hf Hts Hag] Hi (Hft & Hft' & Hx & Hch & -> & _) Ht' Hap. cbn [threads c_st c_disk] in *.
  destruct (flights_at ts i t Hi) as (rest & Hr & Hr'). specialize (Hr' t'). rewrite Hft in Hr. rewrite Hft' in Hr'.
  cbn [option_list app] in Hr, Hr'. assert (Forall thread_ok (<[i := t']> ts)) as Hts' by (by apply Forall_insert).
  pose proof (flights_ok _ Hts') as Hok'.
  set (r := foldl apply_lop (replayed s (snap ++ log)) (flights ts)) in *.
  assert (wf r) as Hwr by (apply foldl_apply_facts, wf_replay).
  destruct (changed_spec x s s' d snap log r Hs Hf Hx Hch (wf_len _ Hwr) Hag) as (Hs' & Hf' & Hag' & Ei & Ec).
  split; [|done]. split; [done|done|done|]. cbn [threads c_st].
  replace (replayed s') with (replayed s) by (unfold replayed; by rewrite Ei).
  unfold r in Hag'. rewrite <- foldl_snoc in Hag'. eapply agrees_perm; [|..|apply wf_replay|exact Hag'].
  - rewrite Hr', Hr. by rewrite Permutation_app_comm.
  - unfold apart in Hap. rewrite Hr' in Hap. rewrite Hr, <- Permutation_cons_append. exact Hap.
  - rewrite Hr, <- Permutation_cons_append. by rewrite <- Hr'.
Qed.

Lemma in_step_queue (ts : list thread) (i : nat) (t t' : thread) (x : lop) (s s' : Store) (d d' : Disk) (snap log : list lop) :
  in_step (mkConc ts s d) snap log -> ts !! i = Some t -> queues x t t' s s' d d' -> thread_ok t' ->
  apart ts ->
  in_step (mkConc (<[i := t']> ts) s' d') snap (log ++ [x]) /\ instance s' = instance s /\ closed s' = closed s.
Proof.
  intros [Hs Hf Hts Hag] Hi (Hft & Hft' & Hx & -> & ->) Ht' Hap. cbn [threads c_st c_disk] in *.
  destruct (flights_at ts i t Hi) as (rest & Hr & Hr'). specialize (Hr' t'). rewrite Hft in Hr. rewrite Hft' in Hr'.
  cbn [option_list app] in Hr, Hr'. pose proof (flights_ok _ Hts) as Hok.
  split; [|done]. split; cbn [threads c_st c_disk].
  - by apply (sane_same s).
  - eapply (filed_push s); try done; apply Hs.
  - by apply Forall_insert.
  - apply (agrees_same false s); [done|]. change (replayed (push_line (line_of x) s)) with (replayed s).
    rewrite app_assoc, replayed_snoc. change (foldl apply_lop (apply_lop ?r x) ?l) with (foldl apply_lop r (x :: l)).
    eapply agrees_perm; [|exact Hap|done|apply wf_replay|exact Hag]. by rewrite Hr, Hr'.
Qed.

Lemma in_step_quiet (ts : list thread) (i : nat) (t t' : thread) (s s' : Store) (d d' : Disk) (snap log : list lop) :
  in_step (mkConc ts s d) snap log -> ts !! i = Some t -> quiet t t' s s' d' snap log -> thread_ok t' ->
  apart ts -> in_step (mkConc (<[i := t']> ts) s' d') snap log /\ flights (<[i := t']> ts) ≡ₚ flights ts.
Proof.
  intros [Hs Hf Hts Hag] Hi (Hft & Hft' & Hs' & Hf' & Es & Ei & Ec) Ht' Hap. cbn [threads c_st c_disk] in *.
  destruct (flights_at ts i t Hi) as (rest & Hr & Hr'). specialize (Hr' t'). rewrite Hft in Hr. rewrite Hft' in Hr'.
  cbn [option_list app] in Hr, Hr'. split; [|by rewrite Hr, Hr'].
  split; cbn [threads c_st c_disk]; [done|done|by apply Forall_insert|].
  apply (agrees_same false s); [done|]. replace (replayed s') with (replayed s) by (unfold replayed; by rewrite Ei).
  eapply agrees_perm; [|exact Hap|by apply flights_ok|apply wf_replay|exact Hag]. by rewrite Hr, Hr'.
Qed.

Lemma run_underway (inst : Z) (ts : list thread) (i : nat) (t t' : thread) (s s' : Store) (d d' : Disk) :
  underway inst (mkConc ts s d) -> ts !! i = Some t -> thread_step t s d = Ret (t', s', d') ->
  apart ts -> apart (<[i := t']> ts) -> underway inst (mkConc (<[i := t']> ts) s' d').
Proof.
  intros [(snap & log & Hin) [Ei Ec]] Hi E Hap Hap'. cbn [c_st] in Ei, Ec.
  assert (thread_ok t) as Ht. { pose proof (in_threads _ _ _ Hin) as Hts. rewrite Forall_forall in Hts.
    apply Hts. by eapply list_elem_of_lookup_2. }
  destruct (thread_step_did t t' s s' d d' snap log (in_sane _ _ _ Hin) (in_filed _ _ _ Hin) Ht E)
    as (Ht' & _ & [Hq|[[x Hx]|[x Hx]]]).
  - destruct (in_step_quiet ts i t t' s s' d d' snap log Hin Hi Hq Ht' Hap) as [Hin' _].
    destruct Hq as (_ & _ & _ & _ & _ & Ei' & Ec'). split; [eauto|]. cbn. by rewrite Ei', Ec'.
  - destruct (in_step_take ts i t t' x s s' d d' snap log Hin Hi Hx Ht' Hap') as (Hin' & Ei' & Ec').
    split; [eauto|]. cbn. by rewrite Ei', Ec'.
  - destruct (in_step_queue ts i t t' x s s' d d' snap log Hin Hi Hx Ht' Hap) as (Hin' & Ei' & Ec').
    split; [eauto|]. cbn. by rewrite Ei', Ec'.
Qed.

(** ** Timers and look-ups *)

Lemma in_step_same (ts : list thread) (s s' : Store) (d d' : Disk) (snap log : list lop) :
  in_step (mkConc ts s d) snap log -> sane s' /\ filed s' d' snap log ->
  instance s' = instance s -> (forall c, shows_same c s' s) -> in_step (mkConc ts s' d') snap log.
Proof.
  intros Hin [Hs' Hf'] Ei Hsh. rewrite <- (app_nil_r log).
  apply (in_step_still ts s s' d d' snap log []); rewrite ?app_nil_r; try done.
Qed.

Lemma elsewhere_hits (c : bytes) (inst : Z) (ps : list (bytes * Z)) : Forall (elsewhere c) (map (hit_of inst) ps).
Proof. apply Forall_fmap, Forall_forall. by intros [c' d']. Qed.

Lemma count_shows (c code : bytes) (e : entry) (s : Store) :
  wf s -> index s code = Some e -> shows_same c (count_hit code e s) s.
Proof.
  intros Hw He. unfold shows_same. rewrite index_count_hit by apply Hw. case_decide as Ec.
  - subst c. rewrite He. by constructor.
  - destruct (index s c); by constructor.
Qed.

Lemma tick_underway (inst : Z) (ts : list thread) (s : Store) (d : Disk) (o : sop) :
  underway inst (mkConc ts s d) -> start o = None -> waits o = false ->
  match sstep o (s, d) with
  | Ret (s', d') => underway inst (mkConc ts s' d') /\ forall c, shows_same c s' s
  | _ => False
  end.
Proof.
  intros [(snap & log & Hin) [Ei Ec]] Ho Hw. cbn [c_st] in Ei, Ec.
  pose proof (in_sane _ _ _ Hin) as Hs. pose proof (in_filed _ _ _ Hin) as Hf. cbn [c_st c_disk] in Hs, Hf.
  assert (forall s', same_but_tails s s' -> alone s' d -> in_step (mkConc ts s' d) snap log
    /\ instance s' = inst /\ closed s' = false /\ forall c, shows_same c s' s) as Htails.
  { intros s' Hsame Hal. pose proof (tails_filed s s' d snap log Hsame Hal Hs Hf) as Hsf.
    destruct Hsame as (Es & _ & _ & Ei' & _ & _ & _ & Ec').
    assert (forall c, shows_same c s' s) as Hsh by (intros c; by apply shows_same_index, index_same).
    split; [by eapply in_step_same|]. by rewrite Ei', Ec'. }
  destruct o; cbn [start waits sstep] in *; try discriminate.
  - unfold Resolve.
    destruct (resolve_miss_alone code t1 t2 d s) as (s1 & -> & Hsame & Hal1);
      [by apply inst_int64, Hs|apply Hs|apply Hf|]. cbn [go_bind].
    destruct (Htails s1 Hsame Hal1) as (Hin1 & Ei1 & Ec1 & Hsh1).
    assert (underway inst (mkConc ts s1 d) /\ forall c, shows_same c s1 s) as Hnone by (split; [split; eauto|done]).
    destruct (index s1 code) as [e|] eqn:E; [|exact Hnone].
    destruct (live e now); [|exact Hnone]. destruct trackHits; [|exact Hnone].
    pose proof (in_sane _ _ _ Hin1) as Hs1. cbn [c_st] in Hs1.
    assert (forall c, shows_same c (count_hit code e s1) s1) as Hsh by (intros c; apply count_shows; [apply Hs1|done]).
    split; [|intros c; etransitivity; [apply Hsh|apply Hsh1]]. split; [|done]. exists snap, log.
    eapply in_step_same; [exact Hin1| |done|exact Hsh].
    apply count_filed; [done|done|apply (in_filed _ _ _ Hin1)].
  - pose proof (flush_filed s d snap log Hs Hf) as F. cbv zeta in F. unfold Store.Flush.
    destruct (flushLocked s d) as [s' d']. destruct F as (Hs' & Hf' & Hview & Ei' & Ec' & _).
    assert (forall c, shows_same c s' s) as Hsh by (intros c; apply shows_same_index, Hview).
    split; [|exact Hsh]. split; [|by cbn; rewrite Ei', Ec']. do 2 eexists.
    eapply in_step_still; [exact Hin|done|exact Hf'|done|exact Hsh|intros c; apply elsewhere_hits].
  - pose proof Hf as [(a & Ha & _ & Hl) _ _ _ _]. rewrite Ha. pose proof (Sync_files d a _ 0 Hl) as F.
    destruct (Sync d a) as [a' d']. destruct F as (Hl' & Hp' & _ & Hd').
    assert (forall c, shows_same c (set_aof (Some a') s) s) as Hsh by (intros c; by apply shows_same_index, index_same).
    split; [|exact Hsh]. split; [|done]. exists snap, log.
    eapply in_step_same; [exact Hin|by eapply writer_filed|done|exact Hsh].
  - destruct (PollTails_alone now d s (fi_alone _ _ _ _ Hf)) as (s1 & -> & Hsame & Hal1). cbn [go_bind].
    destruct (Htails s1 Hsame Hal1) as (Hin1 & Ei1 & Ec1 & Hsh1). split; [split; eauto|done].
Qed.

Lemma start_ok (o : sop) (t : thread) : sop_ok o -> start o = Some t -> thread_ok t /\ flight t = None.
Proof.
  intros Hok. destruct o; cbn in *; intros [= <-]; try done.
  - destruct Hok as [Hn Ha]. pose proof (expiry_int64 now ttlMs). destruct hasAlias; cbn; auto.
  - pose proof (expiry_int64 now ttlMs). done.
Qed.

Lemma conc_step_underway (inst : Z) (e : tev) (c : conc) :
  underway inst c -> apart (threads c) -> tev_ok e ->
  match conc_step e c with
  | Ret c' => apart (threads c') -> underway inst c'
  | Panic => False
  | Diverge => True
  end.
Proof.
  destruct c as [ts s d]. intros Hu Hap Hok. destruct e as [o|i|o]; cbn [conc_step tev_ok] in *.
  - intros _. destruct (start o) as [t|] eqn:E; [|done]. destruct (start_ok o t Hok E) as [Ht Hn].
    destruct Hu as [(snap & log & [Hs Hf Hts Hag]) Hr]. split; [|done]. exists snap, log.
    split; cbn [threads c_st c_disk] in *; [done|done|apply Forall_app; split; [done|by apply Forall_singleton]|].
    unfold flights in *. rewrite omap_app. cbn [omap list_omap]. rewrite Hn. by rewrite app_nil_r.
  - destruct (ts !! i) as [t|] eqn:Ei; [|done].
    pose proof (steps_left_step t s d) as P. destruct (thread_step t s d) as [[[t' s'] d']| |] eqn:E; [|done|done].
    cbn [go_bind]. intros Hap'. by eapply run_underway.
  - case_bool_decide as Hst; cbn [orb]; [done|]. apply eq_None_not_Some in Hst.
    destruct (waits o) eqn:Ew; cbn [andb].
    + destruct (forallb is_done ts) eqn:Ed; cbn [negb]; [|done]. apply flights_done in Ed.
      pose proof (sstep_kept false o s d inst (underway_kept inst _ Hu Ed) Hok ltac:(done)) as P.
      destruct Hu as [(snap & log & Hin) _]. pose proof (in_threads _ _ _ Hin) as Hts.
      destruct (sstep o (s, d)) as [[s' d']| |]; [|done|done]. intros _. by apply kept_underway.
    + pose proof (tick_underway inst ts s d o Hu Hst Ew) as P.
      destruct (sstep o (s, d)) as [[s' d']| |]; [by intros _; apply P|done|done].
Qed.

Lemma calm_apart (es : list tev) (c : conc) : calm es c = true -> apart (threads c).
Proof. destruct es; cbn; intros [Ha _]%andb_true_iff; by apply bool_decide_eq_true in Ha. Qed.

Lemma conc_run_underway (inst : Z) (es : list tev) (c : conc) :
  underway inst c -> Forall tev_ok es -> calm es c = true ->
  match conc_run es c with Ret c' => underway inst c' /\ apart (threads c') | Panic => False | Diverge => True end.
Proof.
  revert c. induction es as [|e es IH]; intros c Hu Hok Hc; [split; [done|by eapply calm_apart]|].
  apply Forall_cons in Hok as [He Hok]. pose proof (calm_apart _ _ Hc) as Hap. cbn [calm] in Hc.
  apply andb_true_iff in Hc as [_ Hc]. unfold conc_run. cbn [go_fold].
  pose proof (conc_step_underway inst e c Hu Hap He) as P.
  destruct (conc_step e c) as [c'| |]; [|done|done]. cbn [go_bind]. apply IH; [|done|done].
  apply P. by eapply calm_apart.
Qed.

(** ** Creations only *)

Definition is_row (x : lop) : Prop := match x with LRow _ _ _ _ _ _ => True | _ => False end.

Lemma rows_present (c : bytes) (xs : list lop) (r : Store) :
  Forall is_row xs -> Forall lop_ok xs -> wf r -> c ∈ map lop_code xs -> is_Some (index (foldl apply_lop r xs) c).
Proof.
  intros Hr Hok Hw. induction xs as [|x xs IH] using rev_ind; [by intros ?%elem_of_nil|].
  apply Forall_app in Hr as [Hr Hx]. apply Forall_app in Hok as [Hok Hxok].
  rewrite Forall_singleton in Hx, Hxok. destruct x as [c' u a e i n| |]; [|destruct Hx|destruct Hx].
  rewrite map_app, foldl_snoc. intros Hc. assert (wf (foldl apply_lop r xs)) as Hw' by (by apply foldl_apply_facts).
  rewrite apply_lop_row, index_apply_row by apply Hw' || apply Hxok. case_decide as E; [done|].
  apply IH; [done|done|]. apply elem_of_app in Hc as [Hc|Hc]; [done|]. apply list_elem_of_singleton in Hc. by cbn in Hc.
Qed.

Lemma creating_flights (ts : list thread) : Forall (fun t => creating t = true) ts -> Forall is_row (flights ts).
Proof.
  intros Hts. apply Forall_forall. intros x (t & Ht & Hx)%list_elem_of_omap.
  rewrite Forall_forall in Hts. specialize (Hts t Ht). destruct t as [| | | | | |[]| | |]; try done. by injection Hx as <-.
Qed.

(** A code in flight is in the index. *)
Lemma in_flight_filed (c : conc) (snap log : list lop) (code : bytes) :
  in_step c snap log -> Forall (fun t => creating t = true) (threads c) ->
  code ∈ map lop_code (flights (threads c)) -> is_Some (index (c_st c) code).
Proof.
  intros [Hs Hf Hts [Hag _]] Hcr Hc.
  destruct (rows_present code _ (replayed (c_st c) (snap ++ log)) (creating_flights _ Hcr) (flights_ok _ Hts)
    (wf_replayed _ _) Hc) as [e He].
  specialize (Hag code). rewrite He in Hag. inversion Hag. eauto.
Qed.

Lemma creation_step (inst : Z) (e : tev) (c c' : conc) :
  underway inst c -> apart (threads c) -> Forall (fun t => creating t = true) (threads c) ->
  creation e = true -> conc_step e c = Ret c' ->
  apart (threads c') /\ Forall (fun t => creating t = true) (threads c').
Proof.
  destruct c as [ts s d]. intros Hu Hap Hcr He. destruct e as [o|i|o]; cbn [conc_step creation threads] in *.
  - destruct (start o) as [t|] eqn:E; intros [= <-]; [|done]. cbn [threads].
    assert (flight t = None /\ creating t = true) as [Hf Hc].
    { destruct o; cbn in *; try discriminate; injection E as <-; [by destruct hasAlias|done]. }
    split; [|apply Forall_app; split; [done|by apply Forall_singleton]].
    unfold apart, flights in *. rewrite omap_app. cbn [omap list_omap]. rewrite Hf. by rewrite app_nil_r.
  - destruct (ts !! i) as [t|] eqn:Ei; [|by intros [= <-]].
    destruct (thread_step t s d) as [[[t' s'] d']| |] eqn:E; cbn [go_bind]; [|done|done]. intros [= <-]. cbn [threads].
    destruct Hu as [(snap & log & Hin) _]. pose proof (list_elem_of_lookup_2 _ _ _ Ei) as Ht.
    assert (thread_ok t) as Htok.
    { pose proof (in_threads _ _ _ Hin) as Hts. rewrite Forall_forall in Hts. by apply Hts. }
    assert (creating t = true) as Htc by (rewrite Forall_forall in Hcr; by apply Hcr).
    destruct (thread_step_did t t' s s' d d' snap log (in_sane _ _ _ Hin) (in_filed _ _ _ Hin) Htok E)
      as (_ & Hc' & Hdid).
    split; [|apply Forall_insert; auto]. destruct (flights_at ts i t Ei) as (rest & Hr & Hr'). specialize (Hr' t').
    unfold apart in *. rewrite Hr in Hap. rewrite Hr'. destruct Hdid as [Hq|[[x Hx]|[x Hx]]].
    + destruct Hq as (Hft & Hft' & _). by rewrite Hft in Hap; rewrite Hft'.
    + destruct Hx as (Hft & Hft' & _ & _ & _ & Hn). rewrite Hft in Hap, Hr. rewrite Hft'.
      cbn [option_list app map] in *. apply NoDup_cons. split; [|done]. rewrite <- Hr. intros Hel.
      destruct (in_flight_filed _ _ _ _ Hin Hcr Hel) as [e1 He1]. cbn [c_st] in He1. rewrite Hn in He1; done.
    + destruct Hx as (Hft & Hft' & _). rewrite Hft in Hap. rewrite Hft'. cbn [option_list app map] in *.
      by apply NoDup_cons in Hap as [_ ?].
  - destruct (_ || _); [by intros [= <-]|]. destruct (sstep o (s, d)) as [[s' d']| |]; cbn [go_bind]; [|done|done].
    by intros [= <-].
Qed.

Lemma creations_calm (inst : Z) (es : list tev) (c : conc) :
  underway inst c -> apart (threads c) -> Forall (fun t => creating t = true) (threads c) ->
  Forall tev_ok es -> forallb creation es = true -> calm es c = true.
Proof.
  revert c. induction es as [|e es IH]; intros c Hu Hap Hcr Hok He; cbn [calm]; [by rewrite bool_decide_true|].
  apply Forall_cons in Hok as [Ho Hok]. apply andb_true_iff in He as [He Hes]. rewrite bool_decide_true by done. cbn [andb].
  pose proof (conc_step_underway inst e c Hu Hap Ho) as P.
  destruct (conc_step e c) as [c'| |] eqn:E; [|done|done].
  destruct (creation_step inst e c c' Hu Hap Hcr He E) as [Hap' Hcr']. by apply IH; [apply P|..].
Qed.

Lemma underway_start (alive : Z -> bool) (self inst : Z) (s0 : Store) (d0 : Disk) :
  0 <= inst < maxInstances -> New alive self inst ∅ = Ret (inl s0, d0) ->
  underway inst (mkConc [] s0 d0) /\ apart [].
Proof.
  intros Hi E. destruct (New_empty alive self inst Hi) as (s1 & d1 & E1 & K). rewrite E in E1. injection E1 as <- <-.
  split; [|by apply NoDup_nil]. apply kept_underway; [by apply (kept_weaken true)|done|done].
Qed.

(** What holds at the end of a calm run, or of one that only creates. *)
Lemma conc_run_kept (alive : Z -> bool) (self inst : Z) (es : list tev) (s0 : Store) (d0 : Disk) :
  0 <= inst < maxInstances -> Forall tev_ok es -> New alive self inst ∅ = Ret (inl s0, d0) ->
  forallb creation es = true \/ calm es (mkConc [] s0 d0) = true ->
  match conc_run es (mkConc [] s0 d0) with
  | Ret c => underway inst c /\ apart (threads c)
  | Panic => False
  | Diverge => True
  end.
Proof.
  intros Hi Hok E Hes. destruct (underway_start alive self inst s0 d0 Hi E) as [Hu Hap].
  apply conc_run_underway; [done|done|]. destruct Hes as [Hes|Hes]; [|done].
  by apply (creations_calm inst).
Qed.

(** C7: what concurrent calls leave on disk. Whatever calls run at the same time,
    each switching at every critical section, and whatever timers, look-ups and
    compactions come in between: if the calls only create links, or if no two
    lines that wait to be queued ever concern one code, then once every line is
    queued a restart finds exactly the links of the index. *)
Theorem concurrent_restart (alive : Z -> bool) (self inst : Z) (es : list tev) (s0 : Store) (d0 : Disk)
  (Hi : 0 <= inst < maxInstances) (Hok : Forall tev_ok es) (HN : New alive self inst ∅ = Ret (inl s0, d0))
  (Hes : forallb creation es = true \/ calm es (mkConc [] s0 d0) = true) :
  match conc_run es (mkConc [] s0 d0) with
  | Ret (mkConc ts s d) =>
      flights ts = [] ->
      exists s' d', reopen alive self s d = Ret (s', d')
        /\ forall code, same_link false (Stats code s) (Stats code s')
  | Panic => False
  | Diverge => True
  end.
Proof.
  pose proof (conc_run_kept alive self inst es s0 d0 Hi Hok HN Hes) as P.
  destruct (conc_run es _) as [[ts s d]| |]; [|done|done]. destruct P as [Hu _]. intros Hn.
  destruct (underway_kept inst _ Hu Hn) as [(snap & log & Hdu) [_ Hcl]]. cbn [c_st c_disk] in *.
  destruct (reopen_durable alive self false s d snap log Hdu Hcl) as (s' & d' & E & _ & _ & _ & _ & Hr & _).
  exists s', d'. split; [done|]. intros code. by apply same_link_index.
Qed.

End Interleave.
