(* ===== verification/Overlap.v ===== *)
(** * Overlap: answers of calls that run at the same time

    Calls that create links never answer the same code twice, whatever the
    schedule. An update and a removal of one link that overlap can leave a log
    that brings the link back, and a process that stops while a call is in
    progress can lose a link it has answered for. *)

From S2P Require Import Prelude GoStd Base62 LogLine Aof Store StoreSpec StoreRead Replay Alone.
From S2P Require Import Queue Durable Restart Trace Session Views Threads Interleave.
From stdpp Require Import options.

(** The codes a call has taken so far; when it is done, those it answers. *)
Fixpoint issued (t : thread) : list bytes :=
  match t with
  | TMany _ _ _ _ _ codes | TAgain _ _ _ _ _ codes | TDone (RCodes codes) => codes
  | TDone (RCode code) => if decide (code = []) then [] else [code]
  | TPush _ k | TBig k | TFlush k => issued k
  | _ => []
  end.

Definition issued_all (ts : list thread) : list bytes := concat (map issued ts).

Section Overlap.
Context `{MapOrder} `{SliceSort}.

(** ** Codes *)

Lemma issued_at (ts : list thread) (i : nat) (t : thread) :
  ts !! i = Some t -> exists rest, issued_all ts ≡ₚ issued t ++ rest
    /\ forall t', issued_all (<[i := t']> ts) ≡ₚ issued t' ++ rest.
Proof.
  intros Hi. exists (issued_all (take i ts) ++ issued_all (drop (S i) ts)). unfold issued_all.
  assert (forall t', concat (map issued (take i ts ++ t' :: drop (S i) ts))
    ≡ₚ issued t' ++ concat (map issued (take i ts)) ++ concat (map issued (drop (S i) ts))) as Hp.
  { intros t'. rewrite map_app, concat_app. cbn [map concat]. apply Permutation_app_swap_app. }
  split.
  - by rewrite <- Hp, take_drop_middle by done.
  - intros t'. rewrite insert_take_drop by (by eapply lookup_lt_Some). apply Hp.
Qed.

(** The codes of a call grow by codes that were free, and are in the index then. *)
Definition grows (t t' : thread) (s s' : Store) : Prop :=
  (issued t' = issued t /\ forall c, is_Some (index s c) -> is_Some (index s' c))
  \/ exists c, issued t' = issued t ++ [c] /\ index s c = None
       /\ forall c', is_Some (index s' c') <-> c' = c \/ is_Some (index s c').

Lemma file_new_grows (code url : bytes) (now exp : Z) (s : Store) :
  wf s -> forall c', is_Some (index (file_new code url now exp s) c') <-> c' = code \/ is_Some (index s c').
Proof.
  intros Hw c'. unfold file_new. rewrite index_put by apply Hw. case_decide as E.
  - subst c'. split; [by left|eauto].
  - split; [by right|]. intros [->|?]; done.
Qed.

Lemma thread_step_grows (t t' : thread) (s s' : Store) (d d' : Disk) :
  wf s -> thread_ok t -> creating t = true -> thread_step t s d = Ret (t', s', d') -> grows t t' s s'.
Proof.
  intros Hw Ht Hc.
  assert (forall t1 s1 d1, issued t1 = issued t -> shards s1 = shards s ->
    Ret (t1, s1, d1) = Ret (t', s', d') -> grows t t' s s') as Hsame.
  { intros t1 s1 d1 Ei Es [= <- <- <-]. left. split; [done|]. intros c. by rewrite (index_same s s1) by done. }
  assert (forall code url now exp k d1, index s code = None -> issued k = issued t ++ [code] ->
    Ret (TPush (new_row code url now exp s) k, file_new code url now exp s, d1) = Ret (t', s', d') ->
    grows t t' s s') as Hnew.
  { intros code url now exp k d1 Hn Ek [= <- <- <-]. right. exists code. split; [done|]. split; [done|].
    by apply file_new_grows. }
  destruct t as [url alias now exp|url now exp [|buf rnds]|now exp [|u urls] rnd rnds codes
    |now exp [|u urls] rnd [|buf rnds] codes|code url ttlMs hasTTL now|code|x k|k|k|r];
    cbn [thread_ok creating] in *; run_thread; try done.
  - destruct (index s alias) eqn:E; [by apply Hsame|]. apply Hnew; [done|]. cbn.
    destruct Ht as ([Ha _] & _). by rewrite decide_False.
  - destruct (index s _) eqn:E; [by apply Hsame|]. by apply Hnew.
  - by apply Hsame.
  - destruct (index s _) eqn:E; [by apply Hsame|]. by apply Hnew.
  - destruct (index s _) eqn:E; [by apply Hsame|]. by apply Hnew.
  - by apply Hsame.
  - destruct (aof s) as [a|]; [destruct (_ <? _)|]; by apply Hsame.
  - destruct (aof s) as [a|]; [destruct (Aof.Flush d a)|]; by apply Hsame.
  - by apply Hsame.
Qed.

(** All codes taken are different, and in the index. *)
Definition issued_ok (c : conc) : Prop :=
  NoDup (issued_all (threads c)) /\ Forall (fun code => is_Some (index (c_st c) code)) (issued_all (threads c)).

Lemma run_issued (ts : list thread) (i : nat) (t t' : thread) (s s' : Store) (d d' : Disk) :
  ts !! i = Some t -> grows t t' s s' -> issued_ok (mkConc ts s d) -> issued_ok (mkConc (<[i := t']> ts) s' d').
Proof.
  intros Hi Hg [Hn Hf]. unfold issued_ok in *. cbn [threads c_st] in *.
  destruct (issued_at ts i t Hi) as (rest & Hr & Hr'). specialize (Hr' t'). rewrite Hr in Hn, Hf. rewrite Hr'.
  destruct Hg as [[-> Hk]|(c & -> & Hc & Hk)].
  - split; [done|]. eapply Forall_impl; [exact Hf|done].
  - rewrite <- app_assoc. cbn [app]. rewrite <- Permutation_middle. split.
    + apply NoDup_cons. split; [|done]. intros Hel. rewrite Forall_forall in Hf.
      apply Hf in Hel as [e He]. by rewrite He in Hc.
    + apply Forall_cons. split; [apply Hk; by left|]. eapply Forall_impl; [exact Hf|]. intros c' Hc'.
      apply Hk. by right.
Qed.

Lemma sstep_present (inst : Z) (ts : list thread) (s s' : Store) (d d' : Disk) (o : sop) :
  underway inst (mkConc ts s d) -> start o = None -> (waits o = true -> forallb is_done ts = true) ->
  sstep o (s, d) = Ret (s', d') -> forall c, is_Some (index s c) -> is_Some (index s' c).
Proof.
  intros Hu Ho Hw E c. destruct (waits o) eqn:Ew.
  - specialize (Hw eq_refl). apply flights_done in Hw.
    destruct (underway_kept inst _ Hu Hw) as [(snap & log & Hdu) [_ Hcl]]. cbn [c_st c_disk] in *.
    destruct o; try discriminate Ew; cbn [sstep] in E.
    + pose proof (Compact_durable false s d snap log Hdu Hcl) as P. destruct (Compact s d) as [s1 d1].
      injection E as <- <-. destruct P as [_ P]. by rewrite P.
    + destruct (reopen_durable (fun _ => false) 0 false s d snap log Hdu Hcl) as (s1 & d1 & E1 & _ & _ & _ & _ & Hr & _).
      rewrite E1 in E. injection E as <- <-. specialize (Hr c). intros [e He]. rewrite He in Hr. inversion Hr. eauto.
  - pose proof (tick_underway inst ts s d o Hu Ho Ew) as P. rewrite E in P. destruct P as [_ P]. specialize (P c).
    unfold shows_same in P. intros [e He]. rewrite He in P. inversion P. eauto.
Qed.

Lemma conc_step_issued (inst : Z) (e : tev) (c c' : conc) :
  underway inst c -> Forall (fun t => creating t = true) (threads c) -> creation e = true ->
  issued_ok c -> conc_step e c = Ret c' -> issued_ok c'.
Proof.
  destruct c as [ts s d]. intros Hu Hcr He Hok. destruct e as [o|i|o]; cbn [conc_step creation threads] in *.
  - destruct (start o) as [t|] eqn:E; intros [= <-]; [|done]. unfold issued_ok, issued_all in *. cbn [threads c_st] in *.
    rewrite map_app, concat_app. cbn [map concat]. assert (issued t = []) as ->.
    { destruct o; cbn in *; try discriminate; injection E as <-; [by destruct hasAlias|done]. }
    cbn [app]. by rewrite app_nil_r.
  - destruct (ts !! i) as [t|] eqn:Ei; [|by intros [= <-]].
    destruct (thread_step t s d) as [[[t' s'] d']| |] eqn:E; cbn [go_bind]; [|done|done]. intros [= <-].
    destruct Hu as [(snap & log & Hin) _]. pose proof (list_elem_of_lookup_2 _ _ _ Ei) as Ht.
    eapply run_issued; [exact Ei| |exact Hok]. eapply thread_step_grows; [apply (in_sane _ _ _ Hin)|..|exact E].
    + pose proof (in_threads _ _ _ Hin) as Hts. rewrite Forall_forall in Hts. by apply Hts.
    + rewrite Forall_forall in Hcr. by apply Hcr.
  - case_bool_decide as Hst; cbn [orb]; [by intros [= <-]|]. apply eq_None_not_Some in Hst.
    destruct (waits o && negb (forallb is_done ts)) eqn:Ew; [by intros [= <-]|].
    destruct (sstep o (s, d)) as [[s' d']| |] eqn:E; cbn [go_bind]; [|done|done]. intros [= <-].
    destruct Hok as [Hn Hf]. split; [done|]. eapply Forall_impl; [exact Hf|]. intros code Hc. cbn [c_st] in *.
    eapply sstep_present; [exact Hu|exact Hst| |exact E|exact Hc]. intros Ew'. rewrite Ew' in Ew.
    by destruct (forallb is_done ts).
Qed.

Lemma conc_run_issued (inst : Z) (es : list tev) (c c' : conc) :
  underway inst c -> apart (threads c) -> Forall (fun t => creating t = true) (threads c) ->
  Forall tev_ok es -> forallb creation es = true -> issued_ok c -> conc_run es c = Ret c' -> issued_ok c'.
Proof.
  unfold conc_run. revert c. induction es as [|e es IH]; intros c Hu Hap Hcr Hok He Hi; [by intros [= <-]|].
  apply Forall_cons in Hok as [Ho Hok]. apply andb_true_iff in He as [He Hes]. cbn [go_fold].
  pose proof (conc_step_underway inst e c Hu Hap Ho) as P.
  destruct (conc_step e c) as [c1| |] eqn:E; cbn [go_bind]; [|done|done].
  destruct (creation_step inst e c c1 Hu Hap Hcr He E) as [Hap' Hcr'].
  apply IH; [by apply P|done|done|done|done|by eapply conc_step_issued].
Qed.

(** C8: no code is given out twice. However the calls of a run that only creates
    links interleave, with aliases, drawn codes and batches, the codes they
    have taken and answered are all different, and each is in the index. *)
Theorem concurrent_codes_distinct (alive : Z -> bool) (self inst : Z) (es : list tev) (s0 : Store) (d0 : Disk) (c : conc)
  (Hi : 0 <= inst < maxInstances) (Hok : Forall tev_ok es) (HN : New alive self inst ∅ = Ret (inl s0, d0))
  (Hes : forallb creation es = true) (Hrun : conc_run es (mkConc [] s0 d0) = Ret c) :
  NoDup (issued_all (threads c))
  /\ forall code, code ∈ issued_all (threads c) -> is_Some (index (c_st c) code).
Proof.
  destruct (underway_start alive self inst s0 d0 Hi HN) as [Hu Hap].
  destruct (conc_run_issued inst es (mkConc [] s0 d0) c Hu Hap) as [Hn Hf]; try done.
  split; [done|]. by rewrite Forall_forall in Hf.
Qed.

(** ** What a restart reads *)

(** The entries of the index are not what a shutdown writes. *)
Lemma hit_lines_put (s : Store) (c : bytes) (e : entry) : hit_lines (put_entry c e s) = hit_lines s.
Proof.
  unfold hit_lines, put_entry. cbn [shards set_shards instance]. f_equal.
  change (map ?f ?l) with (f <$> l). rewrite (list_fmap_alter _ _ id); [by apply list_alter_id|by apply Forall_forall].
Qed.

Lemma reopen_put (alive : Z -> bool) (self : Z) (s : Store) (d : Disk) (c : bytes) (e : entry) :
  reopen alive self (put_entry c e s) d = reopen alive self s d.
Proof.
  unfold reopen. change (instance (put_entry c e s)) with (instance s).
  assert ((Store.Close (put_entry c e s) d).2 = (Store.Close s d).2) as E.
  { unfold Store.Close. change (closed (put_entry c e s)) with (closed s). destruct (closed s); [done|].
    unfold Store.Flush, flushLocked. cbn [aof set_tails set_closed put_entry set_shards].
    destruct (aof s) as [a|] eqn:Ea; [|by cbn; rewrite Ea].
    change (hit_lines (set_tails _ (set_closed (put_entry c e s)))) with (hit_lines (put_entry c e s)).
    change (hit_lines (set_tails _ (set_closed s))) with (hit_lines s). rewrite hit_lines_put.
    destruct (Aof.Flush d _) as [a1 d1]. cbn [aof set_aof]. destruct (Sync d1 a1) as [a2 d2].
    by destruct (Aof.Close d2 a2). }
  destruct (Store.Close (put_entry c e s) d) as [s1 d1], (Store.Close s d) as [s2 d2]. cbn in E. by rewrite E.
Qed.

Lemma del_put (c : bytes) (e : entry) (s : Store) : del_entry c (put_entry c e s) = del_entry c s.
Proof.
  unfold del_entry, put_entry, set_shards. cbn. f_equal. rewrite list_alter_alter_eq.
  apply list_alter_ext; [|done]. intros sh _. unfold compose, alter_data. cbn. by rewrite delete_insert_eq.
Qed.

(** ** An update and a removal at the same time *)

(** Both have changed the index, the update first; the removal queues first. *)
Definition overlap (code url : bytes) (ttlMs : Z) (hasTTL : bool) (now : Z) : list tev :=
  [ECall (OUpdate code url ttlMs hasTTL now); ECall (ORemove code); ERun 0; ERun 1; ERun 1; ERun 0].

Lemma overlap_run (s : Store) (d : Disk) (snap log : list lop) (code url : bytes) (ttlMs : Z) (hasTTL : bool)
    (now : Z) (e : entry) :
  durable false s d snap log -> closed s = false -> index s code = Some e ->
  exists s1 e', conc_run (overlap code url ttlMs hasTTL now) (mkConc [] s d)
      = Ret (mkConc [TDone (RMut MutOK); TDone (RMut MutOK)] s1 d)
    /\ index s1 code = None /\ e_u e' = url
    /\ kept false (instance s) (put_entry code e' s1) d.
Proof.
  intros Hdu Hcl E. pose proof (du_sane _ _ _ _ _ Hdu) as Hs. pose proof (sa_wf s Hs) as Hw.
  destruct (sa_entries s Hs code e E) as (Hc & Ha & He & Hi & Hh & Hoh).
  set (exp := if hasTTL then expiry now ttlMs else e_e e).
  set (e' := mkEntry url (e_a e) exp (instance s) (e_h e) (e_oh e)).
  set (x := LRow code url (e_a e) exp (instance s) 0).
  set (s1 := push_line (line_of x) (push_line (delLine code) (del_entry code s))).
  assert (index (put_entry code e' s) code = Some e') as E'
    by (rewrite index_put by apply Hw; by rewrite decide_True).
  exists s1, e'. split_and!; [| |done|].
  - unfold conc_run, overlap. cbn [go_fold conc_step start threads go_bind app].
    cbn [lookup list_lookup]; run_thread. rewrite E, Hi, Z.eqb_refl. cbn [negb go_bind go_fold conc_step].
    fold exp e' x. cbn [insert list_insert lookup list_lookup]; run_thread. rewrite E'.
    change (instance (put_entry code e' s)) with (instance s). rewrite Z.eqb_refl. cbn [negb go_bind].
    cbn [go_fold conc_step insert list_insert lookup list_lookup thread_step go_bind].
    unfold s1. by rewrite del_put.
  - change (index (del_entry code s) code = None). rewrite index_del by apply Hw. by rewrite decide_True.
  - pose proof (Remove_durable s d snap log code Hdu Hcl) as R. unfold Remove in R. rewrite E, Hi, Z.eqb_refl in R.
    destruct R as [(snap1 & log1 & Hdu1) [_ Hcl1]]. cbn [negb snd] in *. split; [|done]. exists snap1. eexists.
    eapply (row_durable false _ d snap1 log1 code url (e_a e) exp (e_h e) (e_oh e) Hdu1); try done.
    unfold exp. destruct hasTTL; [apply expiry_int64|done].
Qed.

(** C10: a removal answered while an update of the same link is in progress can be
    undone by a restart. In every run and for every link of the instance: when
    both calls have changed the index, the update first, and the removal
    queues its line first, both answer that they are done and the index has no
    link; a clean restart has it again, with the target of the update. *)
Theorem removed_link_returns (alive : Z -> bool) (self inst : Z) (ops : list sop)
  (code url : bytes) (ttlMs : Z) (hasTTL : bool) (now : Z)
  (Hi : 0 <= inst < maxInstances) (Hok : Forall sop_ok ops) :
  match session alive self inst ops with
  | Ret (s, d) =>
      is_Some (index s code) ->
      exists s1 s2 d2 l, conc_run (overlap code url ttlMs hasTTL now) (mkConc [] s d)
          = Ret (mkConc [TDone (RMut MutOK); TDone (RMut MutOK)] s1 d)
        /\ Stats code s1 = None
        /\ reopen alive self s1 d = Ret (s2, d2) /\ Stats code s2 = Some l /\ URL l = url
  | Panic => False
  | Diverge => True
  end.
Proof.
  pose proof (session_cases alive self inst ops Hi Hok) as Hk.
  destruct (session alive self inst ops) as [[s d]| |]; [|done|done]. intros [e E].
  apply kept_weaken in Hk as [(snap & log & Hdu) [_ Hcl]].
  destruct (overlap_run s d snap log code url ttlMs hasTTL now e Hdu Hcl E) as (s1 & e' & Hrun & Hn & Hu & Hk').
  destruct Hk' as [(snap1 & log1 & Hdu1) [_ Hcl1]].
  destruct (reopen_durable alive self false _ d snap1 log1 Hdu1 Hcl1) as (s2 & d2 & E2 & _ & _ & _ & _ & Hr & _).
  pose proof (wf_len _ (sa_wf _ (du_sane _ _ _ _ _ Hdu1))) as Hl. cbn in Hl. rewrite length_alter in Hl.
  specialize (Hr code). rewrite index_put in Hr by done.
  rewrite decide_True in Hr by done. inversion Hr as [? e2 (Eu & _) E1 E3|]; subst.
  exists s1, s2, d2, (link_of code e2). split; [exact Hrun|].
  split; [unfold Stats; by rewrite Hn|]. split; [by rewrite <- (reopen_put alive self s1 d code e')|].
  unfold Stats. by rewrite <- E3.
Qed.

(** ** A creation during the shutdown *)

(** a link that is created while the process stops can be lost. When the
    shutdown comes between the change of the index and the queueing of the
    line, the call goes on to answer with its code, and the next start
    does not know it; neither frontend waits for the requests in progress
    before the store is closed. *)
Theorem shutdown_loses_link (alive : Z -> bool) (self inst : Z) (ops : list sop) (url alias : bytes) (ttlMs now : Z)
  (Hi : 0 <= inst < maxInstances) (Hok : Forall sop_ok ops) :
  match session alive self inst ops with
  | Ret (s, d) =>
      index s alias = None ->
      exists ts1 s1, conc_run [ECall (OShorten url alias true ttlMs now []); ERun 0] (mkConc [] s d) = Ret (mkConc ts1 s1 d)
        /\ is_Some (Stats alias s1)
        /\ let '(s2, d2) := Store.Close s1 d in
           (exists s3 d3, conc_run [ERun 0; ERun 0; ERun 0] (mkConc ts1 s2 d2) = Ret (mkConc [TDone (RCode alias)] s3 d3))
           /\ exists s3 d3, New alive self inst d2 = Ret (inl s3, d3) /\ Stats alias s3 = None
  | Panic => False
  | Diverge => True
  end.
Proof.
  pose proof (session_cases alive self inst ops Hi Hok) as Hk.
  destruct (session alive self inst ops) as [[s d]| |]; [|done|done]. intros E.
  apply kept_weaken in Hk as [(snap & log & Hdu) [Ei Hcl]].
  set (e0 := mkEntry url now (expiry now ttlMs) (int32 (instance s)) 0 0).
  set (t1 := TPush (new_row alias url now (expiry now ttlMs) s) (TBig (TDone (RCode alias)))).
  exists [t1], (put_entry alias e0 s). split; [|split].
  - unfold conc_run. cbn [go_fold conc_step start threads go_bind app].
    cbn [lookup list_lookup]; run_thread. by rewrite E.
  - unfold Stats. rewrite index_put by apply Hdu. rewrite decide_True by done. eauto.
  - destruct (reopen_durable alive self false s d snap log Hdu Hcl) as (s3 & d3 & E3 & _ & _ & _ & _ & Hr & _).
    rewrite <- (reopen_put alive self s d alias e0) in E3.
    unfold reopen in E3. change (instance (put_entry alias e0 s)) with (instance s) in E3. rewrite Ei in E3.
    destruct (Store.Close (put_entry alias e0 s) d) as [s2 d2]. split.
    + unfold conc_run. cbn [go_fold conc_step lookup list_lookup thread_step t1 go_bind insert list_insert].
      destruct (aof _) as [a|] eqn:Ea; [|eauto]. destruct (_ <? _); [|eauto].
      cbn [thread_step]. rewrite Ea. destruct (Aof.Flush d2 a). eauto.
    + destruct (New alive self inst d2) as [[[s4|] d4]| |]; cbn [go_bind] in E3; [|done|done|done]. injection E3 as -> ->.
      exists s3, d3. split; [done|]. specialize (Hr alias). rewrite E in Hr. unfold Stats. by inversion Hr.
Qed.

End Overlap.

(** * Witnesses

    Two creations at the same time, one of them with an alias, and then an
    update next to a removal of the other link. *)

Definition demo_bytes : bytes := map (fun c => bofZ (alpha_index c)) (lit "ABCDEFG").

Definition demo_creations : list tev :=
  [ECall (OShorten (lit "http://a") (lit "go") true 0 100 []);
   ECall (OShorten (lit "http://b") [] false 0 100 [demo_bytes]);
   ERun 0; ERun 1; ETick OFlush; ERun 1; ERun 0; ERun 0; ERun 1].

Definition demo_calls : list tev :=
  demo_creations ++
  [ECall (OUpdate (lit "go") (lit "http://c") 0 false 200); ECall (ORemove demo_code);
   ERun 2; ERun 3; ERun 3; ERun 2; ETick (OResolve true (lit "go") 300 300 300); ETick OCompact].

Lemma demo_calls_ok : Forall tev_ok demo_calls.
Proof. repeat (apply Forall_cons; split; [try done|]); try apply List.Forall_nil. Defined.

Lemma demo_creations_ok : Forall tev_ok demo_creations.
Proof. repeat (apply Forall_cons; split; [try done|]); try apply List.Forall_nil. Defined.

(** The end of a run from an empty directory, if the test holds there. *)
Definition demo_run (es : list tev) (test : conc -> bool) : bool :=
  match New no_proc 1 0 ∅ with
  | Ret (inl s0, d0) => match conc_run es (mkConc [] s0 d0) with Ret c => calm es (mkConc [] s0 d0) && test c | _ => false end
  | _ => false
  end.

Lemma thread_alone_witness :
  exists t, start (OShorten (lit "http://a") (lit "go") true 0 100 []) = Some t
    /\ thread_run 4 t NewMem ∅
       = (let* (r, s', d') := answer (OShorten (lit "http://a") (lit "go") true 0 100 []) NewMem ∅ in Ret (TDone r, s', d')).
Proof.
  eexists. split; [reflexivity|].
  apply (thread_alone (OShorten (lit "http://a") (lit "go") true 0 100 [])); [reflexivity|simpl; lia].
Defined.

Lemma concurrent_restart_witness :
  exists s0 d0 ts s d s' d', New no_proc 1 0 ∅ = Ret (inl s0, d0)
    /\ conc_run demo_calls (mkConc [] s0 d0) = Ret (mkConc ts s d) /\ length ts = 4%nat
    /\ reopen no_proc 1 s d = Ret (s', d')
    /\ forall code, same_link false (Stats code s) (Stats code s').
Proof.
  assert (demo_run demo_calls (fun c => forallb is_done (threads c) && (length (threads c) =? 4)%nat) = true) as R
    by (vm_compute; reflexivity).
  unfold demo_run in R. pose proof (concurrent_restart no_proc 1 0 demo_calls) as P.
  destruct (New no_proc 1 0 ∅) as [[[s0|] d0]| |]; [|discriminate R..].
  specialize (P s0 d0 demo_instance demo_calls_ok eq_refl).
  destruct (conc_run demo_calls (mkConc [] s0 d0)) as [[ts s d]| |] eqn:Er; [|discriminate R..].
  apply andb_true_iff in R as [Rc R]. cbn [threads] in R. apply andb_true_iff in R as [Rd Rl].
  destruct (P (or_intror Rc) (flights_done ts Rd)) as (s' & d' & E & L).
  exists s0, d0, ts, s, d, s', d'. split; [reflexivity|]. split; [exact Er|].
  split; [by apply Nat.eqb_eq|]. split; [exact E|exact L].
Defined.

Lemma concurrent_codes_distinct_witness :
  exists s0 d0 c, New no_proc 1 0 ∅ = Ret (inl s0, d0) /\ conc_run demo_creations (mkConc [] s0 d0) = Ret c
    /\ issued_all (threads c) = [lit "go"; demo_code] /\ NoDup (issued_all (threads c)).
Proof.
  assert (demo_run demo_creations (fun c => bool_decide (issued_all (threads c) = [lit "go"; demo_code])) = true) as R
    by (vm_compute; reflexivity).
  unfold demo_run in R. pose proof (concurrent_codes_distinct no_proc 1 0 demo_creations) as P.
  destruct (New no_proc 1 0 ∅) as [[[s0|] d0]| |]; [|discriminate R..].
  specialize (fun c => P s0 d0 c demo_instance demo_creations_ok eq_refl eq_refl).
  destruct (conc_run demo_creations (mkConc [] s0 d0)) as [c| |] eqn:Er; [|discriminate R..].
  apply andb_true_iff in R as [_ R]. apply bool_decide_eq_true_1 in R.
  exists s0, d0, c. split; [reflexivity|]. split; [exact Er|]. split; [exact R|]. exact (proj1 (P c eq_refl)).
Defined.

Lemma demo_session : match session no_proc 1 0 demo_ops with
  | Ret (s, _) => bool_decide (is_Some (index s demo_code)) && bool_decide (index s (lit "go") = None)
  | _ => false end = true.
Proof. vm_compute. reflexivity. Qed.

Lemma removed_link_returns_witness :
  exists s d s1 s2 d2 l, session no_proc 1 0 demo_ops = Ret (s, d)
    /\ conc_run (overlap demo_code (lit "http://b") 0 false 200) (mkConc [] s d)
       = Ret (mkConc [TDone (RMut MutOK); TDone (RMut MutOK)] s1 d)
    /\ reopen no_proc 1 s1 d = Ret (s2, d2) /\ Stats demo_code s2 = Some l /\ URL l = lit "http://b".
Proof.
  pose proof (removed_link_returns no_proc 1 0 demo_ops demo_code (lit "http://b") 0 false 200
    demo_instance demo_ops_ok) as P.
  pose proof demo_session as R. destruct (session no_proc 1 0 demo_ops) as [[s d]| |]; [|discriminate R..].
  apply andb_true_iff in R as [R _]. apply bool_decide_eq_true_1 in R.
  destruct (P R) as (s1 & s2 & d2 & l & E1 & _ & E2 & E3 & E4).
  exists s, d, s1, s2, d2, l. split_and!; [reflexivity|exact E1|exact E2|exact E3|exact E4].
Defined.

Lemma shutdown_loses_link_witness :
  exists s d, session no_proc 1 0 demo_ops = Ret (s, d)
    /\ exists ts1 s1, conc_run [ECall (OShorten (lit "http://a") (lit "go") true 0 500 []); ERun 0] (mkConc [] s d)
         = Ret (mkConc ts1 s1 d)
       /\ is_Some (Stats (lit "go") s1)
       /\ exists s3 d3, New no_proc 1 0 (Store.Close s1 d).2 = Ret (inl s3, d3) /\ Stats (lit "go") s3 = None.
Proof.
  pose proof (shutdown_loses_link no_proc 1 0 demo_ops (lit "http://a") (lit "go") 0 500
    demo_instance demo_ops_ok) as P.
  pose proof demo_session as R. destruct (session no_proc 1 0 demo_ops) as [[s d]| |]; [|discriminate R..].
  apply andb_true_iff in R as [_ R]. apply bool_decide_eq_true_1 in R.
  destruct (P R) as (ts1 & s1 & E1 & E2 & E3). exists s, d. split; [reflexivity|].
  exists ts1, s1. split; [exact E1|]. split; [exact E2|]. destruct (Store.Close s1 d) as [s2 d2]. exact (proj2 E3).
Defined.
