(* ===== verification/Member.v ===== *)
(** * Member: one instance among others in a shared directory

    Every instance appends to its own log and reads the others'. The ghost
    histories of a directory are, for each instance [j], the lines [L j] it has
    queued so far and the prefix [F j] of them that has reached its file; an
    instance knows of each log the prefix [K j] it has read, and of its own all.
    [world] ties the directory to the histories, [member] a running store to what
    it knows. Every operation of the engine keeps both, and only adds to the
    history of its own instance. *)

From stdpp Require Import functions.
From S2P Require Import Prelude GoStd Base62 LogLine Aof Store StoreSpec StoreRead Replay Alone Sibling.
From S2P Require Import Queue Durable Restart Trace Session Views.
From stdpp Require Import options.

Abbreviation History := (Z -> list lop).

(** ** Lines that concern a code at most once *)

(** Wherever a run of lines is cut, one side leaves the code alone. *)
Definition once (xs : list lop) : Prop :=
  forall c ys zs, xs = ys ++ zs -> Forall (elsewhere c) ys \/ Forall (elsewhere c) zs.

Section Member.
Context `{MapOrder} `{SliceSort} (home : bytes -> Z).

Record world (L F : History) (d : Disk) : Prop := {
  wo_ok : forall j : Z, Forall lop_ok (L j) /\ Forall (by_home home j) (L j);
  wo_prefix : forall j : Z, F j `prefix_of` L j;
  wo_log : forall j : Z, 0 <= j < 62 -> file_bytes d (logName j) = frames (map line_of (F j));
  wo_range : forall j : Z, ~ (0 <= j < 62) -> L j = [];
  wo_names : forall own n, n ∈ ShardFiles d own -> exists j : Z, 0 <= j < 62 /\ n = logName j;
  wo_snaps : forall j : Z, 0 <= j < 62 -> file_bytes d (snapName j) = [];
  wo_synced : forall n f, d !! n = Some f -> (synced f <= length (content f))%nat
}.

Record member (L F K : History) (d : Disk) (k : Z) (s : Store) : Prop := {
  me_wf : wf s;
  me_inst : 0 <= k < 62 /\ instance s = k;
  me_prefix : alpha_at k = Ret (prefix s);
  me_own : ownName s = logName k;
  me_state : closed s = false /\ claimed s = None;
  me_aof : exists a, aof s = Some a /\ a_path a = logName k /\ log_holds d a (map line_of (L k)) 0;
  me_entries : entry_home home s;
  me_dirty : forall c x, dirty_at s c = Some x -> code_ok c /\ is_int64 x;
  me_self : K k = L k;
  me_known : forall j : Z, j <> k -> K j `prefix_of` F j;
  me_tails : forall n t, tails s !! n = Some t -> exists j : Z, 0 <= j < 62 /\ j <> k /\ n = logName j
               /\ t_path t = n /\ tail_at t (frames (map line_of (K j)));
  me_unread : forall j : Z, j <> k -> tails s !! logName j = None -> K j = [];
  me_view : forall c, shows_same c s (replay (home c) (K (home c)))
}.

Arguments wo_ok {L F d}. Arguments wo_prefix {L F d}. Arguments wo_log {L F d}. Arguments wo_range {L F d}.
Arguments wo_names {L F d}. Arguments wo_snaps {L F d}. Arguments wo_synced {L F d}.
Arguments me_wf {L F K d k s}. Arguments me_inst {L F K d k s}. Arguments me_prefix {L F K d k s}.
Arguments me_own {L F K d k s}. Arguments me_state {L F K d k s}. Arguments me_aof {L F K d k s}.
Arguments me_entries {L F K d k s}. Arguments me_dirty {L F K d k s}. Arguments me_self {L F K d k s}.
Arguments me_known {L F K d k s}. Arguments me_tails {L F K d k s}. Arguments me_unread {L F K d k s}.
Arguments me_view {L F K d k s}.

Lemma logName_inj (i j : Z) : 0 <= i < 62 -> 0 <= j < 62 -> logName i = logName j -> i = j.
Proof.
  intros Hi Hj E. apply app_inv_head, app_inv_tail in E. apply itoa_inj; [by apply inst_int64..|done].
Qed.

(** What is known lies in the history. *)
Lemma known_prefix (L F K : History) (d : Disk) (k : Z) (s : Store) (j : Z) :
  world L F d -> member L F K d k s -> K j `prefix_of` L j.
Proof.
  intros Hw Hm. destruct (decide (j = k)) as [->|Hj]; [by rewrite (me_self Hm)|].
  etransitivity; [by eapply me_known|by apply Hw].
Qed.

Lemma known_ok (L F : History) (d : Disk) (j : Z) (xs : list lop) :
  world L F d -> xs `prefix_of` L j -> Forall lop_ok xs /\ Forall (by_home home j) xs.
Proof. intros Hw [ys E]. destruct (wo_ok Hw j) as [Ho Hb]. rewrite E in Ho, Hb. by apply Forall_app in Ho as [? _], Hb as [? _]. Qed.

(** A member looks at nothing but its own log file and what it knows. *)
Lemma member_frame (L F K L' F' : History) (d d' : Disk) (k : Z) (s : Store) :
  L' k = L k -> (forall j, F j `prefix_of` F' j) ->
  d' !! logName k = d !! logName k ->
  member L F K d k s -> member L' F' K d' k s.
Proof.
  intros EL HF Ed [Hwf Hi Hp Ho Hst (a & Ha & Hpa & Hao & f & Hf & Hc) He Hdi Hs Hk Ht Hu Hv]. split; try done.
  - exists a. split; [done|]. split; [done|]. split; [done|]. exists f. by rewrite Hpa, Ed, <- Hpa, EL.
  - by rewrite EL.
  - intros j Hj. etransitivity; [by apply Hk|apply HF].
Qed.

(** What a member is, apart from its readers. *)
Lemma member_tails (L F K K' : History) (d : Disk) (k : Z) (s s' : Store) :
  same_but_tails s s' -> K' k = K k ->
  (forall j, j <> k -> K' j `prefix_of` F j) ->
  (forall n t, tails s' !! n = Some t -> exists j, 0 <= j < 62 /\ j <> k /\ n = logName j
     /\ t_path t = n /\ tail_at t (frames (map line_of (K' j)))) ->
  (forall j, j <> k -> tails s' !! logName j = None -> K' j = []) ->
  (forall c, shows_same c s' (replay (home c) (K' (home c)))) ->
  member L F K d k s -> member L F K' d k s'.
Proof.
  intros (Es & _ & Ea & Ei & Ep & Ec & Eo & El) EK HK Ht Hu Hv [Hwf Hi Hp Ho Hst Ha He Hdi Hs _ _ _ _].
  split; rewrite ?Ei, ?Ep, ?Ec, ?Eo, ?El, ?Ea; try done.
  - by apply (wf_same s).
  - intros c e. rewrite (index_same s) by done. apply He.
  - intros c x. rewrite (dirty_at_same s) by done. apply Hdi.
  - by rewrite EK.
Qed.

Lemma member_lastPoll (L F K : History) (d : Disk) (k : Z) (s : Store) (t : Z) :
  member L F K d k s -> member L F K d k (set_lastPoll t s).
Proof. intros Hm. by eapply (member_tails L F K K d k s); try apply Hm. Qed.

Lemma member_discover (L F K : History) (d : Disk) (k j : Z) (s : Store) :
  0 <= j < 62 -> j <> k -> member L F K d k s -> member L F K d k (discover (logName j) s).
Proof.
  intros Hj Hne Hm. unfold discover. destruct (tails s !! logName j) as [t|] eqn:E; [done|].
  apply (member_tails L F K K d k s); [done|done|exact (me_known Hm)| | |exact (me_view Hm)|done].
  - intros n t. cbn. rewrite lookup_insert_Some. intros [[<- <-]|[_ Hn]]; [|by apply (me_tails Hm)].
    exists j. rewrite (me_unread Hm j) by done.
    split; [done|]. split; [done|]. split; [done|]. split; [done|]. apply tail_at_start.
  - intros i Hi. cbn. rewrite lookup_insert_None. intros [Hn _]. by apply (me_unread Hm).
Qed.

(** ** Reading *)

Lemma read_step_bytes (d : Disk) (t : TailReader) (p q : bytes) :
  tail_at t p -> file_bytes d (t_path t) = p ++ q ->
  exists t', read_step d t = (t', (scan_lines q (t_leftover t)).1) /\ tail_at t' (p ++ q) /\ t_path t' = t_path t.
Proof.
  intros Ht Hb. unfold file_bytes in Hb. destruct (d !! t_path t) as [f|] eqn:E; [by eapply read_step_grow|].
  symmetry in Hb. apply app_nil in Hb as [-> ->]. exists t. split; [|done]. destruct Ht as [Ho Hl].
  unfold read_step, fileSize, tail_reset. rewrite E, Ho. change (0 <? Z.of_nat (length (@nil byte))) with false. cbv iota. by rewrite Ho.
Qed.

(** A read brings a log up to its file. *)
Lemma member_read (L F K : History) (d : Disk) (k j : Z) (s : Store) :
  world L F d -> member L F K d k s -> 0 <= j < 62 -> j <> k -> is_Some (tails s !! logName j) ->
  exists s', read_tail d (logName j) s = Ret s' /\ member L F (<[j := F j]> K) d k s'
    /\ (forall n, is_Some (tails s' !! n) <-> is_Some (tails s !! n)).
Proof.
  intros Hw Hm Hj Hne [t Et]. destruct (me_tails Hm _ _ Et) as (i & Hi & _ & En & Hp & Hat).
  apply logName_inj in En as <-; [|done|done]. destruct (me_known Hm j Hne) as [ys Ey].
  destruct (known_ok L F d j (F j) Hw (wo_prefix Hw j)) as [Hok Hby].
  rewrite Ey in Hok, Hby. apply Forall_app in Hok as [Hok1 Hok2], Hby as [Hby1 Hby2].
  destruct (read_step_bytes d t (frames (map line_of (K j))) (frames (map line_of ys)) Hat) as (t' & Er & Hat' & Hp').
  { by rewrite Hp, (wo_log Hw), Ey, frames_map_app. }
  assert (t_leftover t = []) as El by (destruct Hat as [_ ->]; by rewrite scan_lines_frames by by apply good_lines_of).
  rewrite El, scan_lines_frames in Er by by apply good_lines_of. cbn [fst] in Er.
  unfold read_tail. rewrite Et. unfold ReadNew. rewrite Er, go_fold_lops by done. cbn [go_bind].
  eexists. split; [done|]. set (s1 := foldl apply_lop s ys).
  destruct (foldl_apply_frame ys s (me_wf Hm)) as [(Ea & Ei & Ep & Ec & Eo & Eta & El') Edi]. fold s1 in Ea, Ei, Ep, Ec, Eo, Eta, El', Edi.
  destruct Hm as [Hwf Hi' Hpr Ho Hst Ha He Hdi Hs Hk Ht Hu Hv]. split.
  - split; cbn; rewrite ?Ea, ?Ei, ?Ep, ?Ec, ?Eo, ?El', ?Eta; try done.
    + eapply (wf_same s1); [done|]. by apply foldl_apply_facts.
    + intros c e E. by eapply (foldl_entry_home home j ys s).
    + intros c x. change (dirty_at s1 c = Some x -> code_ok c /\ is_int64 x). rewrite Edi. apply Hdi.
    + by rewrite fn_lookup_insert_ne.
    + intros i Hik. destruct (decide (i = j)) as [->|]; [by rewrite fn_lookup_insert|by rewrite fn_lookup_insert_ne by congruence; apply Hk].
    + intros n t2. rewrite lookup_insert_Some. intros [[<- <-]|[Hn Ht2]].
      * exists j. rewrite fn_lookup_insert, Ey, frames_map_app. split; [done|]. split; [done|]. split; [done|]. by rewrite Hp'.
      * destruct (Ht n t2 Ht2) as (i & Hii & Hik & -> & Hpi & Hai). exists i. split; [done|]. split; [done|]. split; [done|].
        rewrite fn_lookup_insert_ne by (intros ->; done). done.
    + intros i Hik. rewrite lookup_insert_None. intros [Hn Hne']. rewrite fn_lookup_insert_ne by congruence. by apply Hu.
    + intros c. pose proof (read_lines home j (K j) ys s c Hwf Hok2 Hby2) as R.
      change (shows_same c s1 (replay (home c) (<[j:=F j]> K (home c)))). case_decide as Eh.
      * rewrite Eh, fn_lookup_insert, Ey. apply R. intros <-. apply Hv.
      * rewrite fn_lookup_insert_ne by congruence. etransitivity; [apply R; done|apply Hv].
  - intros n. cbn. rewrite Eta. destruct (decide (logName j = n)) as [<-|]; [rewrite lookup_insert_eq, Et; naive_solver|by rewrite lookup_insert_ne].
Qed.

(** Each log is left as known or brought up to its file. *)
Definition caught (F K K' : History) : Prop := forall j : Z, K' j = K j \/ K' j = F j.

Lemma caught_trans (F K1 K2 K3 : History) : caught F K1 K2 -> caught F K2 K3 -> caught F K1 K3.
Proof. intros H12 H23 j. destruct (H12 j), (H23 j); intuition congruence. Qed.

Lemma caught_insert (F K : History) (j : Z) : caught F K (<[j := F j]> K).
Proof. intros i. destruct (decide (j = i)) as [<-|]; [right; apply fn_lookup_insert|left; by apply fn_lookup_insert_ne]. Qed.

Lemma caught_up (F K K' : History) (j : Z) : caught F K K' -> K j = F j -> K' j = F j.
Proof. intros Hc E. by destruct (Hc j) as [->|]. Qed.

Lemma member_reads (L F : History) (d : Disk) (k : Z) (ns : list bytes) (K : History) (s : Store) :
  world L F d -> member L F K d k s -> Forall (fun n => is_Some (tails s !! n)) ns ->
  exists K' s', go_fold (read_tail d) ns s = Ret s' /\ member L F K' d k s' /\ caught F K K'
    /\ (forall j, logName j ∈ ns -> 0 <= j < 62 -> K' j = F j)
    /\ forall n, is_Some (tails s' !! n) <-> is_Some (tails s !! n).
Proof.
  intros Hw. revert K s. induction ns as [|n ns IH]; intros K s Hm Hn.
  { exists K, s. split; [done|]. split; [done|]. split; [by left|]. split; [|done]. by intros j ?%not_elem_of_nil. }
  apply Forall_cons in Hn as [[t Et] Hns]. destruct (me_tails Hm n t Et) as (j & Hj & Hjk & -> & _).
  destruct (member_read L F K d k j s Hw Hm Hj Hjk (mk_is_Some _ _ Et)) as (s1 & E1 & Hm1 & Ht1).
  destruct (IH (<[j := F j]> K) s1 Hm1) as (K' & s' & E' & Hm' & Hc & Hr & Ht').
  { eapply Forall_impl; [exact Hns|]. intros n. by rewrite Ht1. }
  exists K', s'. cbn [go_fold]. rewrite E1. split; [exact E'|]. split; [done|].
  split; [eapply caught_trans; [apply caught_insert|done]|]. split.
  - intros i Hi Hi62. apply elem_of_cons in Hi as [Hi|Hi]; [|by apply Hr].
    apply logName_inj in Hi as ->; [|done|done]. eapply caught_up; [done|]. apply fn_lookup_insert.
  - intros n. by rewrite Ht', Ht1.
Qed.

Lemma member_discovers (L F K : History) (d : Disk) (k : Z) (ns : list bytes) (s : Store) :
  Forall (fun n => exists j, 0 <= j < 62 /\ j <> k /\ n = logName j) ns -> member L F K d k s ->
  member L F K d k (foldl (fun s f => discover f s) s ns)
  /\ forall n, n ∈ ns \/ is_Some (tails s !! n) -> is_Some (tails (foldl (fun s f => discover f s) s ns) !! n).
Proof.
  revert s. induction ns as [|n ns IH]; intros s Hn Hm; [split; [done|]; by intros n [?%not_elem_of_nil|]|].
  apply Forall_cons in Hn as [(j & Hj & Hjk & ->) Hns].
  destruct (IH (discover (logName j) s) Hns) as [Hm' Ht']; [by apply member_discover|].
  split; [done|]. intros n Hn. apply Ht'.
  assert (is_Some (tails s !! n) \/ n = logName j -> is_Some (tails (discover (logName j) s) !! n)) as Hd.
  { unfold discover. destruct (tails s !! logName j) as [t|] eqn:E; [intros [?| ->]; [done|by rewrite E]|].
    cbn. rewrite lookup_insert_is_Some'. intuition. }
  destruct Hn as [[->|?]%elem_of_cons|?]; [right; apply Hd; by right|by left|right; apply Hd; by left].
Qed.

(** A poll catches up with every log. *)
Lemma member_poll (L F K : History) (d : Disk) (k : Z) (s : Store) (now : Z) :
  world L F d -> member L F K d k s ->
  exists K' s', PollTails now d s = Ret s' /\ member L F K' d k s' /\ caught F K K' /\ forall j, j <> k -> K' j = F j.
Proof.
  intros Hw Hm. destruct (me_aof Hm) as (a & Ha & _). unfold PollTails. rewrite Ha.
  set (fs := ShardFiles d (ownName s)). destruct (member_discovers L F K d k fs s) as [Hm1 Ht1]; [|done|].
  { apply Forall_forall. intros n Hn. destruct (wo_names Hw _ n Hn) as (j & Hj & ->). exists j. split; [done|].
    split; [|done]. intros ->. apply ShardFiles_elem in Hn as (_ & _ & _ & Hn). by rewrite (me_own Hm) in Hn. }
  set (s1 := foldl _ s fs) in *.
  destruct (member_reads L F d k (range_keys (tails s1)) K s1 Hw Hm1) as (K' & s2 & -> & Hm2 & Hc & Hr & _).
  { apply Forall_forall. intros n Hn. by apply range_keys_elem. }
  cbn [go_bind]. exists K', (set_lastPoll now s2). split; [done|]. split; [by apply member_lastPoll|]. split; [done|].
  intros j Hj. destruct (decide (0 <= j < 62)) as [Hj62|Hj62].
  2: { assert (K' j `prefix_of` L j) as Hp by by eapply known_prefix. pose proof (wo_prefix Hw j) as Hp'.
    rewrite (wo_range Hw j Hj62) in Hp, Hp'. apply prefix_nil_inv in Hp, Hp'. congruence. }
  destruct (tails s1 !! logName j) as [t|] eqn:Et.
  - apply Hr; [|done]. apply range_keys_elem. eauto.
  - destruct (d !! logName j) as [f|] eqn:Ef.
    + exfalso. assert (is_Some (tails s1 !! logName j)) as [? ?]; [|congruence]. apply Ht1. left.
      apply ShardFiles_elem. split; [by rewrite Ef|]. rewrite (me_own Hm).
      apply logName_sibling; [apply inst_int64, Hm|by apply inst_int64|done].
    + assert (F j = []) as EF.
      { pose proof (wo_log Hw j Hj62) as E. unfold file_bytes in E. rewrite Ef in E.
        destruct (F j) as [|x xs]; [done|]. apply (f_equal length) in E. cbn in E. unfold frames, frame in E.
        cbn in E. rewrite !length_app in E. cbn in E. lia. }
      destruct (me_known Hm2 j Hj) as [ys E]. rewrite EF in *. symmetry in E. by apply app_nil in E as [-> _].
Qed.

(** The reads of a miss: the log the first character names, then, at most
    every 200 ms, all of them. *)
Lemma member_owner (L F K : History) (d : Disk) (k : Z) (s : Store) (code : bytes) :
  world L F d -> member L F K d k s ->
  exists K' s', tailOwner code d s = Ret s' /\ member L F K' d k s' /\ caught F K K'
    /\ lastPoll s' = lastPoll s
    /\ forall p rest, code = p :: rest -> 0 <= alpha_index p -> alpha_index p <> k -> K' (alpha_index p) = F (alpha_index p).
Proof.
  intros Hw Hm. destruct (me_aof Hm) as (a & Ha & _). unfold tailOwner.
  destruct code as [|p rest]; [exists K, s; split; [done|]; split; [done|]; split; [by left|]; by split|]. cbv zeta.
  rewrite Ha. pose proof (alpha_index_range p) as Hr. destruct (me_inst Hm) as [Hk Ei]. rewrite Ei.
  destruct (Z.ltb_spec (alpha_index p) 0) as [Hlt|Hge]; cbn [orb].
  { exists K, s. split; [done|]. split; [done|]. split; [by left|]. split; [done|]. intros ? ? [= <- <-]. lia. }
  destruct (Z.eqb_spec (alpha_index p) k) as [E|Hne].
  { exists K, s. split; [done|]. split; [done|]. split; [by left|]. split; [done|]. by intros ? ? [= <- <-]. }
  set (j := alpha_index p) in *. assert (0 <= j < 62) as Hj by lia.
  pose proof (member_discover L F K d k j s Hj Hne Hm) as Hm1.
  destruct (member_read L F K d k j _ Hw Hm1 Hj Hne) as (s' & E & Hm' & _).
  { unfold discover. destruct (tails s !! logName j) as [t|] eqn:Et; [by rewrite Et|]. cbn. by rewrite lookup_insert_eq. }
  exists (<[j := F j]> K), s'. split; [done|]. split; [done|]. split; [apply caught_insert|]. split.
  - assert (forall n s1 s2, read_tail d n s1 = Ret s2 -> lastPoll s2 = lastPoll s1) as Hlp.
    { intros n s1 s2. unfold read_tail, ReadNew. destruct (tails s1 !! n) as [t|]; [|by intros [= <-]].
      destruct (read_step d t) as [t' ls]. destruct (go_fold applyLine ls s1) as [s3| |] eqn:Eg; [|done|done].
      intros [= <-]. cbn. revert Eg. clear. revert s1. induction ls as [|l ls IH]; intros s1; cbn; [by intros [= <-]|].
      unfold applyLine at 1. destruct (parseLine l) as [[ok o]| |]; [|done|done]. cbn. intros ->%IH.
      destruct ok; [|done]. unfold apply. repeat case_bool_decide; try done.
      - unfold apply_hit. by destruct (index s1 (o_h o)).
      - unfold apply_row. by destruct (strayHits s1 !! o_c o). }
    rewrite (Hlp _ _ _ E). unfold discover. by destruct (tails s !! logName j).
  - intros ? ? [= <- <-] _ _. apply fn_lookup_insert.
Qed.

Lemma member_miss (L F K : History) (d : Disk) (k : Z) (s : Store) (code : bytes) (t1 t2 : Z) :
  world L F d -> member L F K d k s ->
  exists K' s', resolve_miss code t1 t2 d s = Ret s' /\ member L F K' d k s' /\ caught F K K'
    /\ (index s code = None -> home code <> k ->
        0 <= home code /\ (exists rest p, code = p :: rest /\ alpha_index p = home code) \/ tailMinInterval <= int64 (t1 - lastPoll s) ->
        is_Some (index s' code) \/ K' (home code) = F (home code)).
Proof.
  intros Hw Hm. destruct (me_aof Hm) as (a & Ha & _). unfold resolve_miss. rewrite Ha.
  destruct (index s code) as [e|] eqn:Ei; [exists K, s; split; [done|]; split; [done|]; by split; [left|]|].
  destruct (member_owner L F K d k s code Hw Hm) as (K1 & s1 & -> & Hm1 & Hc1 & Hl & Ho). cbn [go_bind].
  destruct (index s1 code) as [e|] eqn:Ei1.
  { exists K1, s1. split; [done|]. split; [done|]. split; [done|]. intros _ _ _. left. by rewrite Ei1. }
  unfold lazyPoll. rewrite Hl. destruct (Z.ltb_spec (int64 (t1 - lastPoll s)) tailMinInterval) as [Hlt|Hge].
  - exists K1, s1. split; [done|]. split; [done|]. split; [done|]. intros _ Hne [(Hh & rest & p & -> & Ep)|?]; [|lia].
    right. rewrite <- Ep in *. by eapply Ho.
  - destruct (member_poll L F K1 d k (set_lastPoll t1 s1) t2 Hw (member_lastPoll _ _ _ _ _ _ _ Hm1)) as (K' & s' & E & Hm' & Hc' & Hk').
    exists K', s'. split; [done|]. split; [done|]. split; [by eapply caught_trans|]. intros _ Hne _. right. by apply Hk'.
Qed.

(** ** Writing *)

(** The world after instance [k] has queued more lines, or written some. *)
Lemma world_grow (L F : History) (d d' : Disk) (k : Z) (xs F' : list lop) :
  world L F d -> 0 <= k < 62 -> Forall lop_ok xs -> Forall (by_home home k) xs ->
  F' `prefix_of` L k ++ xs -> file_bytes d' (logName k) = frames (map line_of F') ->
  (forall f, d' !! logName k = Some f -> (synced f <= length (content f))%nat) ->
  (forall n, n <> logName k -> d' !! n = d !! n) ->
  world (<[k := L k ++ xs]> L) (<[k := F']> F) d'.
Proof.
  intros [Hok Hpr Hlog Hra Hna Hsn Hsy] Hk Hxo Hxb HF Hb Hs Hd. split.
  - intros j. destruct (decide (k = j)) as [<-|]; [rewrite fn_lookup_insert|by rewrite fn_lookup_insert_ne].
    destruct (Hok k). split; by apply Forall_app.
  - intros j. destruct (decide (k = j)) as [<-|]; [by rewrite !fn_lookup_insert|by rewrite !fn_lookup_insert_ne].
  - intros j Hj. destruct (decide (k = j)) as [<-|Hne]; [by rewrite fn_lookup_insert|rewrite fn_lookup_insert_ne by done].
    rewrite (file_bytes_same d); [by apply Hlog|]. apply Hd. intros E. apply Hne. symmetry. by apply logName_inj.
  - intros j Hj. rewrite fn_lookup_insert_ne by (intros ->; done). by apply Hra.
  - intros own n Hn. apply ShardFiles_elem in Hn as (Hi & Hsuf & Hpre & Hne).
    destruct (decide (n = logName k)) as [->|Hnk]; [by exists k|]. rewrite Hd in Hi by done.
    apply (Hna own). by apply ShardFiles_elem.
  - intros j Hj. rewrite (file_bytes_same d); [by apply Hsn|]. apply Hd, snapName_ne_logName.
  - intros n f. destruct (decide (n = logName k)) as [->|Hnk]; [apply Hs|]. rewrite Hd by done. apply Hsy.
Qed.

(** The result of an operation of [k]: its history has grown by [xs]; it is
    still a member, and to the others the directory has only grown. *)
Record moved (L F : History) (d : Disk) (k : Z) (xs : list lop) (s' : Store) (d' : Disk) (L' F' K' : History) : Prop := {
  mo_world : world L' F' d';
  mo_member : member L' F' K' d' k s';
  mo_lines : L' k = L k ++ xs;
  mo_else : forall j, j <> k -> L' j = L j /\ F' j = F j;
  mo_grow : F k `prefix_of` F' k;
  mo_others : forall n, n <> logName k -> d' !! n = d !! n
}.

Arguments mo_world {L F d k xs s' d' L' F' K'}. Arguments mo_member {L F d k xs s' d' L' F' K'}.
Arguments mo_lines {L F d k xs s' d' L' F' K'}. Arguments mo_else {L F d k xs s' d' L' F' K'}.
Arguments mo_grow {L F d k xs s' d' L' F' K'}. Arguments mo_others {L F d k xs s' d' L' F' K'}.

Lemma moved_refl (L F K : History) (d : Disk) (k : Z) (s : Store) :
  world L F d -> member L F K d k s -> moved L F d k [] s d L F K.
Proof. intros Hw Hm. split; [done|done|by rewrite app_nil_r|done|done|done]. Qed.

Lemma moved_trans (L F L1 F1 K1 L2 F2 K2 : History) (d d1 d2 : Disk) (k : Z) (xs ys : list lop) (s1 s2 : Store) :
  moved L F d k xs s1 d1 L1 F1 K1 -> moved L1 F1 d1 k ys s2 d2 L2 F2 K2 -> moved L F d k (xs ++ ys) s2 d2 L2 F2 K2.
Proof.
  intros [_ _ El1 He1 Hg1 Ho1] [Hw2 Hm2 El2 He2 Hg2 Ho2]. split; [done|done| | | |].
  - by rewrite El2, El1, app_assoc.
  - intros j Hj. destruct (He1 j Hj), (He2 j Hj). split; congruence.
  - by etransitivity.
  - intros n Hn. rewrite Ho2 by done. by apply Ho1.
Qed.

Lemma once_nil : once [].
Proof. intros c ys zs E. symmetry in E. apply app_nil in E as [-> ->]. by left. Qed.

Lemma once_one (x : lop) : once [x].
Proof.
  intros c ys zs E. destruct ys as [|y ys]; [by left|]. right. injection E as -> E.
  symmetry in E. apply app_nil in E as [_ ->]. constructor.
Qed.

Lemma once_hits (xs : list lop) : (forall c, Forall (elsewhere c) xs) -> once xs.
Proof. intros Hx c ys zs ->. left. by apply (Forall_app (elsewhere c) ys zs), Hx. Qed.

Lemma once_cons (x : lop) (xs : list lop) :
  once xs -> (forall c, elsewhere c x \/ Forall (elsewhere c) xs) -> once (x :: xs).
Proof.
  intros Hx Hc c [|y ys] zs E; [by left|]. injection E as <- ->. destruct (Hc c) as [H1|H1].
  - destruct (Hx c ys zs eq_refl) as [H2|H2]; [left; by constructor|by right].
  - right. by apply Forall_app in H1 as [_ ?].
Qed.

(** What an operation of the writer must establish. *)
Lemma member_wrote (L F K : History) (d d' : Disk) (k : Z) (s s' : Store) (xs F' : list lop) (a' : Aof) :
  world L F d -> member L F K d k s ->
  Forall lop_ok xs -> Forall (by_home home k) xs ->
  instance s' = instance s -> prefix s' = prefix s -> ownName s' = ownName s -> closed s' = closed s ->
  claimed s' = claimed s -> tails s' = tails s ->
  aof s' = Some a' -> a_path a' = logName k -> log_holds d' a' (map line_of (L k ++ xs)) 0 ->
  wf s' -> entry_home home s' -> (forall c x, dirty_at s' c = Some x -> code_ok c /\ is_int64 x) ->
  (forall c, shows_same c s' (foldl apply_lop s xs)) ->
  F k `prefix_of` F' -> F' `prefix_of` L k ++ xs -> file_bytes d' (logName k) = frames (map line_of F') ->
  (forall n, n <> logName k -> d' !! n = d !! n) ->
  moved L F d k xs s' d' (<[k := L k ++ xs]> L) (<[k := F']> F) (<[k := L k ++ xs]> K).
Proof.
  intros Hw Hm Hxo Hxb Ei Ep Eo Ecl Ec Et Ea Hp Hl Hwf He Hd Hv HF HF' Hb Hn. pose proof Hl as (_ & f & Hf & _ & Hsy).
  destruct Hm as [Hwf0 Hi Hpr Ho Hst _ _ _ Hs Hk Ht Hu Hv0]. split.
  - apply (world_grow L F d d' k xs F'); try done; [apply Hi|]. intros g. rewrite <- Hp, Hf. intros [= <-]. lia.
  - split; rewrite ?Ei, ?Ep, ?Eo, ?Ecl, ?Ec, ?Et; try done.
    + exists a'. by rewrite fn_lookup_insert.
    + by rewrite !fn_lookup_insert.
    + intros j Hj. rewrite !fn_lookup_insert_ne by done. by apply Hk.
    + intros n t E. destruct (Ht n t E) as (j & Hj & Hne & Hrest). exists j. by rewrite fn_lookup_insert_ne.
    + intros j Hj. rewrite fn_lookup_insert_ne by done. by apply Hu.
    + intros c. etransitivity; [apply Hv|]. pose proof (read_lines home k (L k) xs s c Hwf0 Hxo Hxb) as R. case_decide as Eh.
      * rewrite Eh, fn_lookup_insert. apply R. intros _. rewrite <- Hs, <- Eh. apply Hv0.
      * rewrite fn_lookup_insert_ne by done. etransitivity; [apply R; done|apply Hv0].
  - by rewrite fn_lookup_insert.
  - intros j Hj. by rewrite !fn_lookup_insert_ne.
  - by rewrite fn_lookup_insert.
  - done.
Qed.

(** The queue is written out: nothing but the files change. *)
Lemma member_written (L F K : History) (d d' : Disk) (k : Z) (s : Store) (a a' : Aof) :
  world L F d -> member L F K d k s -> aof s = Some a ->
  a_path a' = a_path a -> log_holds d' a' (map line_of (L k)) 0 -> a_buf a' = [] ->
  (forall n, n <> a_path a -> d' !! n = d !! n) ->
  moved L F d k [] (set_aof (Some a') s) d' (<[k := L k ++ []]> L) (<[k := L k]> F) (<[k := L k ++ []]> K).
Proof.
  intros Hw Hm Ha Hp Hl Hb Hn. destruct (me_aof Hm) as (a0 & Ha0 & Hp0 & _). assert (a0 = a) as -> by congruence.
  apply (member_wrote L F K d d' k s _ [] (L k) a'); try done.
  - by rewrite Hp.
  - by rewrite app_nil_r.
  - by apply (wf_same s), Hm.
  - exact (me_entries Hm).
  - exact (me_dirty Hm).
  - intros c. by apply shows_same_index.
  - exact (wo_prefix Hw k).
  - by rewrite app_nil_r.
  - destruct Hl as (_ & f & Hf & Hc & _). rewrite Hb, app_nil_r in Hc. rewrite Hp, Hp0 in Hf. unfold file_bytes. by rewrite Hf.
  - by rewrite <- Hp0.
Qed.

(** One line is queued. *)
Lemma member_pushed (L F K : History) (d : Disk) (k : Z) (s s' : Store) (x : lop) :
  world L F d -> member L F K d k s -> lop_ok x -> by_home home k x ->
  instance s' = instance s -> prefix s' = prefix s -> ownName s' = ownName s -> closed s' = closed s ->
  claimed s' = claimed s -> tails s' = tails s -> aof s' = Push (line_of x) <$> aof s ->
  wf s' -> (forall c, dirty_at s' c = dirty_at s c) -> entry_home home s' ->
  (forall c, shows_same c s' (apply_lop s x)) ->
  moved L F d k [x] s' d (<[k := L k ++ [x]]> L) (<[k := F k]> F) (<[k := L k ++ [x]]> K).
Proof.
  intros Hw Hm Hxo Hxb Ei Ep Eo Ecl Ec Et Ea Hwf Hd He Hv. destruct (me_aof Hm) as (a & Ha & Hp & Hl). rewrite Ha in Ea.
  eapply (member_wrote L F K d d k s s' [x] (F k)); try done.
  - by constructor.
  - by constructor.
  - rewrite map_app. by apply log_holds_push.
  - intros c y. rewrite Hd. by apply (me_dirty Hm).
  - etransitivity; [apply Hw|]. by apply prefix_app_r.
  - apply Hw, Hm.
Qed.

(** ** Rows *)

Lemma member_row (L F K : History) (d : Disk) (k : Z) (s : Store) (c u : bytes) (a e h oh : Z) :
  world L F d -> member L F K d k s -> code_ok c -> home c = k -> is_int64 a -> is_int64 e -> is_int64 h -> is_int64 oh ->
  moved L F d k [LRow c u a e k 0] (push_line (rowLine c u a e k 0) (put_entry c (mkEntry u a e k h oh) s)) d
    (<[k := L k ++ [LRow c u a e k 0]]> L) (<[k := F k]> F) (<[k := L k ++ [LRow c u a e k 0]]> K).
Proof.
  intros Hw Hm Hc Hh Ha He Hh' Hoh. pose proof (me_wf Hm) as Hwf. destruct (me_inst Hm) as [Hk _].
  set (s' := push_line _ _). assert (forall c', index s' c' = if decide (c = c') then Some (mkEntry u a e k h oh) else index s c') as Hidx.
  { intros c'. exact (index_put s c c' _ (wf_len s Hwf)). }
  apply (member_pushed L F K d k s s'); try done.
  - simpl. pose proof (inst_int64 k Hk). split_and!; try done; unfold is_int64; lia.
  - by apply (wf_same (put_entry c (mkEntry u a e k h oh) s)), wf_put.
  - intros c'. exact (dirty_at_data _ _ s c' (wf_len s Hwf) (shardOf_bound c)).
  - intros c' e'. rewrite Hidx. case_decide as Ec; [|by apply (me_entries Hm)]. subst c'. by intros [= <-].
  - intros c'. unfold shows_same. rewrite Hidx, apply_lop_row, index_apply_row, inst_int32 by (apply Hwf || apply Hc || done).
    case_decide; [by constructor|reflexivity].
Qed.

Lemma member_create (L F K : History) (d : Disk) (k : Z) (s : Store) (code url : bytes) (now exp : Z) :
  world L F d -> member L F K d k s -> code_ok code -> home code = k -> is_int64 now -> is_int64 exp ->
  moved L F d k [LRow code url now exp k 0] (create code url now exp s) d
    (<[k := L k ++ [LRow code url now exp k 0]]> L) (<[k := F k]> F) (<[k := L k ++ [LRow code url now exp k 0]]> K).
Proof.
  intros Hw Hm Hc Hh Hn He. destruct (me_inst Hm) as [Hk Ei]. unfold create. rewrite Ei, inst_int32 by done.
  apply member_row; try done; unfold is_int64; lia.
Qed.

Lemma member_Update (L F K : History) (d : Disk) (k : Z) (s : Store) (code url : bytes) (ttlMs : Z) (hasTTL : bool) (now : Z) :
  world L F d -> member L F K d k s ->
  exists xs L' F' K', moved L F d k xs (Update code url ttlMs hasTTL now s).2 d L' F' K' /\ once xs.
Proof.
  intros Hw Hm. unfold Update. destruct (me_inst Hm) as [Hk Ei]. destruct (index s code) as [e|] eqn:E.
  2: { exists [], L, F, K. split; [by apply moved_refl|apply once_nil]. }
  destruct (me_entries Hm code e E) as [(Hc & Ha & He & Hh & Hoh) Hhome]. rewrite Ei.
  destruct (Z.eqb_spec (e_i e) k) as [Eik|]; cbn [negb snd].
  2: { exists [], L, F, K. split; [by apply moved_refl|apply once_nil]. }
  exists [LRow code url (e_a e) (if hasTTL then expiry now ttlMs else e_e e) k 0]. do 3 eexists. split; [|apply once_one].
  rewrite Eik. apply member_row; try done; [congruence|]. destruct hasTTL; [apply expiry_int64|done].
Qed.

Lemma member_Remove (L F K : History) (d : Disk) (k : Z) (s : Store) (code : bytes) :
  world L F d -> member L F K d k s ->
  exists xs L' F' K', moved L F d k xs (Remove code s).2 d L' F' K' /\ once xs.
Proof.
  intros Hw Hm. unfold Remove. destruct (me_inst Hm) as [Hk Ei]. destruct (index s code) as [e|] eqn:E.
  2: { exists [], L, F, K. split; [by apply moved_refl|apply once_nil]. }
  destruct (me_entries Hm code e E) as [(Hc & _) Hhome]. rewrite Ei.
  destruct (Z.eqb_spec (e_i e) k) as [Eik|]; cbn [negb snd].
  2: { exists [], L, F, K. split; [by apply moved_refl|apply once_nil]. }
  exists [LDel code]. do 3 eexists. split; [|apply once_one].
  pose proof (me_wf Hm) as Hwf. set (s' := push_line _ _).
  assert (forall c', index s' c' = if decide (code = c') then None else index s c') as Hidx.
  { intros c'. exact (index_del s code c' (wf_len s Hwf)). }
  apply (member_pushed L F K d k s s'); try done.
  - simpl. congruence.
  - by apply (wf_same (del_entry code s)), wf_del.
  - intros c'. exact (dirty_at_data _ _ s c' (wf_len s Hwf) (shardOf_bound code)).
  - intros c' e'. rewrite Hidx. case_decide; [done|by apply (me_entries Hm)].
  - intros c'. unfold shows_same. rewrite Hidx, apply_lop_del, index_apply_del by (apply Hwf || apply Hc).
    case_decide; [constructor|reflexivity].
Qed.

(** ** Writing out *)

Lemma member_flush_if_big (L F K : History) (d : Disk) (k : Z) (s : Store) :
  world L F d -> member L F K d k s ->
  let '(s', d') := flush_if_big s d in exists L' F' K', moved L F d k [] s' d' L' F' K'.
Proof.
  intros Hw Hm. unfold flush_if_big. destruct (me_aof Hm) as (a & Ha & Hp & Hl). rewrite Ha.
  destruct (flushBytes <? PendingBytes a); [|do 3 eexists; by apply moved_refl].
  pose proof (flushLocked_holds d a _ 0 Hl) as Fl. unfold Aof.Flush. destruct (Aof.flushLocked d a) as [a' d'].
  destruct Fl as (Hl' & Hb & Hp' & _ & Hn). do 3 eexists. by eapply member_written.
Qed.

Lemma member_Sync (L F K : History) (d : Disk) (k : Z) (s : Store) (a : Aof) :
  world L F d -> member L F K d k s -> aof s = Some a ->
  let '(a', d') := Sync d a in exists L' F' K', moved L F d k [] (set_aof (Some a') s) d' L' F' K' /\ F' k = L' k.
Proof.
  intros Hw Hm Ha. destruct (me_aof Hm) as (a0 & Ha0 & Hp & Hl). assert (a0 = a) as -> by congruence.
  pose proof (Sync_files d a _ 0 Hl) as Fl. destruct (Sync d a) as [a' d']. destruct Fl as (Hl' & Hp' & Hb & Hn).
  do 3 eexists. split; [by eapply member_written|]. by rewrite !fn_lookup_insert, app_nil_r.
Qed.

Lemma hits_elsewhere (i : Z) (ps : list (bytes * Z)) (c : bytes) : Forall (elsewhere c) (map (hit_of i) ps).
Proof. apply Forall_fmap, Forall_forall. by intros [c' x] _. Qed.

(** A flush: the pending hits are queued, and the queue is written. *)
Lemma member_Flush (L F K : History) (d : Disk) (k : Z) (s : Store) :
  world L F d -> member L F K d k s ->
  let '(s', d') := flushLocked s d in
  exists L' F' K', moved L F d k (map (hit_of k) (pending s)) s' d' L' F' K' /\ F' k = L' k
    /\ (forall c, index s' c = index s c) /\ (exists a', aof s' = Some a' /\ a_buf a' = []).
Proof.
  intros Hw Hm. destruct (me_aof Hm) as (a & Ha & Hp & Hl). unfold flushLocked. rewrite Ha.
  destruct (push_all_holds d a _ (hit_lines s) 0 Hl) as [Hl1 Hp1]. unfold Aof.Flush.
  pose proof (flushLocked_holds _ _ _ _ Hl1) as Fl. destruct (Aof.flushLocked d _) as [a2 d2].
  destruct Fl as (Hl2 & Hb & Hp2 & (f & Hf & Hc) & Hn). rewrite Hp1, Hp in Hf, Hn. rewrite Hp1, Hp in Hp2.
  rewrite hit_lines_pending, (proj2 (me_inst Hm)), <- map_app in *.
  set (xs := map (hit_of k) (pending s)) in *. set (s' := set_aof (Some a2) (clear_dirty s)).
  assert (forall c, index s' c = index s c) as Hidx by (intros c; apply (clear_dirty_view s c)).
  assert (Forall lop_ok xs /\ Forall (by_home home k) xs) as [Hxo Hxb].
  { split; apply Forall_fmap, Forall_forall; intros [c y] Hy; [|done]. apply pending_elem in Hy; [|by apply Hm].
    apply (me_dirty Hm) in Hy as [Hc' Hy]. split; [done|]. split; [done|]. apply inst_int64, Hm. }
  do 3 eexists. split; [|split; [|split; [exact Hidx|by exists a2]]].
  - eapply (member_wrote L F K d d2 k s s' xs (L k ++ xs) a2); try done.
    + by apply (wf_same (clear_dirty s)), wf_clear_dirty, Hm.
    + intros c e. rewrite Hidx. by apply (me_entries Hm).
    + intros c y Hy. destruct (clear_dirty_view s c) as [_ E]. change (dirty_at (clear_dirty s) c = Some y) in Hy. congruence.
    + intros c. etransitivity; [by apply (shows_same_index c s)|]. symmetry. apply foldl_elsewhere; [apply Hm|done|apply hits_elsewhere].
    + etransitivity; [exact (wo_prefix Hw k)|]. by apply prefix_app_r.
    + unfold file_bytes. by rewrite Hf.
  - by rewrite !fn_lookup_insert.
Qed.

(** ** Counting *)

Lemma member_count (L F K : History) (d : Disk) (k : Z) (s : Store) (c : bytes) (e : entry) :
  member L F K d k s -> index s c = Some e -> member L F K d k (count_hit c e s).
Proof.
  intros Hm Hc. pose proof (me_wf Hm) as Hwf. pose proof (me_entries Hm c e Hc) as [(Hco & Ha & He & _) Hh].
  destruct Hm as [_ ? ? ? ? ? Hen Hdi ? ? ? ? Hv]. split; try done.
  - unfold count_hit. by apply wf_bump, wf_put.
  - intros c' e'. rewrite index_count_hit by apply Hwf. case_decide as Ec; [|by apply Hen]. subst c'. intros [= <-].
    split; [|done]. split; [done|]. cbn. split; [done|]. split; [done|]. split; apply int64_range.
  - intros c' x. unfold count_hit. rewrite dirty_at_bump by auto with store. case_decide as Ec.
    + subst c'. intros [= <-]. split; [done|apply int64_range].
    + unfold put_entry. rewrite dirty_at_data by auto using shardOf_bound with store. apply Hdi.
  - intros c'. etransitivity; [|apply Hv]. unfold shows_same. rewrite index_count_hit by apply Hwf.
    case_decide as Ec; [|reflexivity]. subst c'. rewrite Hc. by constructor.
Qed.

Lemma member_Resolve (L F K : History) (d : Disk) (k : Z) (s : Store) (trackHits : bool) (code : bytes) (t1 t2 now : Z) :
  world L F d -> member L F K d k s ->
  exists r K' s', Resolve trackHits code t1 t2 now d s = Ret (r, s') /\ moved L F d k [] s' d L F K'.
Proof.
  intros Hw Hm. destruct (member_miss L F K d k s code t1 t2 Hw Hm) as (K' & s1 & E & Hm1 & _). unfold Resolve. rewrite E.
  cbn [go_bind]. assert (moved L F d k [] s1 d L F K') as M1 by by eapply moved_refl.
  destruct (index s1 code) as [e|] eqn:Ec; [|eauto]. destruct (live e now); [|eauto].
  destruct trackHits; [|eauto]. do 3 eexists. split; [done|]. by eapply moved_refl, member_count.
Qed.

(** ** Stopping *)

Lemma member_Close (L F K : History) (d : Disk) (k : Z) (s : Store) :
  world L F d -> member L F K d k s ->
  exists s2 L' F' K', moved L F d k (map (hit_of k) (pending s)) s2 (Close s d).2 L' F' K' /\ F' k = L' k.
Proof.
  intros Hw Hm. unfold Close. destruct (me_state Hm) as [-> Hcl]. pose proof (member_Flush L F K d k s Hw Hm) as Fl.
  assert (flushLocked (set_tails (fun _ => ∅) (set_closed s)) d
    = (set_tails (fun _ => ∅) (set_closed (flushLocked s d).1), (flushLocked s d).2)) as E.
  { unfold flushLocked. cbn [aof set_tails set_closed]. destruct (aof s) as [a|]; [|done].
    change (hit_lines (set_tails (fun _ => ∅) (set_closed s))) with (hit_lines s). by destruct (Aof.Flush d _). }
  unfold Flush. rewrite E. destruct (flushLocked s d) as [s1 d1]. destruct Fl as (L1 & F1 & K1 & M1 & _ & _ & a & Ha & Hb).
  cbn [fst snd]. cbn [aof set_tails set_closed]. rewrite Ha.
  pose proof (member_Sync L1 F1 K1 d1 k s1 a (mo_world M1) (mo_member M1) Ha) as Sy.
  destruct (Sync d1 a) as [a1 d2] eqn:Es. destruct Sy as (L2 & F2 & K2 & M2 & EF).
  assert (a_buf a1 = []) as Hb1.
  { unfold Sync, Aof.flushLocked in Es. rewrite Hb in Es. by injection Es as <- _. }
  unfold Aof.Close, Aof.flushLocked. rewrite Hb1. cbn [snd claimed set_aof set_tails set_closed].
  assert (claimed s1 = None) as -> by (destruct (me_state (mo_member M1)); done).
  do 4 eexists. split; [|exact EF]. rewrite <- (app_nil_r (map _ _)). by eapply moved_trans.
Qed.

(** ** Starting *)

Lemma snap_of_log (j : Z) : TrimSuffix (logName j) s_log ++ s_snap = snapName j.
Proof.
  unfold logName, snapName. rewrite app_assoc. unfold TrimSuffix.
  rewrite HasSuffix_app, length_app, Nat.add_sub, take_app_length. by rewrite <- app_assoc.
Qed.

(** Siblings' snapshots are read, and a reader is set at the start of each log. *)
Lemma load_siblings (d : Disk) (ns : list bytes) (s : Store) :
  Forall (fun n => exists j, n = logName j /\ file_bytes d (snapName j) = []) ns ->
  exists s', go_fold (load_sibling d) ns s = Ret s' /\ same_but_tails s s'
    /\ forall n t, tails s' !! n = Some t -> tails s !! n = Some t \/ n ∈ ns /\ t = TailFromStart n.
Proof.
  revert s. induction ns as [|n ns IH]; intros s Hn.
  { exists s. split; [done|]. split; [done|]. intros n t. by left. }
  apply Forall_cons in Hn as [(j & -> & Hs) Hns]. cbn [go_fold]. unfold load_sibling at 1.
  rewrite snap_of_log, (ReplayFile_lops d (snapName j) []) by done. cbn [go_bind foldl].
  destruct (IH (set_tails (insert (logName j) (TailFromStart (logName j))) s) Hns) as (s' & E & Hsame & Ht).
  exists s'. split; [exact E|]. split; [by etransitivity; [|exact Hsame]|].
  intros n t Hn. destruct (Ht n t Hn) as [H1|[H1 ->]]; [|right; split; [by right|done]].
  cbn in H1. apply lookup_insert_Some in H1 as [[<- <-]|[_ ?]]; [right; split; [by left|done]|by left].
Qed.

(** Opening the log of an instance whose lines are all in its file. *)
Lemma open_create_world (L F : History) (d : Disk) (k : Z) :
  world L F d -> 0 <= k < 62 -> L k = F k ->
  world L F (open_create d (logName k))
  /\ log_holds (open_create d (logName k)) (mkAof [] (logName k) true) (map line_of (L k)) 0.
Proof.
  intros Hw Hk EL. pose proof (wo_log Hw k Hk) as Hf. unfold open_create, file_bytes in *.
  destruct (d !! logName k) as [f|] eqn:E.
  { split; [done|]. split; [done|]. exists f. cbn. split; [done|]. rewrite app_nil_r, EL. split; [done|].
    split; [lia|by eapply wo_synced]. }
  split.
  - destruct Hw as [H1 H2 H3 H4 H5 H6 H7]. split; try done.
    + intros j Hj. destruct (decide (j = k)) as [->|Hne].
      { unfold file_bytes. by rewrite lookup_insert_eq. }
      rewrite (file_bytes_same d); [by apply H3|]. apply lookup_insert_ne. intros E'. apply Hne. symmetry. by apply logName_inj.
    + intros own n Hn. apply ShardFiles_elem in Hn as (Hi & Hrest). destruct (decide (n = logName k)) as [->|Hnk]; [by exists k|].
      rewrite lookup_insert_ne in Hi by done. apply (H5 own). by apply ShardFiles_elem.
    + intros j Hj. rewrite (file_bytes_same d); [by apply H6|]. apply lookup_insert_ne. intros E'. by apply (snapName_ne_logName j k).
    + intros n f. rewrite lookup_insert_Some. intros [[_ <-]|[_ ?]]; [cbn; lia|by eapply H7].
  - split; [done|]. exists empty_file. cbn. rewrite lookup_insert_eq. split; [done|]. rewrite EL. split; [done|]. lia.
Qed.

Lemma member_New (L F : History) (d : Disk) (alive : Z -> bool) (self k : Z) :
  world L F d -> 0 <= k < 62 -> L k = F k ->
  exists s' d' K', New alive self k d = Ret (inl s', d') /\ moved L F d k [] s' d' L F K'.
Proof.
  intros Hw Hk EL. destruct (known_ok L F d k (F k) Hw (wo_prefix Hw k)) as [Hok Hby].
  destruct (alpha_at_spec k Hk) as (p & Hp & _). set (d' := open_create d (logName k)).
  assert (forall n, n <> logName k -> d' !! n = d !! n) as Hd' by (intros; by apply open_create_same).
  destruct (open_create_world L F d k Hw Hk EL) as [Hw' Hl]. fold d' in Hw', Hl.
  set (a := mkAof [] (logName k) true) in *. set (s0 := fresh_store k p None (Some a) (logName k)).
  set (s1 := foldl apply_lop s0 (F k)). assert (wf s0) as Hw0 by apply wf_fresh.
  destruct (foldl_apply_frame (F k) s0 Hw0) as [(Ea & Ei & Ep & Ec & Eo & Et & El) Hdirty].
  fold s1 in Ea, Ei, Ep, Ec, Eo, Et, El, Hdirty.
  destruct (load_siblings d' (ShardFiles d' (logName k)) s1) as (s2 & E2 & Hsame & Ht2).
  { apply Forall_forall. intros n Hn. destruct (wo_names Hw' _ n Hn) as (j & Hj & ->). exists j. split; [done|]. by apply Hw'. }
  assert (loadAll d' s0 = Ret s2) as Hload.
  { unfold loadAll. change (instance s0) with k. rewrite (ReplayFile_lops d' (snapName k) []) by (done || by apply Hw').
    cbn [go_bind foldl]. change (ownName s0) with (logName k).
    rewrite (ReplayFile_lops d' (logName k) (F k)) by (done || by apply Hw'). cbn [go_bind]. fold s1. by rewrite Eo. }
  assert (entry_home home s1) as He1.
  { eapply foldl_entry_home; [exact Hk|done|done|done|]. intros c e. unfold s0. by rewrite index_fresh. }
  assert (forall i c, shows_same c s0 (replay i [])) as Hnone.
  { intros i c. unfold shows_same, replay, s0. cbn [foldl]. rewrite !index_fresh. constructor. }
  destruct Hsame as (Es & _ & Ea2 & Ei2 & Ep2 & Ec2 & Eo2 & El2).
  exists s2, d', (<[k := L k]> (fun _ => [])). split.
  - unfold New. destruct (Z.leb_spec 0 k); [|lia]. unfold maxInstances. destruct (Z.leb_spec 62 k); [lia|].
    rewrite Hp. cbn [go_bind]. unfold Aof.New. fold d' a s0. by rewrite Hload.
  - split; [done| |by rewrite app_nil_r|done|done|done]. split; rewrite ?Ei2, ?Ep2, ?Ec2, ?Eo2, ?El2, ?Ea2; try done.
    + apply (wf_same s1); [done|]. by apply foldl_apply_facts.
    + by rewrite Ep.
    + exists a. by rewrite Ea.
    + intros c e. rewrite (index_same s1) by done. apply He1.
    + intros c x. rewrite (dirty_at_same s1), Hdirty by done. unfold dirty_at, get_shard. cbn [shards s0 fresh_store].
      rewrite lookup_replicate_2 by apply shardOf_bound. cbn. by rewrite lookup_empty.
    + apply fn_lookup_insert.
    + intros j Hj. rewrite fn_lookup_insert_ne by done. apply prefix_nil.
    + intros n t Hn. destruct (Ht2 n t Hn) as [H1|[Hn' ->]]; [by rewrite Et in H1; cbn in H1; rewrite lookup_empty in H1|].
      pose proof Hn' as (_ & _ & _ & Hne)%ShardFiles_elem. destruct (wo_names Hw' _ n Hn') as (j & Hj & ->). exists j. split; [done|].
      assert (j <> k) as Hjk by (intros ->; done). split; [done|]. rewrite fn_lookup_insert_ne by done. done.
    + intros j Hj _. by rewrite fn_lookup_insert_ne.
    + intros c. transitivity s1; [apply shows_same_index; by apply index_same|].
      pose proof (read_lines home k [] (F k) s0 c Hw0 Hok Hby) as R. case_decide as Eh.
      * rewrite Eh, fn_lookup_insert, EL. apply R. intros _. apply Hnone.
      * rewrite fn_lookup_insert_ne by done. etransitivity; [apply R; done|]. apply Hnone.
Qed.

End Member.

Arguments wo_ok {_ _ _ _}. Arguments wo_prefix {_ _ _ _}. Arguments wo_log {_ _ _ _}.
Arguments wo_range {_ _ _ _}. Arguments wo_names {_ _ _ _}. Arguments wo_snaps {_ _ _ _}.
Arguments wo_synced {_ _ _ _}.
Arguments me_wf {_ _ _ _ _ _ _ _}. Arguments me_inst {_ _ _ _ _ _ _ _}.
Arguments me_prefix {_ _ _ _ _ _ _ _}. Arguments me_own {_ _ _ _ _ _ _ _}.
Arguments me_state {_ _ _ _ _ _ _ _}. Arguments me_aof {_ _ _ _ _ _ _ _}.
Arguments me_entries {_ _ _ _ _ _ _ _}. Arguments me_dirty {_ _ _ _ _ _ _ _}.
Arguments me_self {_ _ _ _ _ _ _ _}. Arguments me_known {_ _ _ _ _ _ _ _}.
Arguments me_tails {_ _ _ _ _ _ _ _}. Arguments me_unread {_ _ _ _ _ _ _ _}.
Arguments me_view {_ _ _ _ _ _ _ _}.
Arguments mo_world {_ _ _ _ _ _ _ _ _ _ _ _}. Arguments mo_member {_ _ _ _ _ _ _ _ _ _ _ _}.
Arguments mo_lines {_ _ _ _ _ _ _ _ _ _ _ _}. Arguments mo_else {_ _ _ _ _ _ _ _ _ _ _ _}.
Arguments mo_grow {_ _ _ _ _ _ _ _ _ _ _ _}. Arguments mo_others {_ _ _ _ _ _ _ _ _ _ _ _}.
