(* ===== verification/Cluster.v ===== *)
(** * Cluster: several instances over one directory

    What WORKERS=n makes of the engine: a process per instance number, all in one
    directory, each operation one step, processes starting, stopping and dying
    in between. Every code has a home, the instance that created it: generated
    codes name it by their first character, and the clients of an alias are
    assumed to create it through one instance only (what happens otherwise is
    [alias_taken_twice]). Whatever the order of the steps, an instance answers
    with what the code's home has shown at some time; a link is visible
    everywhere once its home has flushed and the reader has looked; and a
    process that is stopped, or killed after a flush, finds its links again. *)

From stdpp Require Import functions.
From S2P Require Import Prelude GoStd Base62 LogLine Aof Store StoreSpec StoreRead Replay Alone Sibling.
From S2P Require Import Queue Durable Restart Trace Session Views Member.
From stdpp Require Import options.

(** ** Events *)

Inductive cev :=
| CStart (k : Z)              (* a process with INSTANCE=k opens the store *)
| CStop (k : Z)               (* it closes the store and ends *)
| CKill (k : Z)               (* it dies; what it had queued is lost *)
| COp (k : Z) (o : sop).      (* it performs an operation *)

Section Events.
Context `{MapOrder} `{SliceSort}.

(** The running processes and the directory. A number that is taken is not
    started again, and a process that does not run does nothing. *)
Definition node_step (ev : cev) (c : gmap Z Store * Disk) : go (gmap Z Store * Disk) :=
  let '(ms, d) := c in
  match ev with
  | CStart k =>
      match ms !! k with
      | Some _ => Ret (ms, d)
      | None =>
          let* (r, d') := New (fun _ => false) 0 k d in
          Ret (match r with inl s => <[k := s]> ms | inr _ => ms end, d')
      end
  | CStop k => match ms !! k with Some s => Ret (delete k ms, (Close s d).2) | None => Ret (ms, d) end
  | CKill k => Ret (delete k ms, d)
  | COp k o =>
      match ms !! k with
      | Some s => let* (s', d') := sstep o (s, d) in Ret (<[k := s']> ms, d')
      | None => Ret (ms, d)
      end
  end.

Definition node_run (evs : list cev) : go (gmap Z Store * Disk) := go_fold node_step evs (∅, ∅).

Lemma node_run_app (evs evs' : list cev) :
  node_run (evs ++ evs') = (let* c := node_run evs in go_fold node_step evs' c).
Proof. apply go_fold_app. Qed.

End Events.

(** Random suffixes have seven bytes. *)
Definition draw (buf : bytes) : Prop := length buf = (codeLen - 1)%nat.

(** Who creates what: generated codes are at home where they were drawn. *)
Class Homes (home : bytes -> Z) : Prop := {
  home_generated : forall k p buf, 0 <= k < 62 -> alpha_at k = Ret p -> draw buf -> home (p :: randSuffix buf) = k
}.

(** The operations of instance [k]: aliases are at home there, and nothing
    compacts (no part of the program calls [Compact]). *)
Definition op_at (home : bytes -> Z) (k : Z) (o : sop) : Prop :=
  match o with
  | OShorten _ alias hasAlias _ now rnds =>
      is_int64 now /\ Forall draw rnds /\ (hasAlias = true -> code_ok alias /\ home alias = k)
  | OShortenMany urls _ now rnd rnds =>
      is_int64 now /\ length rnd = (length urls * (codeLen - 1))%nat /\ Forall draw rnds
  | OCompact | OReopen => False
  | _ => True
  end.

Definition cev_ok (home : bytes -> Z) (ev : cev) : Prop :=
  match ev with CStart k => 0 <= k < 62 | COp k o => op_at home k o | _ => True end.

Section Cluster.
Context `{MapOrder} `{SliceSort} (home : bytes -> Z) `{HH : !Homes home}.
#[local] Set Default Proof Using "Type* HH".

(** ** Creating, on a member *)

Lemma member_generated (L F K : History) (d : Disk) (k : Z) (s : Store) (buf : bytes) :
  member home L F K d k s -> draw buf -> code_ok (prefix s :: randSuffix buf) /\ home (prefix s :: randSuffix buf) = k.
Proof.
  intros Hm Hb. destruct (me_inst Hm) as [Hk _]. split; [|by apply home_generated; [|apply Hm|]].
  split; [done|]. unfold code_safe. simpl. apply andb_true_iff. split.
  - destruct (alpha_at_spec k Hk) as (c & Ec & _ & Hin). rewrite (me_prefix Hm) in Ec. injection Ec as <-. by apply ALPHABET_safe.
  - apply forallb_forall. intros c Hc. apply in_map_iff in Hc as (b & <- & _). apply rand_char_safe.
Qed.

Lemma member_free_code (L F K : History) (d : Disk) (k : Z) (s : Store) (rnds : list bytes) :
  member home L F K d k s -> Forall draw rnds ->
  match free_code s rnds with
  | Ret (code, rest) => index s code = None /\ code_ok code /\ home code = k /\ Forall draw rest
  | Panic => False
  | Diverge => True
  end.
Proof.
  intros Hm Hd. pose proof (free_code_spec s rnds) as Fc. destruct (free_code s rnds) as [[code rest]| |]; [|done|done].
  destruct Fc as (Hn & pre & buf & -> & -> & _). apply Forall_app in Hd as [_ Hd]. apply Forall_cons in Hd as [Hb Hr].
  destruct (member_generated L F K d k s buf Hm Hb). done.
Qed.

Lemma member_Shorten (L F K : History) (d : Disk) (k : Z) (s : Store)
    (url alias : bytes) (hasAlias : bool) (ttlMs now : Z) (rnds : list bytes) :
  world home L F d -> member home L F K d k s -> is_int64 now -> Forall draw rnds ->
  (hasAlias = true -> code_ok alias /\ home alias = k) ->
  match Shorten url alias hasAlias ttlMs now rnds s d with
  | Ret (_, s', d') => exists xs L' F' K', moved home L F d k xs s' d' L' F' K' /\ once xs
  | Panic => False
  | Diverge => True
  end.
Proof.
  intros Hw Hm Hn Hd Hal. unfold Shorten.
  assert (forall code, code_ok code -> home code = k ->
    let '(s1, d1) := flush_if_big (create code url now (expiry now ttlMs) s) d in
    exists xs L' F' K', moved home L F d k xs s1 d1 L' F' K' /\ once xs) as Hmk.
  { intros code Hc Hh.
    pose proof (member_create home L F K d k s code url now (expiry now ttlMs) Hw Hm Hc Hh Hn (expiry_int64 _ _)) as M.
    pose proof (member_flush_if_big _ _ _ _ _ _ _ (mo_world M) (mo_member M)) as Fl.
    destruct (flush_if_big _ d) as [s1 d1]. destruct Fl as (L' & F' & K' & M'). do 4 eexists.
    split; [by eapply moved_trans|]. rewrite app_nil_r. apply once_one. }
  destruct hasAlias; cbn [andb].
  - case_bool_decide as Ht.
    { exists [], L, F, K. split; [by apply moved_refl|apply once_nil]. }
    cbn [go_bind]. destruct (Hal eq_refl) as [Hc Hh]. specialize (Hmk alias Hc Hh). by destruct (flush_if_big _ d).
  - pose proof (member_free_code L F K d k s rnds Hm Hd) as Fc.
    destruct (free_code s rnds) as [[code rest]| |]; cbn [go_bind]; [|done|done].
    destruct Fc as (_ & Hc & Hh & _). specialize (Hmk code Hc Hh). by destruct (flush_if_big _ d).
Qed.

Lemma member_many_loop (now exp : Z) (k : Z) (d : Disk) (urls : list bytes) (rnd : bytes) (s : Store) (rnds : list bytes)
    (L F K : History) :
  world home L F d -> member home L F K d k s -> is_int64 now -> is_int64 exp ->
  length rnd = (length urls * (codeLen - 1))%nat -> Forall draw rnds ->
  match many_loop now exp urls rnd s rnds with
  | Ret (_, s') => exists xs L' F' K', moved home L F d k xs s' d L' F' K' /\ once xs
      /\ forall c, is_Some (index s c) -> Forall (elsewhere c) xs
  | Panic => False
  | Diverge => True
  end.
Proof.
  intros Hw Hm Hn He. revert rnd s rnds L F K Hw Hm. induction urls as [|u urls IH]; intros rnd s rnds L F K Hw Hm Hr Hd; cbn [many_loop].
  { exists [], L, F, K. split; [by apply moved_refl|]. split; [apply once_nil|]. by constructor. }
  assert (draw (take (codeLen - 1) rnd)) as Hb by (unfold draw; rewrite length_take; cbn [length] in Hr; unfold codeLen in *; lia).
  assert (length (drop (codeLen - 1) rnd) = (length urls * (codeLen - 1))%nat) as Hr' by (rewrite length_drop; cbn [length] in Hr; unfold codeLen in *; lia).
  unfold many_step. set (buf := take _ rnd) in *.
  assert (forall code rnds', index s code = None -> code_ok code -> home code = k -> Forall draw rnds' ->
    match many_loop now exp urls (drop (codeLen - 1) rnd) (create code u now exp s) rnds' with
    | Ret (_, s') => exists xs L' F' K', moved home L F d k xs s' d L' F' K' /\ once xs
        /\ forall c, is_Some (index s c) -> Forall (elsewhere c) xs
    | Panic => False
    | Diverge => True
    end) as Hnext.
  { intros code rnds' Hfree Hc Hh Hd'. pose proof (member_create home L F K d k s code u now exp Hw Hm Hc Hh Hn He) as M.
    pose proof (IH (drop (codeLen - 1) rnd) _ rnds' _ _ _ (mo_world M) (mo_member M) Hr' Hd') as R.
    destruct (many_loop _ _ _ _ _ _) as [[codes s']| |]; [|done|done]. destruct R as (xs & L' & F' & K' & M' & Ho & Hels).
    assert (forall c, index (create code u now exp s) c = if decide (code = c) then Some (mkEntry u now exp (int32 (instance s)) 0 0) else index s c) as Hidx
      by (intros c; apply index_create, (me_wf Hm)).
    assert (forall c, is_Some (index s c) -> elsewhere c (LRow code u now exp k 0) /\ Forall (elsewhere c) xs) as Hkeep.
    { intros c Hs. assert (code <> c) as Hne by (intros ->; rewrite Hfree in Hs; by destruct Hs). split; [done|].
      apply Hels. by rewrite Hidx, decide_False. }
    exists (LRow code u now exp k 0 :: xs), L', F', K'. split; [exact (moved_trans _ _ _ _ _ _ _ _ _ _ _ _ _ _ _ _ _ M M')|]. split.
    - apply once_cons; [done|]. intros c. destruct (decide (code = c)) as [<-|Hne]; [right|by left].
      apply Hels. rewrite Hidx, decide_True by done. eauto.
    - intros c Hs. constructor; by apply Hkeep. }
  destruct (index s (prefix s :: randSuffix buf)) as [e|] eqn:E; cbn [go_bind].
  - pose proof (member_free_code L F K d k s rnds Hm Hd) as Fc.
    destruct (free_code s rnds) as [[code rest]| |]; cbn [go_bind]; [|done|done].
    destruct Fc as (Hfree & Hc & Hh & Hd'). specialize (Hnext code rest Hfree Hc Hh Hd').
    by destruct (many_loop _ _ _ _ _ _) as [[? ?]| |].
  - destruct (member_generated L F K d k s buf Hm Hb) as [Hc Hh]. specialize (Hnext _ rnds E Hc Hh Hd).
    by destruct (many_loop _ _ _ _ _ _) as [[? ?]| |].
Qed.

Lemma member_ShortenMany (L F K : History) (d : Disk) (k : Z) (s : Store)
    (urls : list bytes) (ttlMs now : Z) (rnd : bytes) (rnds : list bytes) :
  world home L F d -> member home L F K d k s -> is_int64 now ->
  length rnd = (length urls * (codeLen - 1))%nat -> Forall draw rnds ->
  match ShortenMany urls ttlMs now rnd rnds s d with
  | Ret (_, s', d') => exists xs L' F' K', moved home L F d k xs s' d' L' F' K' /\ once xs
  | Panic => False
  | Diverge => True
  end.
Proof.
  intros Hw Hm Hn Hr Hd. unfold ShortenMany.
  pose proof (member_many_loop now (expiry now ttlMs) k d urls rnd s rnds L F K Hw Hm Hn (expiry_int64 _ _) Hr Hd) as M.
  destruct (many_loop _ _ _ _ _ _) as [[codes s1]| |]; cbn [go_bind]; [|done|done].
  destruct M as (xs & L1 & F1 & K1 & M & Ho & _).
  pose proof (member_flush_if_big _ _ _ _ _ _ _ (mo_world M) (mo_member M)) as Fl.
  destruct (flush_if_big s1 d) as [s2 d2]. destruct Fl as (L' & F' & K' & M'). exists xs, L', F', K'.
  split; [|done]. rewrite <- (app_nil_r xs). by eapply moved_trans.
Qed.

(** Every operation of a member. *)
Lemma member_step (L F K : History) (d : Disk) (k : Z) (s : Store) (o : sop) :
  world home L F d -> member home L F K d k s -> op_at home k o ->
  match sstep o (s, d) with
  | Ret (s', d') => exists xs L' F' K', moved home L F d k xs s' d' L' F' K' /\ once xs
  | Panic => False
  | Diverge => True
  end.
Proof.
  intros Hw Hm Ho. destruct o as [url alias hasAlias ttlMs now rnds|urls ttlMs now rnd rnds|trackHits code t1 t2 now
    |code url ttlMs hasTTL now|code| | |now| |]; cbn [sstep].
  - destruct Ho as (Hn & Hd & Hal). pose proof (member_Shorten L F K d k s url alias hasAlias ttlMs now rnds Hw Hm Hn Hd Hal) as R.
    by destruct (Shorten _ _ _ _ _ _ _ _) as [[[? ?] ?]| |].
  - destruct Ho as (Hn & Hr & Hd). pose proof (member_ShortenMany L F K d k s urls ttlMs now rnd rnds Hw Hm Hn Hr Hd) as R.
    by destruct (ShortenMany _ _ _ _ _ _ _) as [[[? ?] ?]| |].
  - destruct (member_Resolve home L F K d k s trackHits code t1 t2 now Hw Hm) as (r & K' & s' & -> & M). cbn [go_bind].
    exists [], L, F, K'. by split; [|apply once_nil].
  - by apply (member_Update home L F K).
  - by apply (member_Remove home L F K).
  - pose proof (member_Flush home L F K d k s Hw Hm) as R. unfold Flush. destruct (flushLocked s d) as [s' d'].
    destruct R as (L' & F' & K' & M & _). do 4 eexists. split; [exact M|]. apply once_hits. intros c. apply hits_elsewhere.
  - destruct (me_aof Hm) as (a & Ha & _). rewrite Ha. pose proof (member_Sync home L F K d k s a Hw Hm Ha) as R.
    destruct (Sync d a) as [a' d']. destruct R as (L' & F' & K' & M & _). exists [], L', F', K'. by split; [|apply once_nil].
  - destruct (member_poll home L F K d k s now Hw Hm) as (K' & s' & -> & Hm' & _). cbn [go_bind].
    exists [], L, F, K'. split; [by eapply moved_refl|apply once_nil].
  - done.
  - done.
Qed.

(** ** Runs *)

(** After some part of the run, the home of the code showed [r] of it. *)
Definition shown (evs : list cev) (c : bytes) (r : option entry) : Prop :=
  exists evs1 ms1 d1 s1, evs1 `prefix_of` evs /\ node_run evs1 = Ret (ms1, d1) /\ ms1 !! home c = Some s1
    /\ option_Forall2 same_row (index s1 c) r.

(** Every prefix of a history is something its instance has shown. *)
Definition past (evs : list cev) (L : History) : Prop :=
  forall c xs, xs `prefix_of` L (home c) ->
    index (replay (home c) xs) c = None \/ shown evs c (index (replay (home c) xs) c).

Record inv (evs : list cev) (ms : gmap Z Store) (d : Disk) (L F : History) : Prop := {
  in_world : world home L F d;
  in_members : forall k s, ms !! k = Some s -> exists K, member home L F K d k s;
  in_down : forall k, ms !! k = None -> L k = F k;
  in_past : past evs L
}.
Arguments in_world {evs ms d L F}. Arguments in_members {evs ms d L F}.
Arguments in_down {evs ms d L F}. Arguments in_past {evs ms d L F}.

Lemma shown_mono (evs evs' : list cev) (c : bytes) (r : option entry) :
  evs `prefix_of` evs' -> shown evs c r -> shown evs' c r.
Proof. intros He (evs1 & ms1 & d1 & s1 & H1 & Hrest). exists evs1, ms1, d1, s1. split; [by etransitivity|done]. Qed.

Lemma past_mono (evs evs' : list cev) (L L' : History) :
  evs `prefix_of` evs' -> (forall j, L' j `prefix_of` L j) -> past evs L -> past evs' L'.
Proof.
  intros He HL Hp c xs Hx. destruct (Hp c xs) as [?|?]; [by etransitivity; [exact Hx|apply HL]|by left|].
  right. by eapply shown_mono.
Qed.

Lemma inv_idle (evs : list cev) (ev : cev) (ms : gmap Z Store) (d : Disk) (L F : History) :
  inv evs ms d L F -> inv (evs ++ [ev]) ms d L F.
Proof. intros [? ? ? Hp]. split; [done|done|done|]. eapply past_mono; [by apply prefix_app_r|done|exact Hp]. Qed.

Lemma shows_shown (evs : list cev) (ms : gmap Z Store) (d : Disk) (c : bytes) (s r : Store) :
  node_run evs = Ret (ms, d) -> ms !! home c = Some s -> shows_same c s r -> shown evs c (index r c).
Proof. intros E Es Hs. by exists evs, ms, d, s. Qed.

(** What an instance shows of the codes at home there is its whole history. *)
Lemma member_home (L F K : History) (d : Disk) (k : Z) (s : Store) (c : bytes) :
  member home L F K d k s -> home c = k -> shows_same c s (replay k (L k)).
Proof. intros Hm <-. pose proof (me_view Hm c) as V. by rewrite (me_self Hm) in V. Qed.

(** An operation adds to what its instance has shown. *)
Lemma past_moved (evs : list cev) (ev : cev) (ms ms' : gmap Z Store) (d d' : Disk) (k : Z) (s s' : Store)
    (xs : list lop) (L F L' F' K K' : History) :
  node_run evs = Ret (ms, d) -> ms !! k = Some s -> world home L F d -> member home L F K d k s ->
  moved home L F d k xs s' d' L' F' K' -> once xs ->
  (forall c, Forall (elsewhere c) xs) \/ node_run (evs ++ [ev]) = Ret (ms', d') /\ ms' !! k = Some s' ->
  past evs L -> past (evs ++ [ev]) L'.
Proof.
  intros Er Es Hw Hm M Hon Hnew Hp c ys Hy.
  assert (forall xs, xs `prefix_of` L (home c) -> index (replay (home c) xs) c = None
    \/ shown (evs ++ [ev]) c (index (replay (home c) xs) c)) as Hold.
  { intros zs Hz. destruct (Hp c zs Hz) as [?|?]; [by left|right]. eapply shown_mono; [|done]. by apply prefix_app_r. }
  destruct (decide (home c = k)) as [Eh|Hne]; [|apply Hold; by rewrite <- (proj1 (mo_else M _ Hne))].
  rewrite Eh, (mo_lines M) in Hy. destruct (prefix_weak_total ys (L k) (L k ++ xs)) as [Hlt|[zs ->]];
    [done|by apply prefix_app_r|apply Hold; by rewrite Eh|].
  apply prefix_app_inv in Hy. destruct Hy as [ws Ews]. right.
  destruct (known_ok home L' F' d' k (L k ++ zs) (mo_world M)) as [Hok Hby].
  { rewrite (mo_lines M), Ews, app_assoc. by apply prefix_app_r. }
  destruct (known_ok home L' F' d' k (L k ++ xs) (mo_world M)) as [Hok' _]; [by rewrite (mo_lines M)|].
  apply Forall_app in Hok as [HokL Hokz]. rewrite Ews, app_assoc in Hok'. apply Forall_app in Hok' as [_ Hokw].
  assert (forall j ls, wf (replay j ls)) as Hwf by apply wf_replay.
  assert (Forall (elsewhere c) zs -> shown (evs ++ [ev]) c (index (replay (home c) (L k ++ zs)) c)) as Hleft.
  { intros Hz. eapply (shown_mono evs); [by apply prefix_app_r|]. eapply shows_shown; [done|by rewrite Eh|].
    rewrite Eh. etransitivity; [by eapply member_home|]. unfold replay. rewrite foldl_app. symmetry.
    by apply foldl_elsewhere; [apply Hwf|..]. }
  destruct (Hon c zs ws Ews) as [Hz|Hz]; [by apply Hleft|]. destruct Hnew as [Hall|[Er' Es']].
  - apply Hleft. specialize (Hall c). rewrite Ews in Hall. by apply Forall_app in Hall as [? _].
  - eapply shows_shown; [exact Er'|by rewrite Eh|]. rewrite Eh. etransitivity; [eapply member_home; [apply (mo_member M)|done]|].
    rewrite (mo_lines M), Ews, app_assoc. unfold replay. rewrite (foldl_app _ (L k ++ zs)). by apply foldl_elsewhere; [apply Hwf|..].
Qed.

(** The others stay members when one instance moves. *)
Lemma others_stay (L F L' F' K K' : History) (d d' : Disk) (k j : Z) (xs : list lop) (s s' : Store) :
  moved home L F d k xs s' d' L' F' K' -> j <> k -> member home L F K d j s -> member home L' F' K d' j s.
Proof.
  intros M Hj Hm. apply (member_frame home L F K L' F' d d'); [by apply (mo_else M)| | |done].
  - intros i. destruct (decide (i = k)) as [->|Hi]; [apply (mo_grow M)|]. by destruct (mo_else M i Hi) as [_ ->].
  - apply (mo_others M). intros E. apply Hj. eapply logName_inj; [apply (me_inst Hm)|apply (me_inst (mo_member M))|done].
Qed.

Lemma inv_moved (evs : list cev) (ev : cev) (ms : gmap Z Store) (d d' : Disk) (k : Z) (s' : Store) (o : option Store)
    (xs : list lop) (L F L' F' K' : History) :
  inv evs ms d L F -> moved home L F d k xs s' d' L' F' K' ->
  o = Some s' \/ o = None /\ F' k = L' k -> past (evs ++ [ev]) L' ->
  inv (evs ++ [ev]) (partial_alter (fun _ => o) k ms) d' L' F'.
Proof.
  intros [Hw Hms Hd Hp] M Ho Hp'. split; [apply (mo_world M)| | |done].
  - intros j s Hj. destruct (decide (k = j)) as [<-|Hne].
    + rewrite lookup_partial_alter_eq in Hj. destruct Ho as [->|[-> _]]; [|done]. injection Hj as <-.
      eexists. apply (mo_member M).
    + rewrite lookup_partial_alter_ne in Hj by done. destruct (Hms j s Hj) as [K Hm]. exists K. eapply others_stay; [exact M|done|done].
  - intros j Hj. destruct (decide (k = j)) as [<-|Hne].
    + rewrite lookup_partial_alter_eq in Hj. destruct Ho as [->|[_ ?]]; [done|done].
    + rewrite lookup_partial_alter_ne in Hj by done. destruct (mo_else M j) as [-> ->]; [done|]. by apply Hd.
Qed.

(** A process dies, and what it had queued with it. *)
Lemma inv_kill (evs : list cev) (k : Z) (ms : gmap Z Store) (d : Disk) (L F : History) :
  inv evs ms d L F -> inv (evs ++ [CKill k]) (delete k ms) d (<[k := F k]> L) F.
Proof.
  intros Hi. pose proof (in_world Hi) as Hw. split.
  - destruct Hw as [H1 H2 H3 H4 H5 H6 H7]. split; try done.
    + intros j. destruct (decide (k = j)) as [<-|Hne]; [|by rewrite fn_lookup_insert_ne].
      rewrite fn_lookup_insert. eapply known_ok; [apply (in_world Hi)|apply H2].
    + intros j. destruct (decide (k = j)) as [<-|Hne]; [by rewrite fn_lookup_insert|by rewrite fn_lookup_insert_ne].
    + intros j Hj. destruct (decide (k = j)) as [<-|Hne]; [rewrite fn_lookup_insert|by rewrite fn_lookup_insert_ne; auto].
      specialize (H2 k). rewrite H4 in H2 by done. by apply prefix_nil_inv in H2.
  - intros j s Hj. apply lookup_delete_Some in Hj as [Hne Hj]. destruct (in_members Hi j s Hj) as [K Hm]. exists K.
    by apply (member_frame home L F K _ F d d); [rewrite fn_lookup_insert_ne|..].
  - intros j Hj. destruct (decide (k = j)) as [<-|Hne]; [by rewrite fn_lookup_insert|].
    rewrite fn_lookup_insert_ne by done. apply (in_down Hi). by rewrite lookup_delete_ne in Hj.
  - eapply (past_mono evs _ L); [by apply prefix_app_r| |apply (in_past Hi)].
    intros j. destruct (decide (k = j)) as [<-|Hne]; [rewrite fn_lookup_insert; apply Hw|by rewrite fn_lookup_insert_ne].
Qed.

(** What an event does to the histories: those of other instances stay; a
    start adds nothing, a stop and a flush no more than hits, and a kill goes
    back to what the file holds. *)
Definition who (ev : cev) : Z := match ev with CStart k | CStop k | CKill k | COp k _ => k end.

Definition hits_added (k : Z) (L L' : History) : Prop :=
  exists xs, L' k = L k ++ xs /\ forall c, Forall (elsewhere c) xs.

Definition adds (ev : cev) (L F L' F' : History) : Prop :=
  (forall j, j <> who ev -> L' j = L j) /\
  match ev with
  | CStart k => L' k = L k
  | CStop k => hits_added k L L'
  | CKill k => L' k = F k
  | COp k OFlush => hits_added k L L' /\ F' k = L' k
  | COp _ _ => True
  end.

Lemma hits_added_refl (k : Z) (L : History) : hits_added k L L.
Proof. exists []. split; [by rewrite app_nil_r|]. by constructor. Qed.

Lemma flush_adds (L F K : History) (d d' : Disk) (k : Z) (s s' : Store) (o : sop) :
  world home L F d -> member home L F K d k s -> op_at home k o -> sstep o (s, d) = Ret (s', d') ->
  exists xs L' F' K', moved home L F d k xs s' d' L' F' K' /\ once xs /\ adds (COp k o) L F L' F'.
Proof.
  intros Hw Hm Ho E. pose proof (member_step L F K d k s o Hw Hm Ho) as St. rewrite E in St.
  destruct o; try by (destruct St as (xs & L' & F' & K' & M & Hon); exists xs, L', F', K'; split; [done|]; split; [done|];
    split; [intros j Hj; by apply (mo_else M)|done]).
  clear St. cbn [sstep] in E. pose proof (member_Flush home L F K d k s Hw Hm) as R. unfold Flush in E.
  destruct (flushLocked s d) as [s1 d1]. injection E as -> ->. destruct R as (L' & F' & K' & M & EF & _).
  do 4 eexists. split; [exact M|]. split; [apply once_hits, hits_elsewhere|]. split; [intros j Hj; by apply (mo_else M)|].
  split; [|done]. eexists. split; [apply (mo_lines M)|]. apply hits_elsewhere.
Qed.

(** Every event keeps the invariant. *)
Lemma inv_step (evs : list cev) (ev : cev) (ms : gmap Z Store) (d : Disk) (L F : History) :
  node_run evs = Ret (ms, d) -> inv evs ms d L F -> cev_ok home ev ->
  match node_step ev (ms, d) with
  | Ret (ms', d') => exists L' F', inv (evs ++ [ev]) ms' d' L' F' /\ adds ev L F L' F'
  | Panic => False
  | Diverge => True
  end.
Proof.
  intros Er Hi Hev. assert (node_run (evs ++ [ev]) = node_step ev (ms, d)) as Er'.
  { unfold node_run in *. rewrite go_fold_app, Er. cbn [go_bind go_fold]. by destruct (node_step ev (ms, d)). }
  destruct ev as [k|k|k|k o]; cbn [node_step] in *.
  - destruct (ms !! k) as [s|] eqn:Ek; [exists L, F; by split; [apply inv_idle|]|].
    destruct (member_New home L F d (fun _ => false) 0 k (in_world Hi) Hev (in_down Hi k Ek)) as (s' & d' & K' & E & M).
    rewrite E in *. cbn [go_bind] in *. exists L, F. split; [|by split].
    eapply (inv_moved _ _ _ _ _ k s' (Some s')); [done|exact M|by left|].
    eapply past_mono; [by apply prefix_app_r|done|apply (in_past Hi)].
  - destruct (ms !! k) as [s|] eqn:Ek; [|exists L, F; split; [by apply inv_idle|split; [done|apply hits_added_refl]]].
    destruct (in_members Hi k s Ek) as [K Hm]. destruct (member_Close home L F K d k s (in_world Hi) Hm) as (s2 & L' & F' & K' & M & EF).
    exists L', F'. split.
    + eapply (inv_moved _ _ _ _ _ k s2 None); [done|exact M|by right|].
      eapply (past_moved _ _ ms ms); [done|exact Ek|apply (in_world Hi)|done|exact M|apply once_hits, hits_elsewhere|left; apply hits_elsewhere|apply (in_past Hi)].
    + split; [intros j Hj; by apply (mo_else M)|]. eexists. split; [apply (mo_lines M)|]. apply hits_elsewhere.
  - exists (<[k := F k]> L), F. split; [by apply inv_kill|].
    split; [|by cbn; rewrite fn_lookup_insert]. intros j Hj. by rewrite fn_lookup_insert_ne.
  - destruct (ms !! k) as [s|] eqn:Ek.
    2: { exists L, F. split; [by apply inv_idle|]. split; [done|]. destruct o; try done.
         split; [apply hits_added_refl|symmetry; by apply (in_down Hi)]. }
    destruct (in_members Hi k s Ek) as [K Hm]. pose proof (member_step L F K d k s o (in_world Hi) Hm Hev) as St.
    destruct (sstep o (s, d)) as [[s' d']| |] eqn:Eo; cbn [go_bind] in *; [|done|done]. clear St.
    destruct (flush_adds L F K d d' k s s' o (in_world Hi) Hm Hev Eo) as (xs & L' & F' & K' & M & Hon & Had).
    exists L', F'. split; [|exact Had].
    eapply (inv_moved _ _ _ _ _ k s' (Some s')); [done|exact M|by left|].
    eapply past_moved; [done|exact Ek|apply (in_world Hi)|done|exact M|done| |apply (in_past Hi)].
    right. split; [exact Er'|]. apply lookup_insert_eq.
Qed.

Lemma inv_init : inv [] ∅ ∅ (fun _ => []) (fun _ => []).
Proof.
  split.
  - split; try done.
    + intros own n Hn. apply ShardFiles_elem in Hn as (Hi & _). rewrite lookup_empty in Hi. by destruct Hi.
  - intros k s. by rewrite lookup_empty.
  - done.
  - intros c xs Hx. apply prefix_nil_inv in Hx as ->. left. unfold replay. cbn [foldl]. apply index_fresh.
Qed.

Lemma node_run_inv (evs : list cev) :
  Forall (cev_ok home) evs ->
  match node_run evs with
  | Ret (ms, d) => exists L F, inv evs ms d L F
  | Panic => False
  | Diverge => True
  end.
Proof.
  induction evs as [|ev evs IH] using rev_ind; intros Hok; [exists (fun _ => []), (fun _ => []); apply inv_init|].
  apply Forall_app in Hok as [Hok Hev]. apply Forall_cons in Hev as [Hev _]. specialize (IH Hok).
  assert (node_run (evs ++ [ev]) = (let* c := node_run evs in node_step ev c)) as ->.
  { unfold node_run. rewrite go_fold_app. destruct (go_fold node_step evs _) as [c| |]; [|done|done]. cbn. by destruct (node_step ev c). }
  destruct (node_run evs) as [[ms d]| |] eqn:Er; [|done|done]. destruct IH as (L & F & Hi). cbn [go_bind].
  pose proof (inv_step evs ev ms d L F Er Hi Hev) as St. destruct (node_step ev (ms, d)) as [[ms' d']| |]; [|done|done].
  destruct St as (L' & F' & Hi' & _). eauto.
Qed.

Lemma inv_steps (evs mid : list cev) (ms : gmap Z Store) (d : Disk) (L F : History) (k : Z) :
  node_run evs = Ret (ms, d) -> inv evs ms d L F -> Forall (cev_ok home) mid -> Forall (fun ev => who ev <> k) mid ->
  match go_fold node_step mid (ms, d) with
  | Ret (ms', d') => ms' !! k = ms !! k /\ exists L' F', inv (evs ++ mid) ms' d' L' F' /\ L' k = L k
  | Panic => False
  | Diverge => True
  end.
Proof.
  revert evs ms d L F. induction mid as [|ev mid IH]; intros evs ms d L F Er Hi Hok Hk; cbn [go_fold].
  { split; [done|]. exists L, F. by rewrite app_nil_r. }
  apply Forall_cons in Hok as [Hev Hok]. apply Forall_cons in Hk as [Hne Hk].
  pose proof (inv_step evs ev ms d L F Er Hi Hev) as St. destruct (node_step ev (ms, d)) as [[ms1 d1]| |] eqn:Es; cbn [go_bind]; [|done|done].
  destruct St as (L1 & F1 & Hi1 & Hel & _).
  assert (node_run (evs ++ [ev]) = Ret (ms1, d1)) as Er1 by (rewrite node_run_app, Er; cbn [go_bind go_fold]; by rewrite Es).
  assert (ms1 !! k = ms !! k) as Ek.
  { destruct ev as [j|j|j|j o]; cbn [node_step who] in *.
    - destruct (ms !! j); [by injection Es as <- _|]. destruct (New _ _ _ _) as [[[?|?] ?]| |]; [|by injection Es as <- _|done|done].
      injection Es as <- _. by rewrite lookup_insert_ne.
    - destruct (ms !! j); injection Es as <- _; [by rewrite lookup_delete_ne|done].
    - injection Es as <- _. by rewrite lookup_delete_ne.
    - destruct (ms !! j); [|by injection Es as <- _]. destruct (sstep _ _) as [[? ?]| |]; [|done|done].
      injection Es as <- _. by rewrite lookup_insert_ne. }
  specialize (IH (evs ++ [ev]) ms1 d1 L1 F1 Er1 Hi1 Hok Hk).
  destruct (go_fold node_step mid (ms1, d1)) as [[ms2 d2]| |]; [|done|done]. destruct IH as (E2 & L2 & F2 & Hi2 & EL).
  split; [congruence|]. exists L2, F2. rewrite <- app_assoc in Hi2. split; [exact Hi2|]. rewrite EL. apply Hel. congruence.
Qed.

(** The ways a process ends without losing rows. *)
Definition endings (k : Z) : list (list cev) := [[CStop k]; [COp k OFlush; CKill k]].

Lemma hits_added_replay (k : Z) (L L' : History) (F' : History) (d : Disk) (c : bytes) :
  world home L' F' d -> hits_added k L L' -> shows_same c (replay k (L' k)) (replay k (L k)).
Proof.
  intros Hw (xs & E & Hx). destruct (known_ok home L' F' d k (L' k) Hw) as [Hok _]; [done|]. rewrite E in *.
  apply Forall_app in Hok as [_ Hok]. unfold replay. rewrite foldl_app. by apply foldl_elsewhere; [apply wf_replay|..].
Qed.

(** After either ending, the file holds what the instance showed. *)
Lemma ended (evs fin : list cev) (ms : gmap Z Store) (d : Disk) (L F : History) (k : Z) (s : Store) :
  node_run evs = Ret (ms, d) -> inv evs ms d L F -> ms !! k = Some s -> fin ∈ endings k ->
  exists ms' d' L' F', node_run (evs ++ fin) = Ret (ms', d') /\ inv (evs ++ fin) ms' d' L' F' /\ ms' !! k = None
    /\ forall c, home c = k -> shows_same c (replay k (L' k)) s.
Proof.
  intros Er Hi Ek Hf. destruct (in_members Hi k s Ek) as [K Hm].
  assert (forall c, home c = k -> shows_same c (replay k (L k)) s) as Hs by (intros c Hc; symmetry; by eapply member_home).
  apply elem_of_cons in Hf as [->|Hf].
  - pose proof (inv_step evs (CStop k) ms d L F Er Hi I) as St. cbn [node_step] in St. rewrite Ek in St.
    destruct St as (L' & F' & Hi' & _ & Had). do 4 eexists. split; [rewrite node_run_app, Er; cbn [go_bind go_fold node_step]; by rewrite Ek|].
    split; [exact Hi'|]. split; [apply lookup_delete_eq|]. intros c Hc.
    etransitivity; [by eapply hits_added_replay; [apply (in_world Hi')|]|by apply Hs].
  - apply list_elem_of_singleton in Hf as ->.
    pose proof (inv_step evs (COp k OFlush) ms d L F Er Hi I) as St. cbn [node_step] in St. rewrite Ek in St. cbn [sstep go_bind] in St.
    destruct (Flush s d) as [s1 d1] eqn:Efl. destruct St as (L1 & F1 & Hi1 & _ & Had & EF).
    pose proof (inv_kill _ k _ _ _ _ Hi1) as Hi2. rewrite <- app_assoc in Hi2.
    do 4 eexists. split.
    { rewrite node_run_app, Er. cbn [go_bind go_fold node_step]. rewrite Ek. cbn [sstep go_bind]. rewrite Efl. done. }
    split; [exact Hi2|]. split; [apply lookup_delete_eq|]. intros c Hc. rewrite fn_lookup_insert, EF.
    etransitivity; [by eapply hits_added_replay; [apply (in_world Hi1)|]|by apply Hs].
Qed.

End Cluster.

Arguments in_world {_ _ _ _ _ _ _}. Arguments in_members {_ _ _ _ _ _ _}.
Arguments in_down {_ _ _ _ _ _ _}. Arguments in_past {_ _ _ _ _ _ _}.
