(* ===== verification/ClusterProps.v ===== *)
(** * ClusterProps: what a cluster promises

    The theorems on runs of [Cluster]: answers come from the home of a code,
    flushed links are visible to who looks, restarts in a running cluster keep
    links, and what happens to an alias that two instances accept. *)

From stdpp Require Import functions.
From S2P Require Import Prelude GoStd Base62 LogLine Aof Store StoreSpec StoreRead Replay Alone Sibling.
From S2P Require Import Queue Durable Restart Trace Session Views Member Cluster.
From stdpp Require Import options.

Section ClusterProps.
Context `{MapOrder} `{SliceSort} (home : bytes -> Z) `{HH : !Homes home}.
#[local] Set Default Proof Using "Type* HH".

(** What a look-up answers when it finds this. *)
Definition answer (o : option entry) (now : Z) : option bytes :=
  match o with Some e => if live e now then Some (e_u e) else None | None => None end.

Lemma answer_same (o o' : option entry) (now : Z) : option_Forall2 same_row o o' -> answer o now = answer o' now.
Proof. intros [e e' (Eu & _ & Ee & _)|]; [|done]. cbn. unfold live. by rewrite Eu, Ee. Qed.

(** The answer of [Resolve] is what its reads leave in the index. *)
Lemma Resolve_answer (trackHits : bool) (code : bytes) (t1 t2 now : Z) (d : Disk) (s s1 : Store) :
  resolve_miss code t1 t2 d s = Ret s1 ->
  exists s', Resolve trackHits code t1 t2 now d s = Ret (answer (index s1 code) now, s').
Proof.
  intros E. unfold Resolve. rewrite E. cbn [go_bind]. destruct (index s1 code) as [e|]; [|by eexists].
  cbn. destruct (live e now); by eexists.
Qed.

(** Whatever order the steps of the instances come in (starts, stops, kills
    and operations), nothing panics, and what an instance answers for a code, the
    code's home has had: at some time of the run, the home was up and its index
    held a link under that code with the URL of the answer, not expired at the
    time of the answer. *)
Lemma home_answers (evs : list cev) (k : Z) (trackHits : bool) (code : bytes) (t1 t2 now : Z)
  (Hok : Forall (cev_ok home) evs) :
  match node_run evs with
  | Ret (ms, d) => forall s, ms !! k = Some s ->
      match Resolve trackHits code t1 t2 now d s with
      | Ret (Some u, _) => exists evs1 ms1 d1 s1 e, evs1 `prefix_of` evs /\ node_run evs1 = Ret (ms1, d1)
          /\ ms1 !! home code = Some s1 /\ index s1 code = Some e /\ e_u e = u /\ live e now = true
      | Ret (None, _) => True
      | _ => False
      end
  | Panic => False
  | Diverge => True
  end.
Proof.
  pose proof (node_run_inv home evs Hok) as R. destruct (node_run evs) as [[ms d]| |]; [|done|done]. destruct R as (L & F & Hi).
  intros s Hs. destruct (in_members Hi k s Hs) as [K Hm].
  destruct (member_miss home L F K d k s code t1 t2 (in_world Hi) Hm) as (K' & s1 & E & Hm1 & _).
  destruct (Resolve_answer trackHits code t1 t2 now d s s1 E) as [s' ->].
  destruct (answer (index s1 code) now) as [u|] eqn:Ea; [|done].
  pose proof (me_view Hm1 code) as V. rewrite (answer_same _ _ now V) in Ea.
  destruct (in_past Hi code (K' (home code))) as [En|(evs1 & ms1 & d1 & s2 & Hpre & Er & Hs2 & Hv)].
  { eapply known_prefix; [apply (in_world Hi)|exact Hm1]. }
  { by rewrite En in Ea. }
  rewrite <- (answer_same _ _ now Hv) in Ea. unfold answer in Ea.
  destruct (index s2 code) as [e|] eqn:Ee; [|done]. destruct (live e now) eqn:El; [|done]. injection Ea as <-.
  exists evs1, ms1, d1, s2, e. done.
Qed.

(** A flushed link is visible to every instance that looks. At any point of
    a run, let the home [j] of a code flush. Then an instance [k] that does not
    have the code, looking it up, answers exactly what the home would, if the
    code's first character names the home (as it does for generated codes) or
    200 ms have passed since the last poll of [k]; and after a poll of [k], all
    codes at home at [j] show there as they do at [j]. *)
Lemma flushed_visible (evs : list cev) (k j : Z) (trackHits : bool) (code : bytes) (t1 t2 now : Z)
  (Hok : Forall (cev_ok home) evs) (Hj : home code = j) (Hkj : k <> j) :
  match node_run evs with
  | Ret (ms, d) => forall s h, ms !! k = Some s -> ms !! j = Some h ->
      let d' := (Flush h d).2 in
      (forall c, index (Flush h d).1 c = index h c) /\
      (index s code = None ->
       (exists p rest, code = p :: rest /\ alpha_index p = j) \/ tailMinInterval <= int64 (t1 - lastPoll s) ->
       exists s', Resolve trackHits code t1 t2 now d' s = Ret (answer (index h code) now, s'))
      /\ exists s', PollTails now d' s = Ret s' /\ forall c, home c = j -> shows_same c s' h
  | Panic => False
  | Diverge => True
  end.
Proof.
  pose proof (node_run_inv home evs Hok) as R. destruct (node_run evs) as [[ms d]| |]; [|done|done]. destruct R as (L & F & Hi).
  intros s h Hs Hh. destruct (in_members Hi k s Hs) as [K Hm], (in_members Hi j h Hh) as [Kj Hmj].
  pose proof (member_Flush home L F Kj d j h (in_world Hi) Hmj) as Fl. unfold Flush.
  destruct (flushLocked h d) as [h' d']. destruct Fl as (L' & F' & K' & M & EF & Eidx & _). cbv zeta. cbn [fst snd]. split; [exact Eidx|].
  pose proof (mo_world M) as Hw'. pose proof (others_stay home _ _ _ _ K _ _ _ _ k _ s _ M Hkj Hm) as Hm'.
  assert (forall c, home c = j -> shows_same c h (replay j (F' j))) as Hview.
  { intros c Hc. rewrite EF. etransitivity; [|eapply (member_home home L' F' K' d' j h'); [apply (mo_member M)|done]].
    symmetry. by apply shows_same_index. }
  split.
  - intros Hn Hor. destruct (member_miss home L' F' K d' k s code t1 t2 Hw' Hm') as (K1 & s1 & E & Hm1 & Hc & Hlook).
    assert (K1 j = F' j) as EK.
    { destruct Hlook as [[e He]|E2]; [done|congruence| | |congruence].
      - destruct Hor as [(p & rest & Ec & Ep)|?]; [left|by right]. split; [rewrite Hj; apply (me_inst Hmj)|]. exists rest, p. by rewrite Hj.
      - destruct (Hc j) as [E1|?]; [|done]. exfalso. pose proof (me_view Hm code) as V. pose proof (me_view Hm1 code) as V1.
        unfold shows_same in V, V1. rewrite Hj, Hn in V. rewrite Hj, E1, He in V1. assert (index (replay j (K j)) code = None) as En by by inversion V. rewrite En in V1. inversion V1. }
    destruct (Resolve_answer trackHits code t1 t2 now d' s s1 E) as [s' ->]. exists s'. do 2 f_equal.
    apply answer_same. pose proof (me_view Hm1 code) as V1. change (shows_same code s1 h). etransitivity; [exact V1|].
    symmetry. rewrite Hj, EK. by apply Hview.
  - destruct (member_poll home L' F' K d' k s now Hw' Hm') as (K1 & s1 & E & Hm1 & _ & Hall). exists s1. split; [done|].
    intros c Hc. pose proof (me_view Hm1 c) as V1. etransitivity; [exact V1|]. symmetry. rewrite Hc, (Hall j) by congruence. by apply Hview.
Qed.

(** A code's home answers what its own index holds. *)
Lemma home_own_answer (evs : list cev) (k : Z) (trackHits : bool) (code : bytes) (t1 t2 now : Z) :
  Forall (cev_ok home) evs -> home code = k ->
  match node_run evs with
  | Ret (ms, d) => forall s, ms !! k = Some s ->
      exists s', Resolve trackHits code t1 t2 now d s = Ret (answer (index s code) now, s')
  | Panic => False
  | Diverge => True
  end.
Proof.
  intros Hok Hh. pose proof (node_run_inv home evs Hok) as R. destruct (node_run evs) as [[ms d]| |]; [|done|done]. destruct R as (L & F & Hi).
  intros s Hs. destruct (in_members Hi k s Hs) as [K Hm].
  destruct (member_miss home L F K d k s code t1 t2 (in_world Hi) Hm) as (K' & s1 & E & Hm1 & _).
  destruct (Resolve_answer trackHits code t1 t2 now d s s1 E) as [s' ->]. exists s'. do 2 f_equal. apply answer_same.
  change (shows_same code s1 s). etransitivity; [by eapply member_home|]. symmetry. by eapply member_home.
Qed.

(** C6: restarts in a running cluster keep links. An instance that is stopped,
    or killed after a flush, and started again while the others go on (in any
    way that leaves its number alone) shows all codes at home there as before.
    Each alias is posted at its home only, and nothing compacts ([cev_ok]). *)
Theorem restart_in_cluster (evs fin mid : list cev) (k : Z)
  (Hok : Forall (cev_ok home) evs) (Hfin : fin ∈ endings k)
  (Hmid : Forall (cev_ok home) mid) (Helse : Forall (fun ev => who ev <> k) mid) :
  match node_run evs with
  | Ret (ms, d) => forall s, ms !! k = Some s ->
      match node_run (evs ++ fin ++ mid ++ [CStart k]) with
      | Ret (ms', d') => exists s', ms' !! k = Some s' /\ forall c, home c = k -> shows_same c s' s
      | Panic => False
      | Diverge => True
      end
  | Panic => False
  | Diverge => True
  end.
Proof.
  pose proof (node_run_inv home evs Hok) as R. destruct (node_run evs) as [[ms d]| |] eqn:Er; [|done|done]. destruct R as (L & F & Hi).
  intros s Hs. destruct (ended home evs fin ms d L F k s Er Hi Hs Hfin) as (ms1 & d1 & L1 & F1 & Er1 & Hi1 & Hd1 & Hv1).
  destruct (in_members Hi k s Hs) as [K Hm].
  pose proof (inv_steps home (evs ++ fin) mid ms1 d1 L1 F1 k Er1 Hi1 Hmid Helse) as St.
  rewrite app_assoc, node_run_app, Er1. cbn [go_bind]. rewrite go_fold_app.
  destruct (go_fold node_step mid (ms1, d1)) as [[ms2 d2]| |]; cbn [go_bind go_fold]; [|done|done].
  destruct St as (Ek & L2 & F2 & Hi2 & EL). rewrite Hd1 in Ek. cbn [node_step]. rewrite Ek.
  destruct (member_New home L2 F2 d2 (fun _ => false) 0 k (in_world Hi2) (proj1 (me_inst Hm)) (in_down Hi2 k Ek)) as (s' & d' & K' & -> & M).
  cbn [go_bind]. exists s'. split; [apply lookup_insert_eq|]. intros c Hc.
  etransitivity; [eapply (member_home home L2 F2); [apply (mo_member M)|done]|]. rewrite EL. by apply Hv1.
Qed.

End ClusterProps.

(** * Witnesses

    Two instances; aliases are at home at instance 0. *)

Definition cluster_home (c : bytes) : Z :=
  match c with p :: _ => if decide (length c = codeLen) then alpha_index p else 0 | [] => 0 end.

#[export] Instance cluster_homes : Homes cluster_home.
Proof.
  split. intros k p buf Hk Hp Hb. unfold cluster_home, randSuffix. cbn [length]. rewrite length_map, Hb, decide_True by done.
  destruct (alpha_at_spec k Hk) as (c & Ec & Hi & _). rewrite Hp in Ec. by injection Ec as <-.
Qed.

Definition cluster_draw : bytes := map (fun c => bofZ (alpha_index c)) (lit "ABCDEFG").

(** Instance 0 files an alias, instance 1 draws a code and looks up the alias. *)
Definition cluster_events : list cev :=
  [CStart 0; CStart 1; COp 0 (OShorten (lit "http://a") (lit "docs") true 0 100 []);
   COp 1 (OShorten (lit "http://b") [] false 0 100 [cluster_draw]); COp 0 OFlush;
   COp 1 (OResolve true (lit "docs") 300 300 300)].

Lemma cluster_events_ok : Forall (cev_ok cluster_home) cluster_events.
Proof.
  assert (is_int64 100) by (unfold is_int64; lia). assert (cluster_home (lit "docs") = 0) by reflexivity.
  assert (code_ok (lit "docs")) by (by split). assert (draw cluster_draw) by reflexivity.
  unfold cluster_events. repeat (apply Forall_cons; split); try apply List.Forall_nil; cbn [cev_ok op_at]; try lia; try exact I.
  - split; [done|]. split; [apply List.Forall_nil|]. done.
  - split; [done|]. split; [|done]. apply Forall_cons. split; [done|apply List.Forall_nil].
Defined.

Lemma restart_in_cluster_witness :
  exists ms d s, node_run cluster_events = Ret (ms, d) /\ ms !! 0 = Some s
    /\ exists ms' d' s', node_run (cluster_events ++ [COp 0 OFlush; CKill 0] ++ [CStop 1] ++ [CStart 0]) = Ret (ms', d')
         /\ ms' !! 0 = Some s' /\ shows_same (lit "docs") s' s.
Proof.
  pose proof (restart_in_cluster cluster_home cluster_events [COp 0 OFlush; CKill 0] [CStop 1] 0 cluster_events_ok) as P.
  assert (is_ret (node_run (cluster_events ++ [COp 0 OFlush; CKill 0] ++ [CStop 1] ++ [CStart 0])) = true) as R'
    by (vm_compute; reflexivity).
  assert (match node_run cluster_events with Ret (ms, _) => is_Some (ms !! 0) | _ => False end) as R
    by (vm_compute; eexists; reflexivity).
  destruct (node_run cluster_events) as [[ms d]| |]; [|destruct R|destruct R]. destruct R as [s Es].
  exists ms, d, s. split; [reflexivity|]. split; [exact Es|].
  specialize (P (list_elem_of_further _ _ _ (list_elem_of_here _ _))).
  specialize (P ltac:(apply Forall_cons; split; [exact I|apply List.Forall_nil])).
  specialize (P ltac:(apply Forall_cons; split; [discriminate|apply List.Forall_nil]) s Es).
  destruct (node_run (cluster_events ++ _)) as [[ms' d']| |]; [|discriminate R'|discriminate R'].
  destruct P as (s' & E & V). exists ms', d', s'. split; [reflexivity|]. split; [exact E|]. apply V. reflexivity.
Defined.

(** An alias is not unique in a cluster: two instances accept the same one, each
    for its own target, and once both have flushed and polled, each serves the
    target of the other. *)
Definition twice_events : list cev :=
  [CStart 0; CStart 1; COp 0 (OShorten (lit "http://a") (lit "docs") true 0 100 []);
   COp 1 (OShorten (lit "http://b") (lit "docs") true 0 100 [])].

Definition target_at (k : Z) (r : go (gmap Z Store * Disk)) : option bytes :=
  match r with Ret (ms, _) => match ms !! k with Some s => e_u <$> index s (lit "docs") | None => None end | _ => None end.

Theorem alias_taken_twice :
  target_at 0 (node_run twice_events) = Some (lit "http://a") /\ target_at 1 (node_run twice_events) = Some (lit "http://b")
  /\ let later := node_run (twice_events ++ [COp 0 OFlush; COp 1 OFlush; COp 0 (OPoll 300); COp 1 (OPoll 300)]) in
     target_at 0 later = Some (lit "http://b") /\ target_at 1 later = Some (lit "http://a").
Proof. vm_compute. repeat split. Qed.
