(* ===== verification/RateLimit.v ===== *)
(** * RateLimit: the token buckets of [internal/ratelimit/ratelimit.go]

    A sharded map from hashed client addresses to buckets, whose tokens are
    doubles. The clock, and the two numbers read from the environment, are
    arguments. *)

From S2P Require Import Prelude GoStd Float.
From stdpp Require Import options.

(** ** The limiter *)

Definition rl_shards : nat := 64.
Definition maxKeys : nat := Z.to_nat (Z.shiftl 1 12).
Definition idleMs : Z := 60000.

Record bucket := mkBucket { tokens : float64; lastMs : Z }.

Record Limiter := mkLimiter {
  l_shards : list (gmap Z bucket);
  l_rate : float64;  (* tokens per second *)
  l_burst : float64  (* bucket capacity *)
}.

(** FNV-1a on 64 bits. *)
Definition ipKey (ip : bytes) : Z :=
  foldl (fun h c => uint64 (Z.lxor h (bZ c) * 0x100000001b3)) 0xcbf29ce484222325 ip.

(** [New] after parsing [RATE_LIMIT] and [RATE_LIMIT_BURST]. *)
Definition New (rate burst : float64) : Limiter :=
  let burst := if f64_le burst (f64_of_Z 0) then rate else burst in
  let burst := if f64_lt burst (f64_of_Z 1) then f64_of_Z 1 else burst in
  mkLimiter (replicate rl_shards ∅) rate burst.

(** The keys that survive the sweep of a full shard. *)
Definition sweep (now : Z) (m : gmap Z bucket) : gmap Z bucket :=
  if decide (maxKeys <= size m)%nat
  then filter (fun kb => ~ idleMs < int64 (now - lastMs kb.2)) m
  else m.

(** The bucket's tokens at time [now], clamped to the capacity. *)
Definition refill (rate burst : float64) (now : Z) (b : bucket) : float64 :=
  let t := f64_add (tokens b)
             (f64_mul (f64_div (f64_of_Z (int64 (now - lastMs b))) (f64_of_Z 1000)) rate) in
  if f64_lt burst t then burst else t.

Definition shard_of_key (k : Z) : nat := Z.to_nat (Z.land k (Z.of_nat rl_shards - 1)).

Definition Allow (now : Z) (ip : bytes) (cost : float64) (l : Limiter) : bool * Limiter :=
  if f64_le (l_rate l) (f64_of_Z 0) then (true, l)
  else
    let k := ipKey ip in
    let i := shard_of_key k in
    let m := sweep now (default ∅ (l_shards l !! i)) in
    let b := default (mkBucket (l_burst l) now) (m !! k) in
    let t := refill (l_rate l) (l_burst l) now b in
    let ok := f64_le cost t in
    let t := if ok then f64_sub t cost else t in
    (ok, mkLimiter (<[i := <[k := mkBucket t now]> m]> (l_shards l)) (l_rate l) (l_burst l)).

(** Three requests of a burst of 3, then none; another client has its own. *)
Example token_bucket :
  let l := New (f64_of_Z 1) (f64_of_Z 3) in
  let '(a, l) := Allow 5 (lit "1.2.3.4") (f64_of_Z 1) l in
  let '(b, l) := Allow 5 (lit "1.2.3.4") (f64_of_Z 1) l in
  let '(c, l) := Allow 5 (lit "1.2.3.4") (f64_of_Z 1) l in
  let '(d, l) := Allow 5 (lit "1.2.3.4") (f64_of_Z 1) l in
  let '(e, l) := Allow 5 (lit "5.6.7.8") (f64_of_Z 1) l in
  let '(f, _) := Allow 1005 (lit "1.2.3.4") (f64_of_Z 1) l in
  (a, b, c, d, e, f) = (true, true, true, false, true, true).
Proof. vm_compute. reflexivity. Qed.

(** * Lemmas *)

Lemma refill_le (rate burst : float64) (now : Z) (b : bucket) :
  f64_lt burst (refill rate burst now b) = false.
Proof.
  unfold refill. set (t := f64_add _ _). destruct (f64_lt burst t) eqn:E; [|done].
  apply f64_lt_irrefl.
Qed.

Lemma shard_of_key_bound (k : Z) : (shard_of_key k < rl_shards)%nat.
Proof.
  unfold shard_of_key, rl_shards. change (Z.of_nat 64 - 1) with (Z.ones 6). rewrite Z.land_ones by lia.
  pose proof (Z.mod_pos_bound k (2 ^ 6) ltac:(lia)). lia.
Qed.

Definition bucket_of (l : Limiter) (k : Z) : option bucket :=
  default ∅ (l_shards l !! shard_of_key k) !! k.

Definition enabled (l : Limiter) : Prop := f64_le (l_rate l) (f64_of_Z 0) = false.

Lemma Allow_enabled (now : Z) (ip : bytes) (cost : float64) (l : Limiter) :
  enabled l ->
  Allow now ip cost l
  = let k := ipKey ip in
    let m := sweep now (default ∅ (l_shards l !! shard_of_key k)) in
    let t := refill (l_rate l) (l_burst l) now (default (mkBucket (l_burst l) now) (m !! k)) in
    (f64_le cost t,
     mkLimiter (<[shard_of_key k := <[k := mkBucket (if f64_le cost t then f64_sub t cost else t) now]> m]>
                  (l_shards l)) (l_rate l) (l_burst l)).
Proof. intros He. unfold Allow. by rewrite He. Qed.

Lemma maxKeys_le (n : nat) : (maxKeys <= n)%nat <-> 4096 <= Z.of_nat n.
Proof. unfold maxKeys. change (Z.shiftl 1 12) with 4096. lia. Qed.

Lemma sweep_lookup (now : Z) (m : gmap Z bucket) (k : Z) :
  sweep now m !! k
  = match m !! k with
    | Some b => if decide (4096 <= Z.of_nat (size m) /\ 60000 < int64 (now - lastMs b)) then None else Some b
    | None => None
    end.
Proof.
  unfold sweep, idleMs. pose proof (maxKeys_le (size m)) as Hk.
  case_decide as Hs; [rewrite map_lookup_filter|]; destruct (m !! k) as [b|]; simpl; try done.
  - case_guard; case_decide; simpl in *; first [done|exfalso; tauto].
  - by rewrite decide_False by tauto.
Qed.

Lemma shard_of_key_eq (k k' : Z) : shard_of_key k = shard_of_key k' <-> Z.land k 63 = Z.land k' 63.
Proof.
  unfold shard_of_key, rl_shards. change (Z.of_nat 64 - 1) with 63.
  apply Z2Nat.inj_iff; apply Z.land_nonneg; by right.
Qed.

Lemma bucket_of_insert (l : Limiter) (k k' : Z) (b : bucket) (m : gmap Z bucket) :
  length (l_shards l) = rl_shards ->
  bucket_of (mkLimiter (<[shard_of_key k := <[k := b]> m]> (l_shards l)) (l_rate l) (l_burst l)) k'
  = if decide (k' = k) then Some b
    else if decide (shard_of_key k' = shard_of_key k) then m !! k' else bucket_of l k'.
Proof.
  intros Hlen. unfold bucket_of. cbn [l_shards]. destruct (decide (k' = k)) as [->|Hne].
  - rewrite list_lookup_insert_eq by (rewrite Hlen; apply shard_of_key_bound). simpl. apply lookup_insert_eq.
  - case_decide as Es; [|by rewrite list_lookup_insert_ne].
    rewrite Es, list_lookup_insert_eq by (rewrite Hlen; apply shard_of_key_bound). simpl.
    by rewrite lookup_insert_ne.
Qed.

(** Whether the shard of [k] is full. *)
Definition shard_full (l : Limiter) (k : Z) : Prop :=
  4096 <= Z.of_nat (size (default (∅ : gmap Z bucket) (l_shards l !! Z.to_nat (Z.land k 63)))).

#[local] Instance shard_full_dec (l : Limiter) (k : Z) : Decision (shard_full l k).
Proof. unfold shard_full. apply _. Defined.

(** * Properties *)

(** C38: the token bucket. A limiter whose rate is not positive admits
    everything and stays as it is. Otherwise a request at time [now] first makes
    a full shard (4096 clients) forget every client idle for more than a minute
    ([forgotten]), and only those; the client's bucket, a full one when it has
    none left, gains [rate] tokens per elapsed second and is cut to [burst]; the
    request is admitted exactly when it then holds the cost, and the cost is
    taken only then. Every other client not forgotten keeps its bucket. *)
Theorem Allow_spec (now : Z) (ip : bytes) (cost : float64) (l : Limiter)
  (Hlen : length (l_shards l) = rl_shards) :
  let '(ok, l') := Allow now ip cost l in
  let forgotten k b :=
    Z.land k 63 = Z.land (ipKey ip) 63 /\ shard_full l k /\ 60000 < int64 (now - lastMs b) in
  if f64_le (l_rate l) (f64_of_Z 0) then ok = true /\ l' = l
  else exists b t,
    match bucket_of l (ipKey ip) with
    | Some b0 => forgotten (ipKey ip) b0 /\ b = mkBucket (l_burst l) now \/ ~ forgotten (ipKey ip) b0 /\ b = b0
    | None => b = mkBucket (l_burst l) now
    end
    /\ (let refilled := f64_add (tokens b) (f64_mul (f64_div (f64_of_Z (int64 (now - lastMs b))) (f64_of_Z 1000)) (l_rate l)) in
        f64_lt (l_burst l) refilled = true /\ t = l_burst l
        \/ f64_lt (l_burst l) refilled = false /\ t = refilled)
    /\ ok = f64_le cost t
    /\ bucket_of l' (ipKey ip) = Some (mkBucket (if ok then f64_sub t cost else t) now)
    /\ (forall k, k <> ipKey ip ->
          match bucket_of l k with
          | Some b0 => forgotten k b0 /\ bucket_of l' k = None \/ ~ forgotten k b0 /\ bucket_of l' k = Some b0
          | None => bucket_of l' k = None
          end)
    /\ l_rate l' = l_rate l /\ l_burst l' = l_burst l /\ length (l_shards l') = rl_shards.
Proof.
  destruct (f64_le (l_rate l) (f64_of_Z 0)) eqn:He; [unfold Allow; by rewrite He|].
  rewrite Allow_enabled by done. cbv zeta.
  set (k := ipKey ip). set (m := sweep now _).
  exists (default (mkBucket (l_burst l) now) (m !! k)). set (b := default _ _).
  set (t := refill _ _ now b). exists t.
  assert (forall k', shard_of_key k' = shard_of_key k ->
    m !! k' = match bucket_of l k' with
              | Some b0 => if decide (shard_full l k' /\ 60000 < int64 (now - lastMs b0)) then None else Some b0
              | None => None end) as Hm.
  { intros k' Es. unfold m, bucket_of. rewrite sweep_lookup, <- Es.
    destruct (_ !! k') as [b0|]; [|done]. by apply decide_ext. }
  split_and!; try done.
  - unfold b. rewrite Hm by done. destruct (bucket_of l k) as [b0|]; [|done].
    case_decide; [left|right]; (split; [tauto|done]).
  - unfold t, refill. destruct (f64_lt _ _) eqn:E; [by left|by right].
  - by rewrite bucket_of_insert, decide_True.
  - intros k' Hne. rewrite bucket_of_insert, decide_False by done. cbv beta.
    pose proof (shard_of_key_eq k' k) as Ek. fold k. case_decide as Es.
    + rewrite Hm by done. destruct (bucket_of l k') as [b0|]; [|done].
      case_decide; [left|right]; (split; [tauto|done]).
    + destruct (bucket_of l k'); [right; split; [tauto|done]|done].
  - cbn [l_shards]. by rewrite length_insert.
Qed.

(** a request that costs more than the capacity is refused, whatever the
    client did before and however long it waits; with the default capacity (the
    rate), every bulk request of more URLs than that is. *)
Theorem Allow_over_burst (now : Z) (ip : bytes) (cost : float64) (l : Limiter)
  (He : enabled l) (Hc : f64_lt (l_burst l) cost = true) :
  (Allow now ip cost l).1 = false.
Proof.
  rewrite Allow_enabled by done. cbv zeta. cbn [fst].
  set (t := refill _ _ _ _). destruct (f64_le cost t) eqn:E; [exfalso|done].
  pose proof (f64_lt_le_trans _ _ _ Hc E) as Hx. unfold t in Hx. by rewrite refill_le in Hx.
Qed.

(** [maxKeys] does not bound a shard: a new client of a full shard all of
    whose clients were seen within the last minute is added all the same. *)
Theorem Allow_exceeds_maxKeys (now : Z) (ip : bytes) (cost : float64) (l : Limiter) (m : gmap Z bucket)
  (He : enabled l) (Hm : l_shards l !! shard_of_key (ipKey ip) = Some m)
  (Hfull : (maxKeys <= size m)%nat) (Hnew : m !! ipKey ip = None)
  (Hfresh : forall k b, m !! k = Some b -> int64 (now - lastMs b) <= idleMs) :
  exists m', l_shards (Allow now ip cost l).2 !! shard_of_key (ipKey ip) = Some m'
    /\ (maxKeys < size m')%nat.
Proof.
  rewrite Allow_enabled by done. cbv zeta. cbn [snd l_shards]. rewrite Hm. simpl.
  assert (sweep now m = m) as ->.
  { apply map_eq. intros k. rewrite sweep_lookup. destruct (m !! k) as [b|] eqn:Hb; [|done].
    specialize (Hfresh k b Hb). unfold idleMs in Hfresh. rewrite decide_False; [done|lia]. }
  eexists. split.
  - apply list_lookup_insert_eq. by eapply lookup_lt_Some.
  - rewrite map_size_insert_None by done. lia.
Qed.

(** * Witnesses *)

Definition demo_limiter : Limiter := New (f64_of_Z 1) (f64_of_Z 3).

(** The client of the example half a second after its first request: 2 tokens,
    half a token more, and one taken. *)
Definition used_limiter : Limiter := (Allow 5 (lit "1.2.3.4") (f64_of_Z 1) demo_limiter).2.

Lemma Allow_spec_witness :
  (Allow 505 (lit "1.2.3.4") (f64_of_Z 1) used_limiter).1 = true
  /\ bucket_of (Allow 505 (lit "1.2.3.4") (f64_of_Z 1) used_limiter).2 (ipKey (lit "1.2.3.4"))
     = Some (mkBucket (f64_div (f64_of_Z 3) (f64_of_Z 2)) 505)
  /\ bucket_of (Allow 505 (lit "1.2.3.4") (f64_of_Z 1) used_limiter).2 (ipKey (lit "5.6.7.8")) = None.
Proof.
  assert (length (l_shards used_limiter) = rl_shards) as Hlen by (vm_compute; reflexivity).
  pose proof (Allow_spec 505 (lit "1.2.3.4") (f64_of_Z 1) used_limiter Hlen) as P.
  destruct (Allow 505 (lit "1.2.3.4") (f64_of_Z 1) used_limiter) as [ok l']. cbv zeta in P.
  replace (f64_le (l_rate used_limiter) (f64_of_Z 0)) with false in P by (vm_compute; reflexivity).
  destruct P as (b & t & Hb & Ht & Hok & Hown & Ho & _). cbn [fst snd].
  replace (bucket_of used_limiter (ipKey (lit "1.2.3.4")))
    with (Some (mkBucket (f64_of_Z 2) 5)) in Hb by (vm_compute; reflexivity).
  destruct Hb as [[(_ & _ & Hi) _]|[_ ->]]; [vm_compute in Hi; discriminate Hi|].
  destruct Ht as [[Hx _]|[_ ->]]; [vm_compute in Hx; discriminate Hx|].
  assert (ok = true) as -> by (rewrite Hok; vm_compute; reflexivity). split; [reflexivity|]. split.
  - rewrite Hown. vm_compute. reflexivity.
  - specialize (Ho (ipKey (lit "5.6.7.8")) ltac:(vm_compute; discriminate)).
    replace (bucket_of used_limiter (ipKey (lit "5.6.7.8"))) with (@None bucket) in Ho by (vm_compute; reflexivity).
    exact Ho.
Defined.

Lemma Allow_over_burst_witness : (Allow 5 (lit "1.2.3.4") (f64_of_Z 4) demo_limiter).1 = false.
Proof. apply Allow_over_burst; vm_compute; reflexivity. Defined.

(** A shard with 4096 clients, all seen at time 0. *)
Definition full_shard : gmap Z bucket :=
  list_to_map (map (fun k => (k, mkBucket (f64_of_Z 0) 0)) (seqZ 0 4096)).

Definition full_limiter : Limiter :=
  mkLimiter (replicate rl_shards full_shard) (f64_of_Z 1) (f64_of_Z 3).

Lemma full_shard_size : size full_shard = 4096%nat.
Proof. vm_compute. reflexivity. Qed.

Lemma full_shard_fresh (k : Z) (b : bucket) : full_shard !! k = Some b -> lastMs b = 0 /\ 0 <= k < 4096.
Proof.
  intros Hb. apply elem_of_list_to_map_2, list_elem_of_fmap in Hb as (k' & [= -> ->] & Hk).
  apply elem_of_seqZ in Hk. split; [done|lia].
Qed.

Lemma Allow_exceeds_maxKeys_witness :
  exists m', l_shards (Allow 5 (lit "1.2.3.4") (f64_of_Z 1) full_limiter).2
               !! shard_of_key (ipKey (lit "1.2.3.4")) = Some m'
    /\ (maxKeys < size m')%nat.
Proof.
  apply (Allow_exceeds_maxKeys 5 (lit "1.2.3.4") (f64_of_Z 1) full_limiter full_shard).
  - vm_compute. reflexivity.
  - apply lookup_replicate_2, shard_of_key_bound.
  - rewrite full_shard_size. vm_compute. lia.
  - destruct (full_shard !! ipKey (lit "1.2.3.4")) as [b|] eqn:E; [exfalso|reflexivity].
    apply full_shard_fresh in E as [_ E]. vm_compute in E. destruct E as [_ E]. discriminate E.
  - intros k b Hb. apply full_shard_fresh in Hb as [-> _]. vm_compute. discriminate.
Defined.
