(* ===== verification/Metrics.v ===== *)
(** * Metrics: the counters of [internal/metrics/metrics.go]

    The per-second ring buffer and the totals, as one record of the package's
    variables; each function is one step on it. [UnixMilli] readings are
    arguments; the shortest decimal form of a double ([AppendFloat] with format
    'f' and precision -1) is a parameter of the rendering. *)

From S2P Require Import Prelude GoStd Float.
From stdpp Require Import options.

Definition N : Z := 60.

Record Metrics := mkMetrics {
  buckets : list Z;
  cur : Z;
  total : Z;
  started : Z;
  opCounts : list Z;
  statusCounts : list Z;  (* 2xx 3xx 4xx 5xx *)
  cacheHit : Z;
  cacheMiss : Z;
  storeReads : Z;
  storeReadUS : Z;
  storeWrites : Z;
  linksTotal : Z
}.

Definition Ops : list bytes := Eval vm_compute in
  map lit ["redirect"; "shorten"; "shorten_bulk"; "update"; "delete"; "list";
           "stats"; "health"; "metrics"; "ui"; "other"]%string.

(** The package at [started] ms. *)
Definition init (start : Z) : Metrics :=
  mkMetrics (replicate 60 0) (Z.quot start 1000) 0 start (replicate 11 0) (replicate 4 0) 0 0 0 0 0 0.

(** An atomic [Add(1)] on an element of an array; the index is in range. *)
Definition incr (i : nat) (l : list Z) : list Z := alter (fun v => int64 (v + 1)) i l.

Definition Op (i : nat) (m : Metrics) : Metrics :=
  mkMetrics (buckets m) (cur m) (total m) (started m) (incr i (opCounts m)) (statusCounts m)
    (cacheHit m) (cacheMiss m) (storeReads m) (storeReadUS m) (storeWrites m) (linksTotal m).

Definition CacheHit (m : Metrics) : Metrics :=
  mkMetrics (buckets m) (cur m) (total m) (started m) (opCounts m) (statusCounts m)
    (int64 (cacheHit m + 1)) (cacheMiss m) (storeReads m) (storeReadUS m) (storeWrites m) (linksTotal m).

Definition CacheMiss (m : Metrics) : Metrics :=
  mkMetrics (buckets m) (cur m) (total m) (started m) (opCounts m) (statusCounts m)
    (cacheHit m) (int64 (cacheMiss m + 1)) (storeReads m) (storeReadUS m) (storeWrites m) (linksTotal m).

Definition StoreRead (us : Z) (m : Metrics) : Metrics :=
  mkMetrics (buckets m) (cur m) (total m) (started m) (opCounts m) (statusCounts m)
    (cacheHit m) (cacheMiss m) (int64 (storeReads m + 1)) (int64 (storeReadUS m + us)) (storeWrites m)
    (linksTotal m).

Definition StoreWrite (m : Metrics) : Metrics :=
  mkMetrics (buckets m) (cur m) (total m) (started m) (opCounts m) (statusCounts m)
    (cacheHit m) (cacheMiss m) (storeReads m) (storeReadUS m) (int64 (storeWrites m + 1)) (linksTotal m).

Definition LinksDelta (n : Z) (m : Metrics) : Metrics :=
  mkMetrics (buckets m) (cur m) (total m) (started m) (opCounts m) (statusCounts m)
    (cacheHit m) (cacheMiss m) (storeReads m) (storeReadUS m) (storeWrites m) (int64 (linksTotal m + n)).

Definition status_class (code : Z) : nat :=
  if (200 <=? code) && (code <? 300) then 0
  else if (300 <=? code) && (code <? 400) then 1
  else if (400 <=? code) && (code <? 500) then 2
  else 3.

Definition Status (code : Z) (m : Metrics) : Metrics :=
  mkMetrics (buckets m) (cur m) (total m) (started m) (opCounts m) (incr (status_class code) (statusCounts m))
    (cacheHit m) (cacheMiss m) (storeReads m) (storeReadUS m) (storeWrites m) (linksTotal m).

(** ** The ring *)

(** [buckets[t%N]]: a negative index panics. *)
Definition slot (t : Z) : go nat :=
  if Z.rem t N <? 0 then Panic else Ret (Z.to_nat (Z.rem t N)).

(** [for t := c + 1; t <= s; t++ { buckets[t%N].Store(0) }], [n] rounds. *)
Fixpoint clear_loop (n : nat) (t : Z) (bs : list Z) : go (list Z) :=
  match n with
  | O => Ret bs
  | S n' => let* i := slot t in clear_loop n' (t + 1) (<[i := 0]> bs)
  end.

Definition Tick (now : Z) (m : Metrics) : go Metrics :=
  let s := Z.quot now 1000 in
  let c := cur m in
  let* bs := (if s =? c then Ret (buckets m) else clear_loop (Z.to_nat (s - c)) (c + 1) (buckets m)) in
  let* i := slot s in
  Ret (mkMetrics (incr i bs) s (int64 (total m + 1)) (started m) (opCounts m) (statusCounts m)
         (cacheHit m) (cacheMiss m) (storeReads m) (storeReadUS m) (storeWrites m) (linksTotal m)).

(** One element of [Snapshot]'s window. *)
Definition window_at (s : Z) (m : Metrics) (i : nat) : go Z :=
  let t := s - 30 + Z.of_nat i in
  if (t <=? cur m) && (cur m - t <? N)
  then let* k := slot t in Ret (default 0 (buckets m !! k))
  else Ret 0.

Fixpoint go_map {A B : Type} (f : A -> go B) (l : list A) : go (list B) :=
  match l with
  | [] => Ret []
  | x :: l' => let* y := f x in let* ys := go_map f l' in Ret (y :: ys)
  end.

Definition window (now : Z) (m : Metrics) : go (list Z) :=
  go_map (window_at (Z.quot now 1000) m) (seq 0 31).

Definition sum_Z (l : list Z) : Z := foldl (fun a v => int64 (a + v)) 0 l.

Definition j_req_s : bytes := Eval vm_compute in lit "{'req_s':".
Definition j_total : bytes := Eval vm_compute in lit ",'total':".
Definition j_uptime : bytes := Eval vm_compute in lit ",'uptime_s':".
Definition j_per_second : bytes := Eval vm_compute in lit ",'per_second':[".

(** The values of a JSON array, comma-separated. *)
Fixpoint commas (l : list bytes) : bytes :=
  match l with
  | [] => []
  | [x] => x
  | x :: l' => x ++ [x2c] ++ commas l'
  end.

Section Render.
Context (AppendFloat : float64 -> bytes).

(** [Snapshot] with its two clock readings. *)
Definition Snapshot (now1 now2 : Z) (m : Metrics) : go bytes :=
  let* w := window now1 m in
  let last5 := sum_Z (take 5 (drop 25 w)) in
  let reqS := f64_div (f64_of_Z last5) (f64_of_Z 5) in
  let tenths := f64_trunc (f64_add (f64_mul reqS (f64_of_Z 10)) (f64_div (f64_of_Z 1) (f64_of_Z 2))) in
  Ret (j_req_s ++ AppendFloat (f64_div (f64_of_Z tenths) (f64_of_Z 10))
       ++ j_total ++ itoa (total m)
       ++ j_uptime ++ itoa (Z.quot (int64 (now2 - started m)) 1000)
       ++ j_per_second ++ commas (map itoa w) ++ [x5d; x7d]).

End Render.

(** ** The text exposition *)

Definition pline (m labels : bytes) (v : Z) : bytes :=
  m ++ (if bool_decide (labels = []) then [] else [x7b] ++ labels ++ [x7d]) ++ [x20] ++ itoa v ++ [x0a].

Definition help (name text kind : bytes) : bytes :=
  lit "# HELP " ++ name ++ [x20] ++ text ++ [x0a] ++ lit "# TYPE " ++ name ++ [x20] ++ kind ++ [x0a].

Definition label (key value : bytes) : bytes := key ++ [x3d; x22] ++ value ++ [x22].

Definition Prometheus (rateLimited now : Z) (m : Metrics) : bytes :=
  help (lit "shrt_requests_total") (lit "Requests by operation") (lit "counter")
  ++ concat (map (fun '(name, v) => pline (lit "shrt_requests_total") (label (lit "op") name) v)
       (zip Ops (opCounts m)))
  ++ help (lit "shrt_responses_total") (lit "Responses by status class") (lit "counter")
  ++ concat (map (fun '(cls, v) => pline (lit "shrt_responses_total") (label (lit "class") cls) v)
       (zip [lit "2xx"; lit "3xx"; lit "4xx"; lit "5xx"] (statusCounts m)))
  ++ help (lit "shrt_cache_lookups_total") (lit "Local hot-cache lookups") (lit "counter")
  ++ pline (lit "shrt_cache_lookups_total") (label (lit "result") (lit "hit")) (cacheHit m)
  ++ pline (lit "shrt_cache_lookups_total") (label (lit "result") (lit "miss")) (cacheMiss m)
  ++ help (lit "shrt_store_reads_total") (lit "Backing-store point reads (cache misses)") (lit "counter")
  ++ pline (lit "shrt_store_reads_total") [] (storeReads m)
  ++ help (lit "shrt_store_read_us_total") (lit "Cumulative backing-store read latency (us)") (lit "counter")
  ++ pline (lit "shrt_store_read_us_total") [] (storeReadUS m)
  ++ help (lit "shrt_store_writes_total") (lit "Backing-store writes") (lit "counter")
  ++ pline (lit "shrt_store_writes_total") [] (storeWrites m)
  ++ help (lit "shrt_rate_limited_total") (lit "Requests rejected by the rate limiter") (lit "counter")
  ++ pline (lit "shrt_rate_limited_total") [] (int64 rateLimited)
  ++ help (lit "shrt_links_total") (lit "Live links created minus deleted") (lit "gauge")
  ++ pline (lit "shrt_links_total") [] (linksTotal m)
  ++ help (lit "shrt_uptime_seconds") (lit "Process uptime") (lit "gauge")
  ++ pline (lit "shrt_uptime_seconds") [] (Z.quot (int64 (now - started m)) 1000)
  ++ [x0a].

(** * Lemmas *)

(** The number of ticks logged in second [t]. *)
Definition ticks_in (log : list Z) (t : Z) : Z := Z.of_nat (length (filter (fun u => u = t) log)).

(** The ring holds the counts of the last 60 seconds. *)
Record tracks (m : Metrics) (log : list Z) : Prop := {
  tr_len : length (buckets m) = 60%nat;
  tr_cur : 0 <= cur m;
  tr_log : Forall (fun u => u <= cur m) log;
  tr_ring : forall t, 0 <= t -> cur m - N < t <= cur m ->
    buckets m !! Z.to_nat (t mod N) = Some (int64 (ticks_in log t))
}.

Lemma slot_pos (t : Z) : 0 <= t -> slot t = Ret (Z.to_nat (t mod N)).
Proof.
  intros Ht. unfold slot. rewrite Z.rem_mod_nonneg by (unfold N; lia).
  pose proof (Z.mod_pos_bound t N ltac:(unfold N; lia)). by destruct (Z.ltb_spec (t mod N) 0); [lia|].
Qed.

Lemma slot_bound (t : Z) : (Z.to_nat (t mod N) < 60)%nat.
Proof. pose proof (Z.mod_pos_bound t N ltac:(unfold N; lia)). unfold N in *. lia. Qed.

Lemma mod_close (t u : Z) : t mod N = u mod N -> - N < t - u < N -> t = u.
Proof.
  unfold N. intros E Hd. pose proof (Z.div_mod t 60 ltac:(lia)). pose proof (Z.div_mod u 60 ltac:(lia)). lia.
Qed.

(** Clearing [n] seconds from [t] on zeroes their slots and no others. *)
Lemma clear_loop_spec (n : nat) (t : Z) (bs : list Z) :
  0 <= t -> length bs = 60%nat ->
  exists bs', clear_loop n t bs = Ret bs' /\ length bs' = 60%nat
    /\ (forall u, t <= u < t + Z.of_nat n -> bs' !! Z.to_nat (u mod N) = Some 0)
    /\ (forall i, (forall u, t <= u < t + Z.of_nat n -> Z.to_nat (u mod N) <> i) -> bs' !! i = bs !! i).
Proof.
  revert t bs. induction n as [|n IH]; intros t bs Ht Hl.
  - exists bs. split_and!; [done|done|lia|done].
  - cbn [clear_loop]. rewrite slot_pos by done. cbn [go_bind]. set (k := Z.to_nat (t mod N)).
    destruct (IH (t + 1) (<[k := 0]> bs)) as (bs' & E & Hl' & Hin & Hout); [lia|by rewrite length_insert|].
    exists bs'. split_and!; [done|done| |].
    + intros u Hu.
      destruct (decide (Exists (fun v => Z.to_nat (v mod N) = Z.to_nat (u mod N)) (seqZ (t + 1) (Z.of_nat n))))
        as [Hex|Hno].
      * apply Exists_exists in Hex as (v & Hv & Ev). apply elem_of_seqZ in Hv. rewrite <- Ev. by apply Hin.
      * assert (forall v, t + 1 <= v < t + 1 + Z.of_nat n -> Z.to_nat (v mod N) <> Z.to_nat (u mod N)) as Hno'.
        { intros v Hv Ev. apply Hno, Exists_exists. exists v. split; [by apply elem_of_seqZ|done]. }
        assert (u = t) as -> by (destruct (decide (u = t)); [done|]; exfalso; apply (Hno' u); [lia|done]).
        rewrite Hout by done. apply list_lookup_insert_eq. rewrite Hl. apply slot_bound.
    + intros i Hi. rewrite Hout by (intros u Hu; apply Hi; lia). apply list_lookup_insert_ne. apply Hi. lia.
Qed.

Lemma ticks_in_snoc (log : list Z) (s t : Z) :
  ticks_in (log ++ [s]) t = ticks_in log t + (if decide (s = t) then 1 else 0).
Proof.
  unfold ticks_in. rewrite filter_app, length_app, filter_cons, filter_nil. case_decide; simpl; lia.
Qed.

Lemma ticks_in_future (log : list Z) (c t : Z) : Forall (fun u => u <= c) log -> c < t -> ticks_in log t = 0.
Proof.
  intros Hf Ht. unfold ticks_in. induction Hf as [|u log Hu Hf IH]; [done|].
  rewrite filter_cons, decide_False by lia. done.
Qed.

(** One tick, not before the last one. *)
Lemma Tick_tracks (now : Z) (m : Metrics) (log : list Z) :
  tracks m log -> cur m <= Z.quot now 1000 ->
  exists m', Tick now m = Ret m' /\ tracks m' (log ++ [Z.quot now 1000]) /\ cur m' = Z.quot now 1000
    /\ total m' = int64 (total m + 1).
Proof.
  intros [Hl Hc Hlog Hr] Hs. unfold Tick. set (s := Z.quot now 1000) in *.
  assert (exists bs, (if s =? cur m then Ret (buckets m)
                      else clear_loop (Z.to_nat (s - cur m)) (cur m + 1) (buckets m)) = Ret bs
    /\ length bs = 60%nat
    /\ forall t, 0 <= t -> s - N < t <= s -> bs !! Z.to_nat (t mod N) = Some (int64 (ticks_in log t)))
    as (bs & -> & Hbl & Hb).
  { destruct (Z.eqb_spec s (cur m)) as [E|Hne]; [exists (buckets m); by rewrite E|].
    destruct (clear_loop_spec (Z.to_nat (s - cur m)) (cur m + 1) (buckets m)) as (bs & E & Hbl & Hin & Hout);
      [lia|done|]. exists bs. split; [done|]. split; [done|]. intros t Ht Hw.
    destruct (decide (cur m < t)).
    - rewrite Hin by lia. by rewrite (ticks_in_future log (cur m)).
    - rewrite Hout; [apply Hr; [done|lia]|]. intros u Hu E'.
      assert (u mod N = t mod N) as E2.
      { pose proof (Z.mod_pos_bound u N ltac:(unfold N; lia)).
        pose proof (Z.mod_pos_bound t N ltac:(unfold N; lia)). lia. }
      apply mod_close in E2; unfold N in *; lia. }
  cbn [go_bind]. rewrite slot_pos by lia. cbn [go_bind]. eexists. split; [done|]. split; [|done].
  split; cbn [buckets cur].
  - unfold incr. by rewrite length_alter.
  - lia.
  - apply Forall_app. split; [eapply Forall_impl; [exact Hlog|]; simpl; lia|].
    apply Forall_singleton. lia.
  - intros t Ht Hw. unfold incr. rewrite ticks_in_snoc. case_decide as Es.
    + subst t. rewrite list_lookup_alter_eq, Hb by lia. simpl. by rewrite int64_add_l.
    + rewrite list_lookup_alter_ne; [rewrite Z.add_0_r; by apply Hb|]. intros E'. apply Es.
      assert (s mod N = t mod N) as E2.
      { pose proof (Z.mod_pos_bound s N ltac:(unfold N; lia)).
        pose proof (Z.mod_pos_bound t N ltac:(unfold N; lia)). lia. }
      apply mod_close in E2; [done|]. unfold N in *. lia.
Qed.

Lemma init_tracks (start : Z) : 0 <= start -> tracks (init start) [].
Proof.
  intros Hs. split; [done|cbn [cur init]; by apply Z.quot_pos|apply Forall_nil_2|].
  intros t Ht Hw. cbn [buckets init]. apply lookup_replicate_2, slot_bound.
Qed.

(** The clock's second never goes back along [nows], starting from [c]. *)
Fixpoint in_order (c : Z) (nows : list Z) : Prop :=
  match nows with
  | [] => True
  | n :: nows' => c <= Z.quot n 1000 /\ in_order (Z.quot n 1000) nows'
  end.

Definition seconds (nows : list Z) : list Z := map (fun n => Z.quot n 1000) nows.

Lemma Ticks_track (nows : list Z) (now : Z) (m : Metrics) (log : list Z) :
  tracks m log -> is_int64 (total m) -> in_order (cur m) (nows ++ [now]) ->
  exists m', go_fold Tick nows m = Ret m' /\ tracks m' (log ++ seconds nows)
    /\ cur m <= cur m' <= Z.quot now 1000 /\ total m' = int64 (total m + Z.of_nat (length nows)).
Proof.
  revert m log. induction nows as [|n nows IH]; intros m log Ht Hi Ho.
  - exists m. destruct Ho as [Ho _]. rewrite app_nil_r, Z.add_0_r, int64_id by done. split_and!; [done|done|lia|done|done].
  - destruct Ho as [Hn Ho]. destruct (Tick_tracks n m log Ht Hn) as (m1 & E1 & T1 & C1 & N1).
    destruct (IH m1 (log ++ [Z.quot n 1000]) T1) as (m2 & E2 & T2 & C2 & N2).
    + rewrite N1. apply int64_range.
    + by rewrite C1.
    + exists m2. cbn [go_fold]. rewrite E1. split; [exact E2|]. rewrite <- app_assoc in T2. split; [done|].
      split; [lia|]. rewrite N2, N1, int64_add_l. f_equal. simpl. lia.
Qed.

Lemma go_map_ret {A B : Type} (f : A -> go B) (g : A -> B) (l : list A) :
  (forall x, x ∈ l -> f x = Ret (g x)) -> go_map f l = Ret (map g l).
Proof.
  induction l as [|x l IH]; intros Hf; [done|]. simpl. rewrite Hf by (by left). cbn [go_bind].
  rewrite IH; [done|]. intros y Hy. apply Hf. by right.
Qed.

Lemma window_at_tracks (s : Z) (m : Metrics) (log : list Z) (i : nat) :
  tracks m log -> 30 <= s -> cur m <= s -> (i < 31)%nat ->
  window_at s m i = Ret (int64 (ticks_in log (s - 30 + Z.of_nat i))).
Proof.
  intros [Hl Hc Hlog Hr] Hs Hcs Hi. unfold window_at. set (t := s - 30 + Z.of_nat i).
  assert (0 <= t) as Ht by lia.
  destruct (Z.leb_spec t (cur m)) as [Hle|Hgt]; cbn [andb].
  - destruct (Z.ltb_spec (cur m - t) N) as [Hn|Hn]; [|unfold N in *; lia].
    rewrite slot_pos by done. cbn [go_bind]. by rewrite Hr by lia.
  - by rewrite (ticks_in_future log (cur m)).
Qed.

(** * Properties *)


(** * Witness *)

