(* ===== verification/Api.v ===== *)
(** * Api: the store interface of the HTTP layer

    [StoreAPI] is [store.API], over any state; [engine] is its instance for the in-process
    engine, the state being the store and its directory. The operations that
    count in the package [metrics] take and return its variables. An [Env]
    holds what a request draws from outside: its clock readings and random
    bytes. *)

From S2P Require Import Prelude GoStd LogLine Aof Store Float Metrics.
From stdpp Require Import options.

Record Env := mkEnv {
  n_tick : Z;   (* metrics.Tick *)
  n_snap : Z;   (* metrics.Snapshot, the window *)
  n_up : Z;     (* metrics, the uptime *)
  n_rl : Z;     (* ratelimit.Allow *)
  n_st : Z;     (* nowMs in the store operation *)
  n_p1 : Z;     (* nowMs in lazyPoll; the second reading of another backend *)
  n_p2 : Z;     (* nowMs in PollTails; the third reading of another backend *)
  n_retry : nat -> Z;  (* nowMs in the n-th retry of a batch *)
  n_us : Z;     (* the duration StoreRead is given, in us *)
  rnd : bytes;          (* the buffer of ShortenMany *)
  rnds : list bytes     (* randSuffix buffers *)
}.

Class StoreAPI (St : Type) := {
  api_Shorten : Env -> bytes -> bytes -> bool -> Z -> Metrics -> St -> go (bytes * Metrics * St);
  api_ShortenMany : Env -> list bytes -> Z -> Metrics -> St -> go (list bytes * Metrics * St);
  api_Resolve : Env -> bytes -> Metrics -> St -> go (option bytes * Metrics * St);
  api_Update : Env -> bytes -> bytes -> Z -> bool -> St -> go (MutResult * St);
  api_Remove : Env -> bytes -> St -> go (MutResult * St);
  api_List : Env -> Z -> Z -> bytes -> bytes -> St -> go (list Link * Z * St);
  api_Stats : Env -> bytes -> St -> go (option Link * St);
  api_Seed : Env -> list bytes -> Metrics -> St -> go (Z * Metrics * St);
  api_IsEmpty : Env -> St -> go (bool * St);
  api_Healthy : Env -> St -> go (bool * St);
  api_Flush : Env -> St -> go St;
  api_PollTails : Env -> St -> go St;
  api_Compact : Env -> St -> go St;
  api_Close : Env -> St -> go St
}.

Section Engine.
Context `{MapOrder} `{SliceSort} (trackHits : bool).

#[export] Instance engine : StoreAPI (Store * Disk) := {
  api_Shorten ev url alias hasAlias ttlMs met sd :=
    let* (code, s, d) := Shorten url alias hasAlias ttlMs (n_st ev) (rnds ev) sd.1 sd.2 in
    Ret (code, met, (s, d));
  api_ShortenMany ev urls ttlMs met sd :=
    let* (codes, s, d) := ShortenMany urls ttlMs (n_st ev) (rnd ev) (rnds ev) sd.1 sd.2 in
    Ret (codes, met, (s, d));
  api_Resolve ev code met sd :=
    let* (r, s) := Resolve trackHits code (n_p1 ev) (n_p2 ev) (n_st ev) sd.2 sd.1 in
    Ret (r, met, (s, sd.2));
  api_Update ev code url ttlMs hasTTL sd :=
    let '(r, s) := Update code url ttlMs hasTTL (n_st ev) sd.1 in Ret (r, (s, sd.2));
  api_Remove ev code sd := let '(r, s) := Remove code sd.1 in Ret (r, (s, sd.2));
  api_List ev limit offset sortBy q sd :=
    let* (links, n) := List limit offset sortBy q sd.1 in Ret (links, n, sd);
  api_Stats ev code sd := Ret (Stats code sd.1, sd);
  api_Seed ev urls met sd :=
    let* (n, s, d) := Seed urls (n_st ev) (rnd ev) (rnds ev) sd.1 sd.2 in Ret (n, met, (s, d));
  api_IsEmpty ev sd := Ret (IsEmpty sd.1, sd);
  api_Healthy ev sd := Ret (Healthy sd.1, sd);
  api_Flush ev sd := Ret (Flush sd.1 sd.2);
  api_PollTails ev sd := let* s := PollTails (n_p2 ev) sd.2 sd.1 in Ret (s, sd.2);
  api_Compact ev sd := Ret (Compact sd.1 sd.2);
  api_Close ev sd := Ret (Close sd.1 sd.2)
}.

End Engine.
