(* ===== verification/Query.v ===== *)
(** * Query: [url.ParseQuery] as [GET /api/links] uses it

    The standard library's query parser, for queries below its limit of 10000
    parameters: pairs are separated by [&], a pair with a semicolon or a
    malformed escape is skipped, [+] is a space. *)

From S2P Require Import Prelude GoStd.
From stdpp Require Import options.

(** [QueryUnescape]; [None] is its error. *)
Fixpoint QueryUnescape (s : bytes) : option bytes :=
  match s with
  | [] => Some []
  | c :: s' =>
      if c =b x25 then
        match s' with
        | h :: l :: s'' =>
            match digit_val h, digit_val l with
            | Some a, Some b =>
                if (a <? 16) && (b <? 16) then cons (bofZ (16 * a + b)) <$> QueryUnescape s'' else None
            | _, _ => None
            end
        | _ => None
        end
      else if c =b x2b then cons x20 <$> QueryUnescape s'
      else cons c <$> QueryUnescape s'
  end.

(** The segments between separators. *)
Fixpoint split_byte (sep : byte) (s : bytes) : list bytes :=
  match s with
  | [] => [[]]
  | c :: s' =>
      match split_byte sep s' with
      | seg :: segs => if c =b sep then [] :: seg :: segs else (c :: seg) :: segs
      | [] => [[c]]
      end
  end.

Definition parse_pair (seg : bytes) : option (bytes * bytes) :=
  if Contains seg [x3b] then None
  else if bool_decide (seg = []) then None
  else
    let '(k, v) := match cut_byte x3d seg with Some kv => kv | None => (seg, []) end in
    match QueryUnescape k, QueryUnescape v with
    | Some k', Some v' => Some (k', v')
    | _, _ => None
    end.

Definition ParseQuery (q : bytes) : list (bytes * bytes) := omap parse_pair (split_byte x26 q).

(** [Values.Get]: the first value of the key, or the empty string. *)
Definition Get (vs : list (bytes * bytes)) (key : bytes) : bytes :=
  match list_find (fun kv => kv.1 = key) vs with Some (_, (_, v)) => v | None => [] end.

Example query_pairs :
  let p := ParseQuery (lit "limit=10&q=a%2fb+c&bad=%zz&limit=20&x;y=1&sort") in
  (Get p (lit "limit"), Get p (lit "q"), Get p (lit "bad"), Get p (lit "sort"))
  = (lit "10", lit "a/b c", [], []).
Proof. vm_compute. reflexivity. Qed.
