(* ===== verification/App.v ===== *)
(** * App: the request handler of [internal/app/app.go]

    Validation, the two POST bodies, routing and the reply, over any store
    that offers [StoreAPI], with the counters and the rate limiter it drives.
    Third-party code is a parameter: sonic's JSON decoding and encoding;
    so are [url.Parse] (its scheme and host), the printing of a double and the
    conversion to int64 of a double out of its range, which the language leaves
    to the implementation. *)

From S2P Require Import Prelude GoStd Float Store RateLimit Metrics Query Api.
From stdpp Require Import options.

Definition MaxBody : Z := 4096.
Definition MaxBulkBody : Z := Z.shiftl 1 20.
Definition MaxBulkURLs : Z := 10000.
Definition MaxListLimit : Z := 1000.

(** The environment variables and files the package reads once. *)
Record Conf := mkConf {
  LinkTTLMS : Z;
  ADMIN_TOKEN : bytes;     (* empty when unset *)
  UIHTML : option bytes    (* [None] when ui/index.html is absent *)
}.

Definition adminOk (cf : Conf) (token : bytes) : bool :=
  negb (bool_decide (ADMIN_TOKEN cf = [])) && bool_decide (token = ADMIN_TOKEN cf).

Record Reply := mkReply { r_Status : Z; Location : bytes; Body : bytes; CType : bytes }.

Definition reply (status : Z) (body : bytes) : Reply := mkReply status [] body [].

(** ** Validation *)

Definition in_range (lo hi c : byte) : bool := (bZ lo <=? bZ c) && (bZ c <=? bZ hi).

Definition alias_char (c : byte) : bool :=
  in_range x30 x39 c || in_range x61 x7a c || in_range x41 x5a c || (c =b x5f) || (c =b x2d).

Definition codeOK (s : bytes) : bool :=
  if (length s =? 0)%nat || (64 <? Z.of_nat (length s)) then false else forallb alias_char s.

Definition to_lower (c : byte) : byte := if in_range x41 x5a c then bofZ (bZ c + 32) else c.

(** [strings.EqualFold] on ASCII texts; the schemes [url.Parse] returns are
    letters, digits, [+], [-] and [.]. *)
Definition EqualFold (a b : bytes) : bool := bool_decide (map to_lower a = map to_lower b).

Definition bad_char (c : byte) : bool := (c =b x22) || (c =b x5c) || (c =b x0a) || (c =b x0d).

Definition okBulkURL (u : bytes) : bool :=
  (7 <? Z.of_nat (length u)) && (Z.of_nat (length u) <=? 2048)
  && (HasPrefix u (lit "http://") || HasPrefix u (lit "https://"))
  && negb (existsb bad_char u).

Definition bad (err : bytes) : Reply := reply 400 (lit "{'error':'" ++ err ++ lit "'}").
Definition notFound : Reply := reply 404 (lit "{'error':'not found'}").
Definition rateLimited : Reply := reply 429 (lit "{'error':'rate limited'}").
Definition remoteOwned : Reply := reply 409 (lit "{'error':'owned by another instance'}").

(** ** Request bodies; a nil pointer is [None] *)

Record shortenReq := mkShortenReq { s_URL : option bytes; s_Alias : option bytes; s_TTLMS : option float64 }.
Record patchReq := mkPatchReq { p_URL : option bytes; p_TTLMS : option float64 }.

(** Everything a request reads and writes. *)
Record World (St : Type) := mkWorld {
  w_st : St;
  w_met : Metrics;
  w_rl : Limiter;
  w_limited : Z  (* ratelimit.Limited *)
}.
Arguments mkWorld {St} _ _ _ _.
Arguments w_st {St} _.
Arguments w_met {St} _.
Arguments w_rl {St} _.
Arguments w_limited {St} _.

Section Handler.
Context {St : Type} `{StoreAPI St} (cf : Conf).
Context (url_Parse : bytes -> option (bytes * bytes))  (* scheme and host *)
        (sonic_shorten : bytes -> option shortenReq)
        (sonic_bulk : bytes -> option (list bytes))
        (sonic_patch : bytes -> option patchReq)
        (sonic_link : Link -> bytes)
        (sonic_links : list Link -> Z -> bytes)
        (AppendFloat : float64 -> bytes)
        (int64_oor : float64 -> Z).

Definition set_st (st : St) (w : World St) : World St := mkWorld st (w_met w) (w_rl w) (w_limited w).
Definition set_met (f : Metrics -> Metrics) (w : World St) : World St :=
  mkWorld (w_st w) (f (w_met w)) (w_rl w) (w_limited w).

Definition isValidURL (raw : bytes) : bool :=
  if (length raw =? 0)%nat || (2048 <? Z.of_nat (length raw)) then false
  else match url_Parse raw with
       | None => false
       | Some (scheme, host) =>
           if bool_decide (host = []) then false
           else EqualFold scheme (lit "http") || EqualFold scheme (lit "https")
       end.

(** The conversion [int64(x)]. *)
Definition int64_of_f64 (x : float64) : Z :=
  if f64_le (f64_of_Z (- 2 ^ 63)) x && f64_lt x (f64_of_Z (2 ^ 63)) then f64_trunc x
  else int64_oor x.

(** The lifetime [shortenOne] passes on. *)
Definition shorten_ttl (t : option float64) : option Z :=
  match t with
  | None => Some (LinkTTLMS cf)
  | Some x =>
      if f64_le x (f64_of_Z 0) then None
      else let ttl := int64_of_f64 x in Some (if LinkTTLMS cf <? ttl then LinkTTLMS cf else ttl)
  end.

Definition shorten_body (code : bytes) : bytes :=
  lit "{'code':'" ++ code ++ lit "','short_url':'/" ++ code ++ lit "'}".

Definition shortenOne (ev : Env) (p : shortenReq) (w : World St) : go (Reply * World St) :=
  match s_URL p with
  | Some u =>
      if negb (isValidURL u) then Ret (bad (lit "invalid url"), w)
      else if match s_Alias p with Some a => negb (codeOK a) | None => false end
      then Ret (bad (lit "invalid alias"), w)
      else
        match shorten_ttl (s_TTLMS p) with
        | None => Ret (bad (lit "invalid ttl_ms"), w)
        | Some ttl =>
            let* (code, met, st) := api_Shorten ev u (default [] (s_Alias p))
                                      (bool_decide (is_Some (s_Alias p))) ttl (w_met w) (w_st w) in
            let w := set_st st (set_met (fun _ => met) w) in
            if bool_decide (code = []) then Ret (reply 409 (lit "{'error':'alias taken'}"), w)
            else Ret (reply 201 (shorten_body code), set_met (LinksDelta 1) w)
        end
  | None => Ret (bad (lit "invalid url"), w)
  end.

Definition bad_urls : Reply := bad (lit "urls must be 1-" ++ itoa MaxBulkURLs ++ lit " valid http(s) urls").

Definition quoted (c : bytes) : bytes := [x22] ++ c ++ [x22].

Definition bulk_body (codes : list bytes) : bytes :=
  lit "{'count':" ++ itoa (Z.of_nat (length codes)) ++ lit ",'codes':[" ++ commas (map quoted codes) ++ lit "]}".

Definition shortenBulk (ev : Env) (urls : list bytes) (w : World St) : go (Reply * World St) :=
  if (length urls =? 0)%nat || (MaxBulkURLs <? Z.of_nat (length urls)) then Ret (bad_urls, w)
  else if negb (forallb okBulkURL urls) then Ret (bad_urls, w)
  else
    let* (codes, met, st) := api_ShortenMany ev urls (LinkTTLMS cf) (w_met w) (w_st w) in
    let w := set_st st (set_met (fun _ => met) w) in
    Ret (reply 201 (bulk_body codes), set_met (LinksDelta (Z.of_nat (length codes))) w).

(** ** Routing *)

Definition p_stats : bytes := Eval vm_compute in lit "/api/stats/".
Definition p_links : bytes := Eval vm_compute in lit "/api/links/".
Definition p_shorten : bytes := Eval vm_compute in lit "/api/shorten".
Definition p_bulk : bytes := Eval vm_compute in lit "/api/shorten/bulk".

(** The [limit] and [offset] of a listing. *)
Definition list_limit (v : bytes) : Z :=
  let limit := match ParseInt v with
               | (n, None) => if negb (bool_decide (v = [])) && negb (n =? 0) then n else 50
               | _ => 50
               end in
  let limit := if limit <? 1 then 1 else limit in
  if MaxListLimit <? limit then MaxListLimit else limit.

Definition list_offset (v : bytes) : Z :=
  match ParseInt v with
  | (n, None) => if negb (bool_decide (v = [])) && (0 <? n) then n else 0
  | _ => 0
  end.

Definition route_list (ev : Env) (query : bytes) (w : World St) : go (Reply * World St) :=
  let p := ParseQuery query in
  let sortBy := if bool_decide (Get p (lit "sort") = lit "hits") then lit "hits" else lit "created" in
  let* (links, total, st) := api_List ev (list_limit (Get p (lit "limit"))) (list_offset (Get p (lit "offset")))
                               sortBy (Get p (lit "q")) (w_st w) in
  Ret (reply 200 (sonic_links links total), set_st st w).

Definition route_get (ev : Env) (pathname query : bytes) (w : World St) : go (Reply * World St) :=
  if bool_decide (pathname = lit "/api/health") then
    let* (ok, st) := api_Healthy ev (w_st w) in
    let w := set_st st (set_met (Op 7) w) in
    Ret ((if (ok : bool) then reply 200 (lit "{'ok':true}") else reply 503 (lit "{'ok':false}")), w)
  else if bool_decide (pathname = lit "/api/metrics") then
    let w := set_met (Op 8) w in
    let* b := Snapshot AppendFloat (n_snap ev) (n_up ev) (w_met w) in Ret (reply 200 b, w)
  else if bool_decide (pathname = lit "/metrics") then
    let w := set_met (Op 8) w in
    Ret (mkReply 200 [] (Prometheus (w_limited w) (n_up ev) (w_met w)) (lit "text/plain; version=0.0.4"), w)
  else if bool_decide (pathname = lit "/") then
    let w := set_met (Op 9) w in
    match UIHTML cf with
    | None => Ret (notFound, w)
    | Some html => Ret (mkReply 200 [] html (lit "text/html; charset=utf-8"), w)
    end
  else if bool_decide (pathname = lit "/api/links") then route_list ev query (set_met (Op 5) w)
  else if HasPrefix pathname p_stats then
    let* (l, st) := api_Stats ev (drop (length p_stats) pathname) (w_st w) in
    let w := set_st st (set_met (Op 6) w) in
    match l with None => Ret (notFound, w) | Some l => Ret (reply 200 (sonic_link l), w) end
  else
    match pathname with
    | [] => Panic
    | _ :: code =>
        if codeOK code then
          let w := set_met (Op 0) w in
          let* (r, met, st) := api_Resolve ev code (w_met w) (w_st w) in
          let w := set_st st (set_met (fun _ => met) w) in
          match r with
          | Some target => Ret (mkReply 302 target [] [], w)
          | None => Ret (notFound, w)
          end
        else Ret (notFound, w)
    end.

(** [limiter().Allow(client, cost)], with what a refusal counts. *)
Definition guarded (ev : Env) (client : bytes) (cost : float64) (opn : nat) (w : World St)
    (k : World St -> go (Reply * World St)) : go (Reply * World St) :=
  let '(ok, l) := Allow (n_rl ev) client cost (w_rl w) in
  if ok then k (set_met (Op opn) (mkWorld (w_st w) (w_met w) l (w_limited w)))
  else Ret (rateLimited, set_met (Op 10) (mkWorld (w_st w) (w_met w) l (uint64 (w_limited w + 1)))).

Definition route_post (ev : Env) (pathname body client : bytes) (w : World St) : go (Reply * World St) :=
  if bool_decide (pathname = p_shorten) then
    match sonic_shorten body with
    | None => Ret (bad (lit "invalid json"), w)
    | Some p => guarded ev client (f64_of_Z 1) 1 w (shortenOne ev p)
    end
  else if bool_decide (pathname = p_bulk) then
    match sonic_bulk body with
    | None => Ret (bad (lit "invalid json"), w)
    | Some urls => guarded ev client (f64_of_Z (Z.of_nat (Nat.max (length urls) 1))) 2 w (shortenBulk ev urls)
    end
  else Ret (notFound, set_met (Op 10) w).

Definition mut_reply (ok : Reply) (r : MutResult) : Reply :=
  match r with MutOK => ok | MutMissing => notFound | MutRemote => remoteOwned end.

Definition route_delete (ev : Env) (code : bytes) (w : World St) : go (Reply * World St) :=
  let* (r, st) := api_Remove ev code (w_st w) in
  let w := set_st st (set_met (Op 4) w) in
  Ret (mut_reply (reply 204 []) r,
       match r with MutOK => set_met (LinksDelta (-1)) w | _ => w end).

Definition route_patch (ev : Env) (code body : bytes) (w : World St) : go (Reply * World St) :=
  match sonic_patch body with
  | None => Ret (bad (lit "invalid json"), w)
  | Some p =>
      match p_URL p with
      | None => Ret (bad (lit "nothing to update"), w)
      | Some u =>
          if negb (isValidURL u) then Ret (bad (lit "invalid url"), w)
          else
            let ttl := match p_TTLMS p with
                       | Some x => let t := int64_of_f64 x in if LinkTTLMS cf <? t then LinkTTLMS cf else t
                       | None => 0
                       end in
            let* (r, st) := api_Update ev code u ttl (bool_decide (is_Some (p_TTLMS p))) (w_st w) in
            Ret (mut_reply (reply 200 (lit "{'ok':true}")) r, set_st st (set_met (Op 3) w))
      end
  end.

Definition route (ev : Env) (method path body adminToken client : bytes) (w : World St)
    : go (Reply * World St) :=
  let '(pathname, query) := match cut_byte x3f path with Some pq => pq | None => (path, []) end in
  let* met := Tick (n_tick ev) (w_met w) in
  let w := set_met (fun _ => met) w in
  if bool_decide (method = lit "OPTIONS") then Ret (mkReply 204 [] [] [], w)
  else if bool_decide (method = lit "GET") then route_get ev pathname query w
  else if bool_decide (method = lit "POST") then route_post ev pathname body client w
  else if bool_decide (method = lit "PATCH") || bool_decide (method = lit "DELETE") then
    if negb (HasPrefix pathname p_links) || negb (adminOk cf adminToken) then Ret (notFound, w)
    else
      let code := drop (length p_links) pathname in
      if negb (codeOK code) then Ret (bad (lit "invalid code"), w)
      else if bool_decide (method = lit "DELETE") then route_delete ev code w
      else route_patch ev code body w
  else Ret (notFound, w).

Definition Handle (ev : Env) (method path body adminToken client : bytes) (w : World St)
    : go (Reply * World St) :=
  let* (r, w') := route ev method path body adminToken client w in
  Ret (r, set_met (Status (r_Status r)) w').

End Handler.
