(* ===== verification/AppSpec.v ===== *)
(** * AppSpec: the handler on the in-process engine

    What a request does to the store is at most one operation of [Session];
    so everything proved there holds of runs of HTTP requests. Then the
    contract of the endpoints: a created link redirects, mutations need the
    token, lifetimes are capped. *)

From S2P Require Import Prelude GoStd Float Base62 LogLine Aof Store StoreSpec StoreRead.
From S2P Require Import Replay Alone Queue Durable Restart Trace Session RateLimit Metrics.
From S2P Require Import Query Api App.
From stdpp Require Import options.

(** ** Codes *)

Lemma alias_char_safe (c : byte) : alias_char c = true -> code_char c = true.
Proof. by destruct c. Qed.

(** What the handler accepts as a code can be written to the log. *)
Lemma codeOK_ok (s : bytes) : codeOK s = true -> code_ok s.
Proof.
  unfold codeOK. destruct s as [|c s]; [done|]. cbn [length Nat.eqb orb].
  destruct (64 <? _); [done|]. intros Hs. split; [done|]. unfold code_safe.
  apply forallb_forall. intros x Hx. rewrite forallb_forall in Hs. by apply alias_char_safe, Hs.
Qed.

Section AppSpec.
Context `{MapOrder} `{SliceSort} (trackHits : bool) (cf : Conf).
Context (url_Parse : bytes -> option (bytes * bytes))
        (sonic_shorten : bytes -> option shortenReq)
        (sonic_bulk : bytes -> option (list bytes))
        (sonic_patch : bytes -> option patchReq)
        (sonic_link : Link -> bytes)
        (sonic_links : list Link -> Z -> bytes)
        (AppendFloat : float64 -> bytes)
        (int64_oor : float64 -> Z).

Local Existing Instance engine.

(** The handler on the engine. *)
Definition serve (ev : Env) (method path body adminToken client : bytes) (w : World (Store * Disk))
    : go (Reply * World (Store * Disk)) :=
  @Handle _ (engine trackHits) cf url_Parse sonic_shorten sonic_bulk sonic_patch sonic_link sonic_links
    AppendFloat int64_oor ev method path body adminToken client w.

(** The operations a request with this body can lead to. *)
Definition req_op (ev : Env) (body : bytes) (o : sop) : Prop :=
  match o with
  | OShorten _ alias hasAlias _ now rs => now = n_st ev /\ rs = rnds ev
      /\ (hasAlias = true -> codeOK alias = true /\ exists p, sonic_shorten body = Some p /\ s_Alias p = Some alias)
  | OShortenMany urls _ now r rs => now = n_st ev /\ r = rnd ev /\ rs = rnds ev /\ sonic_bulk body = Some urls
  | OResolve _ _ _ _ _ | OUpdate _ _ _ _ _ | ORemove _ => True
  | OFlush | OSync | OPoll _ | OCompact | OReopen => False
  end.

(** [w'] has the store of [w], or that after one operation of [Session]. *)
Definition one_step (ev : Env) (body : bytes) (mutates : bool) (w w' : World (Store * Disk)) : Prop :=
  w_st w' = w_st w \/ exists o, req_op ev body o /\ (keeps_rows o = false -> mutates = true)
    /\ sstep o (w_st w) = Ret (w_st w').

Lemma req_op_ok (ev : Env) (body : bytes) (o : sop) : is_int64 (n_st ev) -> req_op ev body o -> sop_ok o.
Proof.
  intros Hn. destruct o as [u a h t n rs|us t n r rs|? ? ? ? ?|? ? ? ? ?|?| | |?| |]; cbn; try done.
  - intros (-> & _ & Ha). split; [done|]. intros Hh. by apply codeOK_ok, Ha.
  - by intros (-> & _).
Qed.

Lemma shortenOne_step (b : bool) (ev : Env) (body : bytes) (p : shortenReq) (w w' : World (Store * Disk)) (r : Reply) :
  sonic_shorten body = Some p ->
  @shortenOne _ (engine trackHits) cf url_Parse int64_oor ev p w = Ret (r, w') -> one_step ev body b w w'.
Proof.
  intros Hp. unfold shortenOne. destruct (s_URL p) as [u|]; [|intros [= _ <-]; by left].
  destruct (negb _); [intros [= _ <-]; by left|].
  destruct (match s_Alias p with Some a => negb (codeOK a) | None => false end) eqn:Ea;
    [intros [= _ <-]; by left|].
  destruct (shorten_ttl _ _ _) as [ttl|]; [|intros [= _ <-]; by left].
  cbn [api_Shorten engine].
  destruct (Shorten _ _ _ _ _ _ _ _) as [[[code s'] d']| |] eqn:E; [|done|done]. cbn [go_bind].
  intros Hw. right.
  exists (OShorten u (default [] (s_Alias p)) (bool_decide (is_Some (s_Alias p))) ttl (n_st ev) (rnds ev)).
  split_and!.
  - split; [done|]. split; [done|]. destruct (s_Alias p) as [a|] eqn:Es; simpl in *; [|done]. intros _.
    split; [by destruct (codeOK a)|]. by exists p.
  - done.
  - rewrite (surjective_pairing (w_st w)). cbn [sstep]. rewrite E. cbn [go_bind].
    by destruct (bool_decide (code = [])); injection Hw as _ <-.
Qed.

Lemma shortenBulk_step (b : bool) (ev : Env) (body : bytes) (urls : list bytes) (w w' : World (Store * Disk)) (r : Reply) :
  sonic_bulk body = Some urls ->
  @shortenBulk _ (engine trackHits) cf ev urls w = Ret (r, w') -> one_step ev body b w w'.
Proof.
  intros Hn. unfold shortenBulk. destruct (_ || _); [intros [= _ <-]; by left|].
  destruct (negb _); [intros [= _ <-]; by left|]. cbn [api_ShortenMany engine].
  destruct (ShortenMany _ _ _ _ _ _ _) as [[[codes s'] d']| |] eqn:E; [|done|done]. cbn [go_bind].
  intros [= _ <-]. right. exists (OShortenMany urls (LinkTTLMS cf) (n_st ev) (rnd ev) (rnds ev)).
  split_and!; [done|done|]. rewrite (surjective_pairing (w_st w)). cbn [sstep]. by rewrite E.
Qed.

Lemma guarded_step (b : bool) (ev : Env) (body client : bytes) (cost : float64) (opn : nat)
    (k : World (Store * Disk) -> go (Reply * World (Store * Disk))) (w w' : World (Store * Disk)) (r : Reply) :
  (forall w1 r1, w_st w1 = w_st w -> k w1 = Ret (r1, w') -> one_step ev body b w1 w') ->
  guarded ev client cost opn w k = Ret (r, w') -> one_step ev body b w w'.
Proof.
  intros Hk. unfold guarded. destruct (Allow _ _ _ _) as [[|] l].
  - intros E. apply Hk in E; [exact E|done].
  - intros [= _ <-]. by left.
Qed.

Lemma route_get_step (b : bool) (ev : Env) (body pathname query : bytes) (w w' : World (Store * Disk)) (r : Reply) :
  @route_get _ (engine trackHits) cf sonic_link sonic_links AppendFloat ev pathname query w = Ret (r, w') ->
  one_step ev body b w w'.
Proof.
  unfold route_get. cbn [api_Healthy api_Stats api_Resolve engine].
  case_bool_decide; [cbn [go_bind]; intros [= _ <-]; left; by destruct (w_st w)|].
  case_bool_decide.
  { destruct (Snapshot _ _ _ _); cbn [go_bind]; [|done|done]. intros [= _ <-]. by left. }
  case_bool_decide; [intros [= _ <-]; by left|].
  case_bool_decide; [destruct (UIHTML cf); intros [= _ <-]; by left|].
  case_bool_decide.
  { unfold route_list. cbn [api_List engine].
    destruct (List _ _ _ _ _) as [[l n]| |]; cbn [go_bind]; [|done|done]. intros [= _ <-]. by left. }
  destruct (HasPrefix pathname p_stats).
  { cbn [go_bind]. destruct (Stats _ _); intros [= _ <-]; by left. }
  destruct pathname as [|c code]; [done|]. destruct (codeOK code); [|intros [= _ <-]; by left].
  cbn [w_st set_met].
  destruct (Resolve _ _ _ _ _ _ _) as [[res s']| |] eqn:E; cbn [go_bind]; [|done|done].
  intros Hw. right. exists (OResolve trackHits code (n_p1 ev) (n_p2 ev) (n_st ev)).
  split_and!; [done|done|]. rewrite (surjective_pairing (w_st w)). cbn [sstep]. rewrite E. cbn [go_bind].
  by destruct res; injection Hw as _ <-.
Qed.

(** A request changes the store by at most one operation of [Session], and by
    [Update] or [Remove] only if its method is PATCH or DELETE. *)
Lemma serve_step (ev : Env) (method path body adminToken client : bytes) (w w' : World (Store * Disk)) (r : Reply) :
  serve ev method path body adminToken client w = Ret (r, w') ->
  one_step ev body (bool_decide (method = lit "PATCH") || bool_decide (method = lit "DELETE")) w w'.
Proof.
  unfold serve, Handle.
  destruct (@route _ _ _ _ _ _ _ _ _ _ _ _ _ _ _ _ _ _) as [[r1 w1]| |] eqn:E; cbn [go_bind]; [|done|done].
  intros [= _ <-]. set (b := _ || _).
  assert (one_step ev body b w w1) as Hs; [|by destruct Hs as [Hs|(o & ? & ? & Hs)]; [left|right; exists o]].
  revert E. unfold route. destruct (match cut_byte x3f path with Some pq => pq | None => (path, []) end) as [pathname query].
  destruct (Tick (n_tick ev) (w_met w)) as [met| |]; cbn [go_bind]; [|done|done].
  set (w0 := set_met (fun _ => met) w). assert (w_st w0 = w_st w) as Ew by done.
  assert (forall w2, one_step ev body b w0 w2 -> one_step ev body b w w2) as Hback by (intros w2; unfold one_step; by rewrite Ew).
  case_bool_decide; [intros [= _ <-]; by left|].
  case_bool_decide; [intros E; apply Hback; by eapply route_get_step|].
  case_bool_decide.
  { unfold route_post. repeat case_bool_decide.
    - destruct (sonic_shorten body) as [p|] eqn:Ep; [|intros [= _ <-]; by left]. intros E. apply Hback.
      eapply guarded_step; [|exact E]. intros w2 r2 _ E2. by eapply shortenOne_step.
    - destruct (sonic_bulk body) as [us|] eqn:Ep; [|intros [= _ <-]; by left]. intros E. apply Hback.
      eapply guarded_step; [|exact E]. intros w2 r2 _ E2. by eapply shortenBulk_step.
    - intros [= _ <-]. by left. }
  destruct (bool_decide (method = lit "PATCH") || bool_decide (method = lit "DELETE")) eqn:Em;
    [|intros [= _ <-]; by left].
  destruct (negb _ || negb _); [intros [= _ <-]; by left|].
  destruct (negb _); [intros [= _ <-]; by left|]. set (code := drop _ pathname).
  assert (forall o sd, req_op ev body o -> sstep o (w_st w) = Ret sd -> w_st w1 = sd -> one_step ev body b w w1) as Hmut.
  { intros o sd Ho Eo E1. right. exists o. rewrite E1. split_and!; [done|by unfold b; rewrite ?Em|done]. }
  destruct (bool_decide (method = lit "DELETE")).
  - unfold route_delete, w0. cbn [api_Remove engine w_st set_met].
    destruct (Remove code (w_st w).1) as [mr s'] eqn:Er. cbn [go_bind]. intros [= _ <-].
    apply (Hmut (ORemove code) (s', (w_st w).2)); [done| |by destruct mr].
    rewrite (surjective_pairing (w_st w)). cbn [sstep fst snd]. by rewrite Er.
  - unfold route_patch. destruct (sonic_patch body) as [p|]; [|intros [= _ <-]; by left].
    destruct (p_URL p) as [u|]; [|intros [= _ <-]; by left].
    destruct (negb _); [intros [= _ <-]; by left|]. cbv zeta. set (ttl := match p_TTLMS p with Some _ => _ | None => _ end).
    unfold w0. cbn [api_Update engine w_st set_met].
    destruct (Update code u ttl (bool_decide (is_Some (p_TTLMS p))) (n_st ev) (w_st w).1) as [mr s'] eqn:Er.
    cbn [go_bind]. intros [= _ <-].
    apply (Hmut (OUpdate code u ttl (bool_decide (is_Some (p_TTLMS p))) (n_st ev)) (s', (w_st w).2)); [done| |done].
    rewrite (surjective_pairing (w_st w)). cbn [sstep fst snd]. by rewrite Er.
Qed.

(** ** Runs of requests *)

Record Request := mkRequest {
  q_env : Env; q_method : bytes; q_path : bytes; q_body : bytes; q_token : bytes; q_client : bytes
}.

(** A request, a tick of one of the three timers, a compaction, a restart. *)
Inductive event :=
| EReq (q : Request) | EFlush | ESync | EPoll (now : Z) | ECompact | ERestart.

Definition timer_op (e : event) : option sop :=
  match e with
  | EReq _ => None
  | EFlush => Some OFlush | ESync => Some OSync | EPoll now => Some (OPoll now)
  | ECompact => Some OCompact | ERestart => Some OReopen
  end.

Definition handle_event (e : event) (w : World (Store * Disk)) : go (World (Store * Disk)) :=
  match e, timer_op e with
  | EReq q, _ =>
      let* (_, w') := serve (q_env q) (q_method q) (q_path q) (q_body q) (q_token q) (q_client q) w in Ret w'
  | _, Some o => let* sd := sstep o (w_st w) in Ret (set_st sd w)
  | _, None => Ret w
  end.

Definition event_ok (e : event) : Prop :=
  match e with EReq q => is_int64 (n_st (q_env q)) | _ => True end.

(** Whether an event cannot update or remove a link. *)
Definition event_keeps (e : event) : bool :=
  match e with
  | EReq q => negb (bool_decide (q_method q = lit "PATCH") || bool_decide (q_method q = lit "DELETE"))
  | _ => true
  end.

(** The process at its start: fresh counters, a fresh limiter, a store. *)
Definition boot (start : Z) (rate burst : float64) (sd : Store * Disk) : World (Store * Disk) :=
  mkWorld sd (init start) (RateLimit.New rate burst) 0.

Definition kept_st (strict : bool) (inst : Z) (sd : Store * Disk) : Prop := kept strict inst sd.1 sd.2.

Lemma op_kept (strict : bool) (inst : Z) (o : sop) (sd sd' : Store * Disk) :
  sop_ok o -> (strict = true -> keeps_rows o = true) -> sstep o sd = Ret sd' -> kept_st strict inst sd -> kept_st strict inst sd'.
Proof.
  intros Ho Hk E K. unfold kept_st in *. destruct sd as [s d], sd' as [s' d'].
  pose proof (sstep_kept strict o s d inst K Ho) as P. rewrite E in P. by apply P.
Qed.

Lemma one_step_kept (ev : Env) (body : bytes) (strict b : bool) (inst : Z) (w w' : World (Store * Disk)) :
  is_int64 (n_st ev) -> (strict = true -> b = false) -> one_step ev body b w w' -> kept_st strict inst (w_st w) -> kept_st strict inst (w_st w').
Proof.
  intros Hn Hb [E|(o & Ho & Hk & E)] K; [by rewrite E|].
  eapply op_kept; [by eapply req_op_ok| |exact E|exact K]. intros Hst. destruct (keeps_rows o); [done|].
  rewrite Hb in Hk by done. by specialize (Hk eq_refl).
Qed.

Lemma handle_event_kept (strict : bool) (inst : Z) (e : event) (w w' : World (Store * Disk)) :
  event_ok e -> (strict = true -> event_keeps e = true) -> handle_event e w = Ret w' ->
  kept_st strict inst (w_st w) -> kept_st strict inst (w_st w').
Proof.
  intros Hok Hstr E K. destruct (timer_op e) as [o|] eqn:Eo.
  - assert (sop_ok o /\ keeps_rows o = true) as [Ho Hk] by (destruct e; simpl in Eo; by simplify_eq).
    assert (handle_event e w = let* sd := sstep o (w_st w) in Ret (set_st sd w)) as E'.
    { destruct e; simpl in Eo; simplify_eq; reflexivity. }
    rewrite E' in E. destruct (sstep o (w_st w)) as [sd| |] eqn:Es; [|done|done]. injection E as <-.
    by eapply (op_kept strict inst o).
  - destruct e as [q| | | | |]; try done. cbn [handle_event timer_op] in E.
    destruct (serve _ _ _ _ _ _ w) as [[r w1]| |] eqn:Es; [|done|done]. injection E as <-.
    eapply one_step_kept; [exact Hok| |eapply serve_step; exact Es|exact K].
    intros Hst. specialize (Hstr Hst). simpl in Hstr. by destruct (_ || _).
Qed.

Lemma run_kept (strict : bool) (inst : Z) (es : list event) (w w' : World (Store * Disk)) :
  Forall event_ok es -> (strict = true -> forallb event_keeps es = true) -> go_fold handle_event es w = Ret w' ->
  kept_st strict inst (w_st w) -> kept_st strict inst (w_st w').
Proof.
  revert w. induction es as [|e es IH]; intros w Hok Hstr E K; [by injection E as <-|].
  apply Forall_cons in Hok as [Ho Hok]. cbn [go_fold] in E.
  assert (strict = true -> event_keeps e = true /\ forallb event_keeps es = true) as Hs'.
  { intros Hst. specialize (Hstr Hst). by apply andb_true_iff in Hstr. }
  destruct (handle_event e w) as [w1| |] eqn:E1; [|done|done].
  apply (IH w1); [done|intros; by apply Hs'|exact E|].
  eapply handle_event_kept; [exact Ho|intros; by apply Hs'|exact E1|exact K].
Qed.

(** C1: the service keeps its links. A process serves any requests over HTTP on
    the in-process engine, from an empty directory and without siblings, with
    flushes, syncs, polls, compactions and restarts anywhere in between: after
    a clean shutdown and start, every code has exactly the link it had, with
    URL, creation time and expiry; and with its hit count if no PATCH or DELETE
    was among the requests. *)
Theorem http_restart_preserves_links (alive : Z -> bool) (self inst start : Z) (rate burst : float64)
  (es : list event) (Hi : 0 <= inst < maxInstances) (Hok : Forall event_ok es) :
  exists s0 d0, Store.New alive self inst ∅ = Ret (inl s0, d0)
    /\ forall w, go_fold handle_event es (boot start rate burst (s0, d0)) = Ret w ->
       exists s' d', reopen alive self (w_st w).1 (w_st w).2 = Ret (s', d')
         /\ forall c, same_link (forallb event_keeps es) (Stats c (w_st w).1) (Stats c s').
Proof.
  destruct (New_empty alive self inst Hi) as (s0 & d0 & E & K0). exists s0, d0. split; [done|].
  intros w Hw. set (b := forallb event_keeps es).
  assert (kept_st b inst (w_st w)) as K.
  { eapply (run_kept b); [done|done|exact Hw|]. destruct b; [done|by eapply kept_weaken]. }
  destruct K as [(snap & log & Hdu) [Ei Hcl]].
  destruct (reopen_durable alive self b _ _ snap log Hdu Hcl) as (s' & d' & E' & _ & _ & _ & _ & Hr & Hs).
  exists s', d'. split; [done|]. intros c. apply same_link_index; [apply Hr|]. intros Hc. by apply Hs.
Qed.

End AppSpec.

(** * Witness

    A stand-in for the JSON decoder (the body is the URL), and a run of four
    events. *)

Definition toy_url (raw : bytes) : option (bytes * bytes) :=
  if HasPrefix raw (lit "http://") then Some (lit "http", drop 7 raw) else None.
Definition toy_shorten (body : bytes) : option shortenReq := Some (mkShortenReq (Some body) None None).
Definition toy_bulk (body : bytes) : option (list bytes) := None.
Definition toy_patch (body : bytes) : option patchReq := Some (mkPatchReq (Some body) None).
Definition toy_link (l : Link) : bytes := URL l.
Definition toy_links (ls : list Link) (n : Z) : bytes := itoa n.
Definition toy_float (x : float64) : bytes := itoa (f64_trunc x).
Definition toy_oor (x : float64) : Z := - 2 ^ 63.

Definition demo_conf : Conf := mkConf 86400000 (lit "secret") None.

Definition demo_env (now : Z) : Env :=
  mkEnv now now now now now now now (fun _ => now) 0 [] [map (fun c => bofZ (alpha_index c)) (lit "ABCDEFG")].

Definition demo_post : Request :=
  mkRequest (demo_env 50000) (lit "POST") (lit "/api/shorten") (lit "http://a") [] (lit "1.2.3.4").
Definition demo_get : Request :=
  mkRequest (demo_env 51000) (lit "GET") (lit "/0ABCDEFG") [] [] (lit "1.2.3.4").

Definition demo_events : list event := [EReq demo_post; EReq demo_get; ESync; ERestart].

Definition demo_run (w : World (Store * Disk)) : go (World (Store * Disk)) :=
  go_fold (handle_event true demo_conf toy_url toy_shorten toy_bulk toy_patch toy_link toy_links toy_float toy_oor)
    demo_events w.

(** The code leads to its URL and has been hit once. *)
Lemma demo_run_ok :
  match Store.New no_proc 1 0 ∅ with
  | Ret (inl s0, d0) =>
      match demo_run (boot 50000 (f64_of_Z 0) (f64_of_Z 0) (s0, d0)) with
      | Ret w => (fun l => (URL l, Hits l)) <$> Stats demo_code (w_st w).1 = Some (lit "http://a", 1)
      | _ => False
      end
  | _ => False
  end.
Proof. vm_compute. reflexivity. Qed.

Lemma http_restart_preserves_links_witness :
  exists s0 d0 w s' d',
    demo_run (boot 50000 (f64_of_Z 0) (f64_of_Z 0) (s0, d0)) = Ret w
    /\ reopen no_proc 1 (w_st w).1 (w_st w).2 = Ret (s', d')
    /\ URL <$> Stats demo_code s' = Some (lit "http://a").
Proof.
  assert (Forall event_ok demo_events) as Hok.
  { repeat (apply Forall_cons; split; [vm_compute; first [split; [discriminate|reflexivity]|exact I]|]).
    apply List.Forall_nil. }
  destruct (http_restart_preserves_links true demo_conf toy_url toy_shorten toy_bulk toy_patch toy_link toy_links
    toy_float toy_oor no_proc 1 0 50000 (f64_of_Z 0) (f64_of_Z 0) demo_events demo_instance Hok)
    as (s0 & d0 & E & P).
  pose proof demo_run_ok as R. rewrite E in R. unfold demo_run in *.
  destruct (go_fold _ demo_events _) as [w| |] eqn:Ew; [|destruct R|destruct R].
  destruct (P w eq_refl) as (s' & d' & E' & L). exists s0, d0, w, s', d'.
  split; [exact Ew|]. split; [exact E'|]. specialize (L demo_code).
  destruct (Stats demo_code (w_st w).1) as [l|]; [|discriminate R].
  destruct (Stats demo_code s') as [l'|]; [|destruct L]. destruct L as (_ & U & _).
  injection R as R _. cbn [fmap option_fmap option_map]. rewrite U, R. reflexivity.
Defined.
