(* ===== verification/AppProps.v ===== *)
(** * AppProps: what the endpoints promise

    Over any store: refused requests change nothing in it, and mutations need
    the admin token. Over the in-process engine: a created link redirects, its
    lifetime is capped, and no request with a path stops the process. *)

From S2P Require Import Prelude GoStd Float Base62 LogLine Aof Store StoreSpec StoreRead.
From S2P Require Import Replay Alone Queue Durable Restart Trace Session RateLimit Metrics.
From S2P Require Import Query Api App AppSpec.
From stdpp Require Import options.

(** ** Over any store *)

Section AnyStore.
Context {St : Type} `{StoreAPI St} (cf : Conf).
Context (url_Parse : bytes -> option (bytes * bytes))
        (sonic_shorten : bytes -> option shortenReq)
        (sonic_bulk : bytes -> option (list bytes))
        (sonic_patch : bytes -> option patchReq)
        (sonic_link : Link -> bytes)
        (sonic_links : list Link -> Z -> bytes)
        (AppendFloat : float64 -> bytes)
        (int64_oor : float64 -> Z).

Local Abbreviation handle :=
  (Handle cf url_Parse sonic_shorten sonic_bulk sonic_patch sonic_link sonic_links AppendFloat int64_oor).
Local Abbreviation the_route :=
  (route cf url_Parse sonic_shorten sonic_bulk sonic_patch sonic_link sonic_links AppendFloat int64_oor).

Definition refusal (status : Z) : Prop := status = 400 \/ status = 429.

Lemma shortenOne_refused (ev : Env) (p : shortenReq) (w w' : World St) (r : Reply) :
  shortenOne cf url_Parse int64_oor ev p w = Ret (r, w') -> refusal (r_Status r) -> w_st w' = w_st w.
Proof.
  unfold shortenOne, refusal. destruct (s_URL p) as [u|]; [|by intros [= _ <-]].
  destruct (negb _); [by intros [= _ <-]|]. destruct (match s_Alias p with Some _ => _ | None => _ end);
    [by intros [= _ <-]|].
  destruct (shorten_ttl _ _ _); [|by intros [= _ <-]].
  destruct (api_Shorten _ _ _ _ _ _ _) as [[[code met] st]| |]; cbn [go_bind]; [|done|done].
  case_bool_decide; intros [= <- <-]; cbn [r_Status reply]; intros [?|?]; lia.
Qed.

Lemma shortenBulk_refused (ev : Env) (urls : list bytes) (w w' : World St) (r : Reply) :
  shortenBulk cf ev urls w = Ret (r, w') -> refusal (r_Status r) -> w_st w' = w_st w.
Proof.
  unfold shortenBulk, refusal. destruct (_ || _); [by intros [= _ <-]|].
  destruct (negb _); [by intros [= _ <-]|].
  destruct (api_ShortenMany _ _ _ _ _) as [[[codes met] st]| |]; cbn [go_bind]; [|done|done].
  intros [= <- <-]. cbn [r_Status reply]. intros [?|?]; lia.
Qed.

Lemma guarded_refused (ev : Env) (client : bytes) (cost : float64) (opn : nat)
    (k : World St -> go (Reply * World St)) (w w' : World St) (r : Reply) :
  (forall w1, k w1 = Ret (r, w') -> refusal (r_Status r) -> w_st w' = w_st w1) ->
  guarded ev client cost opn w k = Ret (r, w') -> refusal (r_Status r) -> w_st w' = w_st w.
Proof.
  intros Hk. unfold guarded. destruct (Allow _ _ _ _) as [[|] l]; [|by intros [= _ <-]].
  intros E Hr. by apply Hk in E.
Qed.

Lemma route_get_refused (ev : Env) (pathname query : bytes) (w w' : World St) (r : Reply) :
  route_get cf sonic_link sonic_links AppendFloat ev pathname query w = Ret (r, w') ->
  ~ refusal (r_Status r).
Proof.
  unfold route_get, refusal.
  case_bool_decide.
  { destruct (api_Healthy _ _) as [[ok st]| |]; cbn [go_bind]; [|done|done].
    intros [= <- _]. destruct ok; cbn [r_Status reply]; lia. }
  case_bool_decide.
  { destruct (Snapshot _ _ _ _); cbn [go_bind]; [|done|done]. intros [= <- _]. cbn [r_Status reply]. lia. }
  case_bool_decide; [intros [= <- _]; cbn [r_Status]; lia|].
  case_bool_decide; [destruct (UIHTML cf); intros [= <- _]; cbn [r_Status reply notFound]; lia|].
  case_bool_decide.
  { unfold route_list. destruct (api_List _ _ _ _ _ _) as [[[l n] st]| |]; cbn [go_bind]; [|done|done].
    intros [= <- _]. cbn [r_Status reply]. lia. }
  destruct (HasPrefix pathname p_stats).
  { destruct (api_Stats _ _ _) as [[[l|] st]| |]; cbn [go_bind]; [|..|done|done];
      intros [= <- _]; cbn [r_Status reply notFound]; lia. }
  destruct pathname as [|c code]; [done|]. destruct (codeOK code).
  - destruct (api_Resolve _ _ _ _) as [[[[t|] met] st]| |]; cbn [go_bind]; [|..|done|done];
      intros [= <- _]; cbn [r_Status reply notFound]; lia.
  - intros [= <- _]. cbn [r_Status reply notFound]. lia.
Qed.

(** C33: a refused request changes no link: whenever the reply is 400 (a bad
    body, URL, alias, lifetime or code) or 429 (rate limited), the store is
    exactly what it was. *)
Theorem refused_changes_nothing (ev : Env) (method path body adminToken client : bytes) (w w' : World St)
  (r : Reply) (E : handle ev method path body adminToken client w = Ret (r, w'))
  (Hr : r_Status r = 400 \/ r_Status r = 429) :
  w_st w' = w_st w.
Proof.
  revert E. unfold Handle.
  destruct (the_route ev method path body adminToken client w) as [[r1 w1]| |] eqn:E; cbn [go_bind]; [|done|done].
  intros [= -> <-]. cbn [set_met w_st]. revert E. unfold route.
  destruct (match cut_byte x3f path with Some pq => pq | None => (path, []) end) as [pathname query].
  destruct (Tick (n_tick ev) (w_met w)) as [met| |]; cbn [go_bind]; [|done|done].
  case_bool_decide; [by intros [= _ <-]|].
  case_bool_decide; [intros E; by apply route_get_refused in E|].
  case_bool_decide.
  { unfold route_post. repeat case_bool_decide.
    - destruct (sonic_shorten body) as [p|]; [|by intros [= _ <-]]. intros E.
      eapply guarded_refused in E; [exact E| |exact Hr]. intros w2 E2 Hr2. by eapply shortenOne_refused in E2.
    - destruct (sonic_bulk body) as [us|]; [|by intros [= _ <-]]. intros E.
      eapply guarded_refused in E; [exact E| |exact Hr]. intros w2 E2 Hr2. by eapply shortenBulk_refused in E2.
    - by intros [= _ <-]. }
  destruct (_ || _); [|by intros [= _ <-]].
  destruct (negb _ || negb _); [by intros [= _ <-]|]. destruct (negb _); [by intros [= _ <-]|].
  destruct (bool_decide (method = lit "DELETE")).
  - unfold route_delete. destruct (api_Remove _ _ _) as [[mr st]| |]; cbn [go_bind]; [|done|done].
    intros [= <- _]. destruct mr; cbn [r_Status reply mut_reply notFound remoteOwned] in Hr; lia.
  - unfold route_patch. destruct (sonic_patch body) as [p|]; [|by intros [= _ <-]].
    destruct (p_URL p) as [u|]; [|by intros [= _ <-]]. destruct (negb _); [by intros [= _ <-]|].
    cbv zeta. destruct (api_Update _ _ _ _ _ _) as [[mr st]| |]; cbn [go_bind]; [|done|done].
    intros [= <- _]. destruct mr; cbn [r_Status reply mut_reply notFound remoteOwned] in Hr; lia.
Qed.

(** C32: links are immutable to the public. A PATCH or DELETE without the right
    admin token (none is right while ADMIN_TOKEN is unset) is answered like an
    unknown path, on every path and body, and changes neither the store nor
    the client's rate budget. *)
Theorem mutation_needs_token (ev : Env) (method path body adminToken client : bytes) (w w' : World St)
  (r : Reply) (Hm : method = lit "PATCH" \/ method = lit "DELETE")
  (Ht : ADMIN_TOKEN cf = [] \/ adminToken <> ADMIN_TOKEN cf)
  (E : handle ev method path body adminToken client w = Ret (r, w')) :
  r = notFound /\ w_st w' = w_st w /\ w_rl w' = w_rl w.
Proof.
  assert (adminOk cf adminToken = false) as Ha.
  { unfold adminOk. destruct Ht as [->|Hne]; [done|]. rewrite (bool_decide_eq_false_2 _ Hne). apply andb_false_r. }
  assert (method <> lit "OPTIONS" /\ method <> lit "GET" /\ method <> lit "POST") as (H1 & H2 & H3)
    by (destruct Hm as [->| ->]; split_and!; by vm_compute).
  assert (bool_decide (method = lit "PATCH") || bool_decide (method = lit "DELETE") = true) as Hb.
  { destruct Hm as [->| ->]; by vm_compute. }
  revert E. unfold Handle, route.
  destruct (match cut_byte x3f path with Some pq => pq | None => (path, []) end) as [pathname query].
  destruct (Tick (n_tick ev) (w_met w)) as [met| |]; cbn [go_bind]; [|done|done].
  rewrite !bool_decide_eq_false_2 by done. rewrite Hb, Ha, orb_true_r. cbn [go_bind].
  by intros [= <- <-].
Qed.

End AnyStore.

(** ** Over the engine *)

Section OnEngine.
Context `{MapOrder} `{SliceSort} (trackHits : bool) (cf : Conf).
Context (url_Parse : bytes -> option (bytes * bytes))
        (sonic_shorten : bytes -> option shortenReq)
        (sonic_bulk : bytes -> option (list bytes))
        (sonic_patch : bytes -> option patchReq)
        (sonic_link : Link -> bytes)
        (sonic_links : list Link -> Z -> bytes)
        (AppendFloat : float64 -> bytes)
        (int64_oor : float64 -> Z).

Local Abbreviation eserve :=
  (serve trackHits cf url_Parse sonic_shorten sonic_bulk sonic_patch sonic_link sonic_links AppendFloat int64_oor).

(** A literal path has a slash. *)
Ltac slash_in := apply (bool_decide_unpack _); vm_compute; exact I.

(** A branch that answers something else than 201. *)
Ltac refuse := cbn [go_bind]; by intros [= <- _].

(** What a 201 of POST /api/shorten leaves in the index. *)
Lemma post_created (ev : Env) (body adminToken client : bytes) (w w' : World (Store * Disk)) (r : Reply) :
  wf (w_st w).1 ->
  eserve ev (lit "POST") p_shorten body adminToken client w = Ret (r, w') -> r_Status r = 201 ->
  exists p u code ttl, sonic_shorten body = Some p /\ s_URL p = Some u
    /\ shorten_ttl cf int64_oor (s_TTLMS p) = Some ttl /\ Body r = shorten_body code
    /\ code <> []
    /\ match s_Alias p with
       | Some a => code = a /\ codeOK a = true
       | None => exists buf, buf ∈ rnds ev /\ code = prefix (w_st w).1 :: randSuffix buf
       end
    /\ wf (w_st w').1
    /\ index (w_st w').1 code = Some (mkEntry u (n_st ev) (expiry (n_st ev) ttl) (int32 (instance (w_st w).1)) 0 0).
Proof.
  intros Hw. unfold serve, Handle, route.
  replace (cut_byte x3f p_shorten) with (@None (bytes * bytes)) by (vm_compute; reflexivity).
  destruct (Tick (n_tick ev) (w_met w)) as [met| |]; cbn [go_bind]; [|done|done].
  rewrite (bool_decide_eq_false_2 (lit "POST" = lit "OPTIONS")) by (by vm_compute).
  rewrite (bool_decide_eq_false_2 (lit "POST" = lit "GET")) by (by vm_compute).
  rewrite (bool_decide_eq_true_2 (lit "POST" = lit "POST")) by done.
  unfold route_post. rewrite (bool_decide_eq_true_2 (p_shorten = p_shorten)) by done.
  destruct (sonic_shorten body) as [p|]; [|refuse].
  unfold guarded. destruct (Allow _ _ _ _) as [[|] l]; [|refuse].
  unfold shortenOne. destruct (s_URL p) as [u|] eqn:Eu; [|refuse].
  destruct (negb _); [refuse|].
  destruct (match s_Alias p with Some a => negb (codeOK a) | None => false end) eqn:Ea; [refuse|].
  destruct (shorten_ttl _ _ _) as [ttl|] eqn:Et; [|refuse].
  cbn [api_Shorten engine set_met w_st].
  pose proof (Shorten_cases u (default [] (s_Alias p)) (bool_decide (is_Some (s_Alias p))) ttl (n_st ev)
    (rnds ev) (w_st w).1 (w_st w).2 Hw) as S.
  destruct (Shorten _ _ _ _ _ _ _ _) as [[[code s'] d']| |]; cbn [go_bind]; [|done|done].
  destruct (bool_decide (code = [])) eqn:Hc; [refuse|]. apply bool_decide_eq_false in Hc. cbn [go_bind].
  intros [= <- <-] _. exists p, u, code, ttl.
  destruct S as [(_ & _ & ? & _)|(Hcode & _ & Hidx & Hw')]; [done|].
  split_and!; try done.
  - destruct (s_Alias p) as [a|]; simpl in Hcode, Ea.
    + split; [done|]. by destruct (codeOK a).
    + destruct Hcode as (buf & Hb & ->). eauto.
  - cbn [w_st set_met set_st fst]. by rewrite Hidx, decide_True.
Qed.

Lemma generated_codeOK (p : byte) (buf : bytes) :
  codeOK [p] = true -> length buf = 7%nat -> codeOK (p :: randSuffix buf) = true.
Proof.
  unfold codeOK. intros Hp Hl. assert (length (p :: randSuffix buf) = 8%nat) as ->.
  { simpl. unfold randSuffix. by rewrite length_map, Hl. }
  simpl in Hp |- *. apply andb_true_iff in Hp as [-> _]. simpl. apply forallb_forall.
  assert (forallb alias_char ALPHABET = true) as Hf by (vm_compute; reflexivity). rewrite forallb_forall in Hf.
  intros c Hc. apply in_map_iff in Hc as (b & <- & _). apply Hf, list_elem_of_In, rand_char_elem.
Qed.

Lemma code_pathname (code : bytes) : codeOK code = true -> cut_byte x3f (x2f :: code) = None.
Proof.
  intros Hc. assert (forall s, forallb alias_char s = true -> break_at (Byte.eqb x3f) s = (s, [])) as Hb.
  { induction s as [|c s IH]; [done|]. simpl. intros [Hx Hs]%andb_true_iff.
    rewrite (IH Hs). by destruct c. }
  unfold cut_byte. cbn [break_at Byte.eqb]. unfold codeOK in Hc.
  destruct ((length code =? 0)%nat || (64 <? Z.of_nat (length code))); [done|]. simpl. by rewrite Hb.
Qed.

Lemma alias_no_slash (code t : bytes) : codeOK code = true -> x2f ∈ t -> code <> t.
Proof.
  unfold codeOK. destruct (_ || _); [done|]. intros Hf Ht ->. rewrite forallb_forall in Hf.
  apply list_elem_of_In, Hf in Ht. by vm_compute in Ht.
Qed.

Lemma alias_no_prefix (code t : bytes) : codeOK code = true -> x2f ∈ t -> HasPrefix code t = false.
Proof.
  intros Hc Ht. destruct (HasPrefix code t) eqn:E; [exfalso|done].
  apply HasPrefix_spec in E as [v ->]. unfold codeOK in Hc. destruct (_ || _); [done|].
  rewrite forallb_forall in Hc. assert (x2f ∈ t ++ v) as Hin by (apply elem_of_app; by left).
  apply list_elem_of_In, Hc in Hin. by vm_compute in Hin.
Qed.

(** GET of a code is a look-up. *)
Lemma engine_get_resolves (ev : Env) (code adminToken client body : bytes) (w : World (Store * Disk)) :
  codeOK code = true -> code <> lit "metrics" ->
  match eserve ev (lit "GET") (x2f :: code) body adminToken client w with
  | Ret (r, w') => exists o s', Resolve trackHits code (n_p1 ev) (n_p2 ev) (n_st ev) (w_st w).2 (w_st w).1 = Ret (o, s')
      /\ r = match o with Some u => mkReply 302 u [] [] | None => notFound end /\ w_st w' = (s', (w_st w).2)
  | _ => (forall m, Tick (n_tick ev) (w_met w) <> Ret m)
      \/ is_ret (Resolve trackHits code (n_p1 ev) (n_p2 ev) (n_st ev) (w_st w).2 (w_st w).1) = false
  end.
Proof.
  intros Hc Hm. unfold serve, Handle, route. rewrite code_pathname by done.
  destruct (Tick (n_tick ev) (w_met w)) as [met| |]; cbn [go_bind]; [|by left|by left].
  rewrite (bool_decide_eq_false_2 (lit "GET" = lit "OPTIONS")) by (by vm_compute).
  rewrite (bool_decide_eq_true_2 (lit "GET" = lit "GET")) by done.
  assert (forall t, x2f ∈ t -> x2f :: code <> x2f :: t) as Hne.
  { intros t Ht [= E]. by apply (alias_no_slash code t). }
  unfold route_get.
  rewrite (bool_decide_eq_false_2 (x2f :: code = lit "/api/health")) by (apply (Hne (lit "api/health")); slash_in).
  rewrite (bool_decide_eq_false_2 (x2f :: code = lit "/api/metrics")) by (apply (Hne (lit "api/metrics")); slash_in).
  rewrite (bool_decide_eq_false_2 (x2f :: code = lit "/metrics")) by (intros [= E]; by apply Hm).
  rewrite (bool_decide_eq_false_2 (x2f :: code = lit "/")) by (intros [= ->]; done).
  rewrite (bool_decide_eq_false_2 (x2f :: code = lit "/api/links")) by (apply (Hne (lit "api/links")); slash_in).
  assert (HasPrefix (x2f :: code) p_stats = false) as ->.
  { apply (alias_no_prefix code (lit "api/stats/")); [done|slash_in]. }
  rewrite Hc. cbn [api_Resolve engine set_met w_st].
  destruct (Resolve trackHits code _ _ _ _ _) as [[o s']| |] eqn:E; cbn [go_bind]; [|by right|by right].
  destruct o as [u|]; cbn [go_bind]; by do 2 eexists.
Qed.

(** GET of a code the index holds. *)
Lemma get_code (ev : Env) (code adminToken client body : bytes) (w : World (Store * Disk)) (e : entry) :
  wf (w_st w).1 -> codeOK code = true -> code <> lit "metrics" -> index (w_st w).1 code = Some e ->
  match eserve ev (lit "GET") (x2f :: code) body adminToken client w with
  | Ret (r, _) => r = (if live e (n_st ev) then mkReply 302 (e_u e) [] [] else notFound)
  | _ => forall m, Tick (n_tick ev) (w_met w) <> Ret m
  end.
Proof.
  intros Hw Hc Hm He. pose proof (engine_get_resolves ev code adminToken client body w Hc Hm) as G.
  destruct (Resolve_hit trackHits code (n_p1 ev) (n_p2 ev) (n_st ev) (w_st w).2 (w_st w).1 e Hw He)
    as (res & s' & R & -> & _). rewrite R in G. fold (live e (n_st ev)) in G.
  destruct (eserve ev _ _ _ _ _ _) as [[r w']| |]; [|by destruct G|by destruct G].
  destruct G as (o & s2 & [= <- <-] & -> & _). by destruct (live e (n_st ev)).
Qed.

(** a created link redirects. After POST /api/shorten answered 201, its
    body names a code, and any GET of /code (the code [metrics] excepted, which
    the endpoint of that name shadows) answers 302 with the posted URL until
    the link expires, and 404 from then on. *)
Theorem created_link_redirects (ev ev' : Env) (body adminToken client body' adminToken' client' : bytes)
  (w w1 : World (Store * Disk)) (r : Reply) (met : Metrics)
  (Hw : wf (w_st w).1) (Hcode : codeOK [prefix (w_st w).1] = true)
  (Hlen : Forall (fun b => length b = 7%nat) (rnds ev))
  (E : eserve ev (lit "POST") p_shorten body adminToken client w = Ret (r, w1)) (Hr : r_Status r = 201)
  (Htick : Tick (n_tick ev') (w_met w1) = Ret met) :
  exists p u code ttl, sonic_shorten body = Some p /\ s_URL p = Some u
    /\ shorten_ttl cf int64_oor (s_TTLMS p) = Some ttl
    /\ Body r = shorten_body code /\ codeOK code = true
    /\ (code <> lit "metrics" ->
        exists w2, eserve ev' (lit "GET") (x2f :: code) body' adminToken' client' w1
          = Ret ((if (expiry (n_st ev) ttl =? 0) || (n_st ev' <? expiry (n_st ev) ttl)
                  then mkReply 302 u [] [] else notFound), w2)).
Proof.
  destruct (post_created ev body adminToken client w w1 r Hw E Hr)
    as (p & u & code & ttl & Hp & Hu & Ht & Hb & _ & Hsrc & Hw1 & Hidx).
  assert (codeOK code = true) as Hok.
  { destruct (s_Alias p) as [al|]; [by destruct Hsrc as [-> ?]|]. destruct Hsrc as (buf & Hin & ->).
    apply generated_codeOK; [done|]. rewrite Forall_forall in Hlen. by apply Hlen. }
  exists p, u, code, ttl. split_and!; try done. intros Hm.
  pose proof (get_code ev' code adminToken' client' body' w1 _ Hw1 Hok Hm Hidx) as G.
  destruct (eserve ev' _ _ _ _ _ _) as [[r2 w2]| |]; [|by destruct (G met)|by destruct (G met)].
  exists w2. by subst r2.
Qed.

(** C35: lifetimes. A link created by POST /api/shorten expires after the
    configured lifetime, or after the requested one if that is shorter - unless
    the requested number of milliseconds, which must be positive, converts to
    an integer below 1 (0.5, or a number too large for an int64 on some
    machines): then the link never expires. *)
Theorem created_link_lifetime (ev : Env) (body adminToken client : bytes)
  (w w1 : World (Store * Disk)) (r : Reply)
  (Hw : wf (w_st w).1) (Hlink : 1 <= LinkTTLMS cf) (Hnow : 0 <= n_st ev) (Hsum : n_st ev + LinkTTLMS cf < 2 ^ 63)
  (E : eserve ev (lit "POST") p_shorten body adminToken client w = Ret (r, w1)) (Hr : r_Status r = 201) :
  exists p code l, sonic_shorten body = Some p /\ Body r = shorten_body code
    /\ Stats code (w_st w1).1 = Some l
    /\ ExpiresAt l = match s_TTLMS p with
                     | None => Some (n_st ev + LinkTTLMS cf)
                     | Some x => let t := int64_of_f64 int64_oor x in
                                 if t <? 1 then None else Some (n_st ev + Z.min t (LinkTTLMS cf))
                     end.
Proof.
  destruct (post_created ev body adminToken client w w1 r Hw E Hr)
    as (p & u & code & ttl & Hp & Hu & Ht & Hb & _ & _ & _ & Hidx).
  exists p, code. eexists. split_and!; [done|done|unfold Stats; rewrite Hidx; done|]. cbn [link_of ExpiresAt e_e].
  assert (forall t, 1 <= t <= LinkTTLMS cf -> (if expiry (n_st ev) t =? 0 then None else Some (expiry (n_st ev) t))
                    = Some (n_st ev + t)) as Hexp.
  { intros t Hlt. unfold expiry. replace (0 <? t) with true by lia.
    rewrite int64_id by (unfold is_int64; lia). by destruct (Z.eqb_spec (n_st ev + t) 0); [lia|]. }
  unfold shorten_ttl in Ht. destruct (s_TTLMS p) as [x|]; [|injection Ht as <-; apply Hexp; lia].
  destruct (f64_le x (f64_of_Z 0)); [done|]. injection Ht as <-. cbv zeta.
  set (t := int64_of_f64 int64_oor x). destruct (Z.ltb_spec t 1) as [Hlt|Hge].
  - destruct (Z.ltb_spec (LinkTTLMS cf) t); [lia|]. unfold expiry. by replace (0 <? t) with false by lia.
  - destruct (Z.ltb_spec (LinkTTLMS cf) t).
    + rewrite Z.min_r by lia. apply Hexp. lia.
    + rewrite Z.min_l by lia. apply Hexp. lia.
Qed.

(** ** Panics *)

Definition ring_ok (m : Metrics) : Prop := length (buckets m) = 60%nat /\ 0 <= cur m.

Lemma Tick_ret (now : Z) (m : Metrics) : ring_ok m -> 0 <= now -> exists m', Tick now m = Ret m' /\ ring_ok m'.
Proof.
  intros [Hl Hc] Hn. unfold Tick. pose proof (Z.quot_pos now 1000 Hn ltac:(lia)).
  assert (exists bs, (if Z.quot now 1000 =? cur m then Ret (buckets m)
    else clear_loop (Z.to_nat (Z.quot now 1000 - cur m)) (cur m + 1) (buckets m)) = Ret bs
    /\ length bs = 60%nat) as (bs & -> & Hb).
  { destruct (_ =? _); [by eexists|].
    destruct (clear_loop_spec (Z.to_nat (Z.quot now 1000 - cur m)) (cur m + 1) (buckets m)) as (bs & E & Hb & _);
      [lia|done|]. by exists bs. }
  cbn [go_bind]. rewrite slot_pos by done. cbn [go_bind]. eexists. split; [done|]. split; [|done].
  simpl. unfold incr. by rewrite length_alter.
Qed.

Lemma Snapshot_ret (now1 now2 : Z) (m : Metrics) :
  30000 <= now1 -> exists b, Snapshot AppendFloat now1 now2 m = Ret b.
Proof.
  intros Hn. assert (30 <= Z.quot now1 1000) by (apply Z.quot_le_lower_bound; lia).
  unfold Snapshot, window.
  assert (forall i, exists v, window_at (Z.quot now1 1000) m i = Ret v) as Hv.
  { intros i. unfold window_at. destruct (_ && _); [|eauto]. rewrite slot_pos by lia. cbn [go_bind]. eauto. }
  assert (forall l, exists vs, go_map (window_at (Z.quot now1 1000) m) l = Ret vs) as Hvs.
  { induction l as [|i l [vs IH]]; [by exists []|]. cbn [go_map]. destruct (Hv i) as [v ->]. cbn [go_bind].
    rewrite IH. cbn [go_bind]. eauto. }
  destruct (Hvs (seq 0 31)) as [vs ->]. cbn [go_bind]. eauto.
Qed.

Lemma list_limit_range (v : bytes) : 0 <= list_limit v < 2 ^ 32.
Proof.
  unfold list_limit, MaxListLimit. destruct (ParseInt v) as [n [e|]]; [simpl; lia|].
  destruct (_ && _); cbv zeta; repeat match goal with |- context [?a <? ?b] => destruct (Z.ltb_spec a b) end; lia.
Qed.

Lemma list_offset_range (v : bytes) : 0 <= list_offset v < 2 ^ 63.
Proof.
  unfold list_offset. destruct (ParseInt v) as [n [e|]] eqn:E; [lia|].
  destruct (negb _ && (0 <? n)) eqn:Eb; [|lia]. apply andb_true_iff in Eb as [_ Hn].
  pose proof (ParseInt_range v n E) as Hr. unfold is_int64 in Hr. lia.
Qed.

Lemma sstep_no_panic (o : sop) (sd : Store * Disk) (strict : bool) (inst : Z) :
  kept_st strict inst sd -> sop_ok o -> sstep o sd <> Panic.
Proof.
  intros K Ho E. assert (kept false inst sd.1 sd.2) as K' by by eapply kept_weaken.
  pose proof (sstep_kept false o sd.1 sd.2 inst K' Ho) as P. rewrite (surjective_pairing sd) in E.
  rewrite E in P. by apply P.
Qed.

(** The operations of the engine behind a request do not panic. *)
Definition few_links (s : Store) : Prop := forall q, Z.of_nat (length (all_links q s)) < 2 ^ 62.

Lemma guarded_no_panic (ev : Env) (client : bytes) (cost : float64) (opn : nat)
    (k : World (Store * Disk) -> go (Reply * World (Store * Disk))) (w : World (Store * Disk)) :
  (forall w1, w_st w1 = w_st w -> k w1 <> Panic) -> guarded ev client cost opn w k <> Panic.
Proof. intros Hk. unfold guarded. destruct (Allow _ _ _ _) as [[|] l]; [by apply Hk|done]. Qed.

Lemma shortenOne_no_panic (ev : Env) (p : shortenReq) (w : World (Store * Disk)) :
  wf (w_st w).1 -> @shortenOne _ (engine trackHits) cf url_Parse int64_oor ev p w <> Panic.
Proof.
  intros Hw. unfold shortenOne. destruct (s_URL p) as [u|]; [|done]. destruct (negb _); [done|].
  destruct (match s_Alias p with Some a => negb (codeOK a) | None => false end); [done|].
  destruct (shorten_ttl _ _ _) as [ttl|]; [|done]. cbn [api_Shorten engine].
  pose proof (Shorten_cases u (default [] (s_Alias p)) (bool_decide (is_Some (s_Alias p))) ttl (n_st ev)
    (rnds ev) (w_st w).1 (w_st w).2 Hw) as S.
  destruct (Shorten _ _ _ _ _ _ _ _) as [[[code s'] d']| |]; cbn [go_bind]; [|done|done].
  by destruct (bool_decide (code = [])).
Qed.

Lemma shortenBulk_no_panic (ev : Env) (urls : list bytes) (w : World (Store * Disk)) :
  wf (w_st w).1 -> @shortenBulk _ (engine trackHits) cf ev urls w <> Panic.
Proof.
  intros Hw. unfold shortenBulk. destruct (_ || _); [done|]. destruct (negb _); [done|].
  cbn [api_ShortenMany engine]. unfold ShortenMany.
  pose proof (many_loop_spec (n_st ev) (expiry (n_st ev) (LinkTTLMS cf)) urls (rnd ev) (w_st w).1 (rnds ev) Hw) as M.
  destruct (many_loop _ _ _ _ _ _) as [[codes s1]| |]; cbn [go_bind]; [|done|done].
  by destruct (flush_if_big s1 (w_st w).2).
Qed.

Lemma route_list_no_panic (ev : Env) (query : bytes) (w : World (Store * Disk)) :
  few_links (w_st w).1 -> @route_list _ (engine trackHits) sonic_links ev query w <> Panic.
Proof.
  intros Hf. unfold route_list. cbn [api_List engine]. unfold List.
  set (q := Get _ (lit "q")). fold (all_links q (w_st w).1). set (less := if bool_decide _ then more_hits else newer).
  pose proof (sort_slice_perm less (all_links q (w_st w).1)) as Hp.
  rewrite page_ok; [done|apply list_limit_range|apply list_offset_range|]. by rewrite Hp.
Qed.

Lemma route_get_panics (strict : bool) (inst : Z) (ev : Env) (pathname query : bytes) (w : World (Store * Disk)) :
  kept_st strict inst (w_st w) -> few_links (w_st w).1 -> 30000 <= n_snap ev ->
  @route_get _ (engine trackHits) cf sonic_link sonic_links AppendFloat ev pathname query w = Panic
  <-> pathname = [].
Proof.
  intros K Hf Hn. split; [|by intros ->]. unfold route_get. cbn [api_Healthy api_Stats api_Resolve engine].
  case_bool_decide; [done|]. case_bool_decide.
  { destruct (Snapshot_ret (n_snap ev) (n_up ev) (w_met (set_met (Op 8) w)) Hn) as [b ->]. done. }
  case_bool_decide; [done|]. case_bool_decide; [by destruct (UIHTML cf)|].
  case_bool_decide; [intros E; by apply route_list_no_panic in E|].
  destruct (HasPrefix pathname p_stats); [cbn [go_bind]; by destruct (Stats _ _)|].
  destruct pathname as [|c code]; [done|]. destruct (codeOK code); [|done].
  pose proof (sstep_no_panic (OResolve trackHits code (n_p1 ev) (n_p2 ev) (n_st ev)) (w_st w) strict inst K I) as P.
  rewrite (surjective_pairing (w_st w)) in P. cbn [sstep] in P.
  destruct (Resolve _ _ _ _ _ _ _) as [[[t|] s']| |]; cbn [go_bind]; done.
Qed.

(** C34: only a GET without a path stops the process. Of all requests the engine
    can receive while it serves (any method, path, body, token and client),
    exactly those with method GET whose path is empty, or empty up to its
    question mark, panic: the handler slices one byte off the path. The engine
    is a lone instance in the state its runs keep ([kept_st]), with fewer than
    2^62 links and the clock past its first 30 s. Other stores, and the logs of
    siblings, have panics of their own ([readResp_header_panics],
    [parseLine_empty_key_panics]). *)
Theorem serve_panics_iff (strict : bool) (inst : Z) (ev : Env)
  (method path body adminToken client : bytes) (w : World (Store * Disk))
  (K : kept_st strict inst (w_st w)) (Hm : ring_ok (w_met w)) (Hf : few_links (w_st w).1)
  (Ht : 0 <= n_tick ev) (Hn : 30000 <= n_snap ev) :
  eserve ev method path body adminToken client w = Panic
  <-> method = lit "GET" /\ (path = [] \/ exists query, path = x3f :: query).
Proof.
  assert (wf (w_st w).1) as Hw by (destruct K as [(? & ? & [[? _ _ _ _ _] _ _]) _]; done).
  assert ((match cut_byte x3f path with Some pq => pq | None => (path, []) end).1 = []
          <-> path = [] \/ exists query, path = x3f :: query) as Hpath.
  { unfold cut_byte. destruct path as [|c path]; [split; [by left|done]|]. cbn [break_at].
    destruct (byte_eqb_spec x3f c) as [<-|Hne].
    - cbn. split; [right; eauto|done].
    - destruct (break_at (Byte.eqb x3f) path) as [a [|b0 b1]]; simpl; split; try done;
        intros [?|[q [= ?]]]; done. }
  rewrite <- Hpath. unfold serve, Handle, route.
  destruct (match cut_byte x3f path with Some pq => pq | None => (path, []) end) as [pathname query]. cbn [fst].
  destruct (Tick_ret (n_tick ev) (w_met w) Hm Ht) as (met & -> & _). cbn [go_bind].
  assert (forall m, go_bind m (fun '(r, w') => Ret (r, set_met (Status (r_Status r)) w')) = Panic
     <-> m = (Panic : go (Reply * World (Store * Disk)))) as Hb by (intros [[? ?]| |]; done).
  rewrite Hb. case_bool_decide as E1; [subst method; split; [done|by intros [? _]]|].
  case_bool_decide as E2.
  { subst method. rewrite (route_get_panics strict inst) by done. naive_solver. }
  assert (forall m : go (Reply * World (Store * Disk)), m <> Panic -> (m = Panic <-> method = lit "GET" /\ pathname = [])) as Hno
    by (intros m Hm'; split; [done|by intros [? _]]).
  case_bool_decide as E3.
  { apply Hno. unfold route_post. repeat case_bool_decide; [| |done].
    - destruct (sonic_shorten body); [|done]. apply guarded_no_panic. intros w1 Ew. apply shortenOne_no_panic. by rewrite Ew.
    - destruct (sonic_bulk body); [|done]. apply guarded_no_panic. intros w1 Ew. apply shortenBulk_no_panic. by rewrite Ew. }
  apply Hno. destruct (_ || _); [|done]. destruct (_ || _); [done|]. destruct (negb _); [done|].
  destruct (bool_decide (method = lit "DELETE")).
  - unfold route_delete. cbn [api_Remove engine]. by destruct (Remove _ _).
  - unfold route_patch. destruct (sonic_patch body) as [p|]; [|done]. destruct (p_URL p); [|done].
    destruct (negb _); [done|]. cbv zeta. cbn [api_Update engine]. by destruct (Update _ _ _ _ _ _).
Qed.

End OnEngine.

(** * Witnesses *)

Definition toy_serve : Env -> bytes -> bytes -> bytes -> bytes -> bytes -> World (Store * Disk)
    -> go (Reply * World (Store * Disk)) :=
  serve true demo_conf toy_url toy_shorten toy_bulk toy_patch toy_link toy_links toy_float toy_oor.

(** The same with a decoder that asks for half a millisecond. *)
Definition f64_half : float64 := f64_div (f64_of_Z 1) (f64_of_Z 2).
Definition half_shorten (body : bytes) : option shortenReq := Some (mkShortenReq (Some body) None (Some f64_half)).
Definition half_serve : Env -> bytes -> bytes -> bytes -> bytes -> bytes -> World (Store * Disk)
    -> go (Reply * World (Store * Disk)) :=
  serve true demo_conf toy_url half_shorten toy_bulk toy_patch toy_link toy_links toy_float toy_oor.

Definition demo_world : World (Store * Disk) := boot 50000 (f64_of_Z 0) (f64_of_Z 0) (NewMem, ∅).

Definition status_of (m : go (Reply * World (Store * Disk))) : Z :=
  match m with Ret (r, _) => r_Status r | _ => 0 end.

Lemma refused_changes_nothing_witness :
  exists r w', toy_serve (demo_env 50000) (lit "POST") (lit "/api/shorten") (lit "ftp://a") [] [] demo_world = Ret (r, w')
    /\ w_st w' = (NewMem, ∅).
Proof.
  assert (status_of (toy_serve (demo_env 50000) (lit "POST") (lit "/api/shorten") (lit "ftp://a") [] [] demo_world) = 400)
    as Hs by (vm_compute; reflexivity).
  destruct (toy_serve (demo_env 50000) _ _ _ _ _ demo_world) as [[r w']| |] eqn:E;
    [|discriminate Hs|discriminate Hs].
  exists r, w'. split; [reflexivity|].
  exact (@refused_changes_nothing _ (engine true) demo_conf toy_url toy_shorten toy_bulk toy_patch toy_link toy_links
    toy_float toy_oor _ _ _ _ _ _ _ _ _ E (or_introl Hs)).
Defined.

Lemma mutation_needs_token_witness :
  exists w', toy_serve (demo_env 50000) (lit "DELETE") (lit "/api/links/abc") [] (lit "guess") [] demo_world
    = Ret (notFound, w') /\ w_st w' = (NewMem, ∅).
Proof.
  assert (status_of (toy_serve (demo_env 50000) (lit "DELETE") (lit "/api/links/abc") [] (lit "guess") [] demo_world) = 404)
    as Hs by (vm_compute; reflexivity).
  destruct (toy_serve (demo_env 50000) _ _ _ _ _ demo_world) as [[r w']| |] eqn:E;
    [|discriminate Hs|discriminate Hs].
  assert (lit "guess" <> ADMIN_TOKEN demo_conf) as Ht by (vm_compute; discriminate).
  pose proof (@mutation_needs_token _ (engine true) demo_conf toy_url toy_shorten toy_bulk toy_patch toy_link toy_links
    toy_float toy_oor (demo_env 50000) (lit "DELETE") (lit "/api/links/abc") [] (lit "guess") [] demo_world w' r
    (or_intror eq_refl) (or_intror Ht) E) as P.
  destruct P as (-> & Hst & _). exists w'. split; [reflexivity|exact Hst].
Defined.

Definition demo_created : go (Reply * World (Store * Disk)) :=
  toy_serve (demo_env 50000) (lit "POST") p_shorten (lit "http://a") [] [] demo_world.

Lemma demo_created_ok :
  match demo_created with
  | Ret (r, w) => r_Status r = 201 /\ Body r = shorten_body demo_code /\ is_ret (Tick 60000 (w_met w)) = true
  | _ => False
  end.
Proof. vm_compute. split_and!; reflexivity. Qed.

Lemma created_link_redirects_witness :
  exists r w code ttl, demo_created = Ret (r, w) /\ Body r = shorten_body code
    /\ (code <> lit "metrics" -> exists w2, toy_serve (demo_env 60000) (lit "GET") (x2f :: code) [] [] [] w
          = Ret ((if (expiry 50000 ttl =? 0) || (60000 <? expiry 50000 ttl)
                  then mkReply 302 (lit "http://a") [] [] else notFound), w2)).
Proof.
  pose proof demo_created_ok as R. destruct demo_created as [[r w]| |] eqn:E; [|destruct R|destruct R].
  destruct R as (Hs & _ & Ht). destruct (Tick 60000 (w_met w)) as [met| |] eqn:Et; [|discriminate Ht|discriminate Ht].
  assert (codeOK [prefix (w_st demo_world).1] = true) as Hp by (vm_compute; reflexivity).
  assert (Forall (fun b => length b = 7%nat) (rnds (demo_env 50000))) as Hl.
  { apply Forall_cons. split; [vm_compute; reflexivity|apply List.Forall_nil]. }
  pose proof (created_link_redirects true demo_conf toy_url toy_shorten toy_bulk toy_patch toy_link toy_links
    toy_float toy_oor (demo_env 50000) (demo_env 60000) (lit "http://a") [] [] [] [] [] demo_world w r met
    (wf_fresh _ _ _ _ _) Hp Hl E Hs Et) as P.
  destruct P as (p & u & code & ttl & Hd & Hu & _ & Hb & _ & Hg).
  exists r, w, code, ttl. split; [reflexivity|]. split; [exact Hb|].
  unfold toy_shorten in Hd. injection Hd as <-. injection Hu as <-. exact Hg.
Defined.

Definition half_created : go (Reply * World (Store * Disk)) :=
  half_serve (demo_env 50000) (lit "POST") p_shorten (lit "http://a") [] [] demo_world.

(** Half a millisecond is forever. *)
Lemma created_link_lifetime_witness :
  exists r w code l, half_created = Ret (r, w) /\ Body r = shorten_body code /\ Stats code (w_st w).1 = Some l
    /\ ExpiresAt l = None.
Proof.
  assert (status_of half_created = 201) as Hs by (vm_compute; reflexivity).
  destruct half_created as [[r w]| |] eqn:E; [|discriminate Hs|discriminate Hs].
  pose proof (created_link_lifetime true demo_conf toy_url half_shorten toy_bulk toy_patch toy_link toy_links
    toy_float toy_oor (demo_env 50000) (lit "http://a") [] [] demo_world w r (wf_fresh _ _ _ _ _)
    ltac:(vm_compute; discriminate) ltac:(vm_compute; discriminate) ltac:(vm_compute; reflexivity) E Hs) as P.
  destruct P as (p & code & l & Hp & Hb & Hl & He).
  exists r, w, code, l. split; [reflexivity|]. split; [exact Hb|]. split; [exact Hl|].
  rewrite He. unfold half_shorten in Hp. injection Hp as <-. vm_compute. reflexivity.
Defined.

Lemma serve_panics_iff_witness :
  exists s d, Store.New no_proc 1 0 ∅ = Ret (inl s, d)
    /\ toy_serve (demo_env 50000) (lit "GET") (lit "?x=1") [] [] [] (boot 50000 (f64_of_Z 0) (f64_of_Z 0) (s, d)) = Panic.
Proof.
  destruct (New_empty no_proc 1 0 demo_instance) as (s & d & E & K). exists s, d. split; [exact E|].
  apply (serve_panics_iff true demo_conf toy_url toy_shorten toy_bulk toy_patch toy_link toy_links
    toy_float toy_oor true 0).
  - exact K.
  - split; [reflexivity|vm_compute; discriminate].
  - intros q. change (Z.of_nat (length (all_links q s)) < 2 ^ 62). assert (all_links q s = []) as ->; [|vm_compute; reflexivity].
    destruct K as [(snap & log & Hdu) _]. pose proof (all_links_spec q s (sa_wf _ (du_sane _ _ _ _ _ Hdu))) as [_ Hel].
    destruct (all_links q s) as [|l ls]; [reflexivity|exfalso].
    destruct (proj1 (Hel l)) as (c & e & He & _); [by left|].
    pose proof (New_empty_index no_proc 1 0 s d demo_instance E c) as Hn. congruence.
  - vm_compute. discriminate.
  - vm_compute. discriminate.
  - split; [reflexivity|]. right. exists (lit "x=1"). reflexivity.
Defined.
