(* ===== verification/Workers.v ===== *)
(** * Workers: the service as WORKERS=n deploys it

    Processes of one data directory behind one port: each has its own store,
    counters and rate limiter, the kernel gives every connection to one of them,
    and their timers run on their own. Each step of such a run is one step of
    [Cluster] on the stores and the directory, or none; so what is proved there
    holds of the answers clients get, whichever process answers. *)

From stdpp Require Import functions.
From S2P Require Import Prelude GoStd Float Base62 LogLine Aof Store StoreSpec StoreRead Replay Alone Sibling.
From S2P Require Import Queue Durable Restart Trace Session Views Member Cluster ClusterProps RateLimit Metrics.
From S2P Require Import Query Api App AppSpec AppProps.
From stdpp Require Import options.

Inductive wev :=
| WStart (k start : Z)           (* a worker with INSTANCE=k starts *)
| WStop (k : Z)
| WKill (k : Z)
| WTick (k : Z) (o : sop)        (* one of its timers *)
| WReq (k : Z) (q : Request).    (* it serves a request *)

Section Workers.
Context `{MapOrder} `{SliceSort} (home : bytes -> Z) `{HH : !Homes home} (trackHits : bool) (cf : Conf).
Context (url_Parse : bytes -> option (bytes * bytes))
        (sonic_shorten : bytes -> option shortenReq)
        (sonic_bulk : bytes -> option (list bytes))
        (sonic_patch : bytes -> option patchReq)
        (sonic_link : Link -> bytes)
        (sonic_links : list Link -> Z -> bytes)
        (AppendFloat : float64 -> bytes)
        (int64_oor : float64 -> Z)
        (rate burst : float64).

#[local] Abbreviation wserve := (AppSpec.serve trackHits cf url_Parse sonic_shorten sonic_bulk sonic_patch sonic_link
  sonic_links AppendFloat int64_oor).

(** A worker before the directory as it finds it. *)
Definition facing (w : World Store) (d : Disk) : World (Store * Disk) :=
  mkWorld (w_st w, d) (w_met w) (w_rl w) (w_limited w).
Definition worker_of (w : World (Store * Disk)) : World Store :=
  mkWorld (w_st w).1 (w_met w) (w_rl w) (w_limited w).

Definition work_step (ev : wev) (c : gmap Z (World Store) * Disk) : go (gmap Z (World Store) * Disk) :=
  let '(ws, d) := c in
  match ev with
  | WStart k start =>
      match ws !! k with
      | Some _ => Ret (ws, d)
      | None =>
          let* (r, d') := Store.New (fun _ => false) 0 k d in
          Ret (match r with inl s => <[k := worker_of (boot start rate burst (s, d'))]> ws | inr _ => ws end, d')
      end
  | WStop k => match ws !! k with Some w => Ret (delete k ws, (Store.Close (w_st w) d).2) | None => Ret (ws, d) end
  | WKill k => Ret (delete k ws, d)
  | WTick k o =>
      match ws !! k with
      | Some w => let* sd := sstep o (w_st w, d) in Ret (<[k := worker_of (set_st sd (facing w d))]> ws, sd.2)
      | None => Ret (ws, d)
      end
  | WReq k q =>
      match ws !! k with
      | Some w =>
          let* (_, w') := wserve (q_env q) (q_method q) (q_path q) (q_body q) (q_token q) (q_client q) (facing w d) in
          Ret (<[k := worker_of w']> ws, (w_st w').2)
      | None => Ret (ws, d)
      end
  end.

Definition work_run (evs : list wev) : go (gmap Z (World Store) * Disk) := go_fold work_step evs (∅, ∅).

(** What a request at worker [k] brings: a clock within int64, random bytes as
    the source draws them, and an alias only where the alias is at home. *)
Definition request_ok (k : Z) (q : Request) : Prop :=
  is_int64 (n_st (q_env q)) /\ Forall draw (rnds (q_env q))
  /\ (forall us, sonic_bulk (q_body q) = Some us -> length (rnd (q_env q)) = (length us * (codeLen - 1))%nat)
  /\ (forall p a, sonic_shorten (q_body q) = Some p -> s_Alias p = Some a -> codeOK a = true -> home a = k).

Definition wev_ok (ev : wev) : Prop :=
  match ev with
  | WStart k _ => 0 <= k < 62
  | WTick _ o => match o with OFlush | OSync | OPoll _ => True | _ => False end
  | WReq k q => request_ok k q
  | _ => True
  end.

(** ** Refinement *)

Lemma req_op_at (k : Z) (q : Request) (o : sop) :
  request_ok k q -> req_op sonic_shorten sonic_bulk (q_env q) (q_body q) o -> op_at home k o.
Proof.
  intros (Hn & Hd & Hb & Ha). destruct o as [u a h t n rs|us t n r rs|? ? ? ? ?|? ? ? ? ?|?| | |?| |]; cbn; try done.
  - intros (-> & -> & Hal). split; [done|]. split; [done|]. intros Hh. destruct (Hal Hh) as (Hc & p & Hp & Hpa).
    split; [by apply codeOK_ok|by eapply Ha].
  - intros (-> & -> & -> & Hs). split; [done|]. split; [by apply Hb|done].
Qed.

(** A step of a worker is at most one step of its instance. *)
Lemma work_step_node_step (ev : wev) (ws ws' : gmap Z (World Store)) (d d' : Disk) :
  wev_ok ev -> work_step ev (ws, d) = Ret (ws', d') ->
  exists cs, (length cs <= 1)%nat /\ Forall (cev_ok home) cs /\ go_fold node_step cs (w_st <$> ws, d) = Ret (w_st <$> ws', d').
Proof.
  intros Hok. destruct ev as [k start|k|k|k o|k q]; cbn [work_step].
  - destruct (ws !! k) as [w|] eqn:Ek; [intros [= <- <-]; exists []; split; [cbn; lia|by split]|].
    intros E. exists [CStart k]. split; [cbn; lia|]. split; [by apply Forall_singleton|].
    cbn [go_fold node_step]. rewrite lookup_fmap, Ek. cbn [fmap option_fmap option_map].
    destruct (Store.New _ _ _ _) as [[[s|e] d1]| |]; cbn [go_bind] in *; [| |done|done]; injection E as <- <-; [|done].
    by rewrite fmap_insert.
  - destruct (ws !! k) as [w|] eqn:Ek; [|intros [= <- <-]; exists []; split; [cbn; lia|by split]].
    intros [= <- <-]. exists [CStop k]. split; [cbn; lia|]. split; [by apply Forall_singleton|].
    cbn [go_fold node_step]. rewrite lookup_fmap, Ek. cbn [fmap option_fmap option_map]. by rewrite fmap_delete.
  - intros [= <- <-]. exists [CKill k]. split; [cbn; lia|]. split; [by apply Forall_singleton|].
    cbn [go_fold node_step go_bind]. by rewrite fmap_delete.
  - destruct (ws !! k) as [w|] eqn:Ek; [|intros [= <- <-]; exists []; split; [cbn; lia|by split]].
    destruct (sstep o (w_st w, d)) as [[s1 d1]| |] eqn:E; cbn [go_bind]; [|done|done]. intros [= <- <-].
    exists [COp k o]. split; [cbn; lia|]. split; [apply Forall_singleton; by destruct o|].
    cbn [go_fold node_step]. rewrite lookup_fmap, Ek. cbn [fmap option_fmap option_map]. rewrite E. cbn [go_bind]. by rewrite fmap_insert.
  - destruct (ws !! k) as [w|] eqn:Ek; [|intros [= <- <-]; exists []; split; [cbn; lia|by split]].
    destruct (wserve _ _ _ _ _ _ _) as [[r w']| |] eqn:E; cbn [go_bind]; [|done|done]. intros [= <- <-].
    apply serve_step in E as [E|(o & Ho & _ & E)]; cbn [facing w_st] in E.
    + exists []. split; [cbn; lia|]. split; [done|]. cbn [go_fold]. rewrite fmap_insert, E. cbn [worker_of w_st fst snd].
      rewrite insert_id; [done|]. rewrite lookup_fmap, Ek, E. done.
    + exists [COp k o]. split; [cbn; lia|]. split; [apply Forall_singleton; by eapply req_op_at|].
      cbn [go_fold node_step]. rewrite lookup_fmap, Ek. cbn [fmap option_fmap option_map]. rewrite E.
      destruct (w_st w') as [s1 d1] eqn:Ew. cbn [go_bind]. rewrite fmap_insert. cbn [worker_of w_st]. by rewrite Ew.
Qed.

Lemma work_run_app (evs evs' : list wev) : work_run (evs ++ evs') = (let* c := work_run evs in go_fold work_step evs' c).
Proof. apply go_fold_app. Qed.

(** A run of the workers is a run of the cluster, and what the cluster has been
    through, the workers have. *)
Lemma work_run_node_run (evs : list wev) (ws : gmap Z (World Store)) (d : Disk) :
  Forall wev_ok evs -> work_run evs = Ret (ws, d) ->
  exists cs, Forall (cev_ok home) cs /\ node_run cs = Ret (w_st <$> ws, d)
    /\ forall cp, cp `prefix_of` cs -> exists wp ws1 d1, wp `prefix_of` evs /\ work_run wp = Ret (ws1, d1)
         /\ node_run cp = Ret (w_st <$> ws1, d1).
Proof.
  revert ws d. induction evs as [|ev evs IH] using rev_ind; intros ws d Hok E.
  { injection E as <- <-. exists []. split; [done|]. split; [by unfold node_run; cbn; rewrite fmap_empty|].
    intros cp ->%prefix_nil_inv. exists [], ∅, ∅. split; [done|]. split; [done|]. unfold node_run. cbn. by rewrite fmap_empty. }
  apply Forall_app in Hok as [Hok Hev]. apply Forall_cons in Hev as [Hev _]. pose proof E as E0. rewrite work_run_app in E.
  destruct (work_run evs) as [[ws0 d0]| |] eqn:E1; [|done|done]. cbn [go_bind go_fold] in E.
  destruct (work_step ev (ws0, d0)) as [[ws1 d1]| |] eqn:E2; cbn [go_bind] in E; [|done|done]. injection E as -> ->.
  destruct (IH ws0 d0 Hok eq_refl) as (cs & Hcs & Ec & Hp).
  destruct (work_step_node_step ev ws0 ws d0 d Hev E2) as (cs1 & Hl & Hcs1 & Ec1).
  assert (node_run (cs ++ cs1) = Ret (w_st <$> ws, d)) as Ec'.
  { rewrite node_run_app, Ec. exact Ec1. }
  exists (cs ++ cs1). split; [by apply Forall_app|]. split; [exact Ec'|]. intros cp Hcp.
  assert (cp `prefix_of` cs \/ cp = cs ++ cs1) as [Hcp'| ->].
  { destruct (prefix_weak_total cp cs (cs ++ cs1) Hcp) as [?|[zs ->]]; [by apply prefix_app_r|by left|].
    apply prefix_app_inv in Hcp. destruct cs1 as [|c [|c' cs1]]; [|..|cbn in Hl; lia].
    - apply prefix_nil_inv in Hcp as ->. right. done.
    - destruct zs as [|z zs]; [left; by rewrite app_nil_r|]. right. destruct Hcp as [ys Ey]. injection Ey as -> Ey.
      symmetry in Ey. apply app_nil in Ey as [-> _]. done. }
  - destruct (Hp cp Hcp') as (wp & ws1 & d1 & Hwp & Hw1). exists wp, ws1, d1. split; [|exact Hw1].
    etransitivity; [exact Hwp|by apply prefix_app_r].
  - exists (evs ++ [ev]), ws, d. done.
Qed.

(** ** What clients see *)

(** C4: in any deployment run (workers starting, stopping and dying, their timers,
    any requests at any of them in any order, each alias posted at its home only),
    a GET of a code other than "metrics" that is answered with a redirect was right at the code's home: at some time of the run the
    home was up and its index held a link under the code with that target, not
    expired at the time of the request. *)
Theorem workers_answer_from_home (evs : list wev) (k : Z) (ev : Env) (code body token client : bytes)
  (ws : gmap Z (World Store)) (d : Disk) (w : World Store) (r : Reply) (w' : World (Store * Disk))
  (Hok : Forall wev_ok evs) (Hrun : work_run evs = Ret (ws, d)) (Hw : ws !! k = Some w)
  (Hcode : codeOK code = true) (Hm : code <> lit "metrics")
  (Hget : wserve ev (lit "GET") (x2f :: code) body token client (facing w d) = Ret (r, w')) (Hr : r_Status r = 302) :
  exists evs1 ws1 d1 w1 e, evs1 `prefix_of` evs /\ work_run evs1 = Ret (ws1, d1) /\ ws1 !! home code = Some w1
    /\ index (w_st w1) code = Some e /\ r = mkReply 302 (e_u e) [] [] /\ live e (n_st ev) = true.
Proof using Type* HH.
  destruct (work_run_node_run evs ws d Hok Hrun) as (cs & Hcs & Ec & Hp).
  pose proof (engine_get_resolves trackHits cf url_Parse sonic_shorten sonic_bulk sonic_patch sonic_link sonic_links AppendFloat int64_oor
    ev code token client body (facing w d) Hcode Hm) as G. rewrite Hget in G. destruct G as (o & s' & Er & -> & _).
  destruct o as [u|]; [|done]. cbn [facing w_st fst snd] in Er.
  pose proof (home_answers home cs k trackHits code (n_p1 ev) (n_p2 ev) (n_st ev) Hcs) as A. rewrite Ec in A.
  assert ((w_st <$> ws) !! k = Some (w_st w)) as Ek by (by rewrite lookup_fmap, Hw). specialize (A _ Ek). rewrite Er in A.
  destruct A as (cs1 & ms1 & d1 & s1 & e & Hpre & Er1 & Hs1 & He & <- & Hl).
  destruct (Hp cs1 Hpre) as (wp & ws1 & d2 & Hwp & Hw1 & Ec1). rewrite Er1 in Ec1. injection Ec1 as -> ->.
  rewrite lookup_fmap in Hs1. apply fmap_Some in Hs1 as (w1 & Hw1' & ->). exists wp, ws1, d2, w1, e. done.
Qed.

(** C5: what is flushed is served by all. At any point of a deployment run, let
    the worker [j] at home of a code flush. Then another worker [k] that does not
    have the code (new links, for it) answers a GET of it like [j] itself: with a
    redirect to the target of the link [j] holds, and 404 when [j] holds none or
    it has expired - provided the code's first character names [j], or the last
    poll of [k] is at least 200 ms ago; before that an alias whose first
    character names another worker may still be 404 at [k]. The code is not
    "metrics", and each alias is posted at its home only ([wev_ok]). *)
Theorem flushed_link_on_every_worker (evs : list wev) (j k : Z) (ev : Env) (code body token client : bytes)
  (ws : gmap Z (World Store)) (d : Disk) (w h : World Store) (r : Reply) (w' : World (Store * Disk))
  (Hok : Forall wev_ok evs) (Hrun : work_run (evs ++ [WTick j OFlush]) = Ret (ws, d))
  (Hj : home code = j) (Hkj : k <> j) (Hw : ws !! k = Some w) (Hh : ws !! j = Some h)
  (Hcode : codeOK code = true) (Hm : code <> lit "metrics") (Hnew : index (w_st w) code = None)
  (Hlook : (exists p rest, code = p :: rest /\ alpha_index p = j) \/ tailMinInterval <= int64 (n_p1 ev - lastPoll (w_st w)))
  (Hget : wserve ev (lit "GET") (x2f :: code) body token client (facing w d) = Ret (r, w')) :
  let reply := match answer (index (w_st h) code) (n_st ev) with Some u => mkReply 302 u [] [] | None => notFound end in
  r = reply
  /\ forall ev' body' token' client' r' h', n_st ev' = n_st ev ->
     wserve ev' (lit "GET") (x2f :: code) body' token' client' (facing h d) = Ret (r', h') -> r' = reply.
Proof using Type* HH.
  destruct (work_run_node_run (evs ++ [WTick j OFlush]) ws d) as (cs & Hcs & Ec & _); [apply Forall_app; split; [done|by apply Forall_singleton]|exact Hrun|].
  assert (forall k w, ws !! k = Some w -> (w_st <$> ws) !! k = Some (w_st w)) as Hst by (intros ? ? E; by rewrite lookup_fmap, E).
  rewrite work_run_app in Hrun. destruct (work_run evs) as [[ws0 d0]| |] eqn:E0; [|done|done]. cbn [go_bind go_fold work_step] in Hrun.
  destruct (work_run_node_run evs ws0 d0 Hok E0) as (cs0 & Hcs0 & Ec0 & _).
  assert (exists h0, ws0 !! j = Some h0 /\ d = (Flush (w_st h0) d0).2 /\ ws0 !! k = Some w
    /\ w_st h = (Flush (w_st h0) d0).1) as (h0 & Hh0 & Ed & Hw0 & Eh).
  { destruct (ws0 !! j) as [h0|] eqn:Eh0.
    2: { injection Hrun as <- <-. congruence. }
    cbn [sstep go_bind] in Hrun. destruct (Flush (w_st h0) d0) as [s1 d1] eqn:Efl. injection Hrun as <- <-.
    rewrite lookup_insert_eq in Hh. rewrite lookup_insert_ne in Hw by congruence. injection Hh as <-. exists h0. by rewrite Efl. }
  assert (forall k w, ws0 !! k = Some w -> (w_st <$> ws0) !! k = Some (w_st w)) as Hst0 by (intros ? ? E; by rewrite lookup_fmap, E).
  pose proof (flushed_visible home cs0 k j trackHits code (n_p1 ev) (n_p2 ev) (n_st ev) Hcs0 Hj Hkj) as V. rewrite Ec0 in V.
  destruct (V _ _ (Hst0 _ _ Hw0) (Hst0 _ _ Hh0)) as (Hidx & V1 & _). destruct (V1 Hnew Hlook) as [s1 Er]. cbv zeta.
  pose proof (engine_get_resolves trackHits cf url_Parse sonic_shorten sonic_bulk sonic_patch sonic_link sonic_links AppendFloat int64_oor) as G.
  split.
  - specialize (G ev code token client body (facing w d) Hcode Hm). rewrite Hget in G. destruct G as (o & s' & Eo & -> & _).
    cbn [facing w_st fst snd] in Eo. rewrite Ed, Er in Eo. injection Eo as <- _. rewrite Eh, (Hidx code). done.
  - intros ev' body' token' client' r' h' En E'. specialize (G ev' code token' client' body' (facing h d) Hcode Hm). rewrite E' in G.
    destruct G as (o & s' & Eo & -> & _). cbn [facing w_st fst snd] in Eo.
    pose proof (home_own_answer home cs j trackHits code (n_p1 ev') (n_p2 ev') (n_st ev') Hcs Hj) as A. rewrite Ec in A.
    destruct (A _ (Hst _ _ Hh)) as [s2 E2]. rewrite E2 in Eo. injection Eo as <- _. by rewrite En.
Qed.

End Workers.

(** * Witnesses

    Two workers; a link is posted at worker 1. *)

Definition two_workers : list wev := [WStart 0 50000; WStart 1 50000; WReq 1 demo_post].

#[local] Abbreviation toy_run := (work_run true demo_conf toy_url toy_shorten toy_bulk toy_patch toy_link toy_links toy_float
  toy_oor (f64_of_Z 0) (f64_of_Z 0)).
#[local] Abbreviation toy_get := (AppSpec.serve true demo_conf toy_url toy_shorten toy_bulk toy_patch toy_link toy_links
  toy_float toy_oor (demo_env 51000) (lit "GET") (lit "/1ABCDEFG") [] [] []).

Lemma two_workers_ok : Forall (wev_ok cluster_home toy_shorten toy_bulk) two_workers.
Proof.
  unfold two_workers. apply Forall_cons. split; [cbn; lia|]. apply Forall_cons. split; [cbn; lia|]. apply Forall_singleton.
  split; [by vm_compute|]. split; [by apply Forall_singleton|]. split; [done|]. intros p a [= <-]. done.
Defined.

(** What the run comes to: the link is at worker 1, worker 0 does not have it,
    and its GET is a redirect. *)
Definition two_workers_check (evs : list wev) : Prop :=
  match toy_run evs with
  | Ret (ws, d) =>
      match ws !! 0, ws !! 1 with
      | Some w, Some h =>
          index (w_st w) (lit "1ABCDEFG") = None /\ answer (index (w_st h) (lit "1ABCDEFG")) 51000 = Some (lit "http://a")
          /\ match toy_get (facing w d) with Ret (r, _) => r_Status r = 302 | _ => False end
      | _, _ => False
      end
  | _ => False
  end.

Lemma workers_answer_from_home_witness :
  exists ws d w r w', toy_run (two_workers ++ [WTick 1 OFlush]) = Ret (ws, d) /\ ws !! 0 = Some w
    /\ toy_get (facing w d) = Ret (r, w')
    /\ exists evs1 ws1 d1 w1 e, evs1 `prefix_of` two_workers ++ [WTick 1 OFlush] /\ toy_run evs1 = Ret (ws1, d1)
         /\ ws1 !! 1 = Some w1 /\ index (w_st w1) (lit "1ABCDEFG") = Some e /\ r = mkReply 302 (e_u e) [] [].
Proof.
  assert (two_workers_check (two_workers ++ [WTick 1 OFlush])) as R by (vm_compute; repeat split; reflexivity).
  unfold two_workers_check in R. destruct (toy_run (two_workers ++ [WTick 1 OFlush])) as [[ws d]| |] eqn:E; [|destruct R|destruct R].
  destruct (ws !! 0) as [w|] eqn:Ew; [|destruct R]. destruct (ws !! 1) as [h|] eqn:Eh; [|destruct R].
  destruct R as (_ & _ & R).
  destruct (toy_get (facing w d)) as [[r w']| |] eqn:Eg; [|destruct R|destruct R].
  destruct (workers_answer_from_home cluster_home true demo_conf toy_url toy_shorten toy_bulk toy_patch toy_link toy_links
    toy_float toy_oor (f64_of_Z 0) (f64_of_Z 0) (two_workers ++ [WTick 1 OFlush]) 0 (demo_env 51000) (lit "1ABCDEFG") [] [] []
    ws d w r w') as (evs1 & ws1 & d1 & w1 & e & H1 & H2 & H3 & H4 & H5 & _).
  - apply Forall_app. split; [exact two_workers_ok|]. apply Forall_singleton. exact I.
  - exact E.
  - exact Ew.
  - reflexivity.
  - discriminate.
  - exact Eg.
  - exact R.
  - exists ws, d, w, r, w'. split; [reflexivity|]. split; [exact Ew|]. split; [exact Eg|].
    exists evs1, ws1, d1, w1, e. split; [exact H1|]. split; [exact H2|]. split; [exact H3|]. split; [exact H4|exact H5].
Defined.

Lemma flushed_link_on_every_worker_witness :
  exists ws d w r w', toy_run (two_workers ++ [WTick 1 OFlush]) = Ret (ws, d) /\ ws !! 0 = Some w
    /\ index (w_st w) (lit "1ABCDEFG") = None
    /\ toy_get (facing w d) = Ret (r, w') /\ r = mkReply 302 (lit "http://a") [] [].
Proof.
  assert (two_workers_check (two_workers ++ [WTick 1 OFlush])) as R by (vm_compute; repeat split; reflexivity).
  unfold two_workers_check in R. destruct (toy_run (two_workers ++ [WTick 1 OFlush])) as [[ws d]| |] eqn:E; [|destruct R|destruct R].
  destruct (ws !! 0) as [w|] eqn:Ew; [|destruct R]. destruct (ws !! 1) as [h|] eqn:Eh; [|destruct R].
  destruct R as (Rn & Ra & R).
  destruct (toy_get (facing w d)) as [[r w']| |] eqn:Eg; [|destruct R|destruct R].
  destruct (flushed_link_on_every_worker cluster_home true demo_conf toy_url toy_shorten toy_bulk toy_patch toy_link toy_links
    toy_float toy_oor (f64_of_Z 0) (f64_of_Z 0) two_workers 1 0 (demo_env 51000) (lit "1ABCDEFG") [] [] [] ws d w h r w') as [P _].
  - exact two_workers_ok.
  - exact E.
  - reflexivity.
  - discriminate.
  - exact Ew.
  - exact Eh.
  - reflexivity.
  - discriminate.
  - exact Rn.
  - left. exists x31, (lit "ABCDEFG"). split; reflexivity.
  - exact Eg.
  - exists ws, d, w, r, w'. split; [reflexivity|]. split; [exact Ew|]. split; [exact Rn|]. split; [exact Eg|].
    change (n_st (demo_env 51000)) with 51000 in P. rewrite Ra in P. exact P.
Defined.
