(* ===== verification/Batch.v ===== *)
(** * Batch: what a batch leaves in a map of rows

    [files mk ts ps f f'] says that the rows [f'] are the rows [f] with those of
    a batch [ps] of urls and their codes: each code had no row, and has one now
    made for one of the urls that were given it, at one of the times [ts]. The
    relation composes, which is how the retries of a batch join its first pass. *)

From S2P Require Import Prelude.
From stdpp Require Import options.

Section Files.
Context {V : Type} (mk : Z -> bytes -> V) (ts : Z -> Prop).

Definition files (ps : list (bytes * bytes)) (f f' : bytes -> option V) : Prop :=
  (forall u c, (u, c) ∈ ps -> f c = None)
  /\ forall x, ((x ∉ ps.*2) /\ f' x = f x) \/ (exists u t, (u, x) ∈ ps /\ ts t /\ f' x = Some (mk t u)).

Lemma files_nil (f f' : bytes -> option V) : (forall x, f' x = f x) -> files [] f f'.
Proof. intros Hf. split; [by intros u c ?%not_elem_of_nil|]. intros x. left. split; [apply not_elem_of_nil|done]. Qed.

Lemma files_one (u c : bytes) (t : Z) (f f' : bytes -> option V) :
  ts t -> f c = None -> (forall x, f' x = if decide (c = x) then Some (mk t u) else f x) -> files [(u, c)] f f'.
Proof.
  intros Ht Hc Hf. split; [by intros u' c' [= -> ->]%list_elem_of_singleton|]. intros x. rewrite Hf. case_decide as E.
  - right. exists u, t. subst. split; [by left|done].
  - left. split; [|done]. intros [= ->]%list_elem_of_singleton. done.
Qed.

Lemma files_equiv (ps ps' : list (bytes * bytes)) (f f' : bytes -> option V) :
  (forall p, p ∈ ps <-> p ∈ ps') -> files ps f f' -> files ps' f f'.
Proof.
  intros He [Hn Hf]. split; [intros u c Hin; by eapply Hn, He|]. intros x. destruct (Hf x) as [[Hx E]|(u & t & Hin & P)].
  - left. split; [|done]. intros (p & -> & Hp)%list_elem_of_fmap. apply Hx, list_elem_of_fmap. exists p. by rewrite He.
  - right. exists u, t. by rewrite <- He.
Qed.

(** Codes drawn for the second batch were free after the first. *)
Lemma files_app (ps ps' : list (bytes * bytes)) (f f1 f' : bytes -> option V) :
  files ps f f1 -> files ps' f1 f' -> files (ps ++ ps') f f'.
Proof.
  intros [Hn Hf] [Hn' Hf'].
  assert (forall x, f1 x = None -> (x ∉ ps.*2) /\ f1 x = f x) as Hfree.
  { intros x Hx. destruct (Hf x) as [?|(u & t & _ & _ & E)]; [done|congruence]. }
  split.
  - intros u c [Hin|Hin]%elem_of_app; [by eapply Hn|]. destruct (Hfree c) as [_ <-]; by eapply Hn'.
  - intros x. destruct (Hf' x) as [[Hx' E']|(u & t & Hin & P)].
    + rewrite E'. destruct (Hf x) as [[Hx E]|(u & t & Hin & P)].
      * left. split; [|done]. rewrite fmap_app. by intros [?|?]%elem_of_app.
      * right. exists u, t. rewrite elem_of_app. split; [by left|done].
    + right. exists u, t. rewrite elem_of_app. split; [by right|done].
Qed.

Lemma files_codes_none (ps : list (bytes * bytes)) (f f' : bytes -> option V) (c : bytes) :
  files ps f f' -> c ∈ ps.*2 -> f c = None.
Proof. intros [Hn _] ([u c'] & -> & Hin)%list_elem_of_fmap. by eapply Hn. Qed.

End Files.

Lemma files_weaken {V : Type} (mk : Z -> bytes -> V) (ts ts' : Z -> Prop) (ps : list (bytes * bytes))
    (f f' : bytes -> option V) :
  (forall t, ts t -> ts' t) -> files mk ts ps f f' -> files mk ts' ps f f'.
Proof.
  intros Ht [Hn Hf]. split; [done|]. intros x. destruct (Hf x) as [?|(u & t & ? & ? & ?)]; [by left|right].
  exists u, t. auto.
Qed.

(** The pairs of a first pass that were accepted. *)
Definition accepted (l : list (bytes * bytes * bool)) : list (bytes * bytes) :=
  omap (fun x => if (x.2 : bool) then Some x.1 else None) l.

(** The rows may be read through a function that keeps what they hold. *)
Lemma files_map {V W : Type} (mk : Z -> bytes -> V) (mk' : Z -> bytes -> W) (ts : Z -> Prop) (g : option V -> option W)
    (ps : list (bytes * bytes)) (f f' : bytes -> option V) :
  g None = None -> (forall t u, ts t -> g (Some (mk t u)) = Some (mk' t u)) ->
  files mk ts ps f f' -> files mk' ts ps (fun x => g (f x)) (fun x => g (f' x)).
Proof.
  intros Hg Hmk [Hn Hf]. split; [intros u c Hin; by rewrite (Hn u c Hin)|].
  intros x. destruct (Hf x) as [[Hx ->]|(u & t & Hin & Ht & ->)]; [by left|right]. exists u, t.
  split_and!; [done..|]. by apply Hmk.
Qed.
