(* ===== verification/Codec.v ===== *)
(** * Codec: the row values of the key-value backends

    [encVal] and [decVal] of [internal/store/kvstore.go], which the RESP and
    the Pebble stores share, and the prefixed keys. *)

From S2P Require Import Prelude GoStd Store StoreSpec.
From stdpp Require Import options.

Definition BAR : byte := x7c.
Definition v1 : bytes := Eval vm_compute in lit "v1|".

(** "v1|{e}|{c}|{u}". *)
Definition encVal (e c : Z) (u : bytes) : bytes :=
  v1 ++ itoa e ++ [BAR] ++ itoa c ++ [BAR] ++ u.

(** Expiry, creation time and url; [None] is [ok = false]. *)
Definition decVal (v : bytes) : option (Z * Z * bytes) :=
  let s := TrimPrefix v v1 in
  match cut_byte BAR s with
  | None => None
  | Some (p, rest) =>
      match ParseInt p with
      | (e, None) =>
          match cut_byte BAR rest with
          | Some (q, u) =>
              match ParseInt q with
              | (c, None) => Some (e, c, u)
              | (_, Some _) => None
              end
          | None => Some (e, 0, rest)
          end
      | (_, Some _) => None
      end
  end.

Definition lkey (code : bytes) : bytes := [x6c; x3a] ++ code.
Definition hkey (code : bytes) : bytes := [x68; x3a] ++ code.
Definition hfield (code : bytes) : bytes := [x68; x3a] ++ code.

(** ** Lemmas *)

Lemma cut_byte_app (c : byte) (a b : bytes) :
  c ∉ a -> cut_byte c (a ++ c :: b) = Some (a, b).
Proof.
  intros Hc. unfold cut_byte. rewrite break_at_app; [done| |apply byte_eqb_refl].
  apply Forall_forall. intros x Hx. apply byte_eqb_ne. intros ->. done.
Qed.

Lemma cut_byte_none (c : byte) (a : bytes) : c ∉ a -> cut_byte c a = None.
Proof.
  intros Hc. unfold cut_byte. rewrite break_at_none; [done|].
  apply Forall_forall. intros x Hx. apply byte_eqb_ne. intros ->. done.
Qed.

Lemma cut_byte_Some (c : byte) (s a b : bytes) :
  cut_byte c s = Some (a, b) -> s = a ++ c :: b /\ c ∉ a.
Proof.
  unfold cut_byte. destruct (break_at _ s) as [x y] eqn:E. destruct y as [|d y]; [done|].
  intros [= <- <-]. pose proof (break_at_head _ _ _ _ _ E) as Hd.
  destruct (byte_eqb_spec c d) as [<-|]; [|done]. split; [by apply break_at_split in E|].
  intros Hin. apply break_at_before in E. rewrite Forall_forall in E. specialize (E _ Hin).
  by rewrite byte_eqb_refl in E.
Qed.

(** A number holds no separator. *)
Lemma itoa_not_elem (z : Z) (c : byte) : is_digit c = false -> c <> x2d -> c ∉ itoa z.
Proof.
  intros Hd Hm Hin. pose proof (itoa_numeric z) as Hn. rewrite Forall_forall in Hn.
  destruct (Hn _ Hin); congruence.
Qed.

Lemma TrimPrefix_app (p s : bytes) : TrimPrefix (p ++ s) p = s.
Proof. unfold TrimPrefix. by rewrite CutPrefix_app. Qed.

Lemma TrimPrefix_none (s p : bytes) : HasPrefix s p = false -> TrimPrefix s p = s.
Proof. unfold TrimPrefix, CutPrefix. by intros ->. Qed.

Lemma itoa_no_v1 (z : Z) (s : bytes) : HasPrefix (itoa z ++ s) v1 = false.
Proof.
  unfold itoa. destruct (z <? 0) eqn:Ez; [done|].
  destruct (itoa_head_digit z) as (c & t & -> & Hc); [lia|]. cbn [HasPrefix app v1].
  rewrite byte_eqb_ne; [done|]. intros <-. discriminate Hc.
Qed.

(** Every value written decodes to the fields it was made of, whatever bytes
    the url holds. *)
Lemma decVal_enc (e c : Z) (u : bytes) :
  is_int64 e -> is_int64 c -> decVal (encVal e c u) = Some (e, c, u).
Proof.
  intros He Hc. unfold decVal, encVal. rewrite TrimPrefix_app. cbn [app].
  rewrite cut_byte_app by by apply itoa_not_elem. rewrite ParseInt_itoa by done.
  rewrite cut_byte_app by by apply itoa_not_elem. by rewrite ParseInt_itoa.
Qed.

Lemma decVal_range (v : bytes) (e c : Z) (u : bytes) :
  decVal v = Some (e, c, u) -> is_int64 e /\ is_int64 c.
Proof.
  unfold decVal. destruct (cut_byte BAR _) as [[p rest]|]; [|done].
  destruct (ParseInt p) as [e' [?|]] eqn:Ee; [done|]. apply ParseInt_range in Ee.
  destruct (cut_byte BAR rest) as [[q u']|].
  - destruct (ParseInt q) as [c' [?|]] eqn:Ec; [done|]. apply ParseInt_range in Ec.
    intros [= <- <- <-]. by split.
  - intros [= <- <- <-]. split; [done|unfold is_int64; lia].
Qed.

(** What a row means at time [now]: the target of a link that has not expired. *)
Definition live_row (now : Z) (o : option (option bytes)) : option (bytes * Z) :=
  match o with
  | Some (Some v) =>
      match decVal v with
      | Some (e, _, u) => if negb (e =? 0) && (e <=? now) then None else Some (u, e)
      | None => None
      end
  | _ => None
  end.

Lemma live_row_enc (now t ttlMs : Z) (u : bytes) :
  is_int64 t -> is_int64 (expiry t ttlMs) -> expiry t ttlMs = 0 \/ now < expiry t ttlMs ->
  live_row now (Some (Some (encVal (expiry t ttlMs) t u))) = Some (u, expiry t ttlMs).
Proof.
  intros Ht He Hl. unfold live_row. rewrite decVal_enc by done.
  replace (negb _ && _) with false; [done|]. symmetry. apply andb_false_iff. destruct Hl as [->|Hl]; [by left|].
  right. lia.
Qed.

(** the value codec is exact: a row decodes to the fields it was written
    with, whatever bytes its url holds, and any value that decodes at all, old
    formats included, is rewritten by [encVal] to one that decodes the same. *)
Theorem decVal_roundtrip (v : bytes) (e c : Z) (u : bytes) :
  (is_int64 e -> is_int64 c -> decVal (encVal e c u) = Some (e, c, u))
  /\ (decVal v = Some (e, c, u) -> decVal (encVal e c u) = Some (e, c, u)).
Proof.
  split; [apply decVal_enc|]. intros Hv. destruct (decVal_range _ _ _ _ Hv). by apply decVal_enc.
Qed.

(** the values older versions wrote: "{e}|{c}|{u}" keeps its creation
    time; "{e}|{u}" gets 0 if the url holds no bar, and is not decoded, so the
    link is lost, if it holds one after anything but a number. *)
Theorem decVal_legacy (e c : Z) (u t : bytes) :
  is_int64 e -> is_int64 c -> BAR ∉ u -> (ParseInt u).2 <> None ->
  decVal (itoa e ++ [BAR] ++ itoa c ++ [BAR] ++ u) = Some (e, c, u)
  /\ decVal (itoa e ++ [BAR] ++ u) = Some (e, 0, u)
  /\ decVal (itoa e ++ [BAR] ++ u ++ [BAR] ++ t) = None.
Proof.
  intros He Hc Hu Hn. unfold decVal. rewrite !TrimPrefix_none by apply itoa_no_v1. cbn [app].
  rewrite !cut_byte_app by by apply itoa_not_elem. rewrite !ParseInt_itoa by done.
  split_and!.
  - done.
  - by rewrite cut_byte_none.
  - rewrite cut_byte_app by done. by destruct (ParseInt u) as [n [?|]].
Qed.

Definition demo_url : bytes := Eval vm_compute in lit "http://h/".

Lemma decVal_roundtrip_witness :
  decVal (encVal 5 7 (demo_url ++ [BAR; BAR])) = Some (5, 7, demo_url ++ [BAR; BAR])
  /\ decVal (encVal 5 0 demo_url) = Some (5, 0, demo_url).
Proof.
  destruct (decVal_roundtrip [] 5 7 (demo_url ++ [BAR; BAR])) as [P _].
  destruct (decVal_roundtrip ([x35; BAR] ++ demo_url) 5 0 demo_url) as [_ Q].
  split; [apply P; unfold is_int64; lia|apply Q; reflexivity].
Defined.

Lemma decVal_legacy_witness :
  decVal (itoa 5 ++ [BAR] ++ itoa 7 ++ [BAR] ++ demo_url) = Some (5, 7, demo_url)
  /\ decVal (itoa 5 ++ [BAR] ++ demo_url) = Some (5, 0, demo_url)
  /\ decVal (itoa 5 ++ [BAR] ++ demo_url ++ [BAR] ++ [x31]) = None.
Proof.
  apply (decVal_legacy 5 7 demo_url [x31]); [unfold is_int64; lia|unfold is_int64; lia| |done].
  apply (bool_decide_unpack (BAR ∉ demo_url)). vm_compute. exact I.
Defined.
