(* ===== verification/Url.v ===== *)
(** * Url: [net/url] as [std.go] meets it

    net/http parses the target of a request line by [url.ParseRequestURI] before
    it calls the handler, and refuses the request itself (400) when that fails;
    [std.go:35] then prints the URL again by [URL.RequestURI]. The user and host
    of an absolute target play no part in what is printed; whether an authority
    is accepted changes with the version of Go and is a parameter. *)

From S2P Require Import Prelude GoStd Codec.
From stdpp Require Import options.

(** The fields of [url.URL] that [RequestURI] reads. *)
Record URL := mkURL {
  u_Scheme : bytes; u_Opaque : bytes; u_Path : bytes; u_RawPath : bytes;
  u_ForceQuery : bool; u_RawQuery : bytes
}.

Definition ascii_letter (c : byte) : bool :=
  ((97 <=? bZ c) && (bZ c <=? 122)) || ((65 <=? bZ c) && (bZ c <=? 90)).

Definition lower_byte (c : byte) : byte :=
  if (65 <=? bZ c) && (bZ c <=? 90) then bofZ (bZ c + 32) else c.

(** ** Escapes in a path *)

(** [shouldEscape(c, encodePath)]. *)
Definition shouldEscape (c : byte) : bool :=
  negb (ascii_letter c || is_digit c || bool_decide (c ∈ lit "-_.~$&+,/:;=@")).

(** [validEncoded(s, encodePath)]. *)
Definition validEncoded (s : bytes) : bool :=
  forallb (fun c => bool_decide (c ∈ lit "!$&'()*+,;=:@[]%") || negb (shouldEscape c)) s.

Definition hexval (c : byte) : option Z :=
  match digit_val c with Some v => if v <? 16 then Some v else None | None => None end.

(** [unescape(s, encodePath)]; [None] is its error. *)
Fixpoint path_unescape (s : bytes) : option bytes :=
  match s with
  | [] => Some []
  | c :: s' =>
      if c =b x25 then
        match s' with
        | h :: l :: s'' =>
            match hexval h, hexval l with
            | Some a, Some b => cons (bofZ (16 * a + b)) <$> path_unescape s''
            | _, _ => None
            end
        | _ => None
        end
      else cons c <$> path_unescape s'
  end.

Definition upperhex (v : Z) : byte := if v <? 10 then digit v else bofZ (55 + v).

(** [escape(s, encodePath)]. *)
Definition path_escape (s : bytes) : bytes :=
  concat (map (fun c => if shouldEscape c then [x25; upperhex (bZ c / 16); upperhex (bZ c mod 16)] else [c]) s).

(** ** Parsing and printing *)

(** [getScheme]: the scheme and what follows its colon. *)
Fixpoint scheme_loop (first : bool) (rawURL s : bytes) (acc : bytes) : option (bytes * bytes) :=
  match s with
  | [] => Some ([], rawURL)
  | c :: s' =>
      if ascii_letter c then scheme_loop false rawURL s' (acc ++ [c])
      else if is_digit c || bool_decide (c ∈ lit "+-.") then
        if first then Some ([], rawURL) else scheme_loop false rawURL s' (acc ++ [c])
      else if c =b x3a then if first then None else Some (acc, s')
      else Some ([], rawURL)
  end.

Definition getScheme (rawURL : bytes) : option (bytes * bytes) := scheme_loop true rawURL rawURL [].

(** [strings.Count] of one byte. *)
Definition count_byte (c : byte) (s : bytes) : nat := length (List.filter (Byte.eqb c) s).

(** The path, [ForceQuery] and [RawQuery] of what follows the scheme. *)
Definition split_query (rest : bytes) : bytes * bool * bytes :=
  if HasSuffix rest [x3f] && (count_byte x3f rest =? 1)%nat then (take (length rest - 1) rest, true, [])
  else match cut_byte x3f rest with Some (p, q) => (p, false, q) | None => (rest, false, []) end.

(** [setPath] on a URL that has its other fields. *)
Definition setPath (p : bytes) (u : URL) : option URL :=
  path ← path_unescape p;
  Some (mkURL (u_Scheme u) (u_Opaque u) path (if bool_decide (p = path_escape path) then [] else p)
          (u_ForceQuery u) (u_RawQuery u)).

Definition ctl_byte (c : byte) : bool := (bZ c <? 32) || (bZ c =? 127).

(** [url.ParseRequestURI]; [None] is its error. *)
Definition ParseRequestURI (authority_ok : bytes -> bool) (rawURL : bytes) : option URL :=
  if existsb ctl_byte rawURL then None
  else if bool_decide (rawURL = []) then None
  else if bool_decide (rawURL = [x2a]) then Some (mkURL [] [] [x2a] [] false [])
  else
    '(scheme, rest) ← getScheme rawURL;
    let scheme := map lower_byte scheme in
    let '(rest, force, query) := split_query rest in
    if negb (HasPrefix rest [x2f]) then
      if negb (bool_decide (scheme = [])) then Some (mkURL scheme rest [] [] force query) else None
    else
      rest ← (if negb (bool_decide (scheme = [])) && HasPrefix rest [x2f; x2f] then
                let '(authority, rest) := break_at (Byte.eqb x2f) (drop 2 rest) in
                if authority_ok authority then Some rest else None
              else Some rest);
      setPath rest (mkURL scheme [] [] [] force query).

Definition EscapedPath (u : URL) : bytes :=
  if negb (bool_decide (u_RawPath u = [])) && validEncoded (u_RawPath u)
     && bool_decide (path_unescape (u_RawPath u) = Some (u_Path u)) then u_RawPath u
  else if bool_decide (u_Path u = [x2a]) then [x2a]
  else path_escape (u_Path u).

Definition RequestURI (u : URL) : bytes :=
  let result :=
    if bool_decide (u_Opaque u = []) then
      if bool_decide (EscapedPath u = []) then [x2f] else EscapedPath u
    else if HasPrefix (u_Opaque u) [x2f; x2f] then u_Scheme u ++ [x3a] ++ u_Opaque u else u_Opaque u in
  if u_ForceQuery u || negb (bool_decide (u_RawQuery u = [])) then result ++ [x3f] ++ u_RawQuery u else result.

(** What the handler is given for some targets: an absolute target loses its
    authority, a byte a URL may not hold is escaped, a query is kept as it is. *)
Example request_uris :
  map (fun t => RequestURI <$> ParseRequestURI (fun _ => true) (lit t))
    ["/a%2fb/[x]?q=%zz"%string; "/a?"%string; "/a??"%string; "//h/p"%string; "*"%string; "http://h"%string;
     "http://h/p?q"%string; "/a|b"%string; "mailto:x"%string; "?x"%string; "x"%string; "/%zz"%string; ""%string]
  = [Some (lit "/a%2fb/[x]?q=%zz"); Some (lit "/a?"); Some (lit "/a??"); Some (lit "//h/p"); Some (lit "*");
     Some (lit "/"); Some (lit "/p?q"); Some (lit "/a%7Cb"); Some (lit "x"); None; None; None; None].
Proof. vm_compute. reflexivity. Qed.

(** * Lemmas *)

(** The path of a target: what precedes the first question mark. *)
Definition target_path (target : bytes) : bytes :=
  match cut_byte x3f target with Some (p, _) => p | None => target end.

Lemma count_byte_app (c : byte) (s t : bytes) : count_byte c (s ++ t) = (count_byte c s + count_byte c t)%nat.
Proof. unfold count_byte. by rewrite List.filter_app, length_app. Qed.

Lemma count_byte_none (c : byte) (s : bytes) : c ∉ s -> count_byte c s = 0%nat.
Proof.
  intros Hc. unfold count_byte. induction s as [|d s IH]; [done|]. apply not_elem_of_cons in Hc as [Hd Hs].
  cbn [List.filter]. rewrite byte_eqb_ne by done. auto.
Qed.

Lemma HasSuffix_byte (s : bytes) (c : byte) : HasSuffix s [c] = true <-> exists t, s = t ++ [c].
Proof.
  unfold HasSuffix. cbn [rev app]. split.
  - intros Hs. exists (rev (tail (rev s))). destruct (rev s) as [|d t] eqn:Er; [done|].
    cbn [HasPrefix] in Hs. apply andb_true_iff in Hs as [Hs _].
    destruct (byte_eqb_spec c d) as [<-|]; [|done]. cbn [tail]. rewrite <- (rev_involutive s), Er. done.
  - intros [t ->]. rewrite rev_unit. cbn [HasPrefix]. rewrite byte_eqb_refl. by destruct (rev t).
Qed.

Lemma cut_byte_not_in (c : byte) (s : bytes) : cut_byte c s = None -> c ∉ s.
Proof.
  unfold cut_byte. induction s as [|d s IH]; [set_solver|]. cbn [break_at].
  destruct (byte_eqb_spec c d) as [|Hne]; [done|]. destruct (break_at _ s) as [a [|b r]]; [|done].
  intros _. apply not_elem_of_cons. split; [done|by apply IH].
Qed.

(** A target is its path followed by its query. *)
Lemma split_query_spec (s : bytes) :
  exists p f q, split_query s = (p, f, q) /\ p = target_path s
    /\ s = p ++ (if f || negb (bool_decide (q = [])) then [x3f] ++ q else []).
Proof.
  unfold split_query, target_path. destruct (cut_byte x3f s) as [[p q]|] eqn:E.
  - apply cut_byte_Some in E as [-> Hp]. destruct q as [|c q].
    + rewrite (proj2 (HasSuffix_byte _ _)) by eauto. rewrite count_byte_app, (count_byte_none _ _ Hp).
      change (count_byte x3f [x3f]) with 1%nat. cbn [andb Nat.add Nat.eqb].
      eexists _, _, _. split; [reflexivity|]. rewrite length_app. cbn [length].
      rewrite Nat.add_sub, take_app_length. done.
    + replace (HasSuffix _ _ && _) with false; [by eexists _, _, _|].
      symmetry. apply andb_false_iff. destruct (HasSuffix _ _) eqn:Hs; [right|by left].
      apply HasSuffix_byte in Hs as [t Ht]. apply Nat.eqb_neq.
      destruct (exists_last (l := c :: q) ltac:(done)) as (t' & d & Hl). rewrite Hl in Ht |- *.
      rewrite app_comm_cons, app_assoc in Ht. apply app_inj_tail in Ht as [_ ->].
      change (x3f :: t' ++ [x3f]) with ([x3f] ++ t' ++ [x3f]). rewrite !count_byte_app.
      change (count_byte x3f [x3f]) with 1%nat. lia.
  - replace (HasSuffix s [x3f]) with false.
    + cbn [andb]. eexists _, _, _. split; [reflexivity|]. split; [done|].
      rewrite bool_decide_true by done. cbn. by rewrite app_nil_r.
    + symmetry. apply not_true_iff_false. intros [t ->]%HasSuffix_byte. revert E.
      intros E%cut_byte_not_in. set_solver.
Qed.

(** A path of valid bytes is printed back. *)
Lemma EscapedPath_setPath (p : bytes) (u u' : URL) :
  validEncoded p = true -> head p = Some x2f -> setPath p u = Some u' -> EscapedPath u' = p.
Proof.
  unfold setPath. intros Hv Hh Hs. destruct (path_unescape p) as [path|] eqn:E; [|done].
  injection Hs as <-. unfold EscapedPath. cbn [u_RawPath u_Path].
  destruct (decide (p = path_escape path)) as [Ep|Ep].
  - rewrite (bool_decide_true (p = path_escape path)) by done. cbn [bool_decide negb andb].
    rewrite (bool_decide_true ([] = [])) by done. cbn [negb andb].
    rewrite bool_decide_false; [by symmetry|]. intros ->. rewrite Ep in Hh. vm_compute in Hh. done.
  - rewrite (bool_decide_false (p = path_escape path)) by done.
    rewrite (bool_decide_false (p = [])) by (by intros ->). rewrite Hv, bool_decide_true by done. done.
Qed.

Lemma getScheme_slash (t : bytes) : getScheme (x2f :: t) = Some ([], x2f :: t).
Proof. reflexivity. Qed.

Lemma target_path_head (c : byte) (t : bytes) : c <> x3f -> head (target_path (c :: t)) = Some c.
Proof.
  intros Hc. unfold target_path, cut_byte. cbn [break_at]. destruct (byte_eqb_spec x3f c) as [<-|].
  - done.
  - destruct (break_at _ t) as [a [|b r]]; done.
Qed.

Lemma setPath_fields (p : bytes) (u u' : URL) :
  setPath p u = Some u' ->
  u_Opaque u' = u_Opaque u /\ u_ForceQuery u' = u_ForceQuery u /\ u_RawQuery u' = u_RawQuery u.
Proof. unfold setPath. destruct (path_unescape p); [|done]. by intros [= <-]. Qed.

(** A target in origin form whose path holds only bytes a URL may hold is
    printed back as it was sent. *)
Lemma RequestURI_ParseRequestURI (authority_ok : bytes -> bool) (target : bytes) (u : URL) :
  head target = Some x2f -> validEncoded (target_path target) = true ->
  ParseRequestURI authority_ok target = Some u -> RequestURI u = target.
Proof.
  intros Hh Hv Hp. destruct target as [|c t]; [done|]. injection Hh as ->.
  unfold ParseRequestURI in Hp. destruct (existsb _ _); [done|].
  rewrite (bool_decide_false (x2f :: t = [])), (bool_decide_false (x2f :: t = [x2a])) in Hp by done.
  rewrite getScheme_slash in Hp. cbn [mbind option_bind map] in Hp.
  destruct (split_query_spec (x2f :: t)) as (p & f & q & Es & Ep & Et). rewrite Es in Hp. rewrite <- Ep in Hv.
  pose proof (target_path_head x2f t ltac:(done)) as Hp1. rewrite <- Ep in Hp1.
  destruct p as [|c p]; [done|]. injection Hp1 as ->. cbn [HasPrefix] in Hp.
  rewrite byte_eqb_refl in Hp. rewrite (bool_decide_true (@nil byte = [])) in Hp by done.
  replace (HasPrefix p []) with true in Hp by (by destruct p). cbn [negb andb mbind option_bind] in Hp.
  pose proof (EscapedPath_setPath _ _ _ Hv ltac:(done) Hp) as Ee.
  apply setPath_fields in Hp as (Eo & Ef & Eq). cbn in Eo, Ef, Eq.
  unfold RequestURI. rewrite Eo, Ef, Eq, Ee. rewrite (bool_decide_true (@nil byte = [])) by done.
  rewrite (bool_decide_false (x2f :: p = [])) by done. rewrite Et. destruct (f || _); [done|by rewrite app_nil_r].
Qed.
