(* ===== verification/Front.v ===== *)
(** * Front: the two HTTP frontends, [fast.go] and [std.go]

    Each reads a request from its server, bounds the body, derives the client
    address and writes the reply. What the servers supply (request line,
    headers, body bytes, peer address) are arguments; [net/http] hands the body
    through a limited reader, and the target as a URL it has parsed ([Url.v]),
    while fasthttp hands the bytes of the target. *)

From S2P Require Import Prelude GoStd Float Store RateLimit Metrics Api App Url.
From stdpp Require Import options.

(** The response written to the wire. *)
Record Response := mkResponse { rp_status : Z; rp_headers : list (bytes * bytes); rp_body : bytes }.

(** What the frontends have of a request. *)
Record Incoming := mkIncoming {
  in_method : bytes;
  in_target : bytes; (* the target of the request line *)
  in_uri : bytes;    (* [ctx.RequestURI()] *)
  in_url : URL;      (* [r.URL] *)
  in_body : bytes; in_token : bytes; in_xff : bytes;
  in_peer : bytes;   (* the peer's IP address, [ctx.RemoteIP().String()] *)
  in_remote : bytes  (* [r.RemoteAddr], address and port *)
}.

(** The rate-limit key of [fast.go]. *)
Definition clientIP (trustProxy : bool) (xff peer : bytes) : bytes :=
  if trustProxy && negb (bool_decide (xff = [])) then
    match cut_byte x2c xff with Some (first, _) => TrimSpace first | None => TrimSpace xff end
  else peer.

(** [strings.IndexByte] and [strings.LastIndexByte]. *)
Definition index_byte (c : byte) (s : bytes) : option nat := fst <$> list_find (c =.) s.

Definition last_index_byte (c : byte) (s : bytes) : option nat :=
  (fun i => length s - 1 - i)%nat <$> index_byte c (rev s).

(** The host of [net.SplitHostPort]; [None] for its errors. [j] and [k] are where
    the search for stray brackets starts. *)
Definition SplitHostPort (hostport : bytes) : option bytes :=
  match last_index_byte x3a hostport with
  | None => None
  | Some i =>
      let cut :=
        if bool_decide (head hostport = Some x5b) then
          match index_byte x5d hostport with
          | None => None
          | Some stop =>
              if bool_decide (S stop = i) then Some (drop 1 (take stop hostport), 1%nat, S stop) else None
          end
        else
          let host := take i hostport in
          match index_byte x3a host with Some _ => None | None => Some (host, 0%nat, 0%nat) end in
      match cut with
      | None => None
      | Some (host, j, k) =>
          match index_byte x5b (drop j hostport), index_byte x5d (drop k hostport) with
          | None, None => Some host
          | _, _ => None
          end
      end
  end.

(** How [net] prints the address of a peer. *)
Definition JoinHostPort (host port : bytes) : bytes :=
  match index_byte x3a host with
  | Some _ => [x5b] ++ host ++ [x5d; x3a] ++ port
  | None => host ++ [x3a] ++ port
  end.

(** The rate-limit key of [std.go]. *)
Definition clientIPStd (trustProxyStd : bool) (xff RemoteAddr : bytes) : bytes :=
  if trustProxyStd && negb (bool_decide (xff = [])) then
    match cut_byte x2c xff with Some (first, _) => TrimSpace first | None => TrimSpace xff end
  else match SplitHostPort RemoteAddr with Some host => host | None => RemoteAddr end.

Definition corsHeaders : list (bytes * bytes) := Eval vm_compute in
  [(lit "access-control-allow-methods", lit "GET,POST,PATCH,DELETE,OPTIONS");
   (lit "access-control-allow-headers", lit "content-type");
   (lit "access-control-max-age", lit "86400")].

Definition respond (CORSOrigin : bytes) (r : Reply) : Response :=
  let h := (lit "access-control-allow-origin", CORSOrigin) :: corsHeaders in
  if negb (bool_decide (Location r = [])) then mkResponse (r_Status r) (h ++ [(lit "location", Location r)]) []
  else mkResponse (r_Status r)
         (h ++ [(lit "content-type", if bool_decide (CType r = []) then lit "application/json" else CType r)])
         (Body r).

(** [writeStd] writes the same fields through an [http.ResponseWriter]. *)
Definition writeStd (CORSOrigin : bytes) (r : Reply) : Response :=
  let h := (lit "access-control-allow-origin", CORSOrigin) :: corsHeaders in
  if negb (bool_decide (Location r = [])) then mkResponse (r_Status r) (h ++ [(lit "location", Location r)]) []
  else
    let h := if negb (bool_decide (CType r = [])) then h ++ [(lit "content-type", CType r)]
             else h ++ [(lit "content-type", lit "application/json")] in
    mkResponse (r_Status r) h (Body r).

Definition body_limit (uri : bytes) : Z :=
  let pn := match cut_byte x3f uri with Some (a, _) => a | None => uri end in
  if bool_decide (pn = p_bulk) then MaxBulkBody else MaxBody.

Definition too_large : Reply := reply 413 (lit "{'error':'body too large'}").

Definition has_body (method : bytes) : bool :=
  bool_decide (method = lit "POST") || bool_decide (method = lit "PATCH").

(** ** Addresses *)

Lemma index_byte_none (c : byte) (s : bytes) : index_byte c s = None <-> c ∉ s.
Proof.
  unfold index_byte. rewrite fmap_None, list_find_None, Forall_forall. split; [|naive_solver].
  intros Hs Hc. by apply (Hs c).
Qed.

Lemma index_byte_first (c : byte) (s s' : bytes) : c ∉ s -> index_byte c (s ++ c :: s') = Some (length s).
Proof.
  intros Hc. unfold index_byte. rewrite list_find_app_r.
  - cbn. rewrite decide_True by done. done.
  - apply list_find_None, Forall_forall. intros x Hx <-. done.
Qed.

Lemma last_index_byte_last (c : byte) (s s' : bytes) : c ∉ s' -> last_index_byte c (s ++ c :: s') = Some (length s).
Proof.
  intros Hc. unfold last_index_byte. rewrite rev_app_distr. cbn [rev]. rewrite <- app_assoc. cbn [app].
  rewrite index_byte_first by (rewrite list_elem_of_In, <- in_rev, <- list_elem_of_In; done). cbn. f_equal. rewrite length_app, length_rev. cbn. lia.
Qed.

(** No bracket, so that printing an address can be undone. *)
Definition plain (s : bytes) : Prop := (x5b ∉ s) /\ (x5d ∉ s).

Lemma SplitHostPort_JoinHostPort (host port : bytes) :
  plain host -> plain port -> x3a ∉ port -> SplitHostPort (JoinHostPort host port) = Some host.
Proof.
  intros [Hh1 Hh2] [Hp1 Hp2] Hp. unfold JoinHostPort. destruct (index_byte x3a host) as [n|] eqn:E.
  - replace ([x5b] ++ host ++ [x5d; x3a] ++ port) with ((x5b :: host ++ [x5d]) ++ x3a :: port)
      by (cbn; by rewrite <- app_assoc).
    unfold SplitHostPort. rewrite last_index_byte_last by done. rewrite bool_decide_true by done.
    replace ((x5b :: host ++ [x5d]) ++ x3a :: port) with ((x5b :: host) ++ x5d :: x3a :: port)
      by (cbn; by rewrite <- app_assoc).
    rewrite index_byte_first by (rewrite not_elem_of_cons; done).
    rewrite bool_decide_true by (cbn; rewrite length_app; cbn; lia).
    rewrite take_app_length. cbn [drop app]. rewrite drop_0.
    rewrite (proj2 (index_byte_none x5b _)) by (rewrite not_elem_of_app, !not_elem_of_cons; done).
    rewrite (proj2 (index_byte_none x5d _)); [done|].
    cbn [length]. rewrite drop_app_ge by lia. replace (S _ - _)%nat with 1%nat by lia. cbn [drop].
    rewrite not_elem_of_cons. done.
  - apply index_byte_none in E. unfold SplitHostPort. cbn [app].
    rewrite last_index_byte_last by done. rewrite bool_decide_false.
    + rewrite take_app_length, (proj2 (index_byte_none _ _) E), drop_0.
      rewrite (proj2 (index_byte_none x5b _)), (proj2 (index_byte_none x5d _)); [done|..];
        rewrite not_elem_of_app, not_elem_of_cons; done.
    + destruct host as [|c host]; [done|]. cbn. intros [= ->]. apply Hh1. by left.
Qed.

(** The two keys of a peer are the same. *)
Lemma clientIP_agree (trust : bool) (xff peer port : bytes) :
  plain peer -> plain port -> x3a ∉ port ->
  clientIPStd trust xff (JoinHostPort peer port) = clientIP trust xff peer.
Proof.
  intros Hpeer Hport Hc. unfold clientIPStd, clientIP. by rewrite SplitHostPort_JoinHostPort.
Qed.

Section Front.
Context {St : Type} (CORSOrigin : bytes) (trustProxy : bool).
Context (handle : Env -> bytes -> bytes -> bytes -> bytes -> bytes -> World St -> go (Reply * World St)).

Definition FastHandler (ev : Env) (q : Incoming) (w : World St) : go (Response * World St) :=
  if has_body (in_method q) && (body_limit (in_uri q) <? Z.of_nat (length (in_body q)))
  then Ret (respond CORSOrigin too_large, w)
  else
    let body := if has_body (in_method q) then in_body q else [] in
    let* (r, w') := handle ev (in_method q) (in_uri q) body (in_token q)
                      (clientIP trustProxy (in_xff q) (in_peer q)) w in
    Ret (respond CORSOrigin r, w').

(** [io.ReadAll(io.LimitReader(r.Body, limit+1))], which may fail. *)
Definition read_limited (limit : Z) (body : bytes) : bytes := take (Z.to_nat (limit + 1)) body.

Definition StdHandler (readErr : bool) (ev : Env) (q : Incoming) (w : World St) : go (Response * World St) :=
  let path := RequestURI (in_url q) in
  if has_body (in_method q) then
    let limit := body_limit path in
    let b := read_limited limit (in_body q) in
    if readErr then Ret (mkResponse 400 [] [], w)
    else if limit <? Z.of_nat (length b) then Ret (writeStd CORSOrigin too_large, w)
    else
      let* (r, w') := handle ev (in_method q) path b (in_token q)
                        (clientIPStd trustProxy (in_xff q) (in_remote q)) w in
      Ret (writeStd CORSOrigin r, w')
  else
    let* (r, w') := handle ev (in_method q) path [] (in_token q)
                      (clientIPStd trustProxy (in_xff q) (in_remote q)) w in
    Ret (writeStd CORSOrigin r, w').

(** * Lemmas *)

Lemma writeStd_respond (r : Reply) : writeStd CORSOrigin r = respond CORSOrigin r.
Proof. unfold writeStd, respond. by destruct (bool_decide (CType r = [])). Qed.

Lemma body_limit_pos (uri : bytes) : 0 <= body_limit uri.
Proof. unfold body_limit. destruct (bool_decide _); vm_compute; discriminate. Qed.

Lemma read_limited_spec (limit : Z) (body : bytes) :
  0 <= limit ->
  (limit <? Z.of_nat (length (read_limited limit body))) = (limit <? Z.of_nat (length body))
  /\ (Z.of_nat (length body) <= limit -> read_limited limit body = body).
Proof.
  intros Hl. unfold read_limited. rewrite length_take. split.
  - destruct (Z.ltb_spec limit (Z.of_nat (length body))).
    + apply Z.ltb_lt. lia.
    + apply Z.ltb_ge. lia.
  - intros Hb. apply take_ge. lia.
Qed.

(** * Properties *)

(** C39: the frontends are interchangeable. On every request whose body can be
    read, from a peer at an address and port as [net] prints them, for a target
    in origin form whose path holds only bytes a URL may hold, the net/http
    frontend writes exactly the response fasthttp writes and leaves the same
    state, whatever handler runs behind them; a body over the limit (1 MB for
    the bulk endpoint, 4 KB elsewhere) is answered 413 without reaching the
    handler. [Hfast] and [Hurl] are what the servers document: fasthttp gives
    the target as it was sent, net/http the URL it parsed from it. On other
    targets they differ ([targets_differ]). *)
Theorem StdHandler_equals_FastHandler (ev : Env) (q : Incoming) (w : World St) (port : bytes)
  (authority_ok : bytes -> bool)
  (Hfast : in_uri q = in_target q)
  (Hurl : ParseRequestURI authority_ok (in_target q) = Some (in_url q))
  (Horigin : head (in_target q) = Some x2f)
  (Hpath : validEncoded (target_path (in_target q)) = true)
  (Hq : in_remote q = JoinHostPort (in_peer q) port)
  (Hpeer : plain (in_peer q)) (Hport : plain port) (Hcolon : x3a ∉ port) :
  StdHandler false ev q w = FastHandler ev q w
  /\ (has_body (in_method q) = true ->
      (if bool_decide (target_path (in_target q) = p_bulk) then 1048576 else 4096)
        < Z.of_nat (length (in_body q)) ->
      FastHandler ev q w = Ret (respond CORSOrigin too_large, w)).
Proof.
  pose proof (RequestURI_ParseRequestURI _ _ _ Horigin Hpath Hurl) as Euri.
  pose proof (body_limit_pos (in_uri q)) as Hl.
  destruct (read_limited_spec (body_limit (in_uri q)) (in_body q) Hl) as [E1 E2].
  pose proof (clientIP_agree trustProxy (in_xff q) (in_peer q) port Hpeer Hport Hcolon) as Ek. rewrite <- Hq in Ek.
  split.
  - unfold StdHandler, FastHandler. cbv zeta. rewrite Euri, <- Hfast, E1, Ek.
    destruct (has_body (in_method q)); cbn [andb].
    + destruct (Z.ltb_spec (body_limit (in_uri q)) (Z.of_nat (length (in_body q)))).
      * by rewrite writeStd_respond.
      * rewrite E2 by lia. destruct (handle _ _ _ _ _ _ _) as [[r w']| |]; cbn [go_bind]; try done.
        by rewrite writeStd_respond.
    + destruct (handle _ _ _ _ _ _ _) as [[r w']| |]; cbn [go_bind]; try done. by rewrite writeStd_respond.
  - intros Hb Hlt. unfold FastHandler. rewrite Hb. cbn [andb]. rewrite <- Hfast in Hlt.
    unfold target_path in Hlt. unfold body_limit, MaxBulkBody, MaxBody in *.
    change (Z.shiftl 1 20) with 1048576. by rewrite (proj2 (Z.ltb_lt _ _) Hlt).
Qed.

End Front.

(** * Witness: the peer is the key unless a proxy is trusted *)

Example client_keys :
  (clientIP true (lit " 1.2.3.4 , 5.6.7.8") (lit "9.9.9.9"), clientIP true [] (lit "9.9.9.9"),
   clientIP false (lit "1.2.3.4") (lit "9.9.9.9")) = (lit "1.2.3.4", lit "9.9.9.9", lit "9.9.9.9").
Proof. vm_compute. reflexivity. Qed.

Example remote_hosts :
  map SplitHostPort [lit "9.9.9.9:80"; lit "[::1]:80"; lit "::1"; lit "[::1]"; lit "[::1]80:"; lit "a]:80"]
  = [Some (lit "9.9.9.9"); Some (lit "::1"); None; None; None; None].
Proof. vm_compute. reflexivity. Qed.

(** A request as both servers hand it over, [None] when net/http refuses the
    target. *)
Definition incoming (method target body peer port : bytes) : option Incoming :=
  u ← ParseRequestURI (fun _ => true) target;
  Some (mkIncoming method target target u body [] [] peer (JoinHostPort peer port)).

Definition demo_incoming : Incoming := Eval vm_compute in
  default (mkIncoming [] [] [] (mkURL [] [] [] [] false []) [] [] [] [] [])
    (incoming (lit "PATCH") (lit "/a%2fb?q=%zz") (replicate 4097 x61) (lit "::1") (lit "4242")).

Definition demo_handle {A : Type} (ev : Env) (m p b t c : bytes) (w : World A) : go (Reply * World A) :=
  Ret (reply 200 (p ++ [x20] ++ c), w).

(** Where the two handlers are given different paths. *)
Example targets_differ :
  map (fun t => (fun q => (in_uri q, RequestURI (in_url q))) <$> incoming (lit "GET") (lit t) [] (lit "::1") (lit "1"))
    ["http://h/x"%string; "/a|b"%string; "?x"%string]
  = [Some (lit "http://h/x", lit "/x"); Some (lit "/a|b", lit "/a%7Cb"); None].
Proof. vm_compute. reflexivity. Qed.

Lemma StdHandler_equals_FastHandler_witness :
  let ev := mkEnv 0 0 0 0 0 0 0 (fun _ => 0) 0 [] [] in
  let w := mkWorld tt (init 0) (New (f64_of_Z 0) (f64_of_Z 0)) 0 in
  StdHandler (lit "*") false demo_handle false ev demo_incoming w = Ret (respond (lit "*") too_large, w)
  /\ in_remote demo_incoming = JoinHostPort (lit "::1") (lit "4242")
  /\ in_target demo_incoming = lit "/a%2fb?q=%zz".
Proof.
  intros ev w. split; [|split; vm_compute; reflexivity].
  destruct (StdHandler_equals_FastHandler (lit "*") false demo_handle ev demo_incoming w (lit "4242") (fun _ => true))
    as [-> P]; [vm_compute; reflexivity..|split|split| |];
    try (apply (proj1 (index_byte_none _ _)); vm_compute; reflexivity).
  apply P; vm_compute; reflexivity.
Defined.
