(* ===== verification/KvCache.v ===== *)
(** * KvCache: the bounded hot cache of the key-value backends

    [kvCache] of [internal/store/kvstore.go]: per shard a map and the FIFO of
    the codes put into it, [head] being the first one not yet evicted. Proved:
    the invariant that bounds the map, that the cache never answers anything
    but what was last put, and that the FIFO itself is not bounded. *)

From S2P Require Import Prelude GoStd Store StoreSpec.
From stdpp Require Import options.

Record cacheEnt := mkEnt { ce_u : bytes; ce_e : Z; ce_at : Z }.

Record cacheShard := mkCacheShard {
  c_m : gmap bytes cacheEnt;
  c_order : list bytes;
  c_head : nat
}.

Record kvCache := mkCache { c_shards : list cacheShard; c_cap : Z; c_ttl : Z }.

Definition empty_cacheShard : cacheShard := mkCacheShard ∅ [] 0.

Definition newKvCache (capTotal ttlMs : Z) : kvCache :=
  let cap := Z.quot capTotal (Z.of_nat numShards) in
  mkCache (replicate numShards empty_cacheShard) (if cap <? 16 then 16 else cap) ttlMs.

Definition cache_shard (c : kvCache) (code : bytes) : cacheShard :=
  default empty_cacheShard (c_shards c !! shardOf code).

Definition set_cacheShard (code : bytes) (sh : cacheShard) (c : kvCache) : kvCache :=
  mkCache (<[shardOf code := sh]> (c_shards c)) (c_cap c) (c_ttl c).

Definition drop_ent (code : bytes) (sh : cacheShard) : cacheShard :=
  mkCacheShard (delete code (c_m sh)) (c_order sh) (c_head sh).

(** [kvCache.get] at time [now]; a stale entry is dropped. *)
Definition cache_get (now : Z) (code : bytes) (c : kvCache) : option (bytes * Z) * kvCache :=
  let sh := cache_shard c code in
  match c_m sh !! code with
  | None => (None, c)
  | Some e =>
      if (0 <? c_ttl c) && (c_ttl c <? int64 (now - ce_at e))
      then (None, set_cacheShard code (drop_ent code sh) c)
      else if negb (ce_e e =? 0) && (ce_e e <=? now) then (None, c)
      else (Some (ce_u e, ce_e e), c)
  end.

(** The eviction loop, over the part of the FIFO from [head] on. *)
Fixpoint evict (cap : Z) (m : gmap bytes cacheEnt) (queue : list bytes) (head : nat)
    : gmap bytes cacheEnt * nat :=
  match queue with
  | [] => (m, head)
  | old :: queue' =>
      if cap <=? Z.of_nat (size m) then evict cap (delete old m) queue' (S head) else (m, head)
  end.

Definition put_shard (cap now : Z) (code u : bytes) (e : Z) (sh : cacheShard) : cacheShard :=
  match c_m sh !! code with
  | Some _ => mkCacheShard (<[code := mkEnt u e now]> (c_m sh)) (c_order sh) (c_head sh)
  | None =>
      let '(m, head) := evict cap (c_m sh) (drop (c_head sh) (c_order sh)) (c_head sh) in
      let '(order, head) :=
        if (1024 <? head)%nat && (length (c_order sh) <=? head * 2)%nat
        then (drop head (c_order sh), 0%nat) else (c_order sh, head) in
      mkCacheShard (<[code := mkEnt u e now]> m) (order ++ [code]) head
  end.

(** [kvCache.put], [now] being the reading of the clock it stores. *)
Definition cache_put (now : Z) (code u : bytes) (e : Z) (c : kvCache) : kvCache :=
  set_cacheShard code (put_shard (c_cap c) now code u e (cache_shard c code)) c.

Definition cache_remove (code : bytes) (c : kvCache) : kvCache :=
  set_cacheShard code (drop_ent code (cache_shard c code)) c.

(** ** Runs *)

Inductive cop :=
| CGet (now : Z) (code : bytes)
| CPut (now : Z) (code u : bytes) (e : Z)
| CRemove (code : bytes).

Definition cstep (c : kvCache) (o : cop) : kvCache :=
  match o with
  | CGet now code => (cache_get now code c).2
  | CPut now code u e => cache_put now code u e c
  | CRemove code => cache_remove code c
  end.

Definition crun (ops : list cop) (c : kvCache) : kvCache := foldl cstep c ops.

(** The specification: an unbounded map from codes to what was put last. *)
Definition spec_step (m : gmap bytes cacheEnt) (o : cop) : gmap bytes cacheEnt :=
  match o with
  | CGet _ _ => m
  | CPut now code u e => <[code := mkEnt u e now]> m
  | CRemove code => delete code m
  end.

Definition spec_run (ops : list cop) : gmap bytes cacheEnt := foldl spec_step ∅ ops.

(** ** The invariant *)

Definition shard_ok (cap : Z) (sh : cacheShard) : Prop :=
  (c_head sh <= length (c_order sh))%nat
  /\ (forall code, is_Some (c_m sh !! code) -> code ∈ drop (c_head sh) (c_order sh))
  /\ Z.of_nat (size (c_m sh)) <= cap.

Definition cache_ok (c : kvCache) : Prop :=
  length (c_shards c) = numShards /\ 16 <= c_cap c /\ Forall (shard_ok (c_cap c)) (c_shards c).

(** Cached entries are those of the specification. *)
Definition cached_in (m : gmap bytes cacheEnt) (c : kvCache) : Prop :=
  forall code, match c_m (cache_shard c code) !! code with
               | Some e => m !! code = Some e
               | None => True
               end.

(** * Lemmas *)

Lemma cache_shard_set (c : kvCache) (code code' : bytes) (sh : cacheShard) :
  length (c_shards c) = numShards ->
  cache_shard (set_cacheShard code sh c) code' =
    if decide (shardOf code = shardOf code') then sh else cache_shard c code'.
Proof.
  intros Hl. unfold cache_shard, set_cacheShard. cbn [c_shards]. case_decide as E.
  - rewrite <- E, list_lookup_insert_eq; [done|]. rewrite Hl. apply shardOf_bound.
  - by rewrite list_lookup_insert_ne.
Qed.

(** Eviction stops with room for one more entry, provided the FIFO lists
    every key; what is left is in the map and in the rest of the FIFO. *)
Lemma evict_ok (cap : Z) (m m' : gmap bytes cacheEnt) (queue : list bytes) (head head' : nat) :
  0 < cap -> (forall k, is_Some (m !! k) -> k ∈ queue) ->
  evict cap m queue head = (m', head') ->
  m' ⊆ m /\ (head <= head' <= head + length queue)%nat /\ Z.of_nat (size m') < cap
  /\ (forall k, is_Some (m' !! k) -> k ∈ drop (head' - head) queue).
Proof.
  intros Hcap. revert m head. induction queue as [|old queue IH]; intros m head Hq; cbn [evict].
  - intros [= <- <-]. rewrite Nat.sub_diag. split; [done|]. split; [cbn; lia|]. split; [|done].
    assert (m = ∅) as ->; [|by rewrite map_size_empty].
    apply map_eq. intros k. rewrite lookup_empty. destruct (m !! k) eqn:E; [|done].
    exfalso. specialize (Hq k). rewrite E in Hq. apply (not_elem_of_nil k). by apply Hq.
  - cbn [length]. destruct (Z.leb_spec cap (Z.of_nat (size m))) as [Hge|Hlt].
    + intros E. apply IH in E as (Hsub & Hle & Hsize & Hin).
      * split; [|split; [lia|split; [done|]]].
        -- etrans; [exact Hsub|apply delete_subseteq].
        -- intros k Hk. specialize (Hin k Hk).
           replace (head' - head)%nat with (S (head' - S head)) by lia. exact Hin.
      * intros k [x Hk]. apply lookup_delete_Some in Hk as [Hne Hk].
        specialize (Hq k (mk_is_Some _ _ Hk)). apply elem_of_cons in Hq as [->|Hq]; done.
    + intros [= <- <-]. rewrite Nat.sub_diag. split; [done|]. split; [lia|]. by split.
Qed.

Lemma drop_ent_ok (cap : Z) (code : bytes) (sh : cacheShard) :
  shard_ok cap sh -> shard_ok cap (drop_ent code sh).
Proof.
  intros (Hh & Hin & Hs). split_and!; cbn [c_m c_order c_head drop_ent]; [done|..].
  - intros k [x Hk]. apply lookup_delete_Some in Hk as [_ Hk]. eauto.
  - etrans; [|exact Hs]. apply Nat2Z.inj_le, map_subseteq_size, delete_subseteq.
Qed.

Lemma put_shard_ok (cap now : Z) (code u : bytes) (e : Z) (sh : cacheShard) :
  0 < cap -> shard_ok cap sh -> shard_ok cap (put_shard cap now code u e sh).
Proof.
  intros Hcap (Hh & Hin & Hs). unfold put_shard. destruct (c_m sh !! code) as [x|] eqn:Ex.
  - split_and!; cbn [c_m c_order c_head]; [done|..].
    + intros k [y Hk]. apply Hin. destruct (decide (code = k)) as [<-|Hne]; [by rewrite Ex|].
      rewrite lookup_insert_ne in Hk by done. by exists y.
    + rewrite map_size_insert_Some by done. exact Hs.
  - destruct (evict _ _ _ _) as [m head] eqn:Ee.
    apply evict_ok in Ee as (Hsub & Hle & Hsize & Hq); [|done|done].
    rewrite length_drop in Hle.
    rewrite drop_drop in Hq. replace (c_head sh + (head - c_head sh))%nat with head in Hq by lia.
    set (p := if (_ && _ : bool) then _ else _).
    assert ((p.2 <= length p.1)%nat /\ forall k, is_Some (m !! k) -> k ∈ drop p.2 p.1) as [Hp1 Hp].
    { subst p. destruct (_ && _); cbn [fst snd]; split; [lia|rewrite drop_0; exact Hq|lia|exact Hq]. }
    destruct p as [order head1]. cbn [fst snd] in Hp, Hp1. split_and!; cbn [c_m c_order c_head].
    + rewrite length_app. lia.
    + intros k [y Hk]. rewrite drop_app_le by done. apply elem_of_app.
      destruct (decide (code = k)) as [<-|Hne]; [right; by left|left].
      rewrite lookup_insert_ne in Hk by done. apply Hp. by exists y.
    + rewrite map_size_insert. destruct (m !! code); cbn; lia.
Qed.

Lemma set_cacheShard_ok (c : kvCache) (code : bytes) (sh : cacheShard) :
  cache_ok c -> shard_ok (c_cap c) sh -> cache_ok (set_cacheShard code sh c).
Proof.
  intros (Hl & Hc & Hf) Hs. split_and!; cbn [c_shards c_cap set_cacheShard]; [by rewrite length_insert|done|].
  by apply Forall_insert.
Qed.

Lemma cache_shard_ok (c : kvCache) (code : bytes) : cache_ok c -> shard_ok (c_cap c) (cache_shard c code).
Proof.
  intros (Hl & _ & Hf). unfold cache_shard.
  destruct (lookup_lt_is_Some_2 (c_shards c) (shardOf code)) as [sh E].
  { rewrite Hl. apply shardOf_bound. }
  rewrite E. rewrite Forall_lookup in Hf. by eapply Hf.
Qed.

Lemma cstep_ok (c : kvCache) (o : cop) : cache_ok c -> cache_ok (cstep c o).
Proof.
  intros Hc. assert (0 < c_cap c) as Hcap by (destruct Hc as (_ & ? & _); lia).
  destruct o as [now code|now code u e|code]; cbn [cstep].
  - unfold cache_get. destruct (c_m _ !! code); [|done]. destruct (_ && _); cbn [snd].
    + by apply set_cacheShard_ok, drop_ent_ok, cache_shard_ok.
    + by destruct (_ && _).
  - apply set_cacheShard_ok, put_shard_ok, cache_shard_ok; done.
  - by apply set_cacheShard_ok, drop_ent_ok, cache_shard_ok.
Qed.

Lemma newKvCache_ok (capTotal ttlMs : Z) : cache_ok (newKvCache capTotal ttlMs).
Proof.
  split_and!; cbn [newKvCache c_shards c_cap]; [by rewrite length_replicate|destruct (_ <? _) eqn:E; lia|].
  apply Forall_replicate. split_and!; cbn; [lia| |rewrite map_size_empty; destruct (_ <? _) eqn:E; lia].
  intros code [x Hx]. by rewrite lookup_empty in Hx.
Qed.

Lemma crun_ok (ops : list cop) (c : kvCache) : cache_ok c -> cache_ok (crun ops c).
Proof. unfold crun. revert c. induction ops as [|o ops IH]; intros c Hc; cbn; [done|]. by apply IH, cstep_ok. Qed.

(** What [put] leaves under a code. *)
Lemma put_shard_lookup (cap now : Z) (code u : bytes) (e : Z) (sh : cacheShard) (k : bytes) (x : cacheEnt) :
  0 < cap -> shard_ok cap sh ->
  c_m (put_shard cap now code u e sh) !! k = Some x ->
  (k = code /\ x = mkEnt u e now) \/ (k <> code /\ c_m sh !! k = Some x).
Proof.
  intros Hcap (_ & Hin & _). unfold put_shard.
  assert (forall m : gmap bytes cacheEnt, m ⊆ c_m sh -> <[code := mkEnt u e now]> m !! k = Some x ->
    (k = code /\ x = mkEnt u e now) \/ (k <> code /\ c_m sh !! k = Some x)) as Hm.
  { intros m Hsub. destruct (decide (code = k)) as [<-|Hne].
    - rewrite lookup_insert_eq. intros [= <-]. by left.
    - rewrite lookup_insert_ne by done. intros Hk. right. split; [done|]. by eapply lookup_weaken. }
  destruct (c_m sh !! code); [by apply Hm|].
  destruct (evict _ _ _ _) as [m head] eqn:Ee. apply evict_ok in Ee as (Hsub & _); [|done|done].
  destruct (if (_ && _ : bool) then _ else _) as [order head1]. by apply Hm.
Qed.

(** What a step leaves under a code was there, or has just been put. *)
Lemma cstep_lookup (c : kvCache) (o : cop) (k : bytes) (x : cacheEnt) :
  cache_ok c -> c_m (cache_shard (cstep c o) k) !! k = Some x ->
  match o with
  | CGet _ _ => c_m (cache_shard c k) !! k = Some x
  | CPut now code u e => (k = code /\ x = mkEnt u e now) \/ (k <> code /\ c_m (cache_shard c k) !! k = Some x)
  | CRemove code => k <> code /\ c_m (cache_shard c k) !! k = Some x
  end.
Proof.
  intros Hok. assert (0 < c_cap c) as Hcap by (destruct Hok as (_ & ? & _); lia).
  pose proof (proj1 Hok) as Hl.
  assert (forall code, c_m (cache_shard (cache_remove code c) k) !! k = Some x ->
    k <> code /\ c_m (cache_shard c k) !! k = Some x) as Hdrop.
  { intros code. unfold cache_remove. rewrite cache_shard_set by done. case_decide as E.
    - unfold drop_ent. cbn [c_m]. intros [Hne Hx]%lookup_delete_Some.
      split; [congruence|]. unfold cache_shard in *. by rewrite <- E.
    - intros Hx. split; [|done]. by intros ->. }
  destruct o as [now code|now code u e|code]; cbn [cstep]; [| |by apply Hdrop].
  - unfold cache_get. destruct (c_m (cache_shard c code) !! code); [|done]. destruct (_ && _); cbn [snd].
    + intros Hx. by apply (Hdrop code) in Hx as [_ ?].
    + by destruct (_ && _).
  - unfold cache_put. rewrite cache_shard_set by done. case_decide as E.
    + intros [?|[? Hx]]%put_shard_lookup; [by left| |done|by apply cache_shard_ok].
      right. split; [done|]. unfold cache_shard in *. by rewrite <- E.
    + intros Hx. right. split; [|done]. by intros ->.
Qed.

Lemma cached_in_step (m : gmap bytes cacheEnt) (c : kvCache) (o : cop) :
  cache_ok c -> cached_in m c -> cached_in (spec_step m o) (cstep c o).
Proof.
  intros Hok Hin k. specialize (Hin k). destruct (c_m (cache_shard (cstep c o) k) !! k) as [x|] eqn:Ex; [|done].
  apply cstep_lookup in Ex; [|done]. destruct o as [now code|now code u e|code]; cbn [spec_step].
  - by rewrite Ex in Hin.
  - destruct Ex as [[-> ->]|[Hne Ex]]; [by rewrite lookup_insert_eq|]. rewrite lookup_insert_ne by done.
    by rewrite Ex in Hin.
  - destruct Ex as [Hne Ex]. rewrite lookup_delete_ne by done. by rewrite Ex in Hin.
Qed.

Lemma cached_in_run (ops : list cop) (m : gmap bytes cacheEnt) (c : kvCache) :
  cache_ok c -> cached_in m c -> cached_in (foldl spec_step m ops) (crun ops c).
Proof.
  unfold crun. revert m c. induction ops as [|o ops IH]; intros m c Hok Hin; cbn; [done|].
  apply IH; [by apply cstep_ok|by apply cached_in_step].
Qed.

Lemma crun_conf (ops : list cop) (c : kvCache) :
  c_cap (crun ops c) = c_cap c /\ c_ttl (crun ops c) = c_ttl c.
Proof.
  unfold crun. revert c. induction ops as [|o ops IH]; intros c; cbn; [done|].
  destruct (IH (cstep c o)) as [-> ->]. destruct o; cbn; [|done|done].
  unfold cache_get. destruct (c_m _ !! _); [|done]. destruct (_ && _); [done|]. by destruct (_ && _).
Qed.

(** What [put] stores is there. *)
Lemma cache_put_lookup (now : Z) (code u : bytes) (e : Z) (c : kvCache) :
  length (c_shards c) = numShards ->
  c_m (cache_shard (cache_put now code u e c) code) !! code = Some (mkEnt u e now).
Proof.
  intros Hl. unfold cache_put. rewrite cache_shard_set, decide_True by done. unfold put_shard.
  destruct (c_m (cache_shard c code) !! code); cbn [c_m]; [by rewrite lookup_insert_eq|].
  destruct (evict _ _ _ _) as [m head]. destruct (if (_ && _ : bool) then _ else _) as [order head1].
  cbn [c_m]. by rewrite lookup_insert_eq.
Qed.

(** What a hit tells. *)
Lemma cache_get_hit (now : Z) (code u : bytes) (e : Z) (c c' : kvCache) :
  cache_get now code c = (Some (u, e), c') ->
  c' = c /\ exists at', c_m (cache_shard c code) !! code = Some (mkEnt u e at')
    /\ (0 < c_ttl c -> int64 (now - at') <= c_ttl c) /\ (e <> 0 -> now < e).
Proof.
  unfold cache_get. destruct (c_m _ !! code) as [[u0 e0 at0]|]; [|done]. cbn [ce_u ce_e ce_at].
  destruct (_ && _) eqn:E1; [done|]. destruct (negb _ && _) eqn:E2; [done|]. intros [= <- <- <-].
  split; [done|]. exists at0. split_and!; [done|lia|lia].
Qed.

(** A removed code is not cached. *)
Lemma cache_get_removed (now : Z) (code : bytes) (c : kvCache) :
  length (c_shards c) = numShards -> (cache_get now code (cache_remove code c)).1 = None.
Proof.
  intros Hl. unfold cache_get, cache_remove. rewrite cache_shard_set by done. rewrite decide_True by done.
  unfold drop_ent. cbn [c_m]. by rewrite lookup_delete_eq.
Qed.

(** * Theorems *)

(** C21: the cache is bounded: whatever the sequence of gets, puts and removals,
    every shard's FIFO lists all the keys of its map and the map never holds
    more than its share of the capacity. *)
Theorem cache_bounded (capTotal ttlMs : Z) (ops : list cop) (code : bytes) :
  let c := crun ops (newKvCache capTotal ttlMs) in
  cache_ok c /\ Z.of_nat (size (c_m (cache_shard c code))) <= Z.max 16 (Z.quot capTotal 256).
Proof.
  intros c. assert (cache_ok c) as Hc by apply crun_ok, newKvCache_ok. split; [done|].
  destruct (cache_shard_ok c code Hc) as (_ & _ & Hs). etrans; [exact Hs|].
  subst c. rewrite (proj1 (crun_conf _ _)). unfold newKvCache. cbn [c_cap].
  change (Z.of_nat numShards) with 256. destruct (_ <? _) eqn:E; lia.
Qed.

(** C20: the cache refines an unbounded map: after any run, a hit returns the
    target and expiry of the last put of that code, which nothing removed
    since, which is no older than the staleness bound and has not expired. *)
Theorem cache_hit_is_last_put (capTotal ttlMs : Z) (ops : list cop) (now : Z) (code u : bytes) (e : Z) :
  let c := crun ops (newKvCache capTotal ttlMs) in
  (cache_get now code c).1 = Some (u, e) ->
  exists at', spec_run ops !! code = Some (mkEnt u e at')
    /\ (0 < ttlMs -> int64 (now - at') <= ttlMs) /\ (e <> 0 -> now < e).
Proof.
  intros c Hg. destruct (cache_get now code c) as [r c'] eqn:E. cbn [fst] in Hg. subst r.
  apply cache_get_hit in E as (_ & at' & Hm & Ht & He). exists at'.
  assert (cached_in (spec_run ops) c) as Hin.
  { apply cached_in_run; [apply newKvCache_ok|]. intros k. unfold cache_shard, newKvCache. cbn [c_shards].
    rewrite lookup_replicate_2 by apply shardOf_bound. cbn. by rewrite lookup_empty. }
  specialize (Hin code). rewrite Hm in Hin. split_and!; [done| |done].
  subst c. by rewrite (proj2 (crun_conf _ _)) in Ht.
Qed.

(** One link, visited again each time its entry has gone stale. *)
Definition revisit (ttlMs : Z) (code u : bytes) (i : nat) : list cop :=
  let t := Z.of_nat i * (ttlMs + 1) in [CGet t code; CPut t code u 0].

Definition revisits (ttlMs : Z) (code u : bytes) (n : nat) : list cop :=
  concat (map (revisit ttlMs code u) (seq 0 n)).

Lemma revisits_S (ttlMs : Z) (code u : bytes) (n : nat) :
  revisits ttlMs code u (S n) = revisits ttlMs code u n ++ revisit ttlMs code u n.
Proof. unfold revisits. rewrite seq_S, map_app, concat_app. cbn [map concat]. by rewrite app_nil_r. Qed.

(** The shard after [n] rounds. *)
Lemma revisits_shard (capTotal ttlMs : Z) (code u : bytes) (n : nat) :
  0 < ttlMs -> Z.of_nat (S n) * (ttlMs + 1) < 2 ^ 63 ->
  cache_shard (crun (revisits ttlMs code u (S n)) (newKvCache capTotal ttlMs)) code
  = mkCacheShard {[code := mkEnt u 0 (Z.of_nat n * (ttlMs + 1))]} (replicate (S n) code) 0.
Proof.
  intros Httl. set (c0 := newKvCache capTotal ttlMs).
  induction n as [|n IH]; intros Hn; rewrite revisits_S; unfold crun; rewrite foldl_app.
  - cbn [revisits revisit seq map concat foldl cstep].
    assert (cache_shard c0 code = empty_cacheShard) as E0.
    { unfold cache_shard, c0, newKvCache. cbn [c_shards]. by rewrite lookup_replicate_2 by apply shardOf_bound. }
    unfold cache_get. rewrite E0. cbn [c_m empty_cacheShard]. rewrite lookup_empty. cbn [snd].
    unfold cache_put. rewrite cache_shard_set by apply newKvCache_ok. rewrite decide_True by done.
    unfold put_shard. rewrite E0. cbn [c_m c_order c_head empty_cacheShard]. by rewrite lookup_empty.
  - specialize (IH ltac:(lia)). fold (crun (revisits ttlMs code u (S n)) c0).
    set (c := crun _ c0) in *. assert (cache_ok c) as Hc by apply crun_ok, newKvCache_ok.
    assert (c_ttl c = ttlMs) as Ettl by exact (proj2 (crun_conf _ _)).
    assert (16 <= c_cap c) as Hcap by (by destruct Hc as (_ & ? & _)).
    cbn [revisit foldl cstep]. unfold cache_get. rewrite IH. cbn [c_m]. rewrite lookup_singleton_eq.
    cbn [ce_at]. replace (Z.of_nat (S n) * (ttlMs + 1) - Z.of_nat n * (ttlMs + 1)) with (ttlMs + 1) by lia.
    rewrite Ettl, int64_id by (unfold is_int64; nia).
    replace (0 <? ttlMs) with true by lia. replace (ttlMs <? _) with true by lia. cbn [andb snd].
    unfold cache_put. rewrite !cache_shard_set by (cbn; rewrite ?length_insert; apply Hc).
    rewrite !decide_True by done. unfold drop_ent, put_shard. cbn [c_m c_order c_head c_cap set_cacheShard].
    rewrite delete_singleton_eq, lookup_empty.
    rewrite drop_0. cbn [replicate evict]. rewrite map_size_empty.
    destruct (Z.leb_spec (c_cap c) (Z.of_nat 0)) as [Hz|_]; [clearbody c; change (Z.of_nat 0) with 0 in Hz; lia|]. cbn [Nat.ltb Nat.leb andb].
    f_equal. cbn [app]. f_equal. symmetry. apply replicate_cons_app.
Qed.

(** the FIFO is not bounded: a single link requested again each time its
    entry has gone stale adds one element per visit and none is ever evicted,
    while the map holds that one entry. *)
Theorem cache_order_grows (capTotal ttlMs : Z) (code u : bytes) (n : nat) :
  0 < ttlMs -> Z.of_nat (S n) * (ttlMs + 1) < 2 ^ 63 ->
  let sh := cache_shard (crun (revisits ttlMs code u (S n)) (newKvCache capTotal ttlMs)) code in
  length (c_order sh) = S n /\ c_head sh = 0%nat /\ size (c_m sh) = 1%nat.
Proof.
  intros Httl Hn sh. subst sh. rewrite revisits_shard by done. cbn [c_order c_head c_m].
  by rewrite length_replicate, map_size_singleton.
Qed.

(** A hit, and a thousand visits of a link at a staleness bound of 5 s. *)
Definition demo_code : bytes := [x61; x62].
Definition demo_target : bytes := [x68].
Definition demo_ops : list cop := [CPut 10 demo_code demo_target 500; CGet 20 demo_code].

Lemma cache_hit_is_last_put_witness :
  exists at', spec_run demo_ops !! demo_code = Some (mkEnt demo_target 500 at')
    /\ (0 < 1000 -> int64 (30 - at') <= 1000) /\ (500 <> 0 -> 30 < 500).
Proof.
  apply (cache_hit_is_last_put 100000 1000 demo_ops 30 demo_code demo_target 500).
  vm_compute. reflexivity.
Defined.

Lemma cache_order_grows_witness :
  let sh := cache_shard (crun (revisits 5000 demo_code demo_target 1000) (newKvCache 100000 5000)) demo_code in
  length (c_order sh) = 1000%nat /\ c_head sh = 0%nat /\ size (c_m sh) = 1%nat.
Proof. apply (cache_order_grows 100000 5000 demo_code demo_target 999); lia. Defined.
