(* ===== verification/Dirty.v ===== *)
(** * Dirty: the pending hit counters of the key-value backends

    Both stores keep, per shard, a map from codes to the hits not yet written
    ([dirty] in [kvstore.go] and [pebblestore.go]), bump it and drain it. *)

From S2P Require Import Prelude GoStd Store StoreSpec.
From stdpp Require Import options.

Definition pending_of (ds : list (gmap bytes Z)) (code : bytes) : Z :=
  match ds !! shardOf code with Some m => default 0 (m !! code) | None => 0 end.

Definition bump_in (code : bytes) (ds : list (gmap bytes Z)) : list (gmap bytes Z) :=
  alter (fun m => <[code := int64 (default 0 (m !! code) + 1)]> m) (shardOf code) ds.

Definition cleared : list (gmap bytes Z) := replicate numShards ∅.

Definition clear_all (ds : list (gmap bytes Z)) : list (gmap bytes Z) := map (fun _ => ∅) ds.

(** The deltas in the order a flush visits them. *)
Definition dirty_pairs `{MapOrder} (ds : list (gmap bytes Z)) : list (bytes * Z) :=
  concat (map (fun m => map (fun c => (c, default 0 (m !! c))) (range_keys m)) ds).

(** Texts the backends' keys have room for. *)
Definition small (a : bytes) : Prop := Z.of_nat (length a) <= 2 ^ 28.

(** Pending counts sit in the shard of their code, are int64s, and belong to
    codes a command can carry. *)
Definition dirty_ok (ds : list (gmap bytes Z)) : Prop :=
  forall i m c d, ds !! i = Some m -> m !! c = Some d -> i = shardOf c /\ is_int64 d /\ small c.

Lemma dirty_ok_bump (code : bytes) (ds : list (gmap bytes Z)) :
  small code -> dirty_ok ds -> dirty_ok (bump_in code ds).
Proof.
  intros Hc Hd i m c d Hi Hm. unfold bump_in in Hi.
  destruct (decide (shardOf code = i)) as [<-|Hne]; [|rewrite list_lookup_alter_ne in Hi by done; by eapply Hd].
  rewrite list_lookup_alter_eq in Hi. destruct (ds !! shardOf code) as [m0|] eqn:E; [|done].
  injection Hi as <-. destruct (decide (code = c)) as [<-|Hne].
  - rewrite lookup_insert_eq in Hm. injection Hm as <-. split_and!; [done|auto with goint..|done].
  - rewrite lookup_insert_ne in Hm by done. by eapply Hd.
Qed.

Lemma dirty_ok_cleared : dirty_ok cleared.
Proof.
  intros i m c d Hi Hm. unfold cleared in Hi. apply lookup_replicate in Hi as [-> _]. by rewrite lookup_empty in Hm.
Qed.

Lemma pending_clear_all (ds : list (gmap bytes Z)) (c : bytes) : pending_of (clear_all ds) c = 0.
Proof. unfold pending_of, clear_all. rewrite list_lookup_fmap. by destruct (ds !! _). Qed.

Lemma pending_int64 (ds : list (gmap bytes Z)) (c : bytes) : dirty_ok ds -> is_int64 (pending_of ds c).
Proof.
  intros Hd. unfold pending_of. destruct (ds !! shardOf c) as [m|] eqn:Em; [|unfold is_int64; lia].
  destruct (m !! c) as [d|] eqn:Ed; [|unfold is_int64; cbn; lia]. by destruct (Hd _ _ _ _ Em Ed) as (_ & ? & _).
Qed.

Section Pairs.
Context `{MapOrder}.

#[local] Set Default Proof Using "Type*".

Lemma dirty_pairs_elem (ds : list (gmap bytes Z)) (c : bytes) (d : Z) :
  dirty_ok ds -> (c, d) ∈ dirty_pairs ds -> is_int64 d /\ small c /\ pending_of ds c = d.
Proof.
  intros Hd Hin. unfold dirty_pairs in Hin. apply list_elem_of_In, in_concat in Hin as (l & Hl & Hin).
  apply in_map_iff in Hl as (m & <- & Hm). apply in_map_iff in Hin as (c' & [= -> <-] & Hc).
  apply list_elem_of_In, range_keys_elem in Hc as [d Hc]. apply list_elem_of_In, list_elem_of_lookup in Hm as [i Hi].
  rewrite Hc. cbn [default]. destruct (Hd i m c d Hi Hc) as (-> & ? & ?). split_and!; [done..|].
  unfold pending_of. by rewrite Hi, Hc.
Qed.

Lemma dirty_pairs_codes (ds : list (gmap bytes Z)) (c : bytes) :
  c ∉ (dirty_pairs ds).*1 -> pending_of ds c = 0.
Proof.
  intros Hc. unfold pending_of. destruct (ds !! shardOf c) as [m|] eqn:Em; [|done].
  destruct (m !! c) as [d|] eqn:Ed; [|done]. exfalso. apply Hc, list_elem_of_fmap. exists (c, d). split; [done|].
  unfold dirty_pairs. apply list_elem_of_In, in_concat. exists (map (fun c => (c, default 0 (m !! c))) (range_keys m)).
  split; [apply in_map_iff; exists m; split; [done|]; apply list_elem_of_In; by eapply list_elem_of_lookup_2|].
  apply in_map_iff. exists c. rewrite Ed. split; [done|]. apply list_elem_of_In, range_keys_elem. by exists d.
Qed.

Lemma dirty_pairs_NoDup (ds : list (gmap bytes Z)) : dirty_ok ds -> NoDup (dirty_pairs ds).*1.
Proof.
  intros Hd. unfold dirty_pairs.
  assert (forall ls : list (gmap bytes Z),
    (concat (map (fun m : gmap bytes Z => map (fun c => (c, default 0 (m !! c))) (range_keys m)) ls)).*1
    = concat (map (fun m : gmap bytes Z => range_keys m) ls)) as ->.
  { intros ls. induction ls as [|m ls IH]; cbn [map concat]; [done|]. rewrite fmap_app, IH. f_equal.
    rewrite <- list_fmap_compose. apply list_fmap_id. }
  apply NoDup_concat.
  - intros l (m & -> & _)%list_elem_of_fmap. apply range_keys_NoDup.
  - intros i j l l' x Hi Hj Hx Hx'. rewrite list_lookup_fmap in Hi, Hj.
    destruct (ds !! i) as [m|] eqn:Ei; [|done]. destruct (ds !! j) as [m'|] eqn:Ej; [|done].
    injection Hi as <-. injection Hj as <-. apply range_keys_elem in Hx as [d Hx], Hx' as [d' Hx'].
    by rewrite (proj1 (Hd i m x d Ei Hx)), (proj1 (Hd j m' x d' Ej Hx')).
Qed.

Lemma dirty_pairs_clear (ds : list (gmap bytes Z)) : dirty_pairs (clear_all ds) = [].
Proof.
  assert (range_keys (∅ : gmap bytes Z) = []) as He.
  { destruct (range_keys ∅) as [|x l] eqn:E; [done|].
    assert (x ∈ range_keys (∅ : gmap bytes Z)) as Hx by (rewrite E; by left).
    apply range_keys_elem in Hx as [d Hx]. by rewrite lookup_empty in Hx. }
  unfold dirty_pairs, clear_all. induction ds as [|m ds IH]; [done|]. cbn [map concat]. rewrite He. exact IH.
Qed.

End Pairs.
