(* ===== verification/Resp.v ===== *)
(** * Resp: the wire protocol of [internal/store/kv.go]

    The encoding of commands and [readResp], on the bytes still to be read of a
    connection. [eof] tells whether the peer has closed it: reading past the
    end is then an error ([None]), and blocks for ever ([Diverge]) otherwise. *)

From S2P Require Import Prelude GoStd Codec.
From stdpp Require Import options.

(** One decoded reply; a nil slice is [None]. *)
Inductive Resp := mkResp {
  Kind : byte;
  Str : option bytes;
  Int : Z;
  Arr : option (list Resp)
}.

Definition b_plus : byte := x2b.
Definition b_minus : byte := x2d.
Definition b_colon : byte := x3a.
Definition b_dollar : byte := x24.
Definition b_star : byte := x2a.

Definition IsNull (r : Resp) : bool :=
  ((Kind r =b b_dollar) && match Str r with None => true | _ => false end)
  || ((Kind r =b b_star) && match Arr r with None => true | _ => false end).

Definition CRLF : bytes := [x0d; x0a].

Definition appendArg (dst a : bytes) : bytes :=
  dst ++ [b_dollar] ++ itoa (Z.of_nat (length a)) ++ CRLF ++ a ++ CRLF.

(** One command of [pipe]'s buffer. *)
Definition append_cmd (buf : bytes) (args : list bytes) : bytes :=
  foldl appendArg (buf ++ [b_star] ++ itoa (Z.of_nat (length args)) ++ CRLF) args.

Definition append_cmds (cmds : list (list bytes)) : bytes := foldl append_cmd [] cmds.

(** ** Reading *)

(** A read that cannot be served from the bytes that arrived. *)
Definition short {A : Type} (eof : bool) : go (option A) := if eof then Ret None else Diverge.

Definition readLine (eof : bool) (s : bytes) : go (option (bytes * bytes)) :=
  match cut_byte x0a s with
  | None => short eof
  | Some (l, rest) =>
      match rev l with
      | c :: l' => if c =b x0d then Ret (Some (rev l', rest)) else Ret None
      | [] => Ret None
      end
  end.

(** [io.ReadFull] of [n] bytes. *)
Definition ReadFull (eof : bool) (n : Z) (s : bytes) : go (option (bytes * bytes)) :=
  if n <=? Z.of_nat (length s) then Ret (Some (take (Z.to_nat n) s, drop (Z.to_nat n) s))
  else short eof.

(** [make([]T, n)] for elements of [size] bytes panics beyond the address space. *)
Definition make_ok (size n : Z) : bool := (0 <=? n) && (size * n <=? 2 ^ 48).

Definition resp_size : Z := 64.

(** The result of a call that may return an error. *)
Notation "'let?' x := m 'in' k" :=
  (go_bind m (fun o => match o with None => Ret None | Some x => k end))
  (at level 10, x pattern, m at level 100, k at level 200) : go_scope.

(** [n] replies in a row, each with [read]. *)
Fixpoint read_many (read : bytes -> go (option (Resp * bytes))) (n : nat) (s : bytes)
    : go (option (list Resp * bytes)) :=
  match n with
  | O => Ret (Some ([], s))
  | S n' =>
      let? (r, s1) := read s in
      let? (rs, s2) := read_many read n' s1 in
      Ret (Some (r :: rs, s2))
  end.

Fixpoint readResp (fuel : nat) (eof : bool) (s : bytes) : go (option (Resp * bytes)) :=
  match fuel with
  | O => Diverge
  | S fuel' =>
      match s with
      | [] => short eof
      | b :: s1 =>
          if (b =b b_plus) || (b =b b_minus) then
            let? (l, s2) := readLine eof s1 in
            Ret (Some (mkResp b (Some l) 0 None, s2))
          else if b =b b_colon then
            let? (l, s2) := readLine eof s1 in
            match ParseInt l with
            | (n, None) => Ret (Some (mkResp b_colon None n None, s2))
            | (_, Some _) => Ret None
            end
          else if b =b b_dollar then
            let? (l, s2) := readLine eof s1 in
            let n := (ParseInt l).1 in
            if n <? 0 then Ret (Some (mkResp b_dollar None 0 None, s2))
            else if negb (make_ok 1 (int64 (n + 2))) then Panic
            else
              let? (buf, s3) := ReadFull eof (n + 2) s2 in
              Ret (Some (mkResp b_dollar (Some (take (Z.to_nat n) buf)) 0 None, s3))
          else if b =b b_star then
            let? (l, s2) := readLine eof s1 in
            let n := (ParseInt l).1 in
            if n <? 0 then Ret (Some (mkResp b_star None 0 None, s2))
            else if negb (make_ok resp_size n) then Panic
            else
              let? (rs, s3) := read_many (readResp fuel' eof) (Z.to_nat n) s2 in
              Ret (Some (mkResp b_star None 0 (Some rs), s3))
          else Ret None
      end
  end.

(** ** Reference encoding of replies *)

Fixpoint enc_resp (r : Resp) : bytes :=
  Kind r ::
  (if (Kind r =b b_plus) || (Kind r =b b_minus) then default [] (Str r) ++ CRLF
   else if Kind r =b b_colon then itoa (Int r) ++ CRLF
   else if Kind r =b b_dollar then
     match Str r with
     | None => itoa (-1) ++ CRLF
     | Some a => itoa (Z.of_nat (length a)) ++ CRLF ++ a ++ CRLF
     end
   else
     match Arr r with
     | None => itoa (-1) ++ CRLF
     | Some rs => itoa (Z.of_nat (length rs)) ++ CRLF ++ concat (map enc_resp rs)
     end).

Definition simple (l : bytes) : Resp := mkResp b_plus (Some l) 0 None.
Definition failure (l : bytes) : Resp := mkResp b_minus (Some l) 0 None.
Definition int_reply (n : Z) : Resp := mkResp b_colon None n None.
Definition bulk (a : bytes) : Resp := mkResp b_dollar (Some a) 0 None.
Definition null : Resp := mkResp b_dollar None 0 None.
Definition array (rs : list Resp) : Resp := mkResp b_star None 0 (Some rs).
Definition null_array : Resp := mkResp b_star None 0 None.

(** The replies the protocol can express, nested at most [d] deep. *)
Inductive wire : nat -> Resp -> Prop :=
| wire_simple d l : x0a ∉ l -> wire (S d) (simple l)
| wire_failure d l : x0a ∉ l -> wire (S d) (failure l)
| wire_int d n : is_int64 n -> wire (S d) (int_reply n)
| wire_bulk d a : Z.of_nat (length a) <= 2 ^ 40 -> wire (S d) (bulk a)
| wire_null d : wire (S d) null
| wire_array d rs : Z.of_nat (length rs) <= 2 ^ 40 -> Forall (wire d) rs -> wire (S d) (array rs)
| wire_null_array d : wire (S d) null_array.

(** * Lemmas *)

(** Decides the tests on the kind byte of a known reply. *)
Ltac kinds :=
  repeat match goal with
  | |- context [Byte.eqb ?a ?b] =>
      let v := eval vm_compute in (Byte.eqb a b) in
      lazymatch v with true => idtac | false => idtac end;
      change (Byte.eqb a b) with v
  end; cbn [orb andb].

Lemma appendArg_bulk (dst a : bytes) : appendArg dst a = dst ++ enc_resp (bulk a).
Proof. done. Qed.

Lemma append_cmd_array (buf : bytes) (args : list bytes) :
  append_cmd buf args = buf ++ enc_resp (array (map bulk args)).
Proof.
  unfold append_cmd. cbn [enc_resp array Kind Str Arr]. kinds. rewrite length_map.
  set (h := itoa _). clearbody h. rewrite map_map.
  assert (forall l b, foldl appendArg b l = b ++ concat (map (fun a => enc_resp (bulk a)) l)) as Hf.
  { intros l. induction l as [|a l IH]; intros b; cbn [foldl map concat]; [by rewrite app_nil_r|].
    rewrite IH, appendArg_bulk. by rewrite <- app_assoc. }
  rewrite Hf. by rewrite <- !app_assoc.
Qed.

(** What [pipe] writes. *)
Lemma append_cmds_arrays (cmds : list (list bytes)) :
  append_cmds cmds = concat (map (fun args => enc_resp (array (map bulk args))) cmds).
Proof.
  unfold append_cmds.
  assert (forall l b, foldl append_cmd b l
    = b ++ concat (map (fun args => enc_resp (array (map bulk args))) l)) as Hf; [|apply Hf].
  intros l. induction l as [|a l IH]; intros b; cbn [foldl map concat]; [by rewrite app_nil_r|].
  rewrite IH, append_cmd_array. by rewrite <- app_assoc.
Qed.

Lemma readLine_line (eof : bool) (l rest : bytes) :
  x0a ∉ l -> readLine eof (l ++ CRLF ++ rest) = Ret (Some (l, rest)).
Proof.
  intros Hl. unfold readLine. replace (l ++ CRLF ++ rest) with ((l ++ [x0d]) ++ x0a :: rest)
    by by rewrite <- app_assoc.
  rewrite cut_byte_app by (rewrite elem_of_app, list_elem_of_singleton; by intros [?|?]).
  rewrite rev_app_distr. cbn. by rewrite rev_involutive.
Qed.

Lemma readLine_num (eof : bool) (z : Z) (rest : bytes) :
  readLine eof (itoa z ++ CRLF ++ rest) = Ret (Some (itoa z, rest)).
Proof. apply readLine_line. by apply itoa_not_elem. Qed.
#[export] Hint Rewrite readLine_num : golang.

Lemma read_many_all (read : bytes -> go (option (Resp * bytes))) (rs : list Resp) (rest : bytes) :
  Forall (fun r => forall s, read (enc_resp r ++ s) = Ret (Some (r, s))) rs ->
  read_many read (length rs) (concat (map enc_resp rs) ++ rest) = Ret (Some (rs, rest)).
Proof.
  induction 1 as [|r rs Hr Hrs IH]; cbn [length read_many map concat app]; [done|].
  rewrite <- app_assoc, Hr. cbn [go_bind]. rewrite IH. done.
Qed.

Lemma wire_mono (d d' : nat) (r : Resp) : (d <= d')%nat -> wire d r -> wire d' r.
Proof.
  revert d' r. induction d as [|d IH]; intros d' r Hd Hw; inversion Hw; subst; destruct d'; try lia;
    constructor; try done.
  eapply Forall_impl; [eassumption|]. intros x Hx. apply IH; [lia|done].
Qed.

(** Reading back any encoded reply leaves exactly the bytes after it. *)
Lemma readResp_enc (d : nat) (eof : bool) (r : Resp) (rest : bytes) :
  wire d r -> readResp d eof (enc_resp r ++ rest) = Ret (Some (r, rest)).
Proof.
  revert r rest. induction d as [|d IH]; intros r rest Hw; inversion Hw; subst;
    cbn [enc_resp readResp simple failure int_reply bulk null array null_array Kind Str Int Arr app];
    kinds; cbn [default]; rewrite <- ?app_assoc.
  - by rewrite readLine_line.
  - by rewrite readLine_line.
  - rewrite readLine_num. cbn [go_bind]. by rewrite ParseInt_itoa.
  - rewrite readLine_num. cbn [go_bind]. rewrite ParseInt_itoa by (unfold is_int64; lia). cbn [fst].
    replace (Z.of_nat (length a) <? 0) with false by lia.
    rewrite int64_id by (unfold is_int64; lia).
    replace (make_ok 1 _) with true by (unfold make_ok; lia). cbn [negb].
    unfold ReadFull. rewrite !length_app. cbn [length CRLF].
    destruct (Z.leb_spec (Z.of_nat (length a) + 2) (Z.of_nat (length a + (2 + length rest)))) as [_|?]; [|lia].
    cbn [go_bind].
    replace (Z.to_nat (Z.of_nat (length a) + 2)) with (length (a ++ CRLF))
      by (rewrite length_app; cbn [length CRLF]; lia).
    rewrite (app_assoc a), take_app_length, drop_app_length, Nat2Z.id, take_app_length. done.
  - rewrite readLine_num. cbn [go_bind]. done.
  - rewrite readLine_num. cbn [go_bind]. rewrite ParseInt_itoa by (unfold is_int64; lia). cbn [fst].
    replace (Z.of_nat (length rs) <? 0) with false by lia.
    replace (make_ok _ _) with true by (unfold make_ok, resp_size; lia). cbn [negb].
    rewrite Nat2Z.id, read_many_all; [done|].
    match goal with H : Forall _ rs |- _ => eapply Forall_impl; [exact H|] end. intros x Hx s. by apply IH.
  - rewrite readLine_num. cbn [go_bind]. done.
Qed.

(** A read that returns has consumed bytes, and on a closed connection every
    read returns. *)
Definition progress {A : Type} (strict : bool) (s : bytes) (m : go (option (A * bytes))) : Prop :=
  match m with
  | Ret (Some (_, s')) => (length s' + (if strict then 1 else 0) <= length s)%nat
  | Ret None | Panic => True
  | Diverge => False
  end.

Lemma progress_bind {A B : Type} (b c : bool) (s0 s : bytes) (m : go (option (A * bytes)))
    (k : A * bytes -> go (option (B * bytes))) :
  progress b s m -> (length s + (if c then 1 else 0) <= length s0 + (if b then 1 else 0))%nat ->
  (forall a s', (length s' + (if b then 1 else 0) <= length s)%nat -> progress false s' (k (a, s'))) ->
  progress c s0 (let? p := m in k p).
Proof.
  intros Hm Hs Hk. destruct m as [[[a s']|]| |]; cbn [go_bind progress] in *; [|done|done|done].
  specialize (Hk a s' Hm). destruct (k (a, s')) as [[[x s'']|]| |]; cbn [progress] in *; [|done|done|done].
  destruct b, c; lia.
Qed.

Lemma readLine_progress (s : bytes) : progress true s (readLine true s).
Proof.
  unfold readLine. destruct (cut_byte x0a s) as [[l rest]|] eqn:E; [|done].
  apply cut_byte_Some in E as [-> _]. destruct (rev l) as [|c l']; [done|]. destruct (c =b x0d); [|done].
  cbn [progress]. rewrite length_app. cbn [length]. lia.
Qed.

Lemma read_many_progress (read : bytes -> go (option (Resp * bytes))) (n : nat) (s : bytes) :
  (forall s', (length s' <= length s)%nat -> progress true s' (read s')) ->
  progress false s (read_many read n s).
Proof.
  revert s. induction n as [|n IH]; intros s Hr; cbn [read_many]; [cbn; lia|].
  apply (progress_bind true false s s); [by apply Hr|lia|]. intros r s1 H1. cbn beta iota.
  apply (progress_bind false false s1 s1); [apply IH; intros s' Hs'; apply Hr; lia|lia|].
  intros rs s2 H2. cbn [progress]. lia.
Qed.

Lemma readResp_progress (fuel : nat) (s : bytes) :
  (length s < fuel)%nat -> progress true s (readResp fuel true s).
Proof.
  revert s. induction fuel as [|fuel IH]; intros s Hs; [lia|]. cbn [readResp].
  destruct s as [|b s1]; [done|]. cbn [length] in Hs.
  destruct (_ || _).
  { apply (progress_bind true true _ s1); [apply readLine_progress|cbn [length]; lia|].
    intros l s2 H2. cbn [progress]. lia. }
  destruct (b =b b_colon).
  { apply (progress_bind true true _ s1); [apply readLine_progress|cbn [length]; lia|].
    intros l s2 H2. cbn beta iota. destruct (ParseInt l) as [n [?|]]; [done|]. cbn [progress]. lia. }
  destruct (b =b b_dollar).
  { apply (progress_bind true true _ s1); [apply readLine_progress|cbn [length]; lia|].
    intros l s2 H2. cbn beta iota zeta. destruct (_ <? 0); [cbn [progress]; lia|].
    destruct (negb _); [done|].
    apply (progress_bind false false s2 s2); [|lia|intros buf s3 H3; cbn [progress]; lia].
    unfold ReadFull. destruct (_ <=? _); [|done]. cbn [progress]. rewrite length_drop. lia. }
  destruct (b =b b_star); [|done].
  apply (progress_bind true true _ s1); [apply readLine_progress|cbn [length]; lia|].
  intros l s2 H2. cbn beta iota zeta. destruct (_ <? 0); [cbn [progress]; lia|].
  destruct (negb _); [done|].
  apply (progress_bind false false s2 s2); [|lia|intros rs s3 H3; cbn [progress]; lia].
  apply read_many_progress. intros s' Hs'. apply IH. lia.
Qed.

(** * Theorems *)

(** C19: the protocol round trip: the bytes [pipe] writes for any commands with
    any arguments (binary ones included) are read back, by the reader of the
    same file, as exactly those commands, and nothing of what follows is
    consumed; likewise every reply the protocol can express. *)
Theorem readResp_roundtrip (d : nat) (eof : bool) (cmds : list (list bytes)) (r : Resp) (rest : bytes) :
  Forall (fun args => Z.of_nat (length args) <= 2 ^ 40
    /\ Forall (fun a : bytes => Z.of_nat (length a) <= 2 ^ 40) args) cmds ->
  wire d r ->
  read_many (readResp 2 eof) (length cmds) (append_cmds cmds ++ rest)
    = Ret (Some (map (fun args => array (map bulk args)) cmds, rest))
  /\ readResp d eof (enc_resp r ++ rest) = Ret (Some (r, rest)).
Proof.
  intros Hc Hw. split; [|by apply readResp_enc]. rewrite append_cmds_arrays.
  rewrite <- (length_map (fun args => array (map bulk args)) cmds).
  rewrite <- (map_map (fun args => array (map bulk args)) enc_resp).
  apply read_many_all, Forall_forall. intros x Hx s. apply readResp_enc.
  apply list_elem_of_fmap in Hx as (args & -> & Hin). rewrite Forall_forall in Hc.
  destruct (Hc _ Hin) as [Hl Ha]. constructor; [by rewrite length_map|].
  apply Forall_map. eapply Forall_impl; [exact Ha|]. intros a. apply wire_bulk.
Qed.

(** reading a reply terminates: on a connection whose peer has closed it,
    [readResp] returns, in error or with a reply and strictly fewer bytes left,
    or panics; it never loops, whatever the bytes are. *)
Theorem readResp_terminates (fuel : nat) (s : bytes) :
  (length s < fuel)%nat ->
  readResp fuel true s <> Diverge
  /\ forall r s', readResp fuel true s = Ret (Some (r, s')) -> (length s' < length s)%nat.
Proof.
  intros Hs. pose proof (readResp_progress fuel s Hs) as P. split; [by intros E; rewrite E in P|].
  intros r s' E. rewrite E in P. cbn [progress] in P. lia.
Qed.

(** a reply header announcing a string of 2^48 - 1 bytes or more panics the
    process instead of failing the command, as does one that overflows. *)
Theorem readResp_header_panics (fuel : nat) (eof : bool) (n : Z) (rest : bytes) :
  2 ^ 48 - 2 < n < 2 ^ 63 ->
  readResp (S fuel) eof ([b_dollar] ++ itoa n ++ CRLF ++ rest) = Panic.
Proof.
  intros Hn. cbn [readResp app]. kinds. rewrite readLine_num. cbn [go_bind].
  rewrite ParseInt_itoa by (unfold is_int64; lia). cbn [fst]. replace (n <? 0) with false by lia.
  replace (make_ok 1 _) with false; [done|]. unfold make_ok. symmetry. apply andb_false_iff.
  destruct (Z.lt_ge_cases (n + 2) (2 ^ 63)) as [Hlt|Hge].
  - right. rewrite int64_id by (unfold is_int64; lia). lia.
  - left. unfold int64, wrap. replace (n + 2 + 2 ^ (64 - 1)) with ((n + 2 - 2 ^ 63) + 1 * 2 ^ 64) by lia.
    rewrite Z_mod_plus_full, Z.mod_small by lia. lia.
Qed.

Definition demo_get : list bytes := Eval vm_compute in [lit "GET"; lit "l:ab"].
Definition demo_reply : Resp := array [bulk [x61]; null; int_reply (-3)].

Lemma readResp_roundtrip_witness :
  read_many (readResp 2 true) 1 (append_cmds [demo_get] ++ [x2b])
    = Ret (Some ([array (map bulk demo_get)], [x2b]))
  /\ readResp 2 true (enc_resp demo_reply ++ [x2b]) = Ret (Some (demo_reply, [x2b])).
Proof.
  apply (readResp_roundtrip 2 true [demo_get] demo_reply [x2b]).
  - repeat (constructor; try (cbn; lia)).
  - repeat (constructor; try (cbn; unfold is_int64; lia)).
Defined.

Lemma readResp_terminates_witness :
  readResp 4 true [x2a; x39; x0d] <> Diverge
  /\ forall r s', readResp 4 true [x2a; x39; x0d] = Ret (Some (r, s')) -> (length s' < 3)%nat.
Proof. apply (readResp_terminates 4 [x2a; x39; x0d]). cbn. lia. Defined.

Lemma readResp_header_panics_witness :
  readResp 1 true ([b_dollar] ++ itoa (2 ^ 63 - 1) ++ CRLF ++ []) = Panic.
Proof. apply (readResp_header_panics 0 true (2 ^ 63 - 1) []). lia. Defined.
