(* ===== verification/Kv.v ===== *)
(** * Kv: the RESP client of [internal/store/kv.go]

    The connection pool, [pipe] and the typed commands on top of it. The network
    and the server behind it are parameters: [Network] is what a dial and a
    write do, and [RespServer] states the documented replies of a server. A
    pooled connection is the bytes that its buffered reader holds. *)

From S2P Require Import Prelude GoStd Codec Resp.
From stdpp Require Import options.

(** The outside world of the client: whether a dial succeeds; for a write, an
    error, or the bytes that arrive on the connection afterwards and whether
    the peer then closes it. *)
Class Network (net : Type) := {
  DialTCP : net -> bool * net;
  Write : bytes -> net -> option (bytes * bool) * net
}.

Record Kv (net : Type) := mkKv { k_pool : list bytes; k_net : net }.
Arguments mkKv {net} _ _.
Arguments k_pool {net} _.
Arguments k_net {net} _.

Definition kvPoolSize : nat := 32.

(** A call of the client: [None] is an error. *)
Definition kcall (net A : Type) : Type := go (option A * Kv net).

Definition kbind {net A B : Type} (m : kcall net A) (f : A -> Kv net -> kcall net B) : kcall net B :=
  let* (o, k) := m in match o with None => Ret (None, k) | Some a => f a k end.

Section Client.
Context {net : Type} `{Network net} `{MapOrder}.

Definition conn (k : Kv net) : option bytes * Kv net :=
  match k_pool k with
  | cn :: pool => (Some cn, mkKv pool (k_net k))
  | [] => let '(ok, n) := DialTCP (k_net k) in ((if ok then Some [] else None), mkKv [] n)
  end.

Definition put (cn : bytes) (k : Kv net) : Kv net :=
  if (length (k_pool k) <? kvPoolSize)%nat then mkKv (k_pool k ++ [cn]) (k_net k) else k.

(** One write, then one reply per command; a connection that failed is
    dropped. A reply takes at least one byte, so the fuel is enough. *)
Definition pipe (cmds : list (list bytes)) (k : Kv net) : kcall net (list Resp) :=
  match conn k with
  | (None, k1) => Ret (None, k1)
  | (Some cn, k1) =>
      match Write (append_cmds cmds) (k_net k1) with
      | (None, n) => Ret (None, mkKv (k_pool k1) n)
      | (Some (arrived, eof), n) =>
          let k2 := mkKv (k_pool k1) n in
          let s := cn ++ arrived in
          let* o := read_many (readResp (S (length s)) eof) (length cmds) s in
          match o with
          | None => Ret (None, k2)
          | Some (rs, rest) => Ret (Some rs, put rest k2)
          end
      end
  end.

Definition cmd (args : list bytes) (k : Kv net) : kcall net Resp :=
  kbind (pipe [args] k) (fun rs k =>
    match rs with r :: _ => Ret (Some r, k) | [] => Panic end).

Definition w_PING : bytes := Eval vm_compute in lit "PING".
Definition w_GET : bytes := Eval vm_compute in lit "GET".
Definition w_SET : bytes := Eval vm_compute in lit "SET".
Definition w_PX : bytes := Eval vm_compute in lit "PX".
Definition w_NX : bytes := Eval vm_compute in lit "NX".
Definition w_DEL : bytes := Eval vm_compute in lit "DEL".
Definition w_INCRBY : bytes := Eval vm_compute in lit "INCRBY".
Definition w_HGET : bytes := Eval vm_compute in lit "HGET".
Definition w_HSETNX : bytes := Eval vm_compute in lit "HSETNX".
Definition w_HSET : bytes := Eval vm_compute in lit "HSET".
Definition w_HDEL : bytes := Eval vm_compute in lit "HDEL".
Definition w_HINCRBY : bytes := Eval vm_compute in lit "HINCRBY".
Definition w_SCAN : bytes := Eval vm_compute in lit "SCAN".
Definition w_HSCAN : bytes := Eval vm_compute in lit "HSCAN".
Definition w_MATCH : bytes := Eval vm_compute in lit "MATCH".
Definition w_COUNT : bytes := Eval vm_compute in lit "COUNT".
Definition w_FLUSHDB : bytes := Eval vm_compute in lit "FLUSHDB".
Definition w_OK : bytes := Eval vm_compute in lit "OK".
Definition w_PONG : bytes := Eval vm_compute in lit "PONG".

Definition is_ok (r : Resp) : bool := (Kind r =b b_plus) && bool_decide (Str r = Some w_OK).

(** [Dial] on a fresh pool. *)
Definition Dial (n : net) : kcall net unit :=
  match conn (mkKv [] n) with
  | (None, k) => Ret (None, k)
  | (Some cn, k) => kbind (cmd [w_PING] (put cn k)) (fun _ k => Ret (Some tt, k))
  end.

(** A nil slice is the inner [None]. *)
Definition str_of (r : Resp) : option bytes := if IsNull r then None else Str r.

Definition Get (key : bytes) (k : Kv net) : kcall net (option bytes) :=
  kbind (cmd [w_GET; key] k) (fun r k => Ret (Some (str_of r), k)).

Definition set_args (key val : bytes) (pxMs : Z) (nx : bool) : list bytes :=
  [w_SET; key; val] ++ (if 0 <? pxMs then [w_PX; itoa pxMs] else []) ++ (if nx then [w_NX] else []).

Definition Set_ (key val : bytes) (pxMs : Z) (nx : bool) (k : Kv net) : kcall net bool :=
  kbind (cmd (set_args key val pxMs nx) k) (fun r k => Ret (Some (is_ok r), k)).

Definition Del (key : bytes) (k : Kv net) : kcall net Z :=
  kbind (cmd [w_DEL; key] k) (fun r k => Ret (Some (Int r), k)).

Definition IncrByMany (deltas : gmap bytes Z) (k : Kv net) : kcall net unit :=
  if bool_decide (deltas = ∅) then Ret (Some tt, k)
  else
    let cmds := map (fun key => [w_INCRBY; key; itoa (default 0 (deltas !! key))]) (range_keys deltas) in
    kbind (pipe cmds k) (fun _ k => Ret (Some tt, k)).

Definition Hget (key field : bytes) (k : Kv net) : kcall net (option bytes) :=
  kbind (cmd [w_HGET; key; field] k) (fun r k => Ret (Some (str_of r), k)).

Definition Hsetnx (key field val : bytes) (k : Kv net) : kcall net bool :=
  kbind (cmd [w_HSETNX; key; field; val] k) (fun r k => Ret (Some (Int r =? 1), k)).

Definition Hset (key field val : bytes) (k : Kv net) : kcall net unit :=
  kbind (cmd [w_HSET; key; field; val] k) (fun _ k => Ret (Some tt, k)).

Definition Hdel (key field : bytes) (k : Kv net) : kcall net Z :=
  kbind (cmd [w_HDEL; key; field] k) (fun r k => Ret (Some (Int r), k)).

Record hincr := mkHincr { hi_key : bytes; hi_field : bytes; hi_n : Z }.

Definition HIncrByMany (deltas : list hincr) (k : Kv net) : kcall net unit :=
  match deltas with
  | [] => Ret (Some tt, k)
  | _ =>
      let cmds := map (fun d => [w_HINCRBY; hi_key d; hi_field d; itoa (hi_n d)]) deltas in
      kbind (pipe cmds k) (fun _ k => Ret (Some tt, k))
  end.

(** The consecutive pairs of a flat reply. *)
Fixpoint pairs_of (items : list Resp) : list (bytes * bytes) :=
  match items with
  | f :: v :: items' => (default [] (Str f), default [] (Str v)) :: pairs_of items'
  | _ => []
  end.

Definition w_zero : bytes := [x30].

(** [HScanEach] hands its callback the pairs, in order; the callbacks do no
    I/O, so the model returns those delivered before it ended, and whether it
    returned nil. [rounds] bounds the number of cursor steps. *)
Fixpoint HScanEach (rounds : nat) (key cursor : bytes) (k : Kv net)
    : go (list (bytes * bytes) * bool * Kv net) :=
  match rounds with
  | O => Diverge
  | S rounds' =>
      let* (o, k1) := cmd [w_HSCAN; key; cursor; w_COUNT; lit "1000"] k in
      match o with
      | None => Ret ([], false, k1)
      | Some r =>
          match default [] (Arr r) with
          | [c; items] =>
              let ps := pairs_of (default [] (Arr items)) in
              let cursor := default [] (Str c) in
              if bool_decide (cursor = w_zero) then Ret (ps, true, k1)
              else
                let* (ps', ok, k2) := HScanEach rounds' key cursor k1 in
                Ret (ps ++ ps', ok, k2)
          | _ => Ret ([], true, k1)
          end
      end
  end.

(** [ScanEach] likewise, with the keys. *)
Fixpoint ScanEach (rounds : nat) (pat cursor : bytes) (k : Kv net) : go (list bytes * bool * Kv net) :=
  match rounds with
  | O => Diverge
  | S rounds' =>
      let* (o, k1) := cmd [w_SCAN; cursor; w_MATCH; pat; w_COUNT; lit "500"] k in
      match o with
      | None => Ret ([], false, k1)
      | Some r =>
          match (if Kind r =b b_star then default [] (Arr r) else []) with
          | [c; items] =>
              let ks := if Kind items =b b_star
                        then map (fun x => default [] (Str x)) (default [] (Arr items)) else [] in
              let cursor := default [] (Str c) in
              if bool_decide (cursor = w_zero) then Ret (ks, true, k1)
              else
                let* (ks', ok, k2) := ScanEach rounds' pat cursor k1 in
                Ret (ks ++ ks', ok, k2)
          | _ => Ret ([], true, k1)
          end
      end
  end.

Definition FlushDB (k : Kv net) : kcall net unit :=
  kbind (cmd [w_FLUSHDB] k) (fun _ k => Ret (Some tt, k)).

End Client.

(** ** What the client relies on of a server *)

Inductive rvalue := VStr (v : bytes) | VHash (h : gmap bytes bytes).

(** The string, the number, the hash a key is taken to hold; [None] when it is
    of another type. *)
Definition str_at (o : option rvalue) : option (option bytes) :=
  match o with None => Some None | Some (VStr v) => Some (Some v) | Some (VHash _) => None end.

Definition num_of (o : option bytes) : option Z :=
  match o with
  | None => Some 0
  | Some v => match ParseInt v with (n, None) => Some n | (_, Some _) => None end
  end.

Definition hash_at (o : option rvalue) : option (gmap bytes bytes) :=
  match o with None => Some ∅ | Some (VHash h) => Some h | Some (VStr _) => None end.

(** A hash without fields is no key. *)
Definition set_hash (k : bytes) (h : gmap bytes bytes) (m : gmap bytes rvalue) : gmap bytes rvalue :=
  if decide (h = ∅) then delete k m else <[k := VHash h]> m.

Definition bulk_or_null (o : option bytes) : Resp :=
  match o with Some v => bulk v | None => null end.

(** The flat reply of a hash scan. *)
Fixpoint flat_bulks (fvs : list (bytes * bytes)) : list Resp :=
  match fvs with [] => [] | fv :: fvs' => bulk fv.1 :: bulk fv.2 :: flat_bulks fvs' end.

(** The pattern of the keys of links. *)
Definition l_pat : bytes := Eval vm_compute in lit "l:*".

Definition present {A : Type} (o : option A) : Z := match o with Some _ => 1 | None => 0 end.

(** The documented limits of a request: strings of at most 512 MB, at most
    2^20 arguments. *)
Definition fits (a : bytes) : Prop := Z.of_nat (length a) <= 2 ^ 29.
Definition cmd_fits (args : list bytes) : Prop :=
  Z.of_nat (length args) <= 2 ^ 20 /\ Forall fits args.

Section ExecAll.
Context {net : Type} (exec : list bytes -> net -> Resp * net).

(** The commands of one write, in order. *)
Fixpoint exec_all (cmds : list (list bytes)) (n : net) : list Resp * net :=
  match cmds with
  | [] => ([], n)
  | args :: cmds' =>
      let '(r, n1) := exec args n in
      let '(rs, n2) := exec_all cmds' n1 in
      (r :: rs, n2)
  end.

End ExecAll.

(** The commands of a write are executed in order, each with one reply, and the
    replies arrive in that order on its connection; then the documented
    replies and effects of the commands the stores use, on the keyspace
    [keys]. Nothing is said of a command on a key of another type, nor of a
    key whose lifetime ends. *)
Class RespServer (net : Type) `{Network net} := {
  exec : list bytes -> net -> Resp * net;
  keys : net -> gmap bytes rvalue;
  dial_up : forall n, DialTCP n = (true, n);
  exec_wire : forall args n, wire 4 (exec args n).1;
  write_replies : forall cmds n, Forall cmd_fits cmds ->
    Write (append_cmds cmds) n
      = (Some (concat (map enc_resp (exec_all exec cmds n).1), false), (exec_all exec cmds n).2);
  exec_ping : forall n, (exec [w_PING] n).1 = simple w_PONG /\ keys (exec [w_PING] n).2 = keys n;
  exec_get : forall k n o, str_at (keys n !! k) = Some o ->
    (exec [w_GET; k] n).1 = bulk_or_null o /\ keys (exec [w_GET; k] n).2 = keys n;
  exec_get_wrong : forall k n, str_at (keys n !! k) = None ->
    (exists msg, (exec [w_GET; k] n).1 = failure msg) /\ keys (exec [w_GET; k] n).2 = keys n;
  exec_set : forall k v px nx n, fits v ->
    let r := exec (set_args k v px nx) n in
    if nx && bool_decide (is_Some (keys n !! k)) then r.1 = null /\ keys r.2 = keys n
    else r.1 = simple w_OK /\ keys r.2 = <[k := VStr v]> (keys n);
  exec_del : forall k n,
    let r := exec [w_DEL; k] n in
    r.1 = int_reply (present (keys n !! k)) /\ keys r.2 = delete k (keys n);
  exec_incrby : forall k d n o m, str_at (keys n !! k) = Some o -> num_of o = Some m ->
    is_int64 d -> is_int64 (m + d) ->
    let r := exec [w_INCRBY; k; itoa d] n in
    r.1 = int_reply (m + d) /\ keys r.2 = <[k := VStr (itoa (m + d))]> (keys n);
  exec_hget : forall k f n h, hash_at (keys n !! k) = Some h ->
    let r := exec [w_HGET; k; f] n in
    r.1 = bulk_or_null (h !! f) /\ keys r.2 = keys n;
  exec_hsetnx : forall k f v n h, fits v -> hash_at (keys n !! k) = Some h ->
    let r := exec [w_HSETNX; k; f; v] n in
    r.1 = int_reply (1 - present (h !! f))
    /\ keys r.2 = match h !! f with Some _ => keys n | None => set_hash k (<[f := v]> h) (keys n) end;
  exec_hset : forall k f v n h, fits v -> hash_at (keys n !! k) = Some h ->
    let r := exec [w_HSET; k; f; v] n in
    r.1 = int_reply (1 - present (h !! f)) /\ keys r.2 = set_hash k (<[f := v]> h) (keys n);
  exec_hdel : forall k f n h, hash_at (keys n !! k) = Some h ->
    let r := exec [w_HDEL; k; f] n in
    r.1 = int_reply (present (h !! f)) /\ keys r.2 = set_hash k (delete f h) (keys n);
  exec_hincrby : forall k f d n h m, hash_at (keys n !! k) = Some h -> num_of (h !! f) = Some m ->
    is_int64 d -> is_int64 (m + d) ->
    let r := exec [w_HINCRBY; k; f; itoa d] n in
    r.1 = int_reply (m + d) /\ keys r.2 = set_hash k (<[f := itoa (m + d)]> h) (keys n);
  (* an increment of what is no number, or past the range, is an error *)
  exec_incrby_refused : forall k d n,
    (forall o m, str_at (keys n !! k) = Some o -> num_of o = Some m -> ~ is_int64 (m + d)) -> is_int64 d ->
    keys (exec [w_INCRBY; k; itoa d] n).2 = keys n;
  exec_hincrby_refused : forall k f d n,
    (forall h m, hash_at (keys n !! k) = Some h -> num_of (h !! f) = Some m -> ~ is_int64 (m + d)) -> is_int64 d ->
    keys (exec [w_HINCRBY; k; f; itoa d] n).2 = keys n;
  (* a scan step delivers keys, or the fields of a hash, that are there *)
  exec_scan : forall cursor n,
    let r := exec [w_SCAN; cursor; w_MATCH; l_pat; w_COUNT; lit "500"] n in
    keys r.2 = keys n /\ exists next ks, r.1 = array [bulk next; array (map bulk ks)] /\ fits next
      /\ Forall (fun k => HasPrefix k [x6c; x3a] = true /\ fits k /\ is_Some (keys n !! k)) ks;
  exec_hscan : forall k cursor n,
    let r := exec [w_HSCAN; k; cursor; w_COUNT; lit "1000"] n in
    keys r.2 = keys n /\
    match hash_at (keys n !! k) with
    | Some h => exists next fvs, r.1 = array [bulk next; array (flat_bulks fvs)] /\ fits next
        /\ Forall (fun fv => h !! fv.1 = Some fv.2 /\ fits fv.1) fvs
    | None => exists msg, r.1 = failure msg
    end
}.

(** A server that drops keys in time: what is gone by [now] is rows whose own
    expiry is past. A row is written with PX, the lifetime counted from a
    reading of the clock before the command is sent, so that its key outlives
    the expiry it carries; no other key is given a lifetime. *)
Class ExpiringServer (net : Type) `{RespServer net} := {
  lapse : Z -> net -> net;
  lapse_keys : forall now n k,
    keys (lapse now n) !! k = keys n !! k
    \/ keys (lapse now n) !! k = None /\ exists v e c u,
         keys n !! k = Some (VStr v) /\ decVal v = Some (e, c, u) /\ e <> 0 /\ e <= now
}.

(** * Lemmas *)

(** No pooled connection holds bytes of an earlier reply. *)
Definition synced {net : Type} (k : Kv net) : Prop :=
  Forall (fun cn => cn = []) (k_pool k) /\ (length (k_pool k) <= kvPoolSize)%nat.

Section Pool.
Context {net : Type} `{Network net}.

Lemma conn_synced (k : Kv net) :
  (forall n : net, DialTCP n = (true, n)) -> synced k ->
  exists k1, conn k = (Some [], k1) /\ k_net k1 = k_net k
    /\ Forall (fun cn => cn = []) (k_pool k1) /\ (length (k_pool k1) < kvPoolSize)%nat.
Proof.
  intros Hup [Hp Hl]. unfold conn. destruct (k_pool k) as [|cn pool].
  - rewrite Hup. eexists. split_and!; [done|done|constructor|cbn; unfold kvPoolSize; lia].
  - inversion Hp; subst. eexists. split_and!; [done|done|done|cbn in *; lia].
Qed.

Lemma put_synced (k : Kv net) :
  Forall (fun cn => cn = []) (k_pool k) -> (length (k_pool k) < kvPoolSize)%nat ->
  synced (put [] k) /\ k_net (put [] k) = k_net k.
Proof.
  intros Hp Hl. unfold put. destruct (Nat.ltb_spec (length (k_pool k)) kvPoolSize) as [_|?]; [|lia].
  split; [|done]. split; cbn [k_pool]; [apply Forall_app; by repeat constructor|].
  rewrite length_app. cbn. lia.
Qed.

End Pool.

Section Serving.
Context {net : Type} `{RespServer net}.

#[local] Set Default Proof Using "Type*".

Lemma exec_all_wire (cmds : list (list bytes)) (n : net) :
  Forall (wire 4) (exec_all exec cmds n).1 /\ length (exec_all exec cmds n).1 = length cmds.
Proof.
  revert n. induction cmds as [|args cmds IH]; intros n; cbn [exec_all]; [done|].
  pose proof (exec_wire args n) as Hw. destruct (exec args n) as [r n1]. specialize (IH n1).
  destruct (exec_all _ _ _) as [rs n2]. cbn in *. destruct IH as [? ->]. by split; [constructor|].
Qed.

Lemma enc_resp_length (d : nat) (r : Resp) : wire d r -> (3 <= length (enc_resp r))%nat.
Proof.
  intros Hw. inversion Hw; subst; cbn [enc_resp simple failure int_reply bulk null array null_array Kind Str Int Arr];
    kinds; rewrite ?length_cons, ?length_app; unfold CRLF; cbn [length]; lia.
Qed.

Lemma wire_fuel (d d' : nat) (eof : bool) (rs : list Resp) :
  (d <= d')%nat -> Forall (wire d) rs ->
  Forall (fun r => forall s, readResp d' eof (enc_resp r ++ s) = Ret (Some (r, s))) rs.
Proof.
  intros Hd. induction 1 as [|r rs Hr Hrs IH]; constructor; [|done].
  intros s. apply readResp_enc. by eapply wire_mono.
Qed.

Lemma pipe_serves (cmds : list (list bytes)) (k : Kv net) :
  synced k -> Forall cmd_fits cmds ->
  exists k', pipe cmds k = Ret (Some (exec_all exec cmds (k_net k)).1, k')
    /\ synced k' /\ k_net k' = (exec_all exec cmds (k_net k)).2.
Proof.
  intros Hs Hf. destruct (conn_synced k dial_up Hs) as (k1 & Ec & En & Hp & Hl). unfold pipe. rewrite Ec, En.
  rewrite write_replies by done. destruct (exec_all_wire cmds (k_net k)) as [Hw Hlen].
  destruct (exec_all exec cmds (k_net k)) as [rs n']. cbn [fst snd] in *. cbv zeta. cbn [app].
  rewrite <- Hlen.
  pose proof (read_many_all (readResp (S (length (concat (map enc_resp rs)))) false) rs []) as Er.
  rewrite app_nil_r in Er. rewrite Er.
  - cbn [go_bind]. set (k2 := mkKv (k_pool k1) n').
    destruct (put_synced k2 Hp Hl) as [Hs2 En2]. by exists (put [] k2).
  - destruct rs as [|r rs]; [constructor|]. apply (wire_fuel 4); [|done].
    apply Forall_inv in Hw. pose proof (enc_resp_length _ _ Hw). cbn [map concat]. rewrite length_app. lia.
Qed.

Lemma cmd_serves (args : list bytes) (k : Kv net) :
  synced k -> cmd_fits args ->
  exists k', cmd args k = Ret (Some (exec args (k_net k)).1, k')
    /\ synced k' /\ k_net k' = (exec args (k_net k)).2.
Proof.
  intros Hs Hf. destruct (pipe_serves [args] k Hs) as (k' & Ep & Hs' & En); [by apply Forall_singleton|].
  exists k'. unfold cmd, kbind.
  rewrite Ep. cbn [go_bind exec_all] in *. by destruct (exec args (k_net k)).
Qed.

(** ** The typed commands, on the keyspace *)

(** [fit] proves that a command is within the limits. *)
Ltac fit := split; [cbn; lia|repeat (apply Forall_cons; split); try apply Forall_nil; try done; unfold fits; cbn; lia].

(** Runs the single command of a helper and leaves its law to use. *)
Ltac serve Hs :=
  let k' := fresh "k'" in
  let Ep := fresh "Ep" in let Hs' := fresh "Hs" in let En := fresh "En" in
  match goal with
  | |- context [cmd ?args ?k] =>
      destruct (cmd_serves args k Hs) as (k' & Ep & Hs' & En); [try fit|
        exists k'; rewrite Ep; unfold kbind; cbn [go_bind]; rewrite En]
  end.

Lemma Get_serves (key : bytes) (k : Kv net) (o : option bytes) :
  synced k -> fits key -> str_at (keys (k_net k) !! key) = Some o ->
  exists k', Get key k = Ret (Some o, k') /\ synced k' /\ keys (k_net k') = keys (k_net k).
Proof.
  intros Hs Hf Ho. destruct (exec_get key (k_net k) o Ho) as [Er Ek]. unfold Get. serve Hs.
  rewrite Er, Ek. split; [|done]. by destruct o.
Qed.

(** A read of any key, whatever its type. *)
Lemma Get_reads (key : bytes) (k : Kv net) :
  synced k -> fits key ->
  exists o k', Get key k = Ret (Some o, k') /\ synced k' /\ keys (k_net k') = keys (k_net k).
Proof.
  intros Hs Hf. destruct (str_at (keys (k_net k) !! key)) as [o|] eqn:Eo.
  - destruct (Get_serves key k o Hs Hf Eo) as (k' & E & P). by exists o, k'.
  - destruct (exec_get_wrong key (k_net k) Eo) as [[msg Er] Ek]. exists (Some msg). unfold Get. serve Hs. by rewrite Er, Ek.
Qed.

Lemma itoa_length (z : Z) : (length (itoa z) <= 21)%nat.
Proof.
  assert (forall f n acc, (length (utoa_loop f n acc) <= f + length acc)%nat) as Hu.
  { intros f. induction f as [|f IH]; intros n acc; cbn [utoa_loop]; [lia|].
    destruct (n <? 10); [cbn; lia|]. etrans; [apply IH|]. cbn. lia. }
  unfold itoa, utoa. destruct (z <? 0); cbn [length]; etrans; try apply le_n_S, Hu; try apply Hu; cbn; lia.
Qed.

Lemma set_args_fits (key val : bytes) (px : Z) (nx : bool) :
  fits key -> fits val -> cmd_fits (set_args key val px nx).
Proof.
  intros Hk Hv. unfold set_args. pose proof (itoa_length px).
  destruct (0 <? px), nx; cbn [app]; split; try (cbn; lia);
    repeat (apply Forall_cons; split); try apply Forall_nil; try done; unfold fits; cbn; lia.
Qed.

Lemma Set_serves (key val : bytes) (px : Z) (nx : bool) (k : Kv net) :
  synced k -> fits key -> fits val ->
  let taken := nx && bool_decide (is_Some (keys (k_net k) !! key)) in
  exists k', Set_ key val px nx k = Ret (Some (negb taken), k') /\ synced k'
    /\ keys (k_net k') = if taken then keys (k_net k) else <[key := VStr val]> (keys (k_net k)).
Proof.
  intros Hs Hk Hv taken. pose proof (exec_set key val px nx (k_net k) Hv) as He. cbv zeta in He.
  fold taken in He. unfold Set_. serve Hs; [by apply set_args_fits|].
  destruct taken; destruct He as [-> ->]; done.
Qed.

Lemma Del_serves (key : bytes) (k : Kv net) :
  synced k -> fits key ->
  exists k', Del key k = Ret (Some (present (keys (k_net k) !! key)), k') /\ synced k'
    /\ keys (k_net k') = delete key (keys (k_net k)).
Proof.
  intros Hs Hk. destruct (exec_del key (k_net k)) as [Er Ek]. unfold Del. serve Hs. by rewrite Er, Ek.
Qed.

Lemma Hget_serves (key f : bytes) (k : Kv net) (h : gmap bytes bytes) :
  synced k -> fits key -> fits f -> hash_at (keys (k_net k) !! key) = Some h ->
  exists k', Hget key f k = Ret (Some (h !! f), k') /\ synced k' /\ keys (k_net k') = keys (k_net k).
Proof.
  intros Hs Hk Hf Hh. destruct (exec_hget key f (k_net k) h Hh) as [Er Ek]. unfold Hget. serve Hs.
  rewrite Er, Ek. split; [|done]. by destruct (h !! f).
Qed.

Lemma Hsetnx_serves (key f val : bytes) (k : Kv net) (h : gmap bytes bytes) :
  synced k -> fits key -> fits f -> fits val -> hash_at (keys (k_net k) !! key) = Some h ->
  exists k', Hsetnx key f val k = Ret (Some (negb (bool_decide (is_Some (h !! f)))), k') /\ synced k'
    /\ keys (k_net k') = match h !! f with
                         | Some _ => keys (k_net k)
                         | None => set_hash key (<[f := val]> h) (keys (k_net k))
                         end.
Proof.
  intros Hs Hk Hf Hv Hh. destruct (exec_hsetnx key f val (k_net k) h Hv Hh) as [Er Ek]. unfold Hsetnx.
  serve Hs. rewrite Er, Ek. split; [|done]. by destruct (h !! f).
Qed.

Lemma Hset_serves (key f val : bytes) (k : Kv net) (h : gmap bytes bytes) :
  synced k -> fits key -> fits f -> fits val -> hash_at (keys (k_net k) !! key) = Some h ->
  exists k', Hset key f val k = Ret (Some tt, k') /\ synced k'
    /\ keys (k_net k') = set_hash key (<[f := val]> h) (keys (k_net k)).
Proof.
  intros Hs Hk Hf Hv Hh. destruct (exec_hset key f val (k_net k) h Hv Hh) as [Er Ek]. unfold Hset.
  serve Hs. by rewrite Ek.
Qed.

Lemma Hdel_serves (key f : bytes) (k : Kv net) (h : gmap bytes bytes) :
  synced k -> fits key -> fits f -> hash_at (keys (k_net k) !! key) = Some h ->
  exists k', Hdel key f k = Ret (Some (present (h !! f)), k') /\ synced k'
    /\ keys (k_net k') = set_hash key (delete f h) (keys (k_net k)).
Proof.
  intros Hs Hk Hf Hh. destruct (exec_hdel key f (k_net k) h Hh) as [Er Ek]. unfold Hdel. serve Hs.
  by rewrite Er, Ek.
Qed.

(** C18: pipelining is transparent: [pipe] returns one reply per command, in
    order, those the server gives when it executes the commands one after the
    other, and every connection it leaves in the pool is again at the end of a
    reply; a single [cmd] is the pipeline of one. *)
Theorem pipe_in_order (cmds : list (list bytes)) (k : Kv net) :
  synced k -> Forall cmd_fits cmds ->
  exists k', pipe cmds k = Ret (Some (exec_all exec cmds (k_net k)).1, k')
    /\ synced k' /\ k_net k' = (exec_all exec cmds (k_net k)).2
    /\ forall args, cmds = [args] -> cmd args k = Ret (Some (exec args (k_net k)).1, k').
Proof.
  intros Hs Hf. destruct (pipe_serves cmds k Hs Hf) as (k' & Ep & Hs' & En). exists k'. split_and!; [done..|].
  intros args ->. unfold cmd, kbind. rewrite Ep. cbn. by destruct (exec args (k_net k)).
Qed.

End Serving.
