(* ===== verification/KvStore.v ===== *)
(** * KvStore: the RESP backend, [internal/store/kvstore.go]

    [KvStore]: the client, the hot cache and the pending hit counters, with
    every operation of the file. Rows live at the server, under one string key
    per link or, in the hash layout, in a field of a bucket. Each reading of
    the clock is an argument; counters of [metrics] are threaded through. *)

From S2P Require Import Prelude GoStd Base62 Store StoreSpec Float Metrics Codec KvCache Dirty Resp Kv.
From stdpp Require Import options.

Record KvStore (net : Type) := mkKvStore {
  kv : Kv net;
  cache : kvCache;
  kdirty : list (gmap bytes Z);
  kinstance : Z;
  kprefix : byte;
  layoutHash : bool;
  buckets : Z;
  capShard : Z;
  kstopped : bool   (* [stop] is closed *)
}.
Arguments mkKvStore {net} _ _ _ _ _ _ _ _ _.
Arguments kv {net} _.
Arguments cache {net} _.
Arguments kdirty {net} _.
Arguments kinstance {net} _.
Arguments kprefix {net} _.
Arguments layoutHash {net} _.
Arguments buckets {net} _.
Arguments capShard {net} _.
Arguments kstopped {net} _.

Section Store.
Context {net : Type}.

Definition set_kv (k : Kv net) (s : KvStore net) : KvStore net :=
  mkKvStore k (cache s) (kdirty s) (kinstance s) (kprefix s) (layoutHash s) (buckets s) (capShard s) (kstopped s).
Definition set_cache (c : kvCache) (s : KvStore net) : KvStore net :=
  mkKvStore (kv s) c (kdirty s) (kinstance s) (kprefix s) (layoutHash s) (buckets s) (capShard s) (kstopped s).
Definition set_kdirty (d : list (gmap bytes Z)) (s : KvStore net) : KvStore net :=
  mkKvStore (kv s) (cache s) d (kinstance s) (kprefix s) (layoutHash s) (buckets s) (capShard s) (kstopped s).
Definition set_kstopped (s : KvStore net) : KvStore net :=
  mkKvStore (kv s) (cache s) (kdirty s) (kinstance s) (kprefix s) (layoutHash s) (buckets s) (capShard s) true.

Definition bkey (b : Z) (code : bytes) : bytes :=
  [x6c; x3a] ++ utoa (Z.of_nat (shardOf code) mod b).

Definition pending (s : KvStore net) (code : bytes) : Z := pending_of (kdirty s) code.

Definition bump (trackHits : bool) (code : bytes) (s : KvStore net) : KvStore net :=
  if trackHits then set_kdirty (bump_in code (kdirty s)) s else s.

Definition randCode (s : KvStore net) (buf : bytes) : bytes := kprefix s :: randSuffix buf.

Context `{Network net} `{MapOrder} (trackHits : bool).

(** A client call of a method: the pool and the network move on. *)
Definition scall (A : Type) : Type := go (option A * KvStore net).

Definition with_kv {A : Type} (s : KvStore net) (m : kcall net A) : scall A :=
  let* (o, k) := m in Ret (o, set_kv k s).

(** KV_BUCKETS, 1000000 unless it is a number that counts. *)
Definition buckets_of (envBuckets : bytes) : Z :=
  match ParseUint envBuckets 10 32 with
  | (b, None) => if 0 <? b then b else 1000000
  | (_, Some _) => 1000000
  end.

(** [NewKV], given the variables KV_LAYOUT and KV_BUCKETS. *)
Definition NewKV (n : net) (instance cacheEntries cacheTTLMs : Z) (envLayout envBuckets : bytes)
    : go (option (KvStore net)) :=
  let* (o, k) := Dial n in
  match o with
  | None => Ret None
  | Some _ =>
      let instance := if instance <? 0 then 0 else instance in
      let instance := if maxInstances <=? instance then maxInstances - 1 else instance in
      let* p := alpha_at instance in
      let capS := Z.quot cacheEntries (Z.of_nat numShards) in
      let capS := if capS <? 16 then 16 else capS in
      let c := newKvCache cacheEntries cacheTTLMs in
      let b := buckets_of envBuckets in
      Ret (Some (mkKvStore k (mkCache (c_shards c) capS (c_ttl c)) cleared instance p
                   (bool_decide (envLayout = lit "hash")) b capS false))
  end.

Definition kvGet (code : bytes) (s : KvStore net) : scall (option bytes) :=
  with_kv s (if layoutHash s then Hget (bkey (buckets s) code) code (kv s) else Get (lkey code) (kv s)).

Definition flushHits (s : KvStore net) : scall unit :=
  let s' := set_kdirty (clear_all (kdirty s)) s in
  if layoutHash s then
    with_kv s' (HIncrByMany (map (fun cn => mkHincr (bkey (buckets s) cn.1) (hfield cn.1) cn.2) (dirty_pairs (kdirty s))) (kv s))
  else
    let deltas := foldl (fun m cn => <[hkey cn.1 := int64 (default 0 (m !! hkey cn.1) + cn.2)]> m) ∅ (dirty_pairs (kdirty s)) in
    with_kv s' (IncrByMany deltas (kv s)).

Definition Resolve (code : bytes) (t1 t2 t3 us : Z) (met : Metrics) (s : KvStore net)
    : go (option bytes * Metrics * KvStore net) :=
  match cache_get t1 code (cache s) with
  | (Some (u, _), c) => Ret (Some u, CacheHit met, bump trackHits code (set_cache c s))
  | (None, c) =>
      let* (o, s1) := kvGet code (set_cache c s) in
      let met := StoreRead us (CacheMiss met) in
      match o with
      | None | Some None => Ret (None, met, s1)
      | Some (Some v) =>
          match decVal v with
          | None => Ret (None, met, s1)
          | Some (e, _, u) =>
              if negb (e =? 0) && (e <=? t2) then Ret (None, met, s1)
              else Ret (Some u, met, bump trackHits code (set_cache (cache_put t3 code u e (cache s1)) s1))
          end
      end
  end.

Definition putNX (url : bytes) (ttlMs now : Z) (code : bytes) (s : KvStore net) : scall bool :=
  let v := encVal (expiry now ttlMs) now url in
  with_kv s (if layoutHash s then Hsetnx (bkey (buckets s) code) code v (kv s)
             else Set_ (lkey code) v ttlMs true (kv s)).

(** The retry loop of [Shorten]: it ends with a code the server accepted or
    with an error; [rnds] is the random source. *)
Fixpoint shorten_loop (url : bytes) (ttlMs now : Z) (rnds : list bytes) (s : KvStore net)
    : go (bytes * list bytes * KvStore net) :=
  match rnds with
  | [] => Diverge
  | buf :: rnds' =>
      let code := randCode s buf in
      let* (o, s1) := putNX url ttlMs now code s in
      match o with
      | Some true => Ret (code, rnds', s1)
      | None => Ret ([], rnds', s1)
      | Some false => shorten_loop url ttlMs now rnds' s1
      end
  end.

Definition Shorten_rnds (url alias : bytes) (hasAlias : bool) (ttlMs now : Z) (rnds : list bytes)
    (met : Metrics) (s : KvStore net) : go (bytes * list bytes * Metrics * KvStore net) :=
  let met := StoreWrite met in
  if hasAlias then
    let* (o, s1) := putNX url ttlMs now alias s in
    match o with
    | Some true => Ret (alias, rnds, met, s1)
    | _ => Ret ([], rnds, met, s1)
    end
  else let* (code, rnds', s1) := shorten_loop url ttlMs now rnds s in Ret (code, rnds', met, s1).

Definition Shorten (url alias : bytes) (hasAlias : bool) (ttlMs now : Z) (rnds : list bytes)
    (met : Metrics) (s : KvStore net) : go (bytes * Metrics * KvStore net) :=
  let* (code, _, met', s') := Shorten_rnds url alias hasAlias ttlMs now rnds met s in Ret (code, met', s').

(** The codes of a batch, one draw each. *)
Fixpoint draw_codes (s : KvStore net) (urls : list bytes) (rnds : list bytes) : go (list bytes * list bytes) :=
  match urls, rnds with
  | [], _ => Ret ([], rnds)
  | _ :: _, [] => Diverge
  | _ :: urls', buf :: rnds' =>
      let* (cs, rnds'') := draw_codes s urls' rnds' in Ret (randCode s buf :: cs, rnds'')
  end.

Definition many_args (s : KvStore net) (ttlMs exp now : Z) (c u : bytes) : list bytes :=
  if layoutHash s then [w_HSETNX; bkey (buckets s) c; c; encVal exp now u]
  else set_args (lkey c) (encVal exp now u) ttlMs true.

Definition many_ok (s : KvStore net) (r : Resp) : bool :=
  if layoutHash s then (Kind r =b b_colon) && (Int r =? 1) else is_ok r.

(** The second pass: the urls whose [ok] is false get a code of their own;
    [nows] are the readings of the clock of the retries. *)
Fixpoint retry_loop (ttlMs : Z) (nows : nat -> Z) (i : nat) (l : list (bytes * bytes * bool))
    (rnds : list bytes) (met : Metrics) (s : KvStore net) : go (list bytes * Metrics * KvStore net) :=
  match l with
  | [] => Ret ([], met, s)
  | (_, code, true) :: l' =>
      let* (cs, met', s') := retry_loop ttlMs nows (S i) l' rnds met s in Ret (code :: cs, met', s')
  | (u, _, false) :: l' =>
      let* (code, rnds', met1, s1) := Shorten_rnds u [] false ttlMs (nows i) rnds met s in
      let* (cs, met', s') := retry_loop ttlMs nows (S i) l' rnds' met1 s1 in Ret (code :: cs, met', s')
  end.

Definition ShortenMany (urls : list bytes) (ttlMs now : Z) (nows : nat -> Z) (rnds : list bytes)
    (met : Metrics) (s : KvStore net) : go (list bytes * Metrics * KvStore net) :=
  let exp := expiry now ttlMs in
  let* (codes, rnds') := draw_codes s urls rnds in
  let cmds := map (fun cu => many_args s ttlMs exp now cu.1 cu.2) (zip codes urls) in
  let* (o, s1) := with_kv s (pipe cmds (kv s)) in
  let oks := match o with None => map (fun _ => false) urls | Some rs => map (many_ok s) rs end in
  retry_loop ttlMs nows 0 (zip (zip urls codes) oks) rnds' met s1.

Definition Update (code url : bytes) (ttlMs : Z) (hasTTL : bool) (t1 t2 : Z) (s : KvStore net)
    : go (MutResult * KvStore net) :=
  let* (o, s1) := kvGet code s in
  match o with
  | None | Some None => Ret (MutMissing, s1)
  | Some (Some v) =>
      match decVal v with
      | None => Ret (MutMissing, s1)
      | Some (e, c, _) =>
          let exp := if hasTTL then expiry t1 ttlMs else e in
          let val := encVal exp c url in
          let px := if 0 <? exp then int64 (exp - t2) else 0 in
          let* (o2, s2) := with_kv s1
            (if layoutHash s1
             then kbind (Hset (bkey (buckets s1) code) code val (kv s1)) (fun _ k => Ret (Some true, k))
             else Set_ (lkey code) val px false (kv s1)) in
          match o2 with
          | Some true => Ret (MutOK, set_cache (cache_remove code (cache s2)) s2)
          | _ => Ret (MutMissing, s2)
          end
      end
  end.

Definition Remove (code : bytes) (s : KvStore net) : go (MutResult * KvStore net) :=
  let b := bkey (buckets s) code in
  let* (o, s1) := with_kv s (if layoutHash s then Hdel b code (kv s) else Del (lkey code) (kv s)) in
  match o with
  | None => Ret (MutMissing, s1)
  | Some n =>
      if n =? 0 then Ret (MutMissing, s1)
      else
        let* (_, s2) := with_kv s1
          (if layoutHash s1 then Hdel b (hfield code) (kv s1) else Del (hkey code) (kv s1)) in
        Ret (MutOK, set_cache (cache_remove code (cache s2)) s2)
  end.

(** ** Listing *)

(** The inner loop of the insertion sort: [items[j]] sinks towards the front. *)
Fixpoint sift (j : nat) (items : list Link) : list Link :=
  match j with
  | O => items
  | S j' =>
      match items !! j', items !! j with
      | Some a, Some b =>
          if Hits a <? Hits b then sift j' (<[j' := b]> (<[j := a]> items)) else items
      | _, _ => items
      end
  end.

Definition sort_hits (items : list Link) : list Link :=
  foldl (fun its i => sift i its) items (seq 1 (length items - 1)).

Definition order_by (sortBy : bytes) (items : list Link) : list Link :=
  if bool_decide (sortBy = s_hits) then sort_hits items else items.

Definition row_matches (q code u : bytes) : bool :=
  bool_decide (q = []) || Contains code q || Contains u q.

Definition row_link (code u : bytes) (hits e c : Z) : Link :=
  mkLink code u hits c (if e =? 0 then None else Some e).

(** [string(k[2:])]. *)
Definition key_code (k : bytes) : go bytes := if (length k <? 2)%nat then Panic else Ret (drop 2 k).

Definition list_item (q : bytes) (k : bytes) (row hits : option Resp) : go (option Link) :=
  let* code := key_code k in
  match row with
  | None => Ret None
  | Some r =>
      if IsNull r then Ret None
      else
        match decVal (default [] (Str r)) with
        | None => Ret None
        | Some (e, c, u) =>
            if negb (row_matches q code u) then Ret None
            else
              let n := match hits with
                       | Some h => if IsNull h then 0 else (ParseInt (default [] (Str h))).1
                       | None => 0
                       end in
              Ret (Some (row_link code u n e c))
        end
  end.

Fixpoint list_items (q : bytes) (i : nat) (ks : list bytes) (rs : list Resp) : go (list Link) :=
  match ks with
  | [] => Ret []
  | k :: ks' =>
      let* o := list_item q k (rs !! (2 * i)%nat) (rs !! (2 * i + 1)%nat) in
      let* ls := list_items q (S i) ks' rs in
      Ret (match o with Some l => l :: ls | None => ls end)
  end.

Fixpoint go_map {A B : Type} (f : A -> go B) (l : list A) : go (list B) :=
  match l with
  | [] => Ret []
  | a :: l' => let* b := f a in let* bs := go_map f l' in Ret (b :: bs)
  end.

Definition ListStrings (limit offset : Z) (sortBy q : bytes) (ks : list bytes) (s : KvStore net)
    : go (list Link * Z * KvStore net) :=
  let* cmds := go_map (fun k => let* c := key_code k in Ret [[w_GET; k]; [w_GET; hkey c]]) ks in
  let* (o, s1) := with_kv s (pipe (concat cmds) (kv s)) in
  let* items := list_items q 0 ks (default [] o) in
  let items := order_by sortBy items in
  let* p := page limit offset items in
  Ret (p, Z.of_nat (length items), s1).

(** One field of a bucket: a hit counter, or a row. *)
Definition hash_field (q : bytes) (now : Z) (st : gmap bytes Z * list Link) (fv : bytes * bytes)
    : gmap bytes Z * list Link :=
  match CutPrefix fv.1 [x68; x3a] with
  | Some rest => (<[rest := (ParseInt fv.2).1]> st.1, st.2)
  | None =>
      match decVal fv.2 with
      | None => st
      | Some (e, c, u) =>
          if negb (e =? 0) && (e <=? now) then st
          else if negb (row_matches q fv.1 u) then st
          else (st.1, st.2 ++ [row_link fv.1 u 0 e c])
      end
  end.

Fixpoint scan_buckets (rounds : nat) (bs : list bytes) (k : Kv net) : go (list (bytes * bytes) * Kv net) :=
  match bs with
  | [] => Ret ([], k)
  | b :: bs' =>
      let* (ps, _, k1) := HScanEach rounds b w_zero k in
      let* (ps', k2) := scan_buckets rounds bs' k1 in
      Ret (ps ++ ps', k2)
  end.

Definition with_hits (hits : gmap bytes Z) (l : Link) : Link :=
  mkLink (Code l) (URL l) (default 0 (hits !! Code l)) (CreatedAt l) (ExpiresAt l).

Definition listHash (rounds : nat) (limit offset : Z) (sortBy q : bytes) (bs : list bytes) (now : Z)
    (s : KvStore net) : go (list Link * Z * KvStore net) :=
  let* (fvs, k) := scan_buckets rounds bs (kv s) in
  let '(hits, items) := foldl (hash_field q now) (∅, []) fvs in
  let items := order_by sortBy (map (with_hits hits) items) in
  let* p := page limit offset items in
  Ret (p, Z.of_nat (length items), set_kv k s).

Definition List (rounds : nat) (limit offset : Z) (sortBy q : bytes) (now : Z) (s : KvStore net)
    : go (list Link * Z * KvStore net) :=
  let* (ks, _, k) := ScanEach rounds l_pat w_zero (kv s) in
  let s1 := set_kv k s in
  if layoutHash s then listHash rounds limit offset sortBy q ks now s1
  else ListStrings limit offset sortBy q ks s1.

(** ** The rest of the interface *)

Definition Stats (code : bytes) (s : KvStore net) : go (option Link * KvStore net) :=
  let* (o, s1) := kvGet code s in
  match o with
  | None | Some None => Ret (None, s1)
  | Some (Some v) =>
      match decVal v with
      | None => Ret (None, s1)
      | Some (e, c, u) =>
          let* (oh, s2) := with_kv s1
            (if layoutHash s1 then Hget (bkey (buckets s1) code) (hfield code) (kv s1)
             else Get (hkey code) (kv s1)) in
          let n := match oh with Some (Some hv) => (ParseInt hv).1 | _ => 0 end in
          Ret (Some (row_link code u (int64 (n + pending s2 code)) e c), s2)
      end
  end.

Definition Seed (urls : list bytes) (now : Z) (nows : nat -> Z) (rnds : list bytes) (met : Metrics)
    (s : KvStore net) : go (Z * Metrics * KvStore net) :=
  let* (_, met', s1) := ShortenMany urls 0 now nows rnds met s in
  let* (_, s2) := flushHits s1 in
  Ret (Z.of_nat (length urls), met', s2).

Definition Healthy (s : KvStore net) : go (bool * KvStore net) :=
  let* (o, s1) := with_kv s (cmd [w_PING] (kv s)) in
  Ret (match o with
       | Some r => (Kind r =b b_plus) && bool_decide (Str r = Some w_PONG)
       | None => false
       end, s1).

Definition IsEmpty (rounds : nat) (s : KvStore net) : go (bool * KvStore net) :=
  let* (ks, _, k) := ScanEach rounds l_pat w_zero (kv s) in
  Ret (match ks with [] => true | _ => false end, set_kv k s).

Definition Flush (s : KvStore net) : go (KvStore net) := let* (_, s1) := flushHits s in Ret s1.
Definition PollTails (s : KvStore net) : KvStore net := s.
Definition Compact (s : KvStore net) : KvStore net := s.
Definition Close (s : KvStore net) : go (KvStore net) := Flush (set_kstopped s).

(** The janitor of the hash layout: the fields whose expiry is past. *)
Definition dead_field (now : Z) (fv : bytes * bytes) : bool :=
  if HasPrefix fv.1 [x68; x3a] then false
  else match decVal fv.2 with
       | Some (e, _, _) => negb (e =? 0) && (e <=? now)
       | None => false
       end.

Fixpoint sweep_buckets (rounds : nat) (now : Z) (bs : list bytes) (k : Kv net)
    : go (list (list bytes) * Kv net) :=
  match bs with
  | [] => Ret ([], k)
  | b :: bs' =>
      let* (fvs, _, k1) := HScanEach rounds b w_zero k in
      let dels := map (fun fv => [w_HDEL; b; fv.1]) (List.filter (dead_field now) fvs) in
      let* (dels', k2) := sweep_buckets rounds now bs' k1 in
      Ret (dels ++ dels', k2)
  end.

Definition sweepExpired (rounds : nat) (now : Z) (s : KvStore net) : go (KvStore net) :=
  let* (bs, ok, k) := ScanEach rounds l_pat w_zero (kv s) in
  if negb ok then Ret (set_kv k s)
  else
    let* (dels, k1) := sweep_buckets rounds now bs k in
    match dels with
    | [] => Ret (set_kv k1 s)
    | _ => let* (_, k2) := pipe dels k1 in Ret (set_kv k2 s)
    end.

End Store.
