(* ===== verification/KvRows.v ===== *)
(** * KvRows: the rows of the RESP backend at its server

    The view of the server's keyspace as one map from codes to values, for both
    layouts, and the reads and writes of [KvStore] on that view, from the
    documented behaviour of the commands ([RespServer]). *)

From S2P Require Import Prelude GoStd Base62 Store StoreSpec Float Metrics Codec KvCache Dirty Resp Kv.
From S2P Require Import KvStore.
From stdpp Require Import options.

(** The value a code has in a keyspace; the outer [None] is a key of another
    type. *)
Definition raw_row (lay : bool) (b : Z) (m : gmap bytes rvalue) (code : bytes) : option (option bytes) :=
  if lay then (fun h : gmap bytes bytes => h !! code) <$> hash_at (m !! bkey b code)
  else str_at (m !! lkey code).

Definition put_row (lay : bool) (b : Z) (code v : bytes) (m : gmap bytes rvalue) : gmap bytes rvalue :=
  if lay then set_hash (bkey b code) (<[code := v]> (default ∅ (hash_at (m !! bkey b code)))) m
  else <[lkey code := VStr v]> m.

Definition del_row (lay : bool) (b : Z) (code : bytes) (m : gmap bytes rvalue) : gmap bytes rvalue :=
  if lay then set_hash (bkey b code) (delete code (default ∅ (hash_at (m !! bkey b code)))) m
  else delete (lkey code) m.

Lemma set_hash_lookup (k k' : bytes) (h : gmap bytes bytes) (m : gmap bytes rvalue) :
  hash_at (set_hash k h m !! k') = if decide (k = k') then Some h else hash_at (m !! k').
Proof.
  unfold set_hash. case_decide as Eh; case_decide as Ek; subst.
  - by rewrite lookup_delete_eq.
  - by rewrite lookup_delete_ne.
  - by rewrite lookup_insert_eq.
  - by rewrite lookup_insert_ne.
Qed.

Lemma lkey_inj (c c' : bytes) : lkey c = lkey c' -> c = c'.
Proof. by intros [=]. Qed.

Lemma raw_row_put (lay : bool) (b : Z) (code v : bytes) (m : gmap bytes rvalue) (c : bytes) :
  is_Some (raw_row lay b m code) ->
  raw_row lay b (put_row lay b code v m) c = if decide (code = c) then Some (Some v) else raw_row lay b m c.
Proof.
  unfold raw_row, put_row. destruct lay; intros [o Ho].
  - destruct (hash_at (m !! bkey b code)) as [h|] eqn:Eh; [|done]. cbn [default]. rewrite set_hash_lookup.
    case_decide as Ek.
    + rewrite <- Ek, Eh. cbn. case_decide as Ec; [subst; by rewrite lookup_insert_eq|by rewrite lookup_insert_ne].
    + case_decide as Ec; [by subst|done].
  - case_decide as Ec; [subst; by rewrite lookup_insert_eq|].
    rewrite lookup_insert_ne; [done|]. by intros ?%lkey_inj.
Qed.

Lemma raw_row_del (lay : bool) (b : Z) (code : bytes) (m : gmap bytes rvalue) (c : bytes) :
  is_Some (raw_row lay b m code) ->
  raw_row lay b (del_row lay b code m) c = if decide (code = c) then Some None else raw_row lay b m c.
Proof.
  unfold raw_row, del_row. destruct lay; intros [o Ho].
  - destruct (hash_at (m !! bkey b code)) as [h|] eqn:Eh; [|done]. cbn [default]. rewrite set_hash_lookup.
    case_decide as Ek.
    + rewrite <- Ek, Eh. cbn. case_decide as Ec; [subst; by rewrite lookup_delete_eq|by rewrite lookup_delete_ne].
    + case_decide as Ec; [by subst|done].
  - case_decide as Ec; [subst; by rewrite lookup_delete_eq|].
    rewrite lookup_delete_ne; [done|]. by intros ?%lkey_inj.
Qed.

Lemma small_fits (a : bytes) : small a -> fits a.
Proof. unfold small, fits. lia. Qed.

Lemma lkey_fits (c : bytes) : small c -> fits (lkey c).
Proof. unfold small, fits, lkey. cbn [app length]. lia. Qed.

Lemma hkey_fits (c : bytes) : small c -> fits (hkey c).
Proof. unfold small, fits, hkey. cbn [app length]. lia. Qed.

Lemma encVal_fits (e c : Z) (u : bytes) : small u -> fits (encVal e c u).
Proof.
  unfold small, fits, encVal. rewrite !length_app. pose proof (itoa_length e). pose proof (itoa_length c).
  cbn [length v1]. lia.
Qed.

Lemma bkey_fits (b : Z) (c : bytes) : 0 < b -> fits (bkey b c).
Proof.
  intros Hb. unfold bkey, fits. set (n := _ mod b). rewrite length_app.
  assert (0 <= n) by (apply Z.mod_pos_bound; lia).
  pose proof (itoa_length n) as Hl. unfold itoa in Hl. replace (n <? 0) with false in Hl by lia.
  cbn [length]. lia.
Qed.

Create HintDb fitting.
#[export] Hint Resolve small_fits lkey_fits hkey_fits encVal_fits bkey_fits : fitting.

Section Rows.
Context {net : Type} `{RespServer net} `{MapOrder}.

#[local] Set Default Proof Using "Type*".

Definition rows (s : KvStore net) (code : bytes) : option (option bytes) :=
  raw_row (layoutHash s) (buckets s) (keys (k_net (kv s))) code.

(** A node whose connections are in step and whose keys have the types the
    layout gives them. *)
Definition node_ok (s : KvStore net) : Prop :=
  synced (kv s) /\ 0 < buckets s /\ forall code, is_Some (rows s code).

(** What a node is configured with; no operation changes it. *)
Definition kv_conf (s : KvStore net) : bool * Z * byte := (layoutHash s, buckets s, kprefix s).

(** The row of a code, [None] also when its key is of another type. *)
Definition kv_row (s : KvStore net) (code : bytes) : option bytes := default None (rows s code).

Lemma rows_kv_row (s : KvStore net) (code : bytes) : node_ok s -> rows s code = Some (kv_row s code).
Proof. intros (_ & _ & Ht). unfold kv_row. by destruct (Ht code) as [o ->]. Qed.

Lemma kvGet_serves (code : bytes) (s : KvStore net) (o : option bytes) :
  node_ok s -> small code -> rows s code = Some o ->
  exists k', kvGet code s = Ret (Some o, set_kv k' s) /\ synced k' /\ keys (k_net k') = keys (k_net (kv s)).
Proof.
  intros (Hs & Hb & _) Hc Hr. unfold rows, raw_row in Hr. unfold kvGet, with_kv. destruct (layoutHash s).
  - destruct (hash_at _) as [h|] eqn:Eh; [|done]. injection Hr as <-.
    destruct (Hget_serves (bkey (buckets s) code) code (kv s) h) as (k' & -> & Hs' & Ek);
      [eauto with fitting..|]. cbn [go_bind]. eauto.
  - destruct (Get_serves (lkey code) (kv s) o) as (k' & -> & Hs' & Ek); [eauto with fitting..|].
    cbn [go_bind]. eauto.
Qed.

Lemma node_ok_keys (s : KvStore net) (k' : Kv net) :
  node_ok s -> synced k' -> keys (k_net k') = keys (k_net (kv s)) ->
  node_ok (set_kv k' s) /\ forall c, rows (set_kv k' s) c = rows s c.
Proof.
  intros (Hs & Hb & Ht) Hs' Ek. unfold node_ok, rows in *. cbn [kv layoutHash buckets set_kv]. by rewrite Ek.
Qed.

(** A keyspace in which one row changed. *)
Lemma node_ok_put (s : KvStore net) (k' : Kv net) (code v : bytes) :
  node_ok s -> synced k' -> keys (k_net k') = put_row (layoutHash s) (buckets s) code v (keys (k_net (kv s))) ->
  node_ok (set_kv k' s)
  /\ forall c, rows (set_kv k' s) c = if decide (code = c) then Some (Some v) else rows s c.
Proof.
  intros (Hs & Hb & Ht) Hs' Ek.
  assert (forall c, rows (set_kv k' s) c = if decide (code = c) then Some (Some v) else rows s c) as Hr.
  { intros c. unfold rows. cbn [kv layoutHash buckets set_kv]. rewrite Ek. apply raw_row_put, (Ht code). }
  split; [|done]. split_and!; [done|done|]. intros c. rewrite Hr. case_decide; [by eexists|apply Ht].
Qed.

Lemma node_ok_del (s : KvStore net) (k' : Kv net) (code : bytes) :
  node_ok s -> synced k' -> keys (k_net k') = del_row (layoutHash s) (buckets s) code (keys (k_net (kv s))) ->
  node_ok (set_kv k' s)
  /\ forall c, rows (set_kv k' s) c = if decide (code = c) then Some None else rows s c.
Proof.
  intros (Hs & Hb & Ht) Hs' Ek.
  assert (forall c, rows (set_kv k' s) c = if decide (code = c) then Some None else rows s c) as Hr.
  { intros c. unfold rows. cbn [kv layoutHash buckets set_kv]. rewrite Ek. apply raw_row_del, (Ht code). }
  split; [|done]. split_and!; [done|done|]. intros c. rewrite Hr. case_decide; [by eexists|apply Ht].
Qed.

Lemma putNX_serves (url : bytes) (ttlMs now : Z) (code : bytes) (s : KvStore net) (o : option bytes) :
  node_ok s -> small code -> small url -> rows s code = Some o ->
  let v := encVal (expiry now ttlMs) now url in
  exists k', putNX url ttlMs now code s = Ret (Some (negb (bool_decide (is_Some o))), set_kv k' s)
    /\ node_ok (set_kv k' s)
    /\ forall c, rows (set_kv k' s) c
         = if decide (o = None /\ code = c) then Some (Some v) else rows s c.
Proof.
  intros Hn Hc Hu Hr v. pose proof Hn as (Hs & Hb & Ht). unfold putNX, with_kv. fold v.
  assert (fits v) as Hv by by apply encVal_fits.
  assert (exists k', (if layoutHash s then Hsetnx (bkey (buckets s) code) code v (kv s)
                      else Set_ (lkey code) v ttlMs true (kv s))
      = Ret (Some (negb (bool_decide (is_Some o))), k') /\ synced k'
    /\ keys (k_net k') = match o with
                         | Some _ => keys (k_net (kv s))
                         | None => put_row (layoutHash s) (buckets s) code v (keys (k_net (kv s)))
                         end) as (k' & -> & Hs' & Ek).
  { unfold rows, raw_row in Hr. unfold put_row. destruct (layoutHash s).
    - destruct (hash_at _) as [h|] eqn:Eh; [|done]. injection Hr as <-.
      destruct (Hsetnx_serves (bkey (buckets s) code) code v (kv s) h) as (k' & -> & Hs' & Ek);
        [eauto with fitting..|]. by exists k'.
    - destruct (Set_serves (lkey code) v ttlMs true (kv s)) as (k' & -> & Hs' & Ek);
        [eauto with fitting..|]. exists k'. rewrite Ek. cbn [andb].
      destruct (keys _ !! lkey code) as [[x|x]|]; cbn [str_at] in Hr; simplify_eq; done. }
  cbn [go_bind]. exists k'. split; [done|]. destruct o as [x|].
  - destruct (node_ok_keys s k' Hn Hs' Ek) as [? Hk]. split; [done|]. intros c. rewrite Hk.
    by rewrite decide_False by by intros [? _].
  - destruct (node_ok_put s k' code v Hn Hs' Ek) as [? Hk]. split; [done|]. intros c. rewrite Hk.
    apply decide_ext. naive_solver.
Qed.

End Rows.
