(* ===== verification/KvSpec.v ===== *)
(** * KvSpec: the operations of the RESP backend

    [Resolve], [Shorten], [Update] and [Remove] of [KvStore] as operations on
    the shared map of rows, on every branch; what a node may still answer from
    its cache; and the loops and counters that misbehave. *)

From S2P Require Import Prelude GoStd Base62 Store StoreSpec Float Metrics Codec KvCache Dirty Resp Kv.
From S2P Require Import KvStore KvRows.
From stdpp Require Import options.

Section Spec.
Context {net : Type} `{RespServer net} `{MapOrder} (trackHits : bool).

#[local] Set Default Proof Using "Type*".

(** The codes whose rows a removal leaves alone: in the hash layout the hit
    counter of [code] is a field next to the rows. *)
Definition not_counter (code c : bytes) : Prop := c <> hfield code.

Lemma kv_shorten_loop_serves (url : bytes) (ttlMs now : Z) (rnds : list bytes) (s : KvStore net) :
  node_ok s -> small url -> Forall (fun b => length b = (codeLen - 1)%nat) rnds ->
  match shorten_loop url ttlMs now rnds s with
  | Ret (code, rs, s') => exists k', s' = set_kv k' s /\ node_ok s' /\ code <> []
      /\ (exists pre b, rnds = pre ++ b :: rs /\ code = randCode s b)
      /\ rows s code = Some None
      /\ forall c, rows s' c = if decide (code = c)
                               then Some (Some (encVal (expiry now ttlMs) now url)) else rows s c
  | Diverge => Forall (fun b => exists v, rows s (randCode s b) = Some (Some v)) rnds
  | Panic => False
  end.
Proof.
  intros Hn Hu. revert s Hn. induction rnds as [|buf rnds IH]; intros s Hn Hl; cbn [shorten_loop]; [done|].
  apply Forall_cons in Hl as [Hb Hl]. pose proof Hn as (_ & _ & Ht).
  destruct (Ht (randCode s buf)) as [o Ho].
  assert (small (randCode s buf)) as Hsm.
  { unfold small, randCode, randSuffix. cbn [length]. rewrite length_map, Hb. cbn. lia. }
  destruct (putNX_serves url ttlMs now _ s o Hn Hsm Hu Ho) as (k' & -> & Hn' & Hr). cbn [go_bind].
  destruct o as [v|]; cbn [bool_decide decide negb].
  - rewrite bool_decide_true by by eexists. cbn [negb]. specialize (IH (set_kv k' s) Hn' Hl).
    assert (forall c, rows (set_kv k' s) c = rows s c) as Hr'.
    { intros c. rewrite Hr. by rewrite decide_False by by intros [? _]. }
    destruct (shorten_loop _ _ _ _ _) as [[[code rs] s']| |]; [|done|].
    + destruct IH as (k2 & -> & Hn2 & Hc & (pre & b & -> & Eb) & Hfree & Hrow). exists k2. split_and!; [done..| | |].
      * by exists (buf :: pre), b.
      * by rewrite <- Hr'.
      * intros c. rewrite Hrow. by rewrite Hr'.
    + constructor; [by exists v|]. eapply Forall_impl; [exact IH|]. intros b [x Hx]. exists x.
      by rewrite <- Hr'.
  - rewrite bool_decide_false by by intros [? ?]. cbn [negb]. exists k'. split_and!; [done..|by exists [], buf|done|].
    intros c. rewrite Hr. apply decide_ext. naive_solver.
Qed.

(** [Shorten] on a serving node: the code it returns, or that it refused. *)
Lemma kv_Shorten_serves (url alias : bytes) (hasAlias : bool) (ttlMs now : Z) (rnds : list bytes)
    (met : Metrics) (s : KvStore net) :
  node_ok s -> small url -> small alias -> alias <> [] ->
  Forall (fun b => length b = (codeLen - 1)%nat) rnds ->
  match Shorten url alias hasAlias ttlMs now rnds met s with
  | Ret (code, met', s') => exists k', s' = set_kv k' s /\ node_ok s' /\ met' = StoreWrite met
      /\ if decide (code = [])
         then hasAlias = true /\ (exists v, rows s alias = Some (Some v)) /\ forall c, rows s' c = rows s c
         else (if hasAlias then code = alias else exists b, b ∈ rnds /\ code = randCode s b)
           /\ rows s code = Some None
           /\ forall c, rows s' c = if decide (code = c)
                                    then Some (Some (encVal (expiry now ttlMs) now url)) else rows s c
  | Diverge => hasAlias = false /\ Forall (fun b => exists v, rows s (randCode s b) = Some (Some v)) rnds
  | Panic => False
  end.
Proof.
  intros Hn Hu Ha Ha0 Hl. unfold Shorten, Shorten_rnds. destruct hasAlias.
  - pose proof Hn as (_ & _ & Ht). destruct (Ht alias) as [o Ho].
    destruct (putNX_serves url ttlMs now alias s o Hn Ha Hu Ho) as (k' & -> & Hn' & Hr). cbn [go_bind].
    destruct o as [v|].
    + rewrite bool_decide_true by by eexists. cbn [negb]. cbn [go_bind]. exists k'. split_and!; [done..|].
      rewrite decide_True by done. split_and!; [done|by exists v|]. intros c. rewrite Hr.
      by rewrite decide_False by by intros [? _].
    + rewrite bool_decide_false by by intros [? ?]. cbn [negb go_bind]. exists k'. split_and!; [done..|].
      rewrite decide_False by done. split_and!; [done..|]. intros c. rewrite Hr. apply decide_ext. naive_solver.
  - pose proof (kv_shorten_loop_serves url ttlMs now rnds s Hn Hu Hl) as P.
    destruct (shorten_loop _ _ _ _ _) as [[[code rs] s']| |]; cbn [go_bind]; [|done|done].
    destruct P as (k' & -> & Hn' & Hc & (pre & b & -> & Eb) & Hfree & Hrow). exists k'. split_and!; [done..|].
    rewrite decide_False by done. split; [|done]. exists b. split; [|done]. apply elem_of_app. right. by left.
Qed.

(** [Resolve] on a serving node. *)
Lemma kv_Resolve_serves (code : bytes) (t1 t2 t3 us : Z) (met : Metrics) (s : KvStore net) :
  node_ok s -> small code ->
  exists r met' s', Resolve trackHits code t1 t2 t3 us met s = Ret (r, met', s') /\ node_ok s'
    /\ (forall c, rows s' c = rows s c)
    /\ match (cache_get t1 code (cache s)).1 with
       | Some (u, _) => r = Some u /\ met' = CacheHit met
       | None => r = fst <$> live_row t2 (rows s code) /\ met' = StoreRead us (CacheMiss met)
       end
    /\ (kv_conf s' = kv_conf s /\ (kdirty s' = kdirty s \/ kdirty s' = bump_in code (kdirty s)))
    /\ (cache s' = (cache_get t1 code (cache s)).2
        \/ exists u e, live_row t2 (rows s code) = Some (u, e)
             /\ cache s' = cache_put t3 code u e (cache_get t1 code (cache s)).2).
Proof.
  intros Hn Hc. unfold Resolve. destruct (cache_get t1 code (cache s)) as [[[u e]|] c] eqn:Eg; cbn [fst snd].
  - eexists _, _, _. split; [done|]. unfold bump. destruct trackHits; split_and!; try done; first [by left|by right].
  - pose proof Hn as (_ & _ & Ht). destruct (Ht code) as [o Ho].
    destruct (kvGet_serves code (set_cache c s) o Hn Hc Ho) as (k' & -> & Hs' & Ek). cbn [go_bind].
    destruct (node_ok_keys (set_cache c s) k' Hn Hs' Ek) as [Hn' Hr].
    assert (forall x, rows (set_kv k' (set_cache c s)) x = rows s x) as Hr' by exact Hr.
    rewrite Ho. unfold live_row. destruct o as [v|].
    2: { eexists _, _, _. split; [done|]. split_and!; try done; by left. }
    destruct (decVal v) as [[[e c0] u]|].
    2: { eexists _, _, _. split; [done|]. split_and!; try done; by left. }
    destruct (negb _ && _).
    { eexists _, _, _. split; [done|]. split_and!; try done; by left. }
    eexists _, _, _. split; [done|]. unfold bump.
    destruct trackHits; split_and!; try done; first [by left|by right|right; by exists u, e].
Qed.

(** shortening against a server, in either layout: a taken alias is refused
    and nothing changes; otherwise the row of exactly one code that had none is
    written, the alias when there is one; the call returns as soon as one of
    the codes drawn is free. *)
Theorem kv_Shorten_spec (url alias : bytes) (hasAlias : bool) (ttlMs now : Z) (rnds : list bytes)
    (met : Metrics) (s : KvStore net) :
  node_ok s -> small url -> small alias -> alias <> [] ->
  Forall (fun b => length b = (codeLen - 1)%nat) rnds ->
  match Shorten url alias hasAlias ttlMs now rnds met s with
  | Ret (code, met', s') => exists k', s' = set_kv k' s /\ node_ok s' /\ met' = StoreWrite met
      /\ if decide (code = [])
         then hasAlias = true /\ (exists v, rows s alias = Some (Some v)) /\ forall c, rows s' c = rows s c
         else (if hasAlias then code = alias else exists b, b ∈ rnds /\ code = randCode s b)
           /\ rows s code = Some None
           /\ forall c, rows s' c = if decide (code = c)
                                    then Some (Some (encVal (expiry now ttlMs) now url)) else rows s c
  | Diverge => hasAlias = false /\ Forall (fun b => exists v, rows s (randCode s b) = Some (Some v)) rnds
  | Panic => False
  end.
Proof. apply kv_Shorten_serves. Qed.

(** C17: a link created through one node is resolved by every other: any node
    of the same server and layout that does not have the code in its cache
    answers the target as soon as the creation has returned, until the link
    expires. *)
Theorem kv_created_link_resolves (url alias : bytes) (hasAlias : bool) (ttlMs now : Z) (rnds : list bytes)
    (met met' : Metrics) (s s' t : KvStore net) (code : bytes) (t1 t2 t3 us : Z) (met2 : Metrics) :
  node_ok s -> small url -> small alias -> alias <> [] ->
  Forall (fun b => length b = (codeLen - 1)%nat) rnds -> is_int64 now ->
  Shorten url alias hasAlias ttlMs now rnds met s = Ret (code, met', s') -> code <> [] -> small code ->
  synced (kv t) -> layoutHash t = layoutHash s -> buckets t = buckets s ->
  keys (k_net (kv t)) = keys (k_net (kv s')) ->
  (cache_get t1 code (cache t)).1 = None -> ttlMs <= 0 \/ t2 < expiry now ttlMs ->
  exists met'' t', Resolve trackHits code t1 t2 t3 us met2 t = Ret (Some url, met'', t').
Proof.
  intros Hn Hu Ha Ha0 Hl Hnow E Hc Hcs Ht Hlay Hb Hk Hg Hlive.
  pose proof (kv_Shorten_serves url alias hasAlias ttlMs now rnds met s Hn Hu Ha Ha0 Hl) as P. rewrite E in P.
  destruct P as (k' & -> & Hn' & _ & P). rewrite decide_False in P by done. destruct P as (_ & _ & Hrows).
  assert (forall c, rows t c = rows (set_kv k' s) c) as Hr.
  { intros c. unfold rows. by rewrite Hlay, Hb, Hk. }
  assert (node_ok t) as Hnt.
  { split_and!; [done|rewrite Hb; apply Hn|]. intros c. rewrite Hr. apply Hn'. }
  destruct (kv_Resolve_serves code t1 t2 t3 us met2 t Hnt Hcs) as (r & m & t' & -> & _ & _ & P & _).
  rewrite Hg in P. destruct P as [-> _]. rewrite Hr, Hrows, decide_True by done.
  rewrite live_row_enc; [by eexists _, _|done|auto with goint|].
  destruct Hlive as [Hz|]; [left|by right]. unfold expiry. by replace (0 <? ttlMs) with false by lia.
Qed.

(** The commands of [Update] and [Remove] on a serving node. *)
Lemma row_write_serves (code val : bytes) (px : Z) (s : KvStore net) :
  node_ok s -> small code -> fits val ->
  exists k', (if layoutHash s
       then kbind (Hset (bkey (buckets s) code) code val (kv s)) (fun _ k => Ret (Some true, k))
       else Set_ (lkey code) val px false (kv s)) = Ret (Some true, k')
    /\ node_ok (set_kv k' s)
    /\ forall c, rows (set_kv k' s) c = if decide (code = c) then Some (Some val) else rows s c.
Proof.
  intros Hn Hc Hval. pose proof Hn as (Hs & Hb & Ht). destruct (Ht code) as [o Hv].
  assert (exists k', (if layoutHash s
       then kbind (Hset (bkey (buckets s) code) code val (kv s)) (fun _ k => Ret (Some true, k))
       else Set_ (lkey code) val px false (kv s)) = Ret (Some true, k') /\ synced k'
    /\ keys (k_net k') = put_row (layoutHash s) (buckets s) code val (keys (k_net (kv s)))) as (k' & Ek & Hs' & Ekk).
  { unfold rows, raw_row in Hv. unfold put_row. destruct (layoutHash s).
    - destruct (hash_at _) as [h|] eqn:Eh; [|done].
      destruct (Hset_serves (bkey (buckets s) code) code val (kv s) h) as (k' & -> & Hs' & Ek);
        [eauto with fitting..|]. by exists k'.
    - destruct (Set_serves (lkey code) val px false (kv s)) as (k' & -> & Hs' & Ek); [eauto with fitting..|].
      by exists k'. }
  exists k'. split; [exact Ek|]. by apply node_ok_put.
Qed.

Lemma row_del_serves (code : bytes) (s : KvStore net) (o : option bytes) :
  node_ok s -> small code -> rows s code = Some o ->
  exists k', (if layoutHash s then Hdel (bkey (buckets s) code) code (kv s) else Del (lkey code) (kv s))
      = Ret (Some (present o), k')
    /\ node_ok (set_kv k' s)
    /\ forall c, rows (set_kv k' s) c = if decide (code = c) then Some None else rows s c.
Proof.
  intros Hn Hc Hr. pose proof Hn as (Hs & Hb & Ht).
  assert (exists k', (if layoutHash s then Hdel (bkey (buckets s) code) code (kv s) else Del (lkey code) (kv s))
      = Ret (Some (present o), k') /\ synced k'
    /\ keys (k_net k') = del_row (layoutHash s) (buckets s) code (keys (k_net (kv s)))) as (k1 & E1 & Hs1 & Ek1).
  { unfold rows, raw_row in Hr. unfold del_row. destruct (layoutHash s).
    - destruct (hash_at _) as [h|] eqn:Eh; [|done]. injection Hr as <-.
      destruct (Hdel_serves (bkey (buckets s) code) code (kv s) h) as (k' & -> & Hs' & Ek); [eauto with fitting..|].
      by exists k'.
    - destruct (Del_serves (lkey code) (kv s)) as (k' & -> & Hs' & Ek); [eauto with fitting..|].
      exists k'. split; [|done]. destruct (keys _ !! lkey code) as [[x|x]|]; cbn in Hr; by simplify_eq. }
  exists k1. split; [exact E1|]. by apply node_ok_del.
Qed.

Lemma hits_del_serves (code : bytes) (s : KvStore net) :
  node_ok s -> small code ->
  exists n k', (if layoutHash s then Hdel (bkey (buckets s) code) (hfield code) (kv s) else Del (hkey code) (kv s))
      = Ret (Some n, k')
    /\ node_ok (set_kv k' s) /\ forall x, not_counter code x -> rows (set_kv k' s) x = rows s x.
Proof.
  intros Hn Hc. pose proof Hn as (Hs & Hb & Ht). destruct (Ht code) as [o Hr].
  assert (exists n k2, (if layoutHash s then Hdel (bkey (buckets s) code) (hfield code) (kv s)
       else Del (hkey code) (kv s)) = Ret (Some n, k2) /\ synced k2
    /\ (forall x, is_Some (rows (set_kv k2 s) x))
    /\ forall x, not_counter code x -> rows (set_kv k2 s) x = rows s x)
    as (n & k2 & E2 & Hs2 & Ht2 & Hr2).
  { unfold rows, raw_row in *. cbn [kv layoutHash buckets set_kv]. destruct (layoutHash s).
    - destruct (hash_at (keys (k_net (kv s)) !! _)) as [h|] eqn:Eh; [|done].
      destruct (Hdel_serves (bkey (buckets s) code) (hfield code) (kv s) h) as (k' & -> & Hs' & Ek);
        [done|eauto with fitting|by apply (hkey_fits code)|done|].
      eexists _, k'. split; [done|]. split; [done|]. rewrite Ek. split; intros x.
      + rewrite set_hash_lookup. case_decide as Eb; [by eexists|apply Ht].
      + intros Hx. rewrite set_hash_lookup. case_decide as Eb; [|done]. rewrite <- Eb, Eh. cbn.
        by rewrite lookup_delete_ne by (intros <-; by apply Hx).
    - destruct (Del_serves (hkey code) (kv s)) as (k' & -> & Hs' & Ek); [done|eauto with fitting|].
      eexists _, k'. split; [done|]. split; [done|]. rewrite Ek.
      assert (forall x, delete (hkey code) (keys (k_net (kv s))) !! lkey x = keys (k_net (kv s)) !! lkey x) as Hd
        by (intros x; by rewrite lookup_delete_ne).
      split; intros x; rewrite Hd; [apply Ht|done]. }
  exists n, k2. split; [exact E2|]. split; [|exact Hr2]. split_and!; [exact Hs2|exact Hb|exact Ht2].
Qed.

(** [Update] on a serving node, when the row decodes. *)
Lemma kv_Update_serves (code url v : bytes) (ttlMs : Z) (hasTTL : bool) (t1 t2 : Z) (e c : Z) (u : bytes)
    (s : KvStore net) :
  node_ok s -> small code -> small url -> rows s code = Some (Some v) -> decVal v = Some (e, c, u) ->
  let val := encVal (if hasTTL then expiry t1 ttlMs else e) c url in
  exists s', Update code url ttlMs hasTTL t1 t2 s = Ret (MutOK, s') /\ node_ok s'
    /\ (forall x, rows s' x = if decide (code = x) then Some (Some val) else rows s x)
    /\ cache s' = cache_remove code (cache s) /\ (kv_conf s' = kv_conf s /\ kdirty s' = kdirty s).
Proof.
  intros Hn Hc Hu Hv Hd val. unfold Update.
  destruct (kvGet_serves code s (Some v) Hn Hc Hv) as (k1 & -> & Hs1 & Ek1). cbn [go_bind]. rewrite Hd.
  destruct (node_ok_keys s k1 Hn Hs1 Ek1) as [Hn1 Hr1]. cbv zeta. fold val.
  set (s1 := set_kv k1 s) in *. set (px := if _ : bool then int64 _ else 0).
  destruct (row_write_serves code val px s1 Hn1 Hc) as (k' & Ek & Hn2 & Hr2); [by apply encVal_fits|].
  unfold with_kv. rewrite Ek. cbn [go_bind]. eexists. split; [done|]. split; [exact Hn2|]. split; [|by split]. intros x.
  transitivity (rows (set_kv k' s1) x); [done|]. rewrite Hr2. by case_decide.
Qed.

(** updating against a server: a code without a row, or whose row does not
    decode, is reported missing and nothing changes; otherwise the one row gets
    the new target, keeps its creation time, and its expiry unless a lifetime
    is given, and the node's own cache forgets the code. *)
Theorem kv_Update_spec (code url : bytes) (ttlMs : Z) (hasTTL : bool) (t1 t2 t : Z) (s : KvStore net) :
  node_ok s -> small code -> small url -> length (c_shards (cache s)) = numShards ->
  exists r s', Update code url ttlMs hasTTL t1 t2 s = Ret (r, s') /\ node_ok s'
    /\ match (match rows s code with Some (Some v) => decVal v | _ => None end) with
       | None => r = MutMissing /\ cache s' = cache s /\ forall x, rows s' x = rows s x
       | Some (e, c, _) => r = MutOK /\ (cache_get t code (cache s')).1 = None
           /\ forall x, rows s' x
              = if decide (code = x)
                then Some (Some (encVal (if hasTTL then expiry t1 ttlMs else e) c url)) else rows s x
       end.
Proof.
  intros Hn Hc Hu Hl. destruct (proj2 (proj2 Hn) code) as [o Ho].
  destruct o as [v|]; [destruct (decVal v) as [[[e c] u]|] eqn:Ed|].
  - destruct (kv_Update_serves code url v ttlMs hasTTL t1 t2 e c u s Hn Hc Hu Ho Ed) as (s' & -> & Hn' & Hr & Ec & _).
    exists MutOK, s'. rewrite Ho, Ed. split_and!; [done..| |done]. rewrite Ec. by apply cache_get_removed.
  - unfold Update. destruct (kvGet_serves code s _ Hn Hc Ho) as (k' & -> & Hs' & Ek). cbn [go_bind].
    destruct (node_ok_keys s k' Hn Hs' Ek) as [Hn' Hr]. rewrite Ed, Ho, Ed. by eexists _, _.
  - unfold Update. destruct (kvGet_serves code s _ Hn Hc Ho) as (k' & -> & Hs' & Ek). cbn [go_bind].
    destruct (node_ok_keys s k' Hn Hs' Ek) as [Hn' Hr]. rewrite Ho. by eexists _, _.
Qed.

(** [Remove] on a serving node. *)
Lemma kv_Remove_serves (code : bytes) (s : KvStore net) (o : option bytes) :
  node_ok s -> small code -> rows s code = Some o ->
  exists s', Remove code s = Ret (match o with Some _ => MutOK | None => MutMissing end, s') /\ node_ok s'
    /\ layoutHash s' = layoutHash s /\ buckets s' = buckets s /\ (kprefix s' = kprefix s /\ kdirty s' = kdirty s)
    /\ cache s' = (match o with Some _ => cache_remove code (cache s) | None => cache s end)
    /\ forall x, not_counter code x -> rows s' x = if decide (code = x) then Some None else rows s x.
Proof.
  intros Hn Hc Hr. unfold Remove. cbv zeta. unfold with_kv at 1.
  destruct (row_del_serves code s o Hn Hc Hr) as (k1 & -> & Hn1 & Hr1). cbn [go_bind].
  set (s1 := set_kv k1 s) in *. destruct o as [v|]; cbn [present Z.eqb].
  2: { exists s1. split_and!; [done..|]. intros x _. rewrite Hr1. by case_decide. }
  destruct (hits_del_serves code s1 Hn1 Hc) as (n & k2 & E2 & Hn2 & Hr2).
  change (buckets s1) with (buckets s) in E2. unfold with_kv. rewrite E2. cbn [go_bind].
  eexists. split; [done|]. split; [exact Hn2|]. split_and!; [done..|].
  intros x Hx. transitivity (rows s1 x); [by apply Hr2|]. rewrite Hr1. by case_decide.
Qed.

(** removing against a server: a code without a row is reported missing;
    otherwise its row goes, no other row changes, and the node's own cache
    forgets the code. *)
Theorem kv_Remove_spec (code : bytes) (t : Z) (s : KvStore net) :
  node_ok s -> small code -> length (c_shards (cache s)) = numShards ->
  exists r s', Remove code s = Ret (r, s') /\ node_ok s'
    /\ (forall x, not_counter code x -> rows s' x = if decide (code = x) then Some None else rows s x)
    /\ match rows s code with
       | Some (Some _) => r = MutOK /\ (cache_get t code (cache s')).1 = None
       | _ => r = MutMissing /\ cache s' = cache s
       end.
Proof.
  intros Hn Hc Hl. destruct (proj2 (proj2 Hn) code) as [o Ho].
  destruct (kv_Remove_serves code s o Hn Hc Ho) as (s' & -> & Hn' & _ & _ & _ & Ec & Hr).
  eexists _, s'. split_and!; [done..|]. rewrite Ho. destruct o; [|done]. split; [done|]. rewrite Ec.
  by apply cache_get_removed.
Qed.

(** C24: bounded staleness: after a removal through one node, any other node
    with the same layout and buckets, asked while the server is as the removal
    left it, answers "not found", unless its cache holds the link, unexpired and,
    when a staleness bound is set, put there no longer ago than that, which it
    then serves. *)
Theorem kv_removed_link_stale (code : bytes) (s s' t : KvStore net) (t1 t2 t3 us : Z) (met : Metrics) :
  node_ok s -> small code -> Remove code s = Ret (MutOK, s') ->
  synced (kv t) -> layoutHash t = layoutHash s -> buckets t = buckets s ->
  keys (k_net (kv t)) = keys (k_net (kv s')) ->
  exists r met' t', Resolve trackHits code t1 t2 t3 us met t = Ret (r, met', t')
    /\ forall u, r = Some u -> exists e at',
         c_m (cache_shard (cache t) code) !! code = Some (mkEnt u e at')
         /\ (0 < c_ttl (cache t) -> int64 (t1 - at') <= c_ttl (cache t)) /\ (e <> 0 -> t1 < e).
Proof.
  intros Hn Hc E Ht Hlay Hb Hk. destruct (proj2 (proj2 Hn) code) as [o Ho].
  destruct (kv_Remove_serves code s o Hn Hc Ho) as (s2 & E2 & Hn2 & El2 & Eb2 & _ & _ & Hr2).
  rewrite E in E2. destruct o as [v|]; [|done]. injection E2 as <-.
  assert (forall c, rows t c = rows s' c) as Hr.
  { intros c. unfold rows. by rewrite Hlay, Hb, Hk, El2, Eb2. }
  assert (node_ok t) as Hnt.
  { split_and!; [done|rewrite Hb; apply Hn|]. intros c. rewrite Hr. apply Hn2. }
  destruct (kv_Resolve_serves code t1 t2 t3 us met t Hnt Hc) as (r & m & t' & -> & _ & _ & P & _).
  eexists _, _, _. split; [done|]. intros u ->.
  destruct (cache_get t1 code (cache t)) as [[[u0 e]|] c'] eqn:Eg; cbn [fst] in P.
  - destruct P as [[= <-] _]. apply cache_get_hit in Eg as (_ & at' & ?). by exists e, at'.
  - destruct P as [P _]. rewrite Hr, Hr2, decide_True in P; [done|done|].
    intros Eq. apply (f_equal length) in Eq. cbn in Eq. lia.
Qed.

End Spec.
