(* ===== verification/KvLoops.v ===== *)
(** * KvLoops: loops of the RESP backend

    The insertion sort of its listings against a reference definition, the
    number of buckets the hash layout can use, and the retry loop of [Shorten]
    when the server refuses commands. *)

From S2P Require Import Prelude GoStd Base62 Store StoreSpec Float Metrics Codec KvCache Dirty Resp Kv.
From S2P Require Import KvStore KvRows.
From stdpp Require Import options.

(** ** The insertion sort *)

(** Insertion into a list of decreasing hits, after its equals. *)
Fixpoint insert_desc (x : Link) (l : list Link) : list Link :=
  match l with
  | [] => [x]
  | y :: l' => if Hits y <? Hits x then x :: l else y :: insert_desc x l'
  end.

Definition desc (x y : Link) : Prop := Hits y <= Hits x.

Lemma insert_desc_snoc (x y : Link) (l : list Link) :
  StronglySorted desc (l ++ [y]) ->
  insert_desc x (l ++ [y]) = if Hits y <? Hits x then insert_desc x l ++ [y] else (l ++ [y]) ++ [x].
Proof.
  induction l as [|z l IH]; cbn [app insert_desc]; [by destruct (_ <? _)|].
  intros Hs. apply StronglySorted_inv in Hs as [Hs Hz]. rewrite IH by done.
  rewrite Forall_forall in Hz. assert (desc z y) as Hzy by (apply Hz, elem_of_app; right; by left).
  unfold desc in Hzy. destruct (Z.ltb_spec (Hits z) (Hits x)), (Z.ltb_spec (Hits y) (Hits x)); try lia; done.
Qed.

(** The swaps of the inner loop insert element [length l]. *)
Lemma sift_insert (l post : list Link) (x : Link) :
  StronglySorted desc l -> sift (length l) (l ++ x :: post) = insert_desc x l ++ post.
Proof.
  revert post. induction l as [|y l IH] using rev_ind; intros post Hs; [done|].
  rewrite length_app. cbn [length]. rewrite Nat.add_1_r. cbn [sift]. rewrite <- app_assoc. cbn [app].
  rewrite list_lookup_middle by done.
  replace ((l ++ y :: x :: post) !! S (length l)) with (Some x)
    by (rewrite cons_middle, app_assoc, list_lookup_middle; [done|rewrite length_app; cbn; lia]).
  rewrite insert_desc_snoc by done. destruct (Hits y <? Hits x); [|by rewrite <- !app_assoc].
  replace (<[S (length l) := y]> (l ++ y :: x :: post)) with (l ++ y :: y :: post).
  2: { rewrite (cons_middle y l (x :: post)), (cons_middle y l (y :: post)), !app_assoc.
       replace (S (length l)) with (length (l ++ [y]) + 0)%nat by (rewrite length_app; cbn; lia).
       by rewrite insert_app_r. }
  replace (<[length l := x]> (l ++ y :: y :: post)) with (l ++ x :: y :: post)
    by (rewrite <- (Nat.add_0_r (length l)), insert_app_r; done).
  rewrite IH; [by rewrite <- app_assoc|]. by eapply StronglySorted_app_1_l.
Qed.

Lemma insert_desc_perm (x : Link) (l : list Link) : insert_desc x l ≡ₚ x :: l.
Proof.
  induction l as [|y l IH]; cbn [insert_desc]; [done|]. destruct (_ <? _); [done|]. rewrite IH. constructor.
Qed.

Lemma insert_desc_sorted (x : Link) (l : list Link) :
  StronglySorted desc l -> StronglySorted desc (insert_desc x l).
Proof.
  induction 1 as [|y l Hl IH Hy]; cbn [insert_desc]; [by repeat constructor|].
  destruct (Z.ltb_spec (Hits y) (Hits x)) as [Hlt|Hge].
  - constructor; [by constructor|]. constructor; [unfold desc; lia|].
    eapply Forall_impl; [exact Hy|]. unfold desc. intros z ?. lia.
  - constructor; [done|]. rewrite insert_desc_perm. constructor; [unfold desc; lia|done].
Qed.

Lemma insert_desc_stable (h : Z) (x : Link) (l : list Link) :
  StronglySorted desc l ->
  List.filter (fun y => Hits y =? h) (insert_desc x l) = List.filter (fun y => Hits y =? h) (l ++ [x]).
Proof.
  induction 1 as [|y l Hl IH Hy]; cbn [insert_desc app List.filter]; [done|].
  destruct (Z.ltb_spec (Hits y) (Hits x)) as [Hlt|Hge]; cbn [List.filter]; [|by rewrite IH].
  destruct (Z.eqb_spec (Hits x) h) as [Ex|Ex].
  - assert (forall l0, Forall (fun z => Hits z < h) l0 -> List.filter (fun y => Hits y =? h) l0 = []) as Hno.
    { intros l0. induction 1 as [|z l0 Hz _ IHl]; cbn [List.filter]; [done|].
      by replace (Hits z =? h) with false by lia. }
    replace (Hits y =? h) with false by lia. rewrite List.filter_app, Hno; cbn [List.filter].
    + by replace (Hits x =? h) with true by lia.
    + eapply Forall_impl; [exact Hy|]. unfold desc. intros z ?. lia.
  - rewrite List.filter_app. cbn [List.filter]. replace (Hits x =? h) with false by lia. by rewrite app_nil_r.
Qed.

Definition insertion (items : list Link) : list Link := foldl (fun l x => insert_desc x l) [] items.

Lemma insertion_snoc (l : list Link) (x : Link) : insertion (l ++ [x]) = insert_desc x (insertion l).
Proof. unfold insertion. by rewrite foldl_app. Qed.

Lemma insertion_perm (l : list Link) : insertion l ≡ₚ l.
Proof.
  induction l as [|x l IH] using rev_ind; [done|]. rewrite insertion_snoc, insert_desc_perm, IH.
  apply Permutation_cons_append.
Qed.

Lemma insertion_sorted (l : list Link) : StronglySorted desc (insertion l).
Proof.
  induction l as [|x l IH] using rev_ind; [constructor|]. rewrite insertion_snoc. by apply insert_desc_sorted.
Qed.

(** The outer loop, from the element after [pre] on. *)
Lemma sift_loop (pre post : list Link) :
  foldl (fun its i => sift i its) (insertion pre ++ post) (seq (length pre) (length post))
  = insertion (pre ++ post).
Proof.
  revert pre. induction post as [|x post IH]; intros pre; cbn [length seq foldl]; [by rewrite !app_nil_r|].
  rewrite <- (Permutation_length (insertion_perm pre)) at 1. rewrite sift_insert by apply insertion_sorted.
  rewrite <- insertion_snoc. replace (S (length pre)) with (length (pre ++ [x])) by (rewrite length_app; cbn; lia).
  rewrite IH. by rewrite <- app_assoc.
Qed.

Lemma sort_hits_insertion (items : list Link) : sort_hits items = insertion items.
Proof.
  unfold sort_hits. destruct items as [|x items]; [done|]. cbn [length]. rewrite Nat.sub_succ, Nat.sub_0_r.
  apply (sift_loop [x] items).
Qed.

(** the listing's in-place sort is insertion sort: it returns the items by
    decreasing hits, all of them, those with equal hits in their old order. *)
Theorem sort_hits_correct (items : list Link) :
  sort_hits items = insertion items
  /\ StronglySorted desc (sort_hits items) /\ sort_hits items ≡ₚ items
  /\ forall h, List.filter (fun x => Hits x =? h) (sort_hits items) = List.filter (fun x => Hits x =? h) items.
Proof.
  rewrite sort_hits_insertion. split_and!; [done|apply insertion_sorted|apply insertion_perm|]. intros h.
  induction items as [|x items IH] using rev_ind; [done|].
  rewrite insertion_snoc, insert_desc_stable, !List.filter_app by apply insertion_sorted. by rewrite IH.
Qed.

(** ** Buckets *)

(** the hash layout has at most 256 buckets, whatever KV_BUCKETS says: the
    bucket of a code is computed from its shard. *)
Theorem bkey_few (b : Z) (code : bytes) :
  0 < b -> bkey b code ∈ map (fun i => [x6c; x3a] ++ utoa (Z.of_nat i)) (seq 0 numShards).
Proof.
  intros Hb. pose proof (shardOf_bound code) as Hs. unfold bkey. set (n := Z.of_nat (shardOf code)).
  assert (0 <= n mod b <= n) as Hn.
  { split; [apply Z.mod_pos_bound; lia|]. apply Z.mod_le; lia. }
  apply list_elem_of_fmap. exists (Z.to_nat (n mod b)). split; [by rewrite Z2Nat.id by lia|].
  apply elem_of_seq. lia.
Qed.

(** ** A server that refuses *)

Section Refusing.
Context {net : Type} `{Network net} (l : bytes).
Context (up : forall n : net, DialTCP n = (true, n))
        (refuses : forall (b : bytes) (n : net), Write b n = (Some (enc_resp (failure l), false), n))
        (one_line : x0a ∉ l).

#[local] Set Default Proof Using "Type*".

Lemma cmd_refused (args : list bytes) (k : Kv net) :
  synced k -> exists k', cmd args k = Ret (Some (failure l), k') /\ synced k'.
Proof.
  intros Hs. destruct (conn_synced k up Hs) as (k1 & Ec & En & Hp & Hl). unfold cmd, pipe.
  rewrite Ec, refuses. cbv zeta. cbn [app read_many length].
  set (f := S _). rewrite <- (app_nil_r (enc_resp (failure l))).
  rewrite (readResp_enc f false (failure l) []) by (by apply wire_failure). cbn [go_bind kbind].
  destruct (put_synced (mkKv (k_pool k1) (k_net k1)) Hp Hl) as [Hs' _]. by eexists.
Qed.

Lemma putNX_refused (url : bytes) (ttlMs now : Z) (code : bytes) (s : KvStore net) :
  synced (kv s) -> exists k', putNX url ttlMs now code s = Ret (Some false, set_kv k' s) /\ synced k'.
Proof.
  intros Hs. unfold putNX, with_kv. destruct (layoutHash s).
  - unfold Hsetnx. match goal with |- context [cmd ?a _] => destruct (cmd_refused a (kv s) Hs) as (k' & -> & ?) end.
    cbn. by exists k'.
  - unfold Set_. match goal with |- context [cmd ?a _] => destruct (cmd_refused a (kv s) Hs) as (k' & -> & ?) end.
    cbn. by exists k'.
Qed.

(** against a server that answers every command with an error (it wants a
    password, is read-only, is out of memory) a node starts, for the PING of
    [Dial] is not looked at, and then creating a link without an alias never
    returns, whatever the random source, while one with an alias is refused
    as taken. *)
Theorem kv_Shorten_spins (url alias : bytes) (ttlMs now : Z) (rnds : list bytes) (met : Metrics) (n : net)
    (instance cacheEntries cacheTTLMs : Z) (envLayout envBuckets : bytes) :
  exists s, NewKV n instance cacheEntries cacheTTLMs envLayout envBuckets = Ret (Some s)
    /\ Shorten url alias false ttlMs now rnds met s = Diverge
    /\ exists met' s', Shorten url alias true ttlMs now rnds met s = Ret ([], met', s').
Proof.
  unfold NewKV, Dial, conn. cbn [k_pool k_net]. rewrite up.
  assert (synced (put [] (mkKv [] n))) as Hs0.
  { unfold put. cbn. split; [by repeat constructor|cbn; unfold kvPoolSize; lia]. }
  destruct (cmd_refused [w_PING] _ Hs0) as (k & -> & Hk). cbn [kbind go_bind].
  set (i := if _ : bool then maxInstances - 1 else _).
  assert (0 <= i < 62) as Hi by (subst i; unfold maxInstances; repeat bcase; lia).
  destruct (alpha_at_spec i Hi) as (p & -> & _). cbn [go_bind]. eexists. split; [done|]. set (s := mkKvStore _ _ _ _ _ _ _ _ _).
  assert (synced (kv s)) as Hs by done. clearbody s. unfold Shorten, Shorten_rnds. split.
  - assert (shorten_loop url ttlMs now rnds s = Diverge) as ->; [|done].
    revert s Hs. induction rnds as [|buf rnds' IH]; intros s Hs; cbn [shorten_loop]; [done|].
    destruct (putNX_refused url ttlMs now (randCode s buf) s Hs) as (k' & -> & Hk'). cbn [go_bind]. by apply IH.
  - destruct (putNX_refused url ttlMs now alias s Hs) as (k' & -> & Hk'). cbn [go_bind]. by eexists _, _.
Qed.

End Refusing.
