(* ===== verification/KvFlush.v ===== *)
(** * KvFlush: the hit counters of the RESP backend

    [flushHits] moves the pending deltas to the server's counters: in both
    layouts, stored plus pending is what it was, unless the transport fails,
    when the deltas are gone. *)

From S2P Require Import Prelude GoStd Base62 Store StoreSpec Float Metrics Codec KvCache Dirty Resp Kv.
From S2P Require Import KvStore KvRows.
From stdpp Require Import options.

(** The counter of a code in a keyspace; [None] when it is not a number. *)
Definition hits_at (lay : bool) (b : Z) (m : gmap bytes rvalue) (code : bytes) : option Z :=
  if lay
  then match hash_at (m !! bkey b code) with Some h => num_of (h !! hfield code) | None => None end
  else match str_at (m !! hkey code) with Some o => num_of o | None => None end.

(** The command that adds [d] to it. *)
Definition incr_cmd (lay : bool) (b : Z) (cd : bytes * Z) : list bytes :=
  if lay then [w_HINCRBY; bkey b cd.1; hfield cd.1; itoa cd.2] else [w_INCRBY; hkey cd.1; itoa cd.2].

Lemma num_of_itoa (z : Z) : is_int64 z -> num_of (Some (itoa z)) = Some z.
Proof. intros Hz. cbn [num_of]. by rewrite ParseInt_itoa. Qed.

Lemma hkey_inj (c c' : bytes) : hkey c = hkey c' -> c = c'.
Proof. by intros [=]. Qed.

(** Grouping a duplicate-free list of deltas by key changes nothing. *)
Definition group_deltas (m : gmap bytes Z) (l : list (bytes * Z)) : gmap bytes Z :=
  foldl (fun m cn => <[hkey cn.1 := int64 (default 0 (m !! hkey cn.1) + cn.2)]> m) m l.

Lemma group_deltas_other (m : gmap bytes Z) (l : list (bytes * Z)) (k : bytes) :
  (forall c, c ∈ l.*1 -> k <> hkey c) -> group_deltas m l !! k = m !! k.
Proof.
  revert m. induction l as [|[c d] l IH]; intros m Hk; [done|]. cbn [group_deltas foldl fst snd].
  unfold group_deltas in IH. rewrite IH.
  - rewrite lookup_insert_ne; [done|]. intros E. apply (Hk c); [by left|done].
  - intros c' Hc'. apply Hk. by right.
Qed.

Lemma group_deltas_in (m : gmap bytes Z) (l : list (bytes * Z)) (c : bytes) (d : Z) :
  NoDup l.*1 -> (c, d) ∈ l -> group_deltas m l !! hkey c = Some (int64 (default 0 (m !! hkey c) + d)).
Proof.
  revert m. induction l as [|[c0 d0] l IH]; intros m Hnd Hin; [by apply not_elem_of_nil in Hin|].
  cbn [fmap list_fmap fst] in Hnd. apply NoDup_cons in Hnd as [Hc0 Hnd].
  cbn [group_deltas foldl fst snd]. apply elem_of_cons in Hin as [[= -> ->]|Hin].
  - fold (group_deltas (<[hkey c0 := int64 (default 0 (m !! hkey c0) + d0)]> m) l).
    rewrite group_deltas_other; [by rewrite lookup_insert_eq|]. by intros c Hc ->%hkey_inj.
  - fold (group_deltas (<[hkey c0 := int64 (default 0 (m !! hkey c0) + d0)]> m) l). rewrite IH by done.
    rewrite lookup_insert_ne; [done|]. intros ->%hkey_inj. apply Hc0.
    apply list_elem_of_fmap. by exists (c, d).
Qed.

Section Flush.
Context {net : Type} `{RespServer net} `{MapOrder}.

#[local] Set Default Proof Using "Type*".

(** One increment. *)
Lemma incr_serves (lay : bool) (b : Z) (c : bytes) (d m : Z) (n : net) :
  hits_at lay b (keys n) c = Some m -> is_int64 d -> is_int64 (m + d) ->
  forall x, hits_at lay b (keys (exec (incr_cmd lay b (c, d)) n).2) x
    = if decide (c = x) then Some (m + d) else hits_at lay b (keys n) x.
Proof.
  intros Hm Hd Hr x. unfold hits_at, incr_cmd in *. cbn [fst snd]. destruct lay.
  - destruct (hash_at (keys n !! bkey b c)) as [h|] eqn:Eh; [|done].
    destruct (exec_hincrby (bkey b c) (hfield c) d n h m Eh Hm Hd Hr) as [_ ->]. rewrite set_hash_lookup.
    case_decide as Ek.
    + rewrite <- Ek, Eh. case_decide as Ec; [subst; rewrite lookup_insert_eq; by apply num_of_itoa|].
      rewrite lookup_insert_ne; [done|]. by intros [=].
    + case_decide as Ec; [by subst|done].
  - destruct (str_at (keys n !! hkey c)) as [o|] eqn:Eo; [|done].
    destruct (exec_incrby (hkey c) d n o m Eo Hm Hd Hr) as [_ ->].
    case_decide as Ec; [subst; rewrite lookup_insert_eq; by apply num_of_itoa|].
    rewrite lookup_insert_ne; [done|]. by intros ?%hkey_inj.
Qed.

(** All of them, one after the other. *)
Lemma incr_all_serves (lay : bool) (b : Z) (l : list (bytes * Z)) (n : net) :
  NoDup l.*1 ->
  (forall c d, (c, d) ∈ l -> is_int64 d /\ exists m, hits_at lay b (keys n) c = Some m /\ is_int64 (m + d)) ->
  let n' := (exec_all exec (map (incr_cmd lay b) l) n).2 in
  (forall c d m, (c, d) ∈ l -> hits_at lay b (keys n) c = Some m -> hits_at lay b (keys n') c = Some (m + d))
  /\ (forall c, c ∉ l.*1 -> hits_at lay b (keys n') c = hits_at lay b (keys n) c).
Proof.
  revert n. induction l as [|[c0 d0] l IH]; intros n Hnd Hl; cbn [map exec_all].
  { split; [by intros c d m ?%not_elem_of_nil|done]. }
  cbn [fmap list_fmap fst] in Hnd. apply NoDup_cons in Hnd as [Hc0 Hnd].
  destruct (Hl c0 d0 ltac:(left)) as (Hd0 & m0 & Hm0 & Hr0).
  pose proof (incr_serves lay b c0 d0 m0 n Hm0 Hd0 Hr0) as H1'.
  destruct (exec (incr_cmd lay b (c0, d0)) n) as [r n1]. cbn [snd] in H1'. specialize (IH n1 Hnd).
  assert (forall c d, (c, d) ∈ l -> c0 <> c) as Hne.
  { intros c d Hin <-. apply Hc0, list_elem_of_fmap. by exists (c0, d). }
  destruct (exec_all exec (map (incr_cmd lay b) l) n1) as [rs n2]. cbn [snd] in *. destruct IH as [IHin IHout].
  { intros c d Hin. destruct (Hl c d ltac:(by right)) as (Hd & m & Hm & Hr). split; [done|]. exists m. rewrite H1'.
    rewrite decide_False; [done|by eapply Hne]. }
  split.
  - intros c d m Hin Hm. apply elem_of_cons in Hin as [[= -> ->]|Hin].
    + rewrite IHout by done. rewrite H1', decide_True by done. congruence.
    + apply IHin; [done|]. rewrite H1'. rewrite decide_False; [done|by eapply Hne].
  - intros c Hc. cbn [fmap list_fmap fst] in Hc. apply not_elem_of_cons in Hc as [Hc Hcl].
    rewrite IHout by done. rewrite H1'. by rewrite decide_False.
Qed.

Lemma incr_cmd_fits (lay : bool) (b : Z) (c : bytes) (d : Z) :
  0 < b -> small c -> cmd_fits (incr_cmd lay b (c, d)).
Proof.
  intros Hb Hc. unfold incr_cmd. cbn [fst snd]. pose proof (itoa_length d).
  assert (fits (itoa d)) by (unfold fits; lia).
  destruct lay; (split; [cbn; lia|]); repeat (apply Forall_cons; split); try apply Forall_nil; try done;
    try (unfold fits; cbn; lia); first [by apply (hkey_fits c)|eauto with fitting].
Qed.

(** One increment per delta, in one pipeline; nothing is sent for none. *)
Definition incr_pipe (lay : bool) (b : Z) (l : list (bytes * Z)) (k : Kv net) : kcall net unit :=
  match l with
  | [] => Ret (Some tt, k)
  | _ => kbind (pipe (map (incr_cmd lay b) l) k) (fun _ k => Ret (Some tt, k))
  end.

(** The command list of a flush is one increment per pending code. *)
Lemma flushHits_cmds (s : KvStore net) :
  dirty_ok (kdirty s) ->
  exists l, Permutation l (dirty_pairs (kdirty s)) /\
    flushHits s = with_kv (set_kdirty (clear_all (kdirty s)) s)
      (incr_pipe (layoutHash s) (buckets s) l (kv s)).
Proof.
  intros Hd. pose proof (dirty_pairs_NoDup (kdirty s) Hd) as Hnd. unfold flushHits. destruct (layoutHash s).
  - exists (dirty_pairs (kdirty s)). split; [done|]. f_equal. unfold HIncrByMany.
    destruct (dirty_pairs (kdirty s)) as [|p l]; [done|]. cbn [map]. do 2 f_equal. by rewrite map_map.
  - fold (group_deltas ∅ (dirty_pairs (kdirty s))). set (deltas := group_deltas ∅ (dirty_pairs (kdirty s))).
    set (l := map (fun key => (drop 2 key, default 0 (deltas !! key))) (range_keys deltas)).
    assert (forall key, is_Some (deltas !! key) <-> exists c, key = hkey c /\ c ∈ (dirty_pairs (kdirty s)).*1) as Hkeys.
    { intros key. split.
      - intros [d Hk]. destruct (decide (key ∈ hkey <$> (dirty_pairs (kdirty s)).*1)) as [Hin|Hno].
        + apply list_elem_of_fmap in Hin as (c & -> & Hc). by exists c.
        + exfalso. subst deltas. rewrite group_deltas_other in Hk; [by rewrite lookup_empty in Hk|].
          intros c Hc ->. apply Hno, list_elem_of_fmap. by exists c.
      - intros (c & -> & ([c' d] & -> & Hin)%list_elem_of_fmap). subst deltas.
        rewrite (group_deltas_in ∅ _ c' d Hnd Hin). by eexists. }
    assert (forall c d, (c, d) ∈ dirty_pairs (kdirty s) -> deltas !! hkey c = Some d) as Hval.
    { intros c d Hin. subst deltas. rewrite (group_deltas_in ∅ _ c d Hnd Hin), lookup_empty. cbn [default].
      f_equal. apply int64_id. by destruct (dirty_pairs_elem (kdirty s) c d Hd Hin). }
    assert (forall key, key ∈ range_keys deltas -> exists c d, key = hkey c /\ (c, d) ∈ dirty_pairs (kdirty s)) as Hall.
    { intros key Hk. apply range_keys_elem, Hkeys in Hk as (c & -> & ([c' d] & -> & Hin)%list_elem_of_fmap).
      by exists c', d. }
    exists l. split.
    + apply NoDup_Permutation; [|by apply (NoDup_fmap_1 fst)|].
      * apply (NoDup_fmap_2_strong (fun key => (drop 2 key, default 0 (deltas !! key)))); [|apply range_keys_NoDup].
        intros k1 k2 (c1 & d1 & -> & _)%Hall (c2 & d2 & -> & _)%Hall [= E _]. exact (f_equal hkey E).
      * intros [c d]. split.
        -- intros (key & [= -> ->] & Hk)%list_elem_of_fmap.
           destruct (Hall key Hk) as (c & d & -> & Hin). rewrite (Hval c d Hin). exact Hin.
        -- intros Hin. apply list_elem_of_fmap. exists (hkey c). rewrite (Hval c d Hin). split; [done|].
           apply range_keys_elem. rewrite (Hval c d Hin). by eexists.
    + f_equal. unfold IncrByMany. case_bool_decide as Ed.
      * assert (l = []) as ->; [|done]. subst l. destruct (range_keys deltas) as [|k ks] eqn:Ek; [done|].
        assert (k ∈ range_keys deltas) as Hk by (rewrite Ek; by left).
        apply range_keys_elem in Hk as [d Hk]. rewrite Ed, lookup_empty in Hk. done.
      * destruct l as [|p l'] eqn:El.
        { exfalso. apply Ed. apply map_eq. intros k. rewrite lookup_empty. destruct (deltas !! k) eqn:Ek; [|done].
          assert (k ∈ range_keys deltas) as Hk by (apply range_keys_elem; by eexists).
          destruct (range_keys deltas); [by apply not_elem_of_nil in Hk|done]. }
        unfold incr_pipe. rewrite <- El. subst l. rewrite map_map. do 2 f_equal. apply map_ext_in. intros key Hk.
        apply list_elem_of_In in Hk. destruct (Hall key Hk) as (c & d & -> & _). done.
Qed.

(** A flush on a serving client: one increment per pending code. *)
Lemma flushHits_runs (s : KvStore net) :
  synced (kv s) -> 0 < buckets s -> dirty_ok (kdirty s) ->
  exists l k', Permutation l (dirty_pairs (kdirty s))
    /\ flushHits s = Ret (Some tt, set_kv k' (set_kdirty (clear_all (kdirty s)) s)) /\ synced k'
    /\ k_net k' = (exec_all exec (map (incr_cmd (layoutHash s) (buckets s)) l) (k_net (kv s))).2.
Proof.
  intros Hs Hb Hd. destruct (flushHits_cmds s Hd) as (l & Hl & ->). exists l.
  destruct (pipe_serves (map (incr_cmd (layoutHash s) (buckets s)) l) (kv s) Hs) as (k' & Ep & Hs' & En).
  { apply Forall_fmap, Forall_forall. intros [c d] Hin. apply incr_cmd_fits; [done|].
    rewrite Hl in Hin. by destruct (dirty_pairs_elem (kdirty s) c d Hd Hin) as (_ & ? & _). }
  unfold with_kv, incr_pipe. destruct l as [|p l']; [by exists (kv s)|]. exists k'. by rewrite Ep.
Qed.

(** C22: a flush loses no hit and counts none twice: in either layout, when the
    server answers, every code's stored counter grows by what was pending for
    it, nothing is pending any more, and every other counter is what it was. *)
Theorem kv_flush_keeps_hits (s : KvStore net) :
  synced (kv s) -> 0 < buckets s -> dirty_ok (kdirty s) ->
  (forall c, exists m, hits_at (layoutHash s) (buckets s) (keys (k_net (kv s))) c = Some m
                       /\ is_int64 (m + pending s c)) ->
  exists s', flushHits s = Ret (Some tt, s') /\ synced (kv s')
    /\ forall c m, hits_at (layoutHash s) (buckets s) (keys (k_net (kv s))) c = Some m ->
         hits_at (layoutHash s) (buckets s) (keys (k_net (kv s'))) c = Some (m + pending s c)
         /\ pending s' c = 0.
Proof.
  intros Hs Hb Hd Hm. destruct (flushHits_runs s Hs Hb Hd) as (l & k' & Hl & -> & Hs' & En).
  pose proof (dirty_pairs_NoDup (kdirty s) Hd) as Hnd. rewrite <- Hl in Hnd.
  assert (forall c d, (c, d) ∈ l -> is_int64 d /\ small c /\ pending s c = d) as Hel.
  { intros c d Hin. rewrite Hl in Hin. exact (dirty_pairs_elem (kdirty s) c d Hd Hin). }
  assert (forall c, c ∉ l.*1 -> pending s c = 0) as Hno.
  { intros c Hc. apply dirty_pairs_codes. by rewrite <- Hl. }
  eexists. split; [done|]. split; [done|]. intros c m Hc.
  cbn [kv set_kv]. rewrite En. split; [|apply pending_clear_all].
  destruct (incr_all_serves (layoutHash s) (buckets s) l (k_net (kv s)) Hnd) as [Hin Hout].
  { intros c' d' Hi. destruct (Hel c' d' Hi) as (Hd' & _ & <-). split; [done|]. apply Hm. }
  destruct (decide (c ∈ l.*1)) as [Hi|Hni].
  - apply list_elem_of_fmap in Hi as ([c' d] & -> & Hi). cbn [fst] in *. destruct (Hel c' d Hi) as (_ & _ & ->). by apply Hin.
  - rewrite Hout, Hno by done. by rewrite Z.add_0_r.
Qed.

End Flush.

(** ** When the transport fails *)

Section Failing.
Context {net : Type} `{Network net} `{MapOrder}.

(** a flush that fails, on a broken connection say, has already forgotten
    the deltas: nothing is pending any more and the next flush sends nothing. *)
Theorem kv_flush_failure_loses_hits (s s' : KvStore net) (code : bytes) :
  pending s code <> 0 -> flushHits s = Ret (None, s') ->
  pending s' code = 0 /\ exists s'', flushHits s' = Ret (Some tt, s'') /\ kv s'' = kv s'.
Proof.
  intros _. unfold flushHits, with_kv. set (s0 := set_kdirty _ s).
  assert (forall k, pending (set_kv k s0) code = 0) as Hp by (intros k; exact (pending_clear_all (kdirty s) code)).
  assert (forall k, dirty_pairs (kdirty (set_kv k s0)) = []) as Hl by (intros k; apply dirty_pairs_clear).
  assert (forall k, exists s'', flushHits (set_kv k s0) = Ret (Some tt, s'') /\ kv s'' = k) as Hf.
  { intros k. unfold flushHits. rewrite Hl. cbn [map foldl]. destruct (layoutHash _).
    - eexists. split; [done|done].
    - unfold IncrByMany. rewrite bool_decide_true by done. eexists. split; done. }
  assert (forall m : kcall net unit, (let* (o, k) := m in Ret (o, set_kv k s0)) = Ret (None, s') ->
    exists k, s' = set_kv k s0) as Hm.
  { intros [[o k]| |]; cbn [go_bind]; [|done|done]. intros [= _ <-]. by exists k. }
  destruct (layoutHash s); intros [k ->]%Hm; (split; [apply Hp|apply (Hf k)]).
Qed.

End Failing.
