(* ===== verification/KvTicks.v ===== *)
(** * KvTicks: the background work of the RESP backend

    What [flushHits], [sweepExpired] and the server's own expiry leave of the
    rows: the flush touches none, the other two take rows that have expired and
    nothing else, whatever the server's scans deliver and in how many steps. *)

From S2P Require Import Prelude GoStd Base62 Store StoreSpec Float Metrics Codec KvCache Dirty Resp Kv.
From S2P Require Import KvStore KvRows KvFlush.
From stdpp Require Import options.

(** The texts that are no hit counter of the hash layout. *)
Definition row_code (x : bytes) : Prop := forall c, x <> hfield c.

(** A row that has expired by [now]. *)
Definition expired_val (now : Z) (v : bytes) : Prop :=
  exists e c u, decVal v = Some (e, c, u) /\ e <> 0 /\ e <= now.

(** A row after a sweep: as it was, or gone because it had expired. *)
Definition swept_row (now : Z) (o o' : option (option bytes)) : Prop :=
  o' = o \/ o' = Some None /\ exists v, o = Some (Some v) /\ expired_val now v.

Lemma dead_field_row (now : Z) (f v : bytes) :
  dead_field now (f, v) = true -> expired_val now v.
Proof.
  unfold dead_field, expired_val. cbn [fst snd]. destruct (HasPrefix f _); [done|].
  destruct (decVal v) as [[[e c] u]|]; [|done]. intros Hd. exists e, c, u. split; [done|]. lia.
Qed.

Section Ticks.
Context {net : Type} `{RespServer net} `{MapOrder}.

#[local] Set Default Proof Using "Type*".

(** ** The flush *)

(** An increment writes one counter, or nothing when the server refuses it. *)
Lemma incr_effect (lay : bool) (b : Z) (c : bytes) (d : Z) (n : net) :
  is_int64 d ->
  let n' := (exec (incr_cmd lay b (c, d)) n).2 in
  keys n' = keys n
  \/ if lay then exists h v, hash_at (keys n !! bkey b c) = Some h
                           /\ keys n' = set_hash (bkey b c) (<[hfield c := v]> h) (keys n)
     else exists v, keys n' = <[hkey c := VStr v]> (keys n).
Proof.
  intros Hd. unfold incr_cmd. cbn [fst snd]. destruct lay.
  - destruct (hash_at (keys n !! bkey b c)) as [h|] eqn:Eh.
    2: { left. apply exec_hincrby_refused; [|done]. intros h m. by rewrite Eh. }
    destruct (num_of (h !! hfield c)) as [m|] eqn:Em.
    2: { left. apply exec_hincrby_refused; [|done]. intros h' m. rewrite Eh. intros [= <-]. by rewrite Em. }
    destruct (decide (is_int64 (m + d))) as [Hr|Hr].
    + right. destruct (exec_hincrby (bkey b c) (hfield c) d n h m Eh Em Hd Hr) as [_ ->]. eauto.
    + left. apply exec_hincrby_refused; [|done]. intros h' m'. rewrite Eh. intros [= <-]. rewrite Em. by intros [= <-].
  - destruct (str_at (keys n !! hkey c)) as [o|] eqn:Eo.
    2: { left. apply exec_incrby_refused; [|done]. intros o m. by rewrite Eo. }
    destruct (num_of o) as [m|] eqn:Em.
    2: { left. apply exec_incrby_refused; [|done]. intros o' m. rewrite Eo. intros [= <-]. by rewrite Em. }
    destruct (decide (is_int64 (m + d))) as [Hr|Hr].
    + right. destruct (exec_incrby (hkey c) d n o m Eo Em Hd Hr) as [_ ->]. eauto.
    + left. apply exec_incrby_refused; [|done]. intros o' m'. rewrite Eo. intros [= <-]. rewrite Em. by intros [= <-].
Qed.

(** What is kept of the rows by work on counters. *)
Definition keeps_rows (lay : bool) (b : Z) (m m' : gmap bytes rvalue) : Prop :=
  (forall x, row_code x -> raw_row lay b m' x = raw_row lay b m x)
  /\ (forall x, is_Some (raw_row lay b m x) -> is_Some (raw_row lay b m' x)).

Lemma incr_keeps_rows (lay : bool) (b : Z) (c : bytes) (d : Z) (n : net) :
  is_int64 d -> keeps_rows lay b (keys n) (keys (exec (incr_cmd lay b (c, d)) n).2).
Proof.
  intros Hd. pose proof (incr_effect lay b c d n Hd) as E. cbv zeta in E.
  destruct (exec (incr_cmd lay b (c, d)) n) as [r n']. cbn [snd] in *. destruct E as [->|E]; [by split|].
  unfold keeps_rows, raw_row. destruct lay.
  - destruct E as (h & v & Eh & ->). split; intros x; rewrite set_hash_lookup; case_decide as Ek; try done.
    intros Hx. rewrite <- Ek, Eh. cbn. by rewrite lookup_insert_ne by (intros E; by apply (Hx c)).
  - destruct E as (v & ->). split; intros x; by rewrite lookup_insert_ne by done.
Qed.

Lemma incr_all_keeps_rows (lay : bool) (b : Z) (l : list (bytes * Z)) (n : net) :
  (forall c d, (c, d) ∈ l -> is_int64 d) ->
  keeps_rows lay b (keys n) (keys (exec_all exec (map (incr_cmd lay b) l) n).2).
Proof.
  revert n. induction l as [|[c d] l IH]; intros n Hl; cbn [map exec_all]; [by split|].
  destruct (incr_keeps_rows lay b c d n (Hl c d ltac:(left))) as [Hr Ht].
  destruct (exec (incr_cmd lay b (c, d)) n) as [r n1]. cbn [snd] in *.
  destruct (IH n1) as [Hr' Ht']; [intros c' d' Hin; apply (Hl c' d'); by right|].
  destruct (exec_all _ _ n1) as [rs n2]. cbn [snd] in *.
  split; intros x Hx; [by rewrite Hr', Hr by done|by apply Ht', Ht].
Qed.

Lemma flush_rows (s : KvStore net) :
  node_ok s -> dirty_ok (kdirty s) ->
  exists k', flushHits s = Ret (Some tt, set_kv k' (set_kdirty (clear_all (kdirty s)) s))
    /\ node_ok (set_kv k' s) /\ forall x, row_code x -> rows (set_kv k' s) x = rows s x.
Proof.
  intros (Hs & Hb & Ht) Hd. destruct (flushHits_runs s Hs Hb Hd) as (l & k' & Hl & -> & Hs' & En).
  assert (forall c d, (c, d) ∈ l -> is_int64 d) as Hel.
  { intros c d Hin. rewrite Hl in Hin. by destruct (dirty_pairs_elem (kdirty s) c d Hd Hin) as (? & _). }
  exists k'. split; [done|].
  destruct (incr_all_keeps_rows (layoutHash s) (buckets s) l (k_net (kv s))) as [Hr Hty].
  { intros c d Hin. by eapply Hel. }
  unfold node_ok, rows. cbn [kv layoutHash buckets set_kv]. rewrite En. split; [|done].
  split_and!; [done|done|]. intros x. apply Hty, Ht.
Qed.

(** ** The scans *)

Lemma pairs_of_flat (fvs : list (bytes * bytes)) : pairs_of (flat_bulks fvs) = fvs.
Proof. induction fvs as [|[f v] fvs IH]; cbn [flat_bulks pairs_of]; [done|]. by rewrite IH. Qed.

Lemma strs_of_bulks (ks : list bytes) : map (fun x => default [] (Str x)) (map bulk ks) = ks.
Proof. induction ks as [|k ks IH]; cbn [map]; [done|]. by rewrite IH. Qed.

(** A scan leaves the client in step and the keyspace as it is. *)
Definition scanned (k k' : Kv net) : Prop := synced k' /\ keys (k_net k') = keys (k_net k).

Lemma ScanEach_serves (rounds : nat) (cursor : bytes) (k : Kv net) :
  synced k -> fits cursor ->
  match ScanEach rounds l_pat cursor k with
  | Ret (ks, ok, k') => ok = true /\ scanned k k' /\ Forall fits ks
  | Panic => False
  | Diverge => True
  end.
Proof.
  revert cursor k. induction rounds as [|rounds IH]; intros cursor k Hs Hf; cbn [ScanEach]; [done|].
  destruct (cmd_serves [w_SCAN; cursor; w_MATCH; l_pat; w_COUNT; lit "500"] k Hs) as (k1 & -> & Hs1 & En).
  { split; [cbn; lia|]. repeat (apply Forall_cons; split); try apply Forall_nil; try done; unfold fits; cbn; lia. }
  destruct (exec_scan cursor (k_net k)) as [Ek (next & ks & -> & Hn & Hks)]. cbn [go_bind].
  cbn. kinds. rewrite strs_of_bulks.
  assert (Forall fits ks) as Hfit by (eapply Forall_impl; [exact Hks|]; by intros x (_ & ? & _)).
  assert (scanned k k1) as Hk1 by (split; [done|by rewrite En]).
  case_bool_decide; [by split_and!|]. specialize (IH next k1 Hs1 Hn).
  destruct (ScanEach rounds l_pat next k1) as [[[ks' ok] k2]| |]; cbn [go_bind]; [|done|done].
  destruct IH as (-> & [Hs2 E2] & Hfit'). split; [done|]. split; [|by apply Forall_app].
  split; [done|]. rewrite E2. apply Hk1.
Qed.

(** The fields a hash scan delivers are there. *)
Lemma HScanEach_serves (rounds : nat) (key cursor : bytes) (k : Kv net) :
  synced k -> fits key -> fits cursor ->
  match HScanEach rounds key cursor k with
  | Ret (fvs, ok, k') => ok = true /\ scanned k k'
      /\ Forall (fun fv => fits fv.1 /\ exists h, hash_at (keys (k_net k) !! key) = Some h /\ h !! fv.1 = Some fv.2) fvs
  | Panic => False
  | Diverge => True
  end.
Proof.
  revert cursor k. induction rounds as [|rounds IH]; intros cursor k Hs Hk Hf; cbn [HScanEach]; [done|].
  destruct (cmd_serves [w_HSCAN; key; cursor; w_COUNT; lit "1000"] k Hs) as (k1 & -> & Hs1 & En).
  { split; [cbn; lia|]. repeat (apply Forall_cons; split); try apply Forall_nil; try done; unfold fits; cbn; lia. }
  destruct (exec_hscan key cursor (k_net k)) as [Ek P].
  assert (scanned k k1) as Hk1 by (split; [done|by rewrite En]).
  destruct (hash_at (keys (k_net k) !! key)) as [h|] eqn:Eh.
  2: { destruct P as [msg ->]. cbn [go_bind failure Arr default]. by split_and!. }
  destruct P as (next & fvs & -> & Hn & Hfvs). cbn. rewrite pairs_of_flat.
  assert (Forall (fun fv => fits fv.1 /\ exists h', Some h = Some h' /\ h' !! fv.1 = Some fv.2) fvs) as Hall.
  { eapply Forall_impl; [exact Hfvs|]. intros fv [? ?]. split; [done|]. by exists h. }
  case_bool_decide; [by split_and!|]. specialize (IH next k1 Hs1 Hk Hn).
  destruct (HScanEach rounds key next k1) as [[[fvs' ok] k2]| |]; cbn [go_bind]; [|done|done].
  destruct IH as (-> & [Hs2 E2] & Hall'). split; [done|]. split; [split; [done|]; rewrite E2; apply Hk1|].
  apply Forall_app. split; [done|]. rewrite En, Ek, Eh in Hall'. exact Hall'.
Qed.

(** ** The sweep *)

(** Fields to delete, with the bucket each is in: there, and expired. *)
Definition dead_in (now : Z) (m : gmap bytes rvalue) (bf : bytes * bytes) : Prop :=
  fits bf.1 /\ fits bf.2 /\
  exists h v, hash_at (m !! bf.1) = Some h /\ h !! bf.2 = Some v /\ expired_val now v.

Definition hdel_cmd (bf : bytes * bytes) : list bytes := [w_HDEL; bf.1; bf.2].

Lemma sweep_buckets_serves (rounds : nat) (now : Z) (bs : list bytes) (k : Kv net) :
  synced k -> Forall fits bs ->
  match sweep_buckets rounds now bs k with
  | Ret (dels, k') => scanned k k'
      /\ exists l, dels = map hdel_cmd l /\ Forall (dead_in now (keys (k_net k))) l
  | Panic => False
  | Diverge => True
  end.
Proof.
  intros Hs Hb. revert k Hs. induction Hb as [|b bs Hb _ IH]; intros k Hs; cbn [sweep_buckets].
  { split; [by split|]. by exists []. }
  pose proof (HScanEach_serves rounds b w_zero k Hs Hb ltac:(unfold fits; cbn; lia)) as P.
  destruct (HScanEach rounds b w_zero k) as [[[fvs ok] k1]| |]; cbn [go_bind]; [|done|done].
  destruct P as (_ & [Hs1 E1] & Hfvs). specialize (IH k1 Hs1).
  destruct (sweep_buckets rounds now bs k1) as [[dels k2]| |]; cbn [go_bind]; [|done|done].
  destruct IH as ([Hs2 E2] & l & -> & Hl). split; [split; [done|by rewrite E2]|].
  exists (map (fun fv => (b, fv.1)) (List.filter (dead_field now) fvs) ++ l).
  split; [by rewrite map_app, map_map|]. apply Forall_app. split; [|by rewrite <- E1].
  apply Forall_fmap, Forall_forall. intros [f v] Hin. apply list_elem_of_In, List.filter_In in Hin as [Hin Hd].
  apply list_elem_of_In in Hin. rewrite Forall_forall in Hfvs.
  destruct (Hfvs (f, v) Hin) as (Hf & h & Hh & Hv). split; [done|]. split; [done|]. exists h, v.
  split_and!; [done|done|]. by eapply dead_field_row.
Qed.

Lemma hdel_all (l : list (bytes * bytes)) (n : net) :
  Forall (fun bf => is_Some (hash_at (keys n !! bf.1))) l ->
  let n' := (exec_all exec (map hdel_cmd l) n).2 in
  forall k, match hash_at (keys n !! k) with
            | Some h => exists h', hash_at (keys n' !! k) = Some h'
                 /\ forall f, h' !! f = if decide ((k, f) ∈ l) then None else h !! f
            | None => hash_at (keys n' !! k) = None
            end.
Proof.
  revert n. induction l as [|[b f] l IH]; intros n Hl; cbn [map exec_all].
  { intros k. destruct (hash_at _) as [h|]; [|done]. exists h. split; [done|]. intros f.
    by rewrite decide_False by apply not_elem_of_nil. }
  apply Forall_cons in Hl as [[h0 Hh0] Hl]. cbn [fst] in Hh0. change (hdel_cmd (b, f)) with [w_HDEL; b; f].
  pose proof (exec_hdel b f n h0 Hh0) as Ed. cbv zeta in Ed. destruct Ed as [_ Ek].
  destruct (exec [w_HDEL; b; f] n) as [r n1]. cbn [snd] in Ek.
  assert (forall k, hash_at (keys n1 !! k) = if decide (b = k) then Some (delete f h0) else hash_at (keys n !! k)) as Hk
    by (intros k; rewrite Ek; apply set_hash_lookup).
  specialize (IH n1). destruct (exec_all _ _ n1) as [rs n2]. cbn [snd] in *. intros k.
  assert (Forall (fun bf => is_Some (hash_at (keys n1 !! bf.1))) l) as Hl1.
  { eapply Forall_impl; [exact Hl|]. intros bf Hbf. rewrite Hk. case_decide; [by eexists|done]. }
  specialize (IH Hl1 k). rewrite Hk in IH. destruct (decide (b = k)) as [<-|Hne].
  - rewrite Hh0. destruct IH as (h' & E' & Hf). exists h'. split; [done|]. intros f'. rewrite Hf.
    destruct (decide (f = f')) as [<-|Hnf].
    + rewrite lookup_delete_eq. rewrite (decide_True (P := (b, f) ∈ _ :: _)) by by left. by case_decide.
    + rewrite lookup_delete_ne by done. apply decide_ext. rewrite elem_of_cons. naive_solver.
  - destruct (hash_at (keys n !! k)) as [h|]; [|done]. destruct IH as (h' & E' & Hf). exists h'. split; [done|].
    intros f'. rewrite Hf. apply decide_ext. rewrite elem_of_cons. naive_solver.
Qed.

(** The janitor of the hash layout takes expired rows and nothing else. *)
Lemma sweep_rows (rounds : nat) (now : Z) (s : KvStore net) :
  node_ok s -> layoutHash s = true ->
  match sweepExpired rounds now s with
  | Ret s' => exists k', s' = set_kv k' s /\ node_ok s' /\ forall x, swept_row now (rows s x) (rows s' x)
  | Panic => False
  | Diverge => True
  end.
Proof.
  intros Hn Hlay. pose proof Hn as (Hs & Hb & Ht). unfold sweepExpired.
  pose proof (ScanEach_serves rounds w_zero (kv s) Hs ltac:(unfold fits; cbn; lia)) as P.
  destruct (ScanEach rounds l_pat w_zero (kv s)) as [[[bs ok] k]| |]; cbn [go_bind]; [|done|done].
  destruct P as (-> & [Hs1 E1] & Hbs). cbn [negb].
  pose proof (sweep_buckets_serves rounds now bs k Hs1 Hbs) as P.
  destruct (sweep_buckets rounds now bs k) as [[dels k1]| |]; cbn [go_bind]; [|done|done].
  destruct P as ([Hs2 E2] & l & -> & Hl). rewrite E1 in Hl, E2.
  assert (exists k2, match map hdel_cmd l with
      | [] => Ret (set_kv k1 s)
      | _ => let* (_, k2) := pipe (map hdel_cmd l) k1 in Ret (set_kv k2 s)
      end = Ret (set_kv k2 s)
    /\ synced k2 /\ k_net k2 = (exec_all exec (map hdel_cmd l) (k_net k1)).2) as (k2 & -> & Hs3 & En).
  { destruct (pipe_serves (map hdel_cmd l) k1 Hs2) as (k2 & Ep & Hs3 & En).
    - apply Forall_fmap. eapply Forall_impl; [exact Hl|]. intros bf (H1' & H2' & _). split; [cbn; lia|].
      repeat (apply Forall_cons; split); try apply Forall_nil; try done; unfold fits; cbn; lia.
    - destruct l as [|bf l']; [by exists k1|]. exists k2. cbn [map] in *. by rewrite Ep. }
  exists k2. split; [done|].
  pose proof (hdel_all l (k_net k1)) as Hdel. cbv zeta in Hdel. rewrite <- En, E2 in Hdel.
  assert (forall x, swept_row now (rows s x) (rows (set_kv k2 s) x)) as Hsw.
  { intros x. specialize (Ht x). unfold rows, raw_row in *. cbn [kv layoutHash buckets set_kv]. rewrite Hlay in *.
    assert (Forall (fun bf => is_Some (hash_at (keys (k_net (kv s)) !! bf.1))) l) as Hty.
    { eapply Forall_impl; [exact Hl|]. intros bf (_ & _ & h & v & Hh & _). by exists h. }
    specialize (Hdel Hty (bkey (buckets s) x)).
    destruct (hash_at (keys (k_net (kv s)) !! bkey (buckets s) x)) as [h|] eqn:Eh; [|by destruct Ht].
    destruct Hdel as (h' & -> & Hf). cbn. rewrite Hf. case_decide as Hin; [|by left].
    rewrite Forall_forall in Hl. destruct (Hl _ Hin) as (_ & _ & h2 & v & Hh2 & Hv & He). cbn [fst snd] in *.
    rewrite Eh in Hh2. injection Hh2 as <-. right. split; [done|]. exists v. by rewrite Hv. }
  split; [|done]. split_and!; [done|done|]. intros x. destruct (Hsw x) as [->|[-> _]]; [apply Ht|by eexists].
Qed.

End Ticks.

(** ** Expiry at the server *)

Section Expiry.
Context {net : Type} `{ExpiringServer net} `{MapOrder}.

#[local] Set Default Proof Using "Type*".

(** The server has dropped what it drops by [now]. *)
Definition kv_lapse (now : Z) (s : KvStore net) : KvStore net :=
  set_kv (mkKv (k_pool (kv s)) (lapse now (k_net (kv s)))) s.

Lemma lapse_rows (now : Z) (s : KvStore net) :
  node_ok s ->
  node_ok (kv_lapse now s) /\ forall x, swept_row now (rows s x) (rows (kv_lapse now s) x).
Proof.
  intros (Hs & Hb & Ht).
  assert (forall x, swept_row now (rows s x) (rows (kv_lapse now s) x)) as Hsw.
  { intros x. specialize (Ht x). unfold rows, raw_row in *. cbn [kv_lapse kv layoutHash buckets set_kv k_net].
    destruct (layoutHash s).
    - destruct (lapse_keys now (k_net (kv s)) (bkey (buckets s) x)) as [->|(_ & v & e & c & u & E & _)]; [by left|].
      rewrite E in Ht. by destruct Ht as [? [=]].
    - destruct (lapse_keys now (k_net (kv s)) (lkey x)) as [->|(-> & v & e & c & u & -> & Hd)]; [by left|].
      right. split; [done|]. exists v. split; [done|]. by exists e, c, u. }
  split; [|done]. split_and!; [done|done|]. intros x. destruct (Hsw x) as [->|[-> _]]; [apply Ht|by eexists].
Qed.

End Expiry.
