(* ===== verification/KvThreads.v ===== *)
(** * KvThreads: calls of the RESP backend, command by command

    Other calls and other nodes of the server run between two commands of a call. A
    call is a thread whose steps are its commands to the server, each of which the
    server runs at once, and its accesses to the node's own cache. A thread that
    runs alone does what the operation of [KvStore.v] does. *)

From S2P Require Import Prelude GoStd Base62 Store StoreSpec Float Metrics Codec KvCache Dirty Resp Kv.
From S2P Require Import KvStore KvRows KvSpec.
From stdpp Require Import options.

Inductive kvcall :=
| KShorten (url alias : bytes) (hasAlias : bool) (ttlMs now : Z) (rnds : list bytes)
| KResolve (code : bytes) (t1 t2 t3 : Z)
| KUpdate (code url : bytes) (ttlMs : Z) (hasTTL : bool) (t1 t2 : Z)
| KRemove (code : bytes).

(** What a call answers; a look-up with the clock readings it made. *)
Inductive kres :=
| KCode (code : bytes)
| KLink (code : bytes) (t1 t2 : Z) (url : option bytes)
| KMut (r : MutResult).

Inductive kthread :=
| KPutAlias (url alias : bytes) (ttlMs now : Z)              (* putNX(alias) *)
| KPutDraw (url : bytes) (ttlMs now : Z) (rnds : list bytes) (* putNX on a drawn code *)
| KHot (code : bytes) (t1 t2 t3 : Z)                         (* s.cache.get *)
| KRead (code : bytes) (t1 t2 t3 : Z)                        (* kvGet *)
| KFill (url code : bytes) (exp t : Z) (k : kthread)         (* s.cache.put *)
| KBump (code : bytes) (k : kthread)
| KGetUpd (code url : bytes) (ttlMs : Z) (hasTTL : bool) (t1 t2 : Z)
| KSetUpd (code val : bytes) (px : Z)
| KDel (code : bytes)
| KDelHits (code : bytes)
| KForget (code : bytes)                                     (* s.cache.remove *)
| KDone (r : kres).

Section KvThreads.
Context {net : Type} `{Network net} (trackHits : bool).

Definition put_alias (url alias : bytes) (ttlMs now : Z) (s : KvStore net) : go (kthread * KvStore net) :=
  let* (o, s1) := putNX url ttlMs now alias s in
  Ret (match o with Some true => KDone (KCode alias) | _ => KDone (KCode []) end, s1).

Definition put_draw (url : bytes) (ttlMs now : Z) (buf : bytes) (rnds : list bytes) (s : KvStore net)
    : go (kthread * KvStore net) :=
  let code := randCode s buf in
  let* (o, s1) := putNX url ttlMs now code s in
  Ret (match o with
       | Some true => KDone (KCode code)
       | None => KDone (KCode [])
       | Some false => KPutDraw url ttlMs now rnds
       end, s1).

Definition kv_read (code : bytes) (t1 t2 t3 : Z) (s : KvStore net) : go (kthread * KvStore net) :=
  let* (o, s1) := kvGet code s in
  Ret (match o with
       | None | Some None => KDone (KLink code t1 t2 None)
       | Some (Some v) =>
           match decVal v with
           | None => KDone (KLink code t1 t2 None)
           | Some (e, _, u) =>
               if negb (e =? 0) && (e <=? t2) then KDone (KLink code t1 t2 None)
               else KFill u code e t3 (KBump code (KDone (KLink code t1 t2 (Some u))))
           end
       end, s1).

Definition kv_read_upd (code url : bytes) (ttlMs : Z) (hasTTL : bool) (t1 t2 : Z) (s : KvStore net)
    : go (kthread * KvStore net) :=
  let* (o, s1) := kvGet code s in
  Ret (match o with
       | None | Some None => KDone (KMut MutMissing)
       | Some (Some v) =>
           match decVal v with
           | None => KDone (KMut MutMissing)
           | Some (e, c, _) =>
               let exp := if hasTTL then expiry t1 ttlMs else e in
               KSetUpd code (encVal exp c url) (if 0 <? exp then int64 (exp - t2) else 0)
           end
       end, s1).

(** [HSET], or [SET] without NX or XX. *)
Definition kv_write (code val : bytes) (px : Z) (s : KvStore net) : scall bool :=
  with_kv s
    (if layoutHash s then kbind (Hset (bkey (buckets s) code) code val (kv s)) (fun _ k => Ret (Some true, k))
     else Set_ (lkey code) val px false (kv s)).

Definition kv_del (code : bytes) (s : KvStore net) : scall Z :=
  with_kv s (if layoutHash s then Hdel (bkey (buckets s) code) code (kv s) else Del (lkey code) (kv s)).

Definition kv_del_hits (code : bytes) (s : KvStore net) : scall Z :=
  with_kv s (if layoutHash s then Hdel (bkey (buckets s) code) (hfield code) (kv s) else Del (hkey code) (kv s)).

Definition kstep (t : kthread) (s : KvStore net) : go (kthread * KvStore net) :=
  match t with
  | KPutAlias url alias ttlMs now => put_alias url alias ttlMs now s
  | KPutDraw url ttlMs now [] => Diverge
  | KPutDraw url ttlMs now (buf :: rnds) => put_draw url ttlMs now buf rnds s
  | KHot code t1 t2 t3 =>
      let '(r, c) := cache_get t1 code (cache s) in
      Ret (match r with
           | Some (u, _) => KBump code (KDone (KLink code t1 t2 (Some u)))
           | None => KRead code t1 t2 t3
           end, set_cache c s)
  | KRead code t1 t2 t3 => kv_read code t1 t2 t3 s
  | KFill url code exp t k => Ret (k, set_cache (cache_put t code url exp (cache s)) s)
  | KBump code k => Ret (k, bump trackHits code s)
  | KGetUpd code url ttlMs hasTTL t1 t2 => kv_read_upd code url ttlMs hasTTL t1 t2 s
  | KSetUpd code val px =>
      let* (o, s1) := kv_write code val px s in
      Ret (match o with Some true => KForget code | _ => KDone (KMut MutMissing) end, s1)
  | KDel code =>
      let* (o, s1) := kv_del code s in
      Ret (match o with
           | None => KDone (KMut MutMissing)
           | Some n => if n =? 0 then KDone (KMut MutMissing) else KDelHits code
           end, s1)
  | KDelHits code => let* (_, s1) := kv_del_hits code s in Ret (KForget code, s1)
  | KForget code => Ret (KDone (KMut MutOK), set_cache (cache_remove code (cache s)) s)
  | KDone r => Ret (KDone r, s)
  end.

Definition kstart (c : kvcall) : kthread :=
  match c with
  | KShorten url alias hasAlias ttlMs now rnds =>
      if hasAlias then KPutAlias url alias ttlMs now else KPutDraw url ttlMs now rnds
  | KResolve code t1 t2 t3 => KHot code t1 t2 t3
  | KUpdate code url ttlMs hasTTL t1 t2 => KGetUpd code url ttlMs hasTTL t1 t2
  | KRemove code => KDel code
  end.

Fixpoint kthread_run (n : nat) (t : kthread) (s : KvStore net) : go (kthread * KvStore net) :=
  match n with
  | O => Ret (t, s)
  | S n => let* (t', s') := kstep t s in kthread_run n t' s'
  end.

Definition kfuel (c : kvcall) : nat :=
  match c with
  | KShorten _ _ _ _ _ rnds => 1 + length rnds
  | KResolve _ _ _ _ => 4
  | _ => 3
  end.

Definition kanswer (c : kvcall) (met : Metrics) (s : KvStore net) : go (kres * KvStore net) :=
  match c with
  | KShorten url alias hasAlias ttlMs now rnds =>
      let* (code, _, s') := Shorten url alias hasAlias ttlMs now rnds met s in Ret (KCode code, s')
  | KResolve code t1 t2 t3 =>
      let* (r, _, s') := Resolve trackHits code t1 t2 t3 0 met s in Ret (KLink code t1 t2 r, s')
  | KUpdate code url ttlMs hasTTL t1 t2 =>
      let* (r, s') := Update code url ttlMs hasTTL t1 t2 s in Ret (KMut r, s')
  | KRemove code => let* (r, s') := Remove code s in Ret (KMut r, s')
  end.

(** ** Alone *)

Lemma kthread_run_done (n : nat) (r : kres) (s : KvStore net) : kthread_run n (KDone r) s = Ret (KDone r, s).
Proof. induction n as [|n IH]; [done|exact IH]. Qed.

Lemma kv_run_draws (url : bytes) (ttlMs now : Z) (rnds : list bytes) (s : KvStore net) (n : nat) :
  (1 + length rnds <= n)%nat ->
  kthread_run n (KPutDraw url ttlMs now rnds) s
  = (let* (c, _, s') := shorten_loop url ttlMs now rnds s in Ret (KDone (KCode c), s')).
Proof.
  revert s n. induction rnds as [|buf rnds IH]; intros s [|n] Hn; cbn [length] in Hn; [lia|done|lia|].
  cbn [kthread_run kstep shorten_loop]. unfold put_draw.
  destruct (putNX _ _ _ _ s) as [[[[]|] s1]| |]; cbn [go_bind]; [|apply IH; lia| |done|done]; apply kthread_run_done.
Qed.

#[local] Ltac peel n := destruct n as [|n]; [lia|]; cbn [kthread_run kstep go_bind].

(** a call that runs alone, command by command, ends within [kfuel] steps with
    the answer and the store of its operation. *)
Theorem kv_thread_alone (c : kvcall) (met : Metrics) (s : KvStore net) (n : nat) (Hn : (kfuel c <= n)%nat) :
  kthread_run n (kstart c) s = (let* (r, s') := kanswer c met s in Ret (KDone r, s')).
Proof.
  destruct c as [url alias hasAlias ttlMs now rnds|code t1 t2 t3|code url ttlMs hasTTL t1 t2|code];
    cbn [kfuel kstart kanswer] in *.
  - unfold Shorten, Shorten_rnds. destruct hasAlias.
    + peel n. unfold put_alias. destruct (putNX _ _ _ _ s) as [[[[]|] s1]| |]; cbn [go_bind]; [| | |done|done];
        apply kthread_run_done.
    + rewrite kv_run_draws by lia. by destruct (shorten_loop _ _ _ _ _) as [[[c rs] s']| |].
  - unfold Resolve. peel n. destruct (cache_get t1 code (cache s)) as [[[u e]|] c]; cbn [go_bind].
    + peel n. apply kthread_run_done.
    + peel n. unfold kv_read. destruct (kvGet _ _) as [[[[v|]|] s1]| |]; cbn [go_bind]; [|apply kthread_run_done..|done|done].
      destruct (decVal v) as [[[e c0] u]|]; [|apply kthread_run_done].
      destruct (_ && _); [apply kthread_run_done|]. peel n. peel n. apply kthread_run_done.
  - unfold Update. peel n. unfold kv_read_upd.
    destruct (kvGet _ _) as [[[[v|]|] s1]| |]; cbn [go_bind]; [|apply kthread_run_done..|done|done].
    destruct (decVal v) as [[[e c] u]|]; [|apply kthread_run_done]. peel n. unfold kv_write.
    destruct (with_kv _ _) as [[[[]|] s2]| |]; cbn [go_bind]; [|apply kthread_run_done..|done|done].
    peel n. apply kthread_run_done.
  - unfold Remove, with_kv. peel n. unfold kv_del, with_kv.
    destruct (if layoutHash s then _ else _) as [[[m|] k1]| |]; cbn [go_bind]; [|apply kthread_run_done|done|done].
    destruct (m =? 0); [apply kthread_run_done|]. peel n. unfold kv_del_hits, with_kv. cbn [layoutHash buckets kv set_kv].
    destruct (if layoutHash s then _ else _) as [[o k2]| |]; cbn [go_bind]; [|done|done].
    peel n. apply kthread_run_done.
Qed.

End KvThreads.
