(* ===== verification/KvBatch.v ===== *)
(** * KvBatch: batches on the RESP backend

    [ShortenMany] of [KvStore]: one pipeline of conditional writes, then a code
    drawn anew for each the server refused. Whatever was refused, and even when
    one code is drawn twice, every url ends up under the code returned for it. *)

From S2P Require Import Prelude GoStd Base62 Store StoreSpec Float Metrics Batch Codec KvCache Dirty Resp Kv.
From S2P Require Import KvStore KvRows KvSpec.
From stdpp Require Import options.

Section Batch.
Context {net : Type} `{RespServer net} `{MapOrder}.

#[local] Set Default Proof Using "Type*".

(** The row a url is given at a time. *)
Definition new_row (ttlMs t : Z) (u : bytes) : bytes := encVal (expiry t ttlMs) t u.

Definition draws (s : KvStore net) (rnds : list bytes) (c : bytes) : Prop := exists b, b ∈ rnds /\ c = randCode s b.

(** What a node reads at its server, when its keys have the right types. *)
Definition row_at (s : KvStore net) (n : net) (x : bytes) : option bytes :=
  default None (raw_row (layoutHash s) (buckets s) (keys n) x).
Definition typed (s : KvStore net) (n : net) : Prop :=
  forall x, is_Some (raw_row (layoutHash s) (buckets s) (keys n) x).

(** ** The first pass *)

(** The effect of one conditional write. *)
Lemma many_effect (s : KvStore net) (ttlMs now : Z) (c u : bytes) (n : net) :
  typed s n -> small u ->
  let r := exec (many_args s ttlMs (expiry now ttlMs) now c u) n in
  many_ok s r.1 = bool_decide (row_at s n c = None)
  /\ keys r.2 = if decide (row_at s n c = None)
                then put_row (layoutHash s) (buckets s) c (new_row ttlMs now u) (keys n) else keys n.
Proof.
  intros Ht Hu. unfold many_args, many_ok. fold (new_row ttlMs now u). set (v := new_row ttlMs now u).
  assert (fits v) as Hv by by apply encVal_fits.
  specialize (Ht c). unfold row_at, raw_row, put_row in *. destruct (layoutHash s).
  - destruct (hash_at (keys n !! bkey (buckets s) c)) as [h|] eqn:Eh; [|by destruct Ht].
    destruct (exec_hsetnx (bkey (buckets s) c) c v n h Hv Eh) as [-> ->]. cbn.
    destruct (h !! c) as [x|]; cbn; [rewrite decide_False by done|rewrite decide_True by done]; done.
  - pose proof (exec_set (lkey c) v ttlMs true n Hv) as E. cbv zeta in E. cbn [andb] in E.
    destruct (keys n !! lkey c) as [[x|x]|] eqn:Ek; cbn [str_at] in *; [|by destruct Ht|].
    + rewrite bool_decide_true in E by by eexists. destruct E as [-> ->]. cbn. by rewrite decide_False.
    + rewrite bool_decide_false in E by by intros [? ?]. destruct E as [-> ->]. cbn. by rewrite decide_True.
Qed.

Lemma many_one (s : KvStore net) (ttlMs now : Z) (c u : bytes) (n : net) :
  typed s n -> small u ->
  let r := exec (many_args s ttlMs (expiry now ttlMs) now c u) n in
  typed s r.2
  /\ files (new_row ttlMs) (eq now) (accepted [((u, c), many_ok s r.1)]) (row_at s n) (row_at s r.2).
Proof.
  intros Ht Hu. pose proof (many_effect s ttlMs now c u n Ht Hu) as E. cbv zeta in *.
  destruct (exec _ n) as [r n']. cbn [fst snd] in *. destruct E as [-> Ek]. unfold typed, row_at in *. rewrite Ek.
  unfold accepted. cbn [omap list_omap fst snd]. case_decide as Hc.
  - rewrite bool_decide_true by done. split; [intros x; rewrite raw_row_put by apply Ht; case_decide; [by eexists|apply Ht]|].
    apply (files_one _ _ u c now); [done|done|]. intros x. rewrite raw_row_put by apply Ht. by case_decide.
  - rewrite bool_decide_false by done. split; [done|]. by apply files_nil.
Qed.

Lemma many_all (s : KvStore net) (ttlMs now : Z) (urls codes : list bytes) (n : net) :
  typed s n -> Forall small urls -> length codes = length urls ->
  let r := exec_all exec (map (fun cu => many_args s ttlMs (expiry now ttlMs) now cu.1 cu.2) (zip codes urls)) n in
  typed s r.2 /\ length r.1 = length urls
  /\ files (new_row ttlMs) (eq now) (accepted (zip (zip urls codes) (map (many_ok s) r.1))) (row_at s n) (row_at s r.2).
Proof.
  intros Ht Hu. revert codes n Ht. induction Hu as [|u urls Hu _ IH]; intros [|c codes] n Ht Hl; try done.
  { split_and!; [done|done|]. by apply files_nil. }
  cbn [zip zip_with map exec_all fst snd]. pose proof (many_one s ttlMs now c u n Ht Hu) as [Ht1 F1].
  destruct (exec _ n) as [r n1]. cbn [fst snd] in *. injection Hl as Hl. specialize (IH codes n1 Ht1 Hl).
  destruct (exec_all exec _ n1) as [rs n2]. cbn [fst snd] in *. destruct IH as (Ht2 & Hlen & F2).
  split_and!; [done|cbn; by rewrite Hlen|]. cbn [map zip zip_with].
  change (accepted (?x :: ?l)) with (accepted ([x] ++ l)). unfold accepted in *. rewrite omap_app.
  by eapply files_app.
Qed.

(** ** The retries *)

Definition retried (ttlMs : Z) (nows : nat -> Z) (ps : list (bytes * bytes)) (s s' : KvStore net) : Prop :=
  files (new_row ttlMs) (fun t => exists j, t = nows j) ps (kv_row s) (kv_row s').

Lemma one_retried (u : bytes) (ttlMs : Z) (nows : nat -> Z) (i : nat) (rnds : list bytes) (met : Metrics)
    (s : KvStore net) :
  node_ok s -> small u -> Forall (fun b => length b = (codeLen - 1)%nat) rnds ->
  match Shorten_rnds u [] false ttlMs (nows i) rnds met s with
  | Ret (c, rs, _, s') => (exists k', s' = set_kv k' s) /\ node_ok s' /\ draws s rnds c /\ rs ⊆ rnds
      /\ retried ttlMs nows [(u, c)] s s'
  | Diverge => True
  | Panic => False
  end.
Proof.
  intros Hn Hu Hl. unfold Shorten_rnds.
  pose proof (kv_shorten_loop_serves u ttlMs (nows i) rnds s Hn Hu Hl) as P.
  destruct (shorten_loop _ _ _ _ _) as [[[c rs] s']| |]; cbn [go_bind]; [|done|done].
  destruct P as (k' & -> & Hn' & Hc & (pre & b & -> & Eb) & Hfree & Hrow). split_and!; [by exists k'|done| | |].
  - exists b. split; [|done]. apply elem_of_app. right. by left.
  - intros x Hx. apply elem_of_app. right. by right.
  - apply (files_one _ _ u c (nows i)); [by exists i|unfold kv_row; by rewrite Hfree|].
    intros x. unfold kv_row. rewrite Hrow. by case_decide.
Qed.

Lemma Forall_sub {A : Type} (P : A -> Prop) (l l' : list A) : l' ⊆ l -> Forall P l -> Forall P l'.
Proof. rewrite !Forall_forall. intros Hs Hl x Hx. by apply Hl, Hs. Qed.

Lemma retry_loop_serves (ttlMs : Z) (nows : nat -> Z) (l : list (bytes * bytes * bool)) (i : nat)
    (rnds : list bytes) (met : Metrics) (s : KvStore net) :
  node_ok s -> Forall small (l.*1.*1) -> Forall (fun b => length b = (codeLen - 1)%nat) rnds ->
  match retry_loop ttlMs nows i l rnds met s with
  | Ret (cs, _, s') => (exists k', s' = set_kv k' s) /\ node_ok s' /\ length cs = length l
      /\ exists ps, retried ttlMs nows ps s s' /\ (forall c, c ∈ ps.*2 -> draws s rnds c)
           /\ forall p, p ∈ zip (l.*1.*1) cs <-> p ∈ accepted l ++ ps
  | Diverge => True
  | Panic => False
  end.
Proof.
  revert i rnds met s. induction l as [|[[u c] [|]] l IH]; intros i rnds met s Hn Hu Hl;
    cbn [retry_loop fmap list_fmap fst].
  - split_and!; [exists (kv s); by destruct s|done|done|]. exists []. split_and!; [by apply files_nil| |done].
    by intros c ?%not_elem_of_nil.
  - cbn [fmap list_fmap fst] in Hu. apply Forall_cons in Hu as [_ Hu]. specialize (IH (S i) rnds met s Hn Hu Hl).
    destruct (retry_loop _ _ _ _ _ _ _) as [[[cs met'] s']| |]; cbn [go_bind]; [|done|done].
    destruct IH as (Hk & Hn' & Hlen & ps & Hf & Hd & Hp). split_and!; [done|done|cbn; by rewrite Hlen|].
    exists ps. split_and!; [done..|]. intros p. cbn [zip zip_with accepted omap list_omap fst snd app].
    rewrite !elem_of_cons. by rewrite Hp.
  - cbn [fmap list_fmap fst] in Hu. apply Forall_cons in Hu as [Hu0 Hu].
    pose proof (one_retried u ttlMs nows i rnds met s Hn Hu0 Hl) as P.
    destruct (Shorten_rnds _ _ _ _ _ _ _ _) as [[[[c' rs] met1] s1]| |]; cbn [go_bind]; [|done|done].
    destruct P as ([k1 ->] & Hn1 & Hd1 & Hsub & F1).
    specialize (IH (S i) rs met1 (set_kv k1 s) Hn1 Hu (Forall_sub _ _ _ Hsub Hl)).
    destruct (retry_loop _ _ _ _ _ _ _) as [[[cs met'] s']| |]; cbn [go_bind]; [|done|done].
    destruct IH as ([k2 ->] & Hn' & Hlen & ps & Hf & Hd & Hp). split_and!; [by exists k2|done|cbn; by rewrite Hlen|].
    exists ((u, c') :: ps). split_and!.
    + change ((u, c') :: ps) with ([(u, c')] ++ ps). by eapply files_app.
    + cbn [fmap list_fmap snd]. intros x [->|Hx]%elem_of_cons; [done|]. destruct (Hd x Hx) as (b & Hb & ->).
      exists b. split; [by apply Hsub|done].
    + intros p. cbn [zip zip_with accepted omap list_omap fst snd]. rewrite elem_of_cons, Hp, !elem_of_app, elem_of_cons.
      unfold accepted. naive_solver.
Qed.

(** ** The batch *)

Lemma draw_codes_serves (s : KvStore net) (urls rnds : list bytes) :
  match draw_codes s urls rnds with
  | Ret (cs, rs) => length cs = length urls /\ (forall c, c ∈ cs -> draws s rnds c) /\ rs ⊆ rnds
  | Diverge => True
  | Panic => False
  end.
Proof.
  revert rnds. induction urls as [|u urls IH]; intros rnds; cbn [draw_codes].
  { split_and!; [done| |done]. by intros c ?%not_elem_of_nil. }
  destruct rnds as [|b rnds]; [done|]. specialize (IH rnds).
  destruct (draw_codes s urls rnds) as [[cs rs]| |]; cbn [go_bind]; [|done|done].
  destruct IH as (Hlen & Hd & Hs). split_and!; [cbn; by rewrite Hlen| |].
  - intros c [->|Hc]%elem_of_cons; [exists b; by split; [left|]|]. destruct (Hd c Hc) as (b' & Hb & ->).
    exists b'. by split; [right|].
  - intros x Hx. right. by apply Hs.
Qed.

Lemma many_args_fits (s : KvStore net) (ttlMs exp now : Z) (c u : bytes) :
  0 < buckets s -> small c -> small u -> cmd_fits (many_args s ttlMs exp now c u).
Proof.
  intros Hb Hc Hu. unfold many_args. destruct (layoutHash s); [|by apply set_args_fits; eauto with fitting].
  split; [cbn; lia|]. repeat (apply Forall_cons; split); try apply Forall_nil; eauto with fitting.
  unfold fits. cbn. lia.
Qed.

Lemma drawn_small (s : KvStore net) (rnds : list bytes) (c : bytes) :
  Forall (fun b => length b = (codeLen - 1)%nat) rnds -> draws s rnds c -> small c.
Proof.
  rewrite Forall_forall. intros Hl (b & Hb & ->). unfold small, randCode, randSuffix. cbn [length].
  rewrite length_map, (Hl b Hb). cbn. lia.
Qed.

(** A batch on a serving node files every url under the code returned for it,
    all of them drawn and free, at the time of the batch or of a retry. *)
Lemma kv_ShortenMany_serves (urls : list bytes) (ttlMs now : Z) (nows : nat -> Z) (rnds : list bytes)
    (met : Metrics) (s : KvStore net) :
  node_ok s -> Forall small urls -> Forall (fun b => length b = (codeLen - 1)%nat) rnds ->
  match ShortenMany urls ttlMs now nows rnds met s with
  | Ret (cs, _, s') => (exists k', s' = set_kv k' s) /\ node_ok s' /\ length cs = length urls
      /\ (forall c, c ∈ cs -> draws s rnds c)
      /\ files (new_row ttlMs) (fun t => t = now \/ exists j, t = nows j) (zip urls cs) (kv_row s) (kv_row s')
  | Diverge => True
  | Panic => False
  end.
Proof.
  intros Hn Hu Hl. pose proof Hn as (Hs & Hb & Ht). unfold ShortenMany.
  pose proof (draw_codes_serves s urls rnds) as D.
  destruct (draw_codes s urls rnds) as [[codes rnds']| |]; cbn [go_bind]; [|done|done].
  destruct D as (Hlen & Hdraw & Hsub). cbv zeta.
  set (cmds := map _ (zip codes urls)).
  destruct (pipe_serves cmds (kv s) Hs) as (k1 & E & Hs1 & En).
  { apply Forall_fmap, Forall_forall. intros [c u] Hin. rewrite Forall_forall in Hu.
    apply many_args_fits; [done| |].
    - eapply drawn_small; [exact Hl|]. apply Hdraw. by apply elem_of_zip_l in Hin.
    - apply Hu. by apply elem_of_zip_r in Hin. }
  unfold with_kv. rewrite E. cbn [go_bind].
  pose proof (many_all s ttlMs now urls codes (k_net (kv s)) Ht Hu Hlen) as M. cbv zeta in M. fold cmds in M.
  rewrite <- En in M. destruct M as (Ht1 & Hrs & F1). set (oks := map (many_ok s) _) in *.
  assert (node_ok (set_kv k1 s)) as Hn1 by by split_and!.
  assert (length oks = length urls) as Hoks by (subst oks; by rewrite length_map).
  set (l := zip (zip urls codes) oks) in *.
  assert (l.*1 = zip urls codes) as El1.
  { subst l. apply fst_zip. rewrite length_zip_with. lia. }
  assert (l.*1.*1 = urls) as El by (rewrite El1; apply fst_zip; lia).
  pose proof (retry_loop_serves ttlMs nows l 0 rnds' met (set_kv k1 s) Hn1) as R. rewrite El in R.
  specialize (R Hu (Forall_sub _ _ _ Hsub Hl)).
  destruct (retry_loop _ _ _ _ _ _ _) as [[[cs met'] s']| |]; [|done|done].
  destruct R as ([k2 ->] & Hn2 & Hlcs & ps & F2 & Hd & Hp).
  assert (length cs = length urls) as Hcs.
  { rewrite Hlcs. subst l. rewrite !length_zip_with. lia. }
  assert (forall c, c ∈ cs -> draws s rnds c) as Hall.
  { intros c Hc. assert (c ∈ (zip urls cs).*2) as Hin by (rewrite snd_zip by lia; done).
    apply list_elem_of_fmap in Hin as (p & -> & Hin). apply Hp, elem_of_app in Hin as [Hin|Hin].
    - apply Hdraw. apply list_elem_of_omap in Hin as ([[u c'] [|]] & Hin & [= <-]). subst l.
      apply elem_of_zip_l in Hin. by apply elem_of_zip_r in Hin.
    - destruct (Hd p.2) as (b & Hb' & Eb); [apply list_elem_of_fmap; by exists p|]. exists b. split; [by apply Hsub|done]. }
  split_and!; [by exists k2|done|done|done|].
  apply (files_equiv _ _ (accepted l ++ ps)); [intros p; by rewrite Hp|].
  eapply files_app; [eapply files_weaken; [|exact F1]; by left|].
  eapply files_weaken; [|exact F2]. by right.
Qed.

End Batch.
