(* ===== verification/KvDemo.v ===== *)
(** * KvDemo: a server that satisfies [RespServer]

    A keyspace of strings and hashes whose [Write] decodes the request bytes
    and executes the commands; on it, the witnesses of the theorems about the
    RESP backend. *)

From S2P Require Import Prelude GoStd Base62 Store StoreSpec Float Metrics Codec KvCache Dirty Resp Kv.
From S2P Require Import KvStore KvRows KvSpec KvLoops KvFlush.
From stdpp Require Import options.

(** ** Keyspaces *)

Definition val_fits (v : rvalue) : Prop :=
  match v with VStr a => fits a | VHash h => map_Forall (fun _ a => fits a) h end.

#[export] Instance fits_dec (a : bytes) : Decision (fits a).
Proof. unfold fits. apply _. Defined.
#[export] Instance val_fits_dec (v : rvalue) : Decision (val_fits v).
Proof. destruct v; cbn; apply _. Defined.

Record demo_net := mkDemo {
  d_keys : gmap bytes rvalue;
  d_fits : bool_decide (map_Forall (fun _ v => val_fits v) d_keys) = true
}.

(** A keyspace with an update that keeps to the limits. *)
Program Definition demo_set (m : gmap bytes rvalue) : option demo_net :=
  match bool_decide (map_Forall (fun _ v => val_fits v) m) as b
    return bool_decide (map_Forall (fun _ v => val_fits v) m) = b -> option demo_net with
  | true => fun E => Some (mkDemo m E)
  | false => fun _ => None
  end eq_refl.

Definition too_big : Resp := failure (lit "ERR string exceeds maximum allowed size").

(** The reply and the new keyspace of a command; one that would not fit is
    refused. *)
Definition demo_upd (r : Resp) (m : gmap bytes rvalue) (n : demo_net) : Resp * demo_net :=
  match demo_set m with Some n' => (r, n') | None => (too_big, n) end.

Definition wrong_type : Resp := failure (lit "WRONGTYPE").

Definition demo_incr (n : demo_net) (o : option bytes) (d : bytes) (put : bytes -> gmap bytes rvalue) : Resp * demo_net :=
  match num_of o, ParseInt d with
  | Some a, (b, None) =>
      if decide (is_int64 (a + b)) then demo_upd (int_reply (a + b)) (put (itoa (a + b))) n else (wrong_type, n)
  | _, _ => (wrong_type, n)
  end.

(** A scan is done in one step; it may be of a part. *)
Definition demo_keys (m : gmap bytes rvalue) : list bytes :=
  take 500 (List.filter (fun k => HasPrefix k [x6c; x3a] && bool_decide (fits k)) (map_to_list m).*1).

Definition demo_fields (h : gmap bytes bytes) : list (bytes * bytes) :=
  take 1000 (List.filter (fun fv => bool_decide (fits fv.1)) (map_to_list h)).

Definition demo_exec (args : list bytes) (n : demo_net) : Resp * demo_net :=
  let m := d_keys n in
  match args with
  | [c] => if decide (c = w_PING) then (simple w_PONG, n) else (wrong_type, n)
  | [c; k] =>
      if decide (c = w_GET) then
        match str_at (m !! k) with Some o => (bulk_or_null o, n) | None => (wrong_type, n) end
      else if decide (c = w_DEL) then demo_upd (int_reply (present (m !! k))) (delete k m) n
      else (wrong_type, n)
  | c :: k :: f :: rest =>
      if decide (c = w_SCAN) then (array [bulk w_zero; array (map bulk (demo_keys m))], n)
      else if decide (c = w_HSCAN) then
        match hash_at (m !! k) with
        | Some h => (array [bulk w_zero; array (flat_bulks (demo_fields h))], n)
        | None => (wrong_type, n)
        end
      else if decide (c = w_SET) then
        if decide (last rest = Some w_NX /\ is_Some (m !! k)) then (null, n)
        else demo_upd (simple w_OK) (<[k := VStr f]> m) n
      else if decide (c = w_INCRBY) then
        match str_at (m !! k) with
        | Some o => demo_incr n o f (fun v => <[k := VStr v]> m)
        | None => (wrong_type, n)
        end
      else
        match hash_at (m !! k) with
        | None => (wrong_type, n)
        | Some h =>
            if decide (c = w_HGET) then (bulk_or_null (h !! f), n)
            else if decide (c = w_HDEL) then
              demo_upd (int_reply (present (h !! f))) (set_hash k (delete f h) m) n
            else
              let v := default [] (head rest) in
              if decide (c = w_HSETNX) then
                match h !! f with
                | Some _ => (int_reply 0, n)
                | None => demo_upd (int_reply 1) (set_hash k (<[f := v]> h) m) n
                end
              else if decide (c = w_HSET) then
                demo_upd (int_reply (1 - present (h !! f))) (set_hash k (<[f := v]> h) m) n
              else if decide (c = w_HINCRBY) then
                demo_incr n (h !! f) v (fun v => set_hash k (<[f := v]> h) m)
              else (wrong_type, n)
        end
  | [] => (wrong_type, n)
  end.

(** The commands of a request. *)
Fixpoint demo_decode (fuel : nat) (b : bytes) : list (list bytes) :=
  match fuel with
  | O => []
  | S fuel' =>
      match readResp 2 true b with
      | Ret (Some (r, rest)) =>
          map (fun x => default [] (Str x)) (default [] (Arr r)) :: demo_decode fuel' rest
      | _ => []
      end
  end.

#[export] Instance demo_network : Network demo_net := {
  DialTCP n := (true, n);
  Write b n :=
    let '(rs, n') := exec_all demo_exec (demo_decode (length b) b) n in
    (Some (concat (map enc_resp rs), false), n')
}.

(** ** It serves *)

Lemma demo_set_ok (m : gmap bytes rvalue) :
  map_Forall (fun _ v => val_fits v) m -> exists n, demo_set m = Some n /\ d_keys n = m.
Proof.
  intros Hm. unfold demo_set. generalize (eq_refl (bool_decide (map_Forall (fun _ v => val_fits v) m))).
  generalize (bool_decide (map_Forall (fun _ v => val_fits v) m)) at 2 3. intros [|] E; [by eexists|].
  by apply bool_decide_eq_false_1 in E.
Qed.

Lemma demo_fits (n : demo_net) : map_Forall (fun _ v => val_fits v) (d_keys n).
Proof. destruct n as [m Hm]. cbn [d_keys]. by eapply bool_decide_eq_true_1. Qed.

Lemma demo_upd_ok (r : Resp) (m : gmap bytes rvalue) (n : demo_net) :
  map_Forall (fun _ v => val_fits v) m -> (demo_upd r m n).1 = r /\ d_keys (demo_upd r m n).2 = m.
Proof. intros Hm. unfold demo_upd. by destruct (demo_set_ok m Hm) as (n' & -> & <-). Qed.

Lemma set_hash_fits (k : bytes) (h : gmap bytes bytes) (m : gmap bytes rvalue) :
  map_Forall (fun _ v => val_fits v) m -> map_Forall (fun _ a => fits a) h ->
  map_Forall (fun _ v => val_fits v) (set_hash k h m).
Proof.
  intros Hm Hh. unfold set_hash. case_decide; [by apply map_Forall_delete|]. by apply map_Forall_insert_2.
Qed.

Lemma hash_at_fits (n : demo_net) (k : bytes) (h : gmap bytes bytes) :
  hash_at (d_keys n !! k) = Some h -> map_Forall (fun _ a => fits a) h.
Proof.
  pose proof (demo_fits n) as Hn. destruct (d_keys n !! k) as [[v|h']|] eqn:E; cbn; intros [= <-].
  - exact (Hn k (VHash h') E).
  - apply map_Forall_empty.
Qed.

Lemma itoa_fits (z : Z) : fits (itoa z).
Proof. pose proof (itoa_length z). unfold fits. lia. Qed.

Lemma demo_decode_cmds (fuel : nat) (cmds : list (list bytes)) :
  Forall cmd_fits cmds -> (length (append_cmds cmds) <= fuel)%nat ->
  demo_decode fuel (append_cmds cmds) = cmds.
Proof.
  rewrite append_cmds_arrays. revert fuel. induction cmds as [|args cmds IH]; intros fuel Hf Hl; cbn [map concat].
  { by destruct fuel. }
  apply Forall_cons in Hf as [[Ha Hb] Hf]. cbn [map concat] in Hl. rewrite length_app in Hl.
  assert (wire 2 (array (map bulk args))) as Hw.
  { constructor; [rewrite length_map; lia|]. apply Forall_map. eapply Forall_impl; [exact Hb|].
    intros a Hfa. constructor. unfold fits in Hfa. lia. }
  pose proof (enc_resp_length _ _ Hw). destruct fuel as [|fuel]; [lia|]. cbn [demo_decode].
  rewrite readResp_enc by done. f_equal; [|apply IH; [done|lia]].
  change (map (fun x => default [] (Str x)) (map bulk args) = args). clear. induction args; cbn; by f_equal.
Qed.

(** Every reply can be sent. *)
Lemma wire_bulk_or_null (d : nat) (o : option bytes) :
  (forall v, o = Some v -> fits v) -> wire (S d) (bulk_or_null o).
Proof. intros Ho. destruct o as [v|]; constructor. specialize (Ho v eq_refl). unfold fits in Ho. lia. Qed.

Lemma wire_upd (d : nat) (r : Resp) (m : gmap bytes rvalue) (n : demo_net) :
  wire (S d) r -> wire (S d) (demo_upd r m n).1.
Proof.
  intros Hr. unfold demo_upd. destruct (demo_set m); [done|]. apply wire_failure.
  apply (bool_decide_unpack (x0a ∉ _)). by vm_compute.
Qed.

Lemma wire_wrong (d : nat) (n : demo_net) : wire (S d) (wrong_type, n).1.
Proof. apply wire_failure. apply (bool_decide_unpack (x0a ∉ _)). by vm_compute. Qed.

Lemma wire_incr (d : nat) (n : demo_net) (o : option bytes) (a : bytes) (put : bytes -> gmap bytes rvalue) :
  wire (S d) (demo_incr n o a put).1.
Proof.
  unfold demo_incr. destruct (num_of o); [|apply wire_wrong]. destruct (ParseInt a) as [b [?|]]; [apply wire_wrong|].
  case_decide; [|apply wire_wrong]. by apply wire_upd, wire_int.
Qed.

Lemma wire_present {A : Type} (d : nat) (o : option A) : wire (S d) (int_reply (present o)).
Proof. destruct o; apply wire_int; unfold is_int64; cbn; lia. Qed.

Lemma wire_absent {A : Type} (d : nat) (o : option A) : wire (S d) (int_reply (1 - present o)).
Proof. destruct o; apply wire_int; unfold is_int64; cbn; lia. Qed.

Lemma demo_keys_elem (m : gmap bytes rvalue) (k : bytes) :
  k ∈ demo_keys m -> HasPrefix k [x6c; x3a] = true /\ fits k /\ is_Some (m !! k).
Proof.
  intros Hk%elem_of_take. destruct Hk as (i & Hi & _). apply list_elem_of_lookup_2, list_elem_of_In, List.filter_In in Hi.
  destruct Hi as [Hin [Hp Hf%bool_decide_eq_true_1]%andb_true_iff]. split_and!; [done..|].
  apply list_elem_of_In, list_elem_of_fmap in Hin as ([k' v] & -> & Hin). apply elem_of_map_to_list in Hin. by eexists.
Qed.

Lemma demo_fields_elem (h : gmap bytes bytes) (fv : bytes * bytes) :
  fv ∈ demo_fields h -> h !! fv.1 = Some fv.2 /\ fits fv.1.
Proof.
  intros Hk%elem_of_take. destruct Hk as (i & Hi & _). apply list_elem_of_lookup_2, list_elem_of_In, List.filter_In in Hi.
  destruct Hi as [Hin Hf%bool_decide_eq_true_1]. split; [|done].
  apply list_elem_of_In in Hin. destruct fv. by apply elem_of_map_to_list in Hin.
Qed.

Lemma wire_scan (d : nat) (rs : list Resp) :
  (length rs <= 2000)%nat -> Forall (wire (S d)) rs -> wire (S (S (S d))) (array [bulk w_zero; array rs]).
Proof.
  intros Hl Hr. constructor; [cbn; lia|]. repeat (apply Forall_cons; split); [|by constructor; [lia|]|done].
  constructor. cbn. lia.
Qed.

Lemma wire_fields (d : nat) (h : gmap bytes bytes) :
  map_Forall (fun _ a => fits a) h -> Forall (wire (S d)) (flat_bulks (demo_fields h)).
Proof.
  intros Hh. assert (forall fv, fv ∈ demo_fields h -> fits fv.1 /\ fits fv.2) as Hf.
  { intros fv Hin. apply demo_fields_elem in Hin as [Hk ?]. split; [done|]. exact (Hh _ _ Hk). }
  induction (demo_fields h) as [|fv l IH]; [constructor|]. destruct (Hf fv ltac:(left)) as [H1 H2].
  unfold fits in H1, H2. cbn [flat_bulks]. repeat (apply Forall_cons; split); try (constructor; lia).
  apply IH. intros fv' Hin. apply Hf. by right.
Qed.

Lemma length_flat_bulks (l : list (bytes * bytes)) : length (flat_bulks l) = (2 * length l)%nat.
Proof. induction l as [|fv l IH]; cbn [flat_bulks length]; [done|]. rewrite IH. lia. Qed.

Lemma wire_keys (d : nat) (m : gmap bytes rvalue) : Forall (wire (S d)) (map bulk (demo_keys m)).
Proof.
  apply Forall_map, Forall_forall. intros k Hk. constructor. apply demo_keys_elem in Hk as (_ & Hf & _).
  unfold fits in Hf. lia.
Qed.

Create HintDb wires.
#[local] Hint Resolve wire_upd wire_wrong wire_incr wire_present wire_absent : wires.

Lemma demo_exec_wire (args : list bytes) (n : demo_net) : wire 4 (demo_exec args n).1.
Proof.
  assert (forall k v, str_at (d_keys n !! k) = Some (Some v) -> fits v) as Hstr.
  { intros k v. destruct (d_keys n !! k) as [[w|h]|] eqn:E; cbn; intros [= <-]. exact (demo_fits n k _ E). }
  destruct args as [|c [|k [|f rest]]]; unfold demo_exec; cbv zeta; [eauto with wires|..].
  - case_decide; [|eauto with wires]. apply wire_simple. apply (bool_decide_unpack (x0a ∉ _)). by vm_compute.
  - case_decide; [|case_decide; eauto with wires].
    destruct (str_at _) as [o|] eqn:Eo; [|eauto with wires]. apply wire_bulk_or_null. intros v ->. by eapply Hstr.
  - case_decide.
    { apply wire_scan; [rewrite length_map; unfold demo_keys; rewrite length_take; lia|apply wire_keys]. }
    case_decide.
    { destruct (hash_at _) as [h|] eqn:Eh; [|eauto with wires]. apply wire_scan.
      - rewrite length_flat_bulks. unfold demo_fields. rewrite length_take. lia.
      - apply wire_fields. by eapply hash_at_fits. }
    case_decide.
    { case_decide; [apply wire_null|]. apply wire_upd, wire_simple. apply (bool_decide_unpack (x0a ∉ _)). by vm_compute. }
    case_decide; [destruct (str_at _); eauto with wires|].
    destruct (hash_at _) as [h|] eqn:Eh; [|eauto with wires].
    case_decide.
    { apply wire_bulk_or_null. intros v Hv. by apply (hash_at_fits n k h Eh f). }
    case_decide; [eauto with wires|]. case_decide.
    { destruct (h !! f); [|apply wire_upd]; apply wire_int; unfold is_int64; lia. }
    case_decide; [eauto with wires|]. case_decide; eauto with wires.
Qed.

(** Decides which command a literal is. *)
Ltac dcmd :=
  repeat match goal with
  | |- context [@decide (?a = ?b) ?i] =>
      first [ destruct (@decide (a = b) i) as [_|E]; [|by destruct E]
            | destruct (@decide (a = b) i) as [E|_]; [discriminate E|] ]
  end.

Lemma demo_incr_ok (n : demo_net) (o : option bytes) (m d : Z) (put : bytes -> gmap bytes rvalue) :
  num_of o = Some m -> is_int64 d -> is_int64 (m + d) ->
  (forall v, fits v -> map_Forall (fun _ v => val_fits v) (put v)) ->
  (demo_incr n o (itoa d) put).1 = int_reply (m + d)
  /\ d_keys (demo_incr n o (itoa d) put).2 = put (itoa (m + d)).
Proof.
  intros Ho Hd Hr Hp. unfold demo_incr. rewrite Ho, ParseInt_itoa by done. rewrite decide_True by done.
  apply demo_upd_ok, Hp, itoa_fits.
Qed.

#[export] Program Instance demo_server : RespServer demo_net := {
  exec := demo_exec;
  keys := d_keys
}.
Next Obligation. done. Qed.
Next Obligation. apply demo_exec_wire. Qed.
Next Obligation.
  intros cmds n Hf. cbn [Write demo_network]. rewrite demo_decode_cmds by done. by destruct (exec_all _ _ _).
Qed.
Next Obligation. done. Qed.
Next Obligation. intros k n o Ho. unfold demo_exec. dcmd. by rewrite Ho. Qed.
Next Obligation. intros k n Ho. unfold demo_exec. dcmd. rewrite Ho. split; [by eexists|done]. Qed.
Next Obligation.
  intros k v px nx n Hv. assert (map_Forall (fun _ v => val_fits v) (<[k := VStr v]> (d_keys n))) as Hm
    by (by apply map_Forall_insert_2; [|apply demo_fits]).
  cbv zeta. unfold set_args. cbn [app]. unfold demo_exec. dcmd.
  set (rest := _ ++ _). assert (last rest = Some w_NX <-> nx = true) as Hlast.
  { subst rest. destruct nx; [by rewrite last_snoc|]. rewrite app_nil_r. destruct (0 <? px); [|done].
    split; [|done]. cbn. intros [= E]. pose proof (itoa_numeric px) as Hn. rewrite E in Hn.
    inversion Hn as [|? ? [Hd|Hd] _]; discriminate Hd. }
  destruct nx; cbn [andb].
  - case_bool_decide as Ek.
    + rewrite decide_True by (by split; [apply Hlast|]). done.
    + rewrite decide_False by (by intros [_ ?]). by apply demo_upd_ok.
  - rewrite decide_False by (intros [E _]; by apply Hlast in E). by apply demo_upd_ok.
Qed.
Next Obligation.
  intros k n. cbv zeta. unfold demo_exec. dcmd. apply demo_upd_ok, map_Forall_delete, demo_fits.
Qed.
Next Obligation.
  intros k d n o m Ho Hm Hd Hr. cbv zeta. unfold demo_exec. dcmd. rewrite Ho.
  apply demo_incr_ok; [done..|]. intros v Hv. apply map_Forall_insert_2; [done|apply demo_fits].
Qed.
Next Obligation. intros k f n h Hh. cbv zeta. unfold demo_exec. dcmd. by rewrite Hh. Qed.
Next Obligation.
  intros k f v n h Hv Hh. cbv zeta. unfold demo_exec. dcmd. rewrite Hh. cbn [default head].
  destruct (h !! f); [done|]. apply demo_upd_ok, set_hash_fits; [apply demo_fits|].
  apply map_Forall_insert_2; [done|by eapply hash_at_fits].
Qed.
Next Obligation.
  intros k f v n h Hv Hh. cbv zeta. unfold demo_exec. dcmd. rewrite Hh.
  apply demo_upd_ok, set_hash_fits; [apply demo_fits|].
  apply map_Forall_insert_2; [done|by eapply hash_at_fits].
Qed.
Next Obligation.
  intros k f n h Hh. cbv zeta. unfold demo_exec. dcmd. rewrite Hh.
  apply demo_upd_ok, set_hash_fits; [apply demo_fits|]. apply map_Forall_delete. by eapply hash_at_fits.
Qed.
Next Obligation.
  intros k f d n h m Hh Hm Hd Hr. cbv zeta. unfold demo_exec. dcmd. rewrite Hh.
  apply demo_incr_ok; [done..|]. intros v Hv. apply set_hash_fits; [apply demo_fits|].
  apply map_Forall_insert_2; [done|by eapply hash_at_fits].
Qed.
Next Obligation.
  intros k d n Hno Hd. unfold demo_exec. dcmd. destruct (str_at _) as [o|] eqn:Eo; [|done].
  unfold demo_incr. destruct (num_of o) as [m|] eqn:Em; [|done]. rewrite ParseInt_itoa by done.
  by rewrite decide_False by by eapply Hno.
Qed.
Next Obligation.
  intros k f d n Hno Hd. unfold demo_exec. dcmd. destruct (hash_at _) as [h|] eqn:Eh; [|done].
  unfold demo_incr. cbn [default head]. destruct (num_of (h !! f)) as [m|] eqn:Em; [|done]. cbn [id]. rewrite ParseInt_itoa by done.
  by rewrite decide_False by by eapply Hno.
Qed.
Next Obligation.
  intros cursor n. cbv zeta. unfold demo_exec. dcmd. split; [done|]. exists w_zero, (demo_keys (d_keys n)).
  split; [done|]. split; [unfold fits; cbn; lia|]. apply Forall_forall. apply demo_keys_elem.
Qed.
Next Obligation.
  intros k cursor n. cbv zeta. unfold demo_exec. dcmd. destruct (hash_at _) as [h|] eqn:Eh; [|split; [done|by eexists]].
  split; [done|]. exists w_zero, (demo_fields h). split; [done|]. split; [unfold fits; cbn; lia|].
  apply Forall_forall. apply demo_fields_elem.
Qed.

(** Expired rows go at once. *)
Definition demo_dead (now : Z) (v : rvalue) : bool :=
  match v with
  | VStr a => match decVal a with Some (e, _, _) => negb (e =? 0) && (e <=? now) | None => false end
  | VHash _ => false
  end.

Definition demo_lapse (now : Z) (n : demo_net) : demo_net :=
  default n (demo_set (filter (fun kv => demo_dead now kv.2 = false) (d_keys n))).

#[export] Program Instance demo_expiring : ExpiringServer demo_net := { lapse := demo_lapse }.
Next Obligation.
  intros now n k. cbn [keys demo_server]. unfold demo_lapse.
  destruct (demo_set_ok (filter (fun kv => demo_dead now kv.2 = false) (d_keys n))) as (n' & -> & En).
  { intros k' v Hk. apply map_lookup_filter_Some in Hk as [Hk _]. exact (demo_fits n k' v Hk). }
  change (default n (Some n')) with n'. rewrite En. destruct (d_keys n !! k) as [v|] eqn:Ek.
  - destruct (demo_dead now v) eqn:Ed.
    + right. split.
      * apply map_lookup_filter_None. right. intros v' Ek'. cbn. congruence.
      * destruct v as [a|]; [|done]. cbn in Ed. destruct (decVal a) as [[[e c] u]|] eqn:Ea; [|done].
        exists a, e, c, u. split_and!; try done; lia.
    + left. apply map_lookup_filter_Some. by split.
  - left. apply map_lookup_filter_None. by left.
Qed.

(** ** Witnesses *)

Definition demo_net0 : demo_net := mkDemo ∅ eq_refl.

Definition demo_node (lay : bool) : KvStore demo_net :=
  mkKvStore (mkKv [] demo_net0) (newKvCache 100000 5000) cleared 0 x30 lay 1000000 390 false.

Definition demo_alias : bytes := [x61; x62].

Lemma demo_node_ok (lay : bool) : node_ok (demo_node lay).
Proof.
  split_and!; [by split; [|cbn; unfold kvPoolSize; lia]|cbn; lia|].
  intros code. unfold rows, raw_row. cbn [demo_node layoutHash buckets kv k_net keys demo_server d_keys demo_net0].
  rewrite !lookup_empty. destruct lay; cbn; by eexists.
Qed.

Lemma demo_rows (lay : bool) (code : bytes) : rows (demo_node lay) code = Some None.
Proof.
  unfold rows, raw_row. cbn [demo_node layoutHash buckets kv k_net keys demo_server d_keys demo_net0].
  rewrite !lookup_empty. destruct lay; cbn; [by rewrite lookup_empty|done].
Qed.

Lemma demo_small : small demo_url /\ small demo_alias.
Proof. unfold small. cbn. lia. Qed.

(** The demo node with one link. *)
Lemma demo_link (lay : bool) :
  exists s', Shorten demo_url demo_alias true 0 5 [] (init 0) (demo_node lay)
               = Ret (demo_alias, StoreWrite (init 0), s')
    /\ node_ok s' /\ layoutHash s' = lay /\ buckets s' = 1000000 /\ cache s' = newKvCache 100000 5000
    /\ rows s' demo_alias = Some (Some (encVal 0 5 demo_url)).
Proof.
  destruct demo_small as [Hu Ha].
  pose proof (kv_Shorten_serves demo_url demo_alias true 0 5 [] (init 0) (demo_node lay)
    (demo_node_ok lay) Hu Ha ltac:(done) (Forall_nil_2 _)) as P.
  destruct (Shorten _ _ _ _ _ _ _ _) as [[[code met'] s']| |]; [|done|by destruct P].
  destruct P as (k' & -> & Hn & -> & P). destruct (decide (code = [])) as [Ec|Ec].
  - destruct P as (_ & [v Hv] & _). by rewrite demo_rows in Hv.
  - destruct P as (Hc & _ & Hr). subst code. eexists. split; [done|].
    split_and!; [done..|]. by rewrite Hr, decide_True.
Qed.

Lemma demo_cold (t : Z) (c : kvCache) : c = newKvCache 100000 5000 -> (cache_get t demo_alias c).1 = None.
Proof. intros ->. by vm_compute. Qed.

Lemma pipe_in_order_witness :
  exists k', pipe [[w_PING]; [w_GET; demo_alias]] (mkKv [] demo_net0)
      = Ret (Some [simple w_PONG; null], k') /\ synced k'.
Proof.
  destruct (pipe_in_order [[w_PING]; [w_GET; demo_alias]] (mkKv [] demo_net0)) as (k' & E & Hs & _).
  - split; [constructor|cbn; unfold kvPoolSize; lia].
  - repeat (apply Forall_cons; split; [split; [cbn; lia|]|]); repeat (apply Forall_cons; split);
      try apply Forall_nil; try done; unfold fits; cbn; lia.
  - exists k'. split; [exact E|exact Hs].
Defined.

Lemma kv_Shorten_spec_witness :
  match Shorten demo_url demo_alias true 0 5 [] (init 0) (demo_node true) with
  | Ret (code, _, _) => code = [] \/ code = demo_alias
  | _ => False
  end.
Proof.
  destruct demo_small as [Hu Ha].
  pose proof (kv_Shorten_spec demo_url demo_alias true 0 5 [] (init 0) (demo_node true)
    (demo_node_ok true) Hu Ha ltac:(done) (Forall_nil_2 _)) as P.
  destruct (Shorten _ _ _ _ _ _ _ _) as [[[code met'] s']| |]; [|done|by destruct P].
  destruct P as (k' & _ & _ & _ & P). destruct (decide (code = [])) as [Ec|Ec]; [by left|right].
  destruct P as (Hc & _). by apply Hc.
Defined.

Lemma kv_created_link_resolves_witness :
  exists s', Shorten demo_url demo_alias true 0 5 [] (init 0) (demo_node false)
               = Ret (demo_alias, StoreWrite (init 0), s')
    /\ exists met'' t', Resolve true demo_alias 6 6 6 1 (init 0) s' = Ret (Some demo_url, met'', t').
Proof.
  destruct demo_small as [Hu Ha]. destruct (demo_link false) as (s' & E & Hn & Hl & Hb & Hc & _).
  exists s'. split; [exact E|].
  apply (kv_created_link_resolves true demo_url demo_alias true 0 5 [] (init 0) (StoreWrite (init 0))
           (demo_node false) s' s' demo_alias 6 6 6 1 (init 0)).
  - apply demo_node_ok.
  - exact Hu.
  - exact Ha.
  - done.
  - constructor.
  - unfold is_int64. lia.
  - exact E.
  - done.
  - exact Ha.
  - exact (proj1 Hn).
  - exact Hl.
  - exact Hb.
  - done.
  - by apply demo_cold.
  - left. lia.
Defined.

Lemma kv_Update_spec_witness :
  exists r s', Update demo_alias demo_url 0 true 7 7 (demo_node true) = Ret (r, s')
    /\ r = MutMissing.
Proof.
  destruct demo_small as [Hu Ha].
  destruct (kv_Update_spec demo_alias demo_url 0 true 7 7 7 (demo_node true) (demo_node_ok true) Ha Hu eq_refl)
    as (r & s' & E & _ & P).
  exists r, s'. split; [exact E|]. rewrite demo_rows in P. exact (proj1 P).
Defined.

Lemma kv_Remove_spec_witness :
  exists s0 r s', rows s0 demo_alias = Some (Some (encVal 0 5 demo_url))
    /\ Remove demo_alias s0 = Ret (r, s') /\ r = MutOK.
Proof.
  destruct (demo_link true) as (s0 & _ & Hn & _ & _ & Hc & Hr).
  destruct (kv_Remove_spec demo_alias 6 s0 Hn (proj2 demo_small)) as (r & s' & E & _ & _ & P).
  - by rewrite Hc.
  - exists s0, r, s'. split; [exact Hr|]. split; [exact E|]. rewrite Hr in P. exact (proj1 P).
Defined.

Lemma kv_removed_link_stale_witness :
  exists s0 s', Remove demo_alias s0 = Ret (MutOK, s')
    /\ exists met' t', Resolve true demo_alias 6 6 6 1 (init 0) (set_cache (newKvCache 100000 5000) s')
         = Ret (None, met', t').
Proof.
  destruct (demo_link true) as (s0 & _ & Hn & Hl & Hb & Hc & Hr).
  destruct (kv_Remove_serves demo_alias s0 _ Hn (proj2 demo_small) Hr) as (s' & E & Hn' & Hl' & Hb' & _ & _ & _).
  exists s0, s'. split; [exact E|].
  destruct (kv_removed_link_stale true demo_alias s0 s' (set_cache (newKvCache 100000 5000) s') 6 6 6 1 (init 0)
    Hn (proj2 demo_small) E (proj1 Hn') Hl' Hb' eq_refl) as (r & met' & t' & ER & P).
  destruct r as [u|]; [|by exists met', t'].
  destruct (P u eq_refl) as (e & at' & Hm & _). exfalso. clear -Hm. vm_compute in Hm. discriminate Hm.
Defined.

(** A server that wants a password. *)
Definition noauth : bytes := Eval vm_compute in lit "NOAUTH Authentication required.".

#[local] Instance refusing_network : Network unit := {
  DialTCP n := (true, n);
  Write _ n := (Some (enc_resp (failure noauth), false), n)
}.

Lemma kv_Shorten_spins_witness :
  exists s, NewKV tt 0 100000 5000 [] [] = Ret (Some s)
    /\ Shorten demo_url demo_alias false 0 5 [[x00; x00; x00; x00; x00; x00; x00]] (init 0) s = Diverge
    /\ exists met' s', Shorten demo_url demo_alias true 0 5 [[x00; x00; x00; x00; x00; x00; x00]] (init 0) s
                       = Ret ([], met', s').
Proof.
  apply (kv_Shorten_spins noauth); [done|done|].
  apply (bool_decide_unpack (x0a ∉ noauth)). by vm_compute.
Defined.

Lemma bkey_few_witness :
  bkey 1000000 demo_alias ∈ map (fun i => [x6c; x3a] ++ utoa (Z.of_nat i)) (seq 0 numShards).
Proof. apply (bkey_few 1000000 demo_alias). lia. Defined.

(** Two pending hits. *)
Definition demo_hits (lay : bool) : KvStore demo_net :=
  bump true demo_alias (bump true demo_alias (demo_node lay)).

Lemma demo_hits_pending : pending (demo_hits true) demo_alias = 2.
Proof. by vm_compute. Qed.

Lemma kv_flush_keeps_hits_witness :
  exists s', flushHits (demo_hits true) = Ret (Some tt, s')
    /\ hits_at true 1000000 (keys (k_net (kv s'))) demo_alias = Some 2 /\ pending s' demo_alias = 0.
Proof.
  assert (forall c, hits_at true 1000000 (keys demo_net0) c = Some 0) as Hz.
  { intros c. unfold hits_at. cbn [keys demo_server d_keys demo_net0]. by rewrite lookup_empty. }
  destruct (kv_flush_keeps_hits (demo_hits true)) as (s' & E & _ & P).
  - split; [constructor|cbn; unfold kvPoolSize; lia].
  - cbn. lia.
  - apply dirty_ok_bump, dirty_ok_bump, dirty_ok_cleared; apply demo_small.
  - intros c. exists 0. split; [apply Hz|]. cbn [Z.add].
    apply (pending_int64 (kdirty (demo_hits true)) c).
    apply dirty_ok_bump, dirty_ok_bump, dirty_ok_cleared; apply demo_small.
  - exists s'. split; [exact E|]. destruct (P demo_alias 0 (Hz demo_alias)) as [Hh Hp].
    rewrite demo_hits_pending in Hh. split; [exact Hh|exact Hp].
Defined.

(** A connection that breaks. *)
#[local] Instance broken_network : Network bool := {
  DialTCP n := (true, n);
  Write _ n := (None, n)
}.

Definition broken_node : KvStore bool :=
  bump true demo_alias (mkKvStore (mkKv [] true) (newKvCache 0 0) cleared 0 x30 false 1 16 false).

Lemma kv_flush_failure_loses_hits_witness :
  exists s', flushHits broken_node = Ret (None, s') /\ pending s' demo_alias = 0.
Proof.
  assert (exists s', flushHits broken_node = Ret (None, s')) as [s' E] by (eexists; vm_compute; reflexivity).
  exists s'. split; [exact E|].
  apply (kv_flush_failure_loses_hits broken_node s' demo_alias); [by vm_compute|exact E].
Defined.
