(* ===== verification/PebbleStore.v ===== *)
(** * PebbleStore: the embedded backend, [internal/store/pebblestore.go]

    The store over a Pebble database: every operation of the file, and the
    merge operator of its hit counters. The database is a parameter
    ([PebbleDB]); [PebbleLaws] states what its documentation promises, on the
    map of visible values. *)

From S2P Require Import Prelude GoStd Base62 Store StoreSpec Float Metrics Codec KvCache Dirty.
From stdpp Require Import options.

(** ** The merge operator *)

(** [binary.LittleEndian.PutUint64] and [Uint64]. *)
Fixpoint put_le (n : nat) (z : Z) : bytes :=
  match n with O => [] | S n' => bofZ z :: put_le n' (Z.shiftr z 8) end.

Fixpoint get_le (n : nat) (b : bytes) : Z :=
  match n, b with S n', c :: b' => bZ c + 256 * get_le n' b' | _, _ => 0 end.

Definition PutUint64 (z : Z) : bytes := put_le 8 z.
Definition Uint64 (b : bytes) : Z := get_le 8 b.

(** The state of a [u64Merger] is its [base]. *)
Definition MergeNewer (base : Z) (v : bytes) : Z :=
  if (8 <=? length v)%nat then uint64 (base + Uint64 v) else base.
Definition MergeOlder (base : Z) (v : bytes) : Z := MergeNewer base v.
Definition Finish (base : Z) : bytes := PutUint64 base.
(** [u64Merge.Merge] on the first operand. *)
Definition u64Merge (value : bytes) : Z := if (8 <=? length value)%nat then Uint64 value else 0.

(** ** The database *)

Inductive get_result := Found (v : bytes) | ErrNotFound | GetError.

Inductive bop := BSet (k v : bytes) | BDelete (k : bytes) | BMerge (k v : bytes).

Class PebbleDB (db : Type) := {
  db_Get : bytes -> db -> get_result;
  db_Set : bytes -> bytes -> db -> bool * db;
  db_Commit : list bop -> db -> bool * db;
  db_Iter : bytes -> bytes -> db -> option (list (bytes * bytes));  (* bounds *)
  db_Compact : bytes -> bytes -> db -> db;
  db_Close : db -> db
}.

Record PebbleStore (db : Type) := mkPebble {
  pdb : db;
  pcache : kvCache;
  pdirty : list (gmap bytes Z);
  pinstance : Z;
  pprefix : byte;
  pstopped : bool
}.
Arguments mkPebble {db} _ _ _ _ _ _.
Arguments pdb {db} _.
Arguments pcache {db} _.
Arguments pdirty {db} _.
Arguments pinstance {db} _.
Arguments pprefix {db} _.
Arguments pstopped {db} _.

Section Pebble.
Context {db : Type}.

Definition set_pdb (d : db) (s : PebbleStore db) : PebbleStore db :=
  mkPebble d (pcache s) (pdirty s) (pinstance s) (pprefix s) (pstopped s).
Definition set_pcache (c : kvCache) (s : PebbleStore db) : PebbleStore db :=
  mkPebble (pdb s) c (pdirty s) (pinstance s) (pprefix s) (pstopped s).
Definition set_pdirty (d : list (gmap bytes Z)) (s : PebbleStore db) : PebbleStore db :=
  mkPebble (pdb s) (pcache s) d (pinstance s) (pprefix s) (pstopped s).
Definition set_pstopped (s : PebbleStore db) : PebbleStore db :=
  mkPebble (pdb s) (pcache s) (pdirty s) (pinstance s) (pprefix s) true.

Definition randCode (s : PebbleStore db) (buf : bytes) : bytes := pprefix s :: randSuffix buf.

Definition pending (s : PebbleStore db) (code : bytes) : Z := pending_of (pdirty s) code.

(** [hits] is false when HITS is "0". *)
Definition bump (hits : bool) (code : bytes) (s : PebbleStore db) : PebbleStore db :=
  if hits then set_pdirty (bump_in code (pdirty s)) s else s.

Context `{PebbleDB db} `{MapOrder} `{SliceSort} (hits : bool).

(** [NewPebble] on an opened database. *)
Definition NewPebble (open : option db) (instance cacheEntries cacheTTLMs : Z) : go (option (PebbleStore db)) :=
  match open with
  | None => Ret None
  | Some d =>
      let instance := if instance <? 0 then 0 else instance in
      let instance := if maxInstances <=? instance then maxInstances - 1 else instance in
      let* p := alpha_at instance in
      Ret (Some (mkPebble d (newKvCache cacheEntries cacheTTLMs) cleared instance p false))
  end.

Definition merge_op (cd : bytes * Z) : bop := BMerge (hkey cd.1) (PutUint64 (uint64 cd.2)).

(** A batch that is empty is closed, not committed. *)
Definition flushHits (s : PebbleStore db) : PebbleStore db :=
  let s' := set_pdirty (clear_all (pdirty s)) s in
  match map merge_op (dirty_pairs (pdirty s)) with
  | [] => s'
  | ops => set_pdb (db_Commit ops (pdb s)).2 s'
  end.

Definition l_lower : bytes := Eval vm_compute in lit "l:".
Definition l_upper : bytes := Eval vm_compute in lit "l;".

Definition expired_row (now : Z) (kv : bytes * bytes) : bool :=
  match decVal kv.2 with
  | Some (e, _, _) => negb (e =? 0) && (e <=? now)
  | None => false
  end.

Definition sweepExpired (now : Z) (s : PebbleStore db) : PebbleStore db :=
  match db_Iter l_lower l_upper (pdb s) with
  | None => s
  | Some kvs =>
      match List.filter (expired_row now) kvs with
      | [] => s
      | dead => set_pdb (db_Commit (map (fun kv => BDelete kv.1) dead) (pdb s)).2 s
      end
  end.

Definition getLink (code : bytes) (s : PebbleStore db) : option bytes :=
  match db_Get (lkey code) (pdb s) with Found v => Some v | _ => None end.

Definition linkHits (code : bytes) (s : PebbleStore db) : Z :=
  match db_Get (hkey code) (pdb s) with
  | Found v => int64 ((if (8 <=? length v)%nat then int64 (Uint64 v) else 0) + pending s code)
  | _ => 0
  end.

Definition Resolve (code : bytes) (t1 t2 t3 us : Z) (met : Metrics) (s : PebbleStore db)
    : option bytes * Metrics * PebbleStore db :=
  match cache_get t1 code (pcache s) with
  | (Some (u, _), c) => (Some u, CacheHit met, bump hits code (set_pcache c s))
  | (None, c) =>
      let s1 := set_pcache c s in
      let met := StoreRead us (CacheMiss met) in
      match getLink code s1 with
      | None => (None, met, s1)
      | Some v =>
          match decVal v with
          | None => (None, met, s1)
          | Some (e, _, u) =>
              if negb (e =? 0) && (e <=? t2) then (None, met, s1)
              else (Some u, met, bump hits code (set_pcache (cache_put t3 code u e (pcache s1)) s1))
          end
      end
  end.

(** The closure [put] of [Shorten]; [t] is read when the cache is filled. *)
Definition put_link (url : bytes) (exp now t : Z) (code : bytes) (s : PebbleStore db) : bool * PebbleStore db :=
  match getLink code s with
  | Some _ => (false, s)
  | None =>
      let '(ok, d) := db_Set (lkey code) (encVal exp now url) (pdb s) in
      let s1 := set_pdb d s in
      if (ok : bool) then (true, set_pcache (cache_put t code url exp (pcache s1)) s1) else (false, s1)
  end.

Fixpoint shorten_loop (url : bytes) (exp now t : Z) (rnds : list bytes) (s : PebbleStore db)
    : go (bytes * list bytes * PebbleStore db) :=
  match rnds with
  | [] => Diverge
  | buf :: rnds' =>
      let c := randCode s buf in
      let '(ok, s1) := put_link url exp now t c s in
      if (ok : bool) then Ret (c, rnds', s1) else shorten_loop url exp now t rnds' s1
  end.

Definition Shorten_rnds (url alias : bytes) (hasAlias : bool) (ttlMs now t : Z) (rnds : list bytes)
    (met : Metrics) (s : PebbleStore db) : go (bytes * list bytes * Metrics * PebbleStore db) :=
  let met := StoreWrite met in
  let exp := expiry now ttlMs in
  if hasAlias then
    let '(ok, s1) := put_link url exp now t alias s in
    Ret ((if (ok : bool) then alias else []), rnds, met, s1)
  else let* (c, rnds', s1) := shorten_loop url exp now t rnds s in Ret (c, rnds', met, s1).

Definition Shorten (url alias : bytes) (hasAlias : bool) (ttlMs now t : Z) (rnds : list bytes)
    (met : Metrics) (s : PebbleStore db) : go (bytes * Metrics * PebbleStore db) :=
  let* (code, _, met', s') := Shorten_rnds url alias hasAlias ttlMs now t rnds met s in Ret (code, met', s').

(** The first pass of [ShortenMany]: one draw per url, [None] when the
    database has the code already. *)
Fixpoint draw_codes (s : PebbleStore db) (urls : list bytes) (rnds : list bytes)
    : go (list (option bytes) * list bytes) :=
  match urls, rnds with
  | [], _ => Ret ([], rnds)
  | _ :: _, [] => Diverge
  | _ :: urls', buf :: rnds' =>
      let c := randCode s buf in
      let o := match getLink c s with Some _ => None | None => Some c end in
      let* (cs, rnds'') := draw_codes s urls' rnds' in Ret (o :: cs, rnds'')
  end.

Definition batch_sets (exp now : Z) (l : list (bytes * option bytes)) : list bop :=
  omap (fun uc => match uc.2 with Some c => Some (BSet (lkey c) (encVal exp now uc.1)) | None => None end) l.

Definition fill_cache (exp t : Z) (l : list (bytes * option bytes)) (c : kvCache) : kvCache :=
  foldl (fun c uc => match uc.2 with Some code => cache_put t code uc.1 exp c | None => c end) c l.

(** The retries; [nows] are the readings of the clock they make. *)
Fixpoint retry_loop (ttlMs : Z) (nows : nat -> Z) (i : nat) (l : list (bytes * option bytes))
    (rnds : list bytes) (met : Metrics) (s : PebbleStore db) : go (list bytes * Metrics * PebbleStore db) :=
  match l with
  | [] => Ret ([], met, s)
  | (_, Some code) :: l' =>
      let* (cs, met', s') := retry_loop ttlMs nows (S i) l' rnds met s in Ret (code :: cs, met', s')
  | (u, None) :: l' =>
      let* (code, rnds', met1, s1) := Shorten_rnds u [] false ttlMs (nows i) (nows i) rnds met s in
      let* (cs, met', s') := retry_loop ttlMs nows (S i) l' rnds' met1 s1 in Ret (code :: cs, met', s')
  end.

Definition ShortenMany (urls : list bytes) (ttlMs now t : Z) (nows : nat -> Z) (rnds : list bytes)
    (met : Metrics) (s : PebbleStore db) : go (list bytes * Metrics * PebbleStore db) :=
  let exp := expiry now ttlMs in
  let* (codes, rnds') := draw_codes s urls rnds in
  let l := zip urls codes in
  let '(ok, d) := db_Commit (batch_sets exp now l) (pdb s) in
  let s1 := set_pdb d s in
  if (ok : bool)
  then retry_loop ttlMs nows 0 l rnds' met (set_pcache (fill_cache exp t l (pcache s1)) s1)
  else retry_loop ttlMs nows 0 (map (fun uc => (uc.1, None)) l) rnds' met s1.

Definition Update (code url : bytes) (ttlMs : Z) (hasTTL : bool) (now : Z) (s : PebbleStore db)
    : MutResult * PebbleStore db :=
  match getLink code s with
  | None => (MutMissing, s)
  | Some v =>
      match decVal v with
      | None => (MutMissing, s)
      | Some (e, c, _) =>
          let exp := if hasTTL then expiry now ttlMs else e in
          let '(ok, d) := db_Set (lkey code) (encVal exp c url) (pdb s) in
          let s1 := set_pdb d s in
          if (ok : bool) then (MutOK, set_pcache (cache_remove code (pcache s1)) s1) else (MutMissing, s1)
      end
  end.

Definition Remove (code : bytes) (s : PebbleStore db) : MutResult * PebbleStore db :=
  match getLink code s with
  | None => (MutMissing, s)
  | Some _ =>
      let s1 := set_pdb (db_Commit [BDelete (lkey code); BDelete (hkey code)] (pdb s)).2 s in
      (MutOK, set_pcache (cache_remove code (pcache s1)) s1)
  end.

Definition list_row (q : bytes) (now : Z) (s : PebbleStore db) (kv : bytes * bytes) : option Link :=
  let code := drop 2 kv.1 in
  match decVal kv.2 with
  | None => None
  | Some (e, c, u) =>
      if negb (e =? 0) && (e <=? now) then None
      else if bool_decide (q = []) || Contains code q || Contains u q
      then Some (mkLink code u (linkHits code s) c (if e =? 0 then None else Some e))
      else None
  end.

Definition List (limit offset : Z) (sortBy q : bytes) (now : Z) (s : PebbleStore db) : go (list Link * Z) :=
  match db_Iter l_lower l_upper (pdb s) with
  | None => Ret ([], 0)
  | Some kvs =>
      let items := omap (list_row q now s) kvs in
      let items := sort_slice (if bool_decide (sortBy = s_hits) then more_hits else newer) items in
      let total := Z.of_nat (length items) in
      if total <=? offset then Ret ([], total)
      else let* p := page limit offset items in Ret (p, total)
  end.

Definition Stats (code : bytes) (now : Z) (s : PebbleStore db) : option Link :=
  match getLink code s with
  | None => None
  | Some v =>
      match decVal v with
      | None => None
      | Some (e, c, u) =>
          if negb (e =? 0) && (e <=? now) then None
          else Some (mkLink code u (linkHits code s) c (if e =? 0 then None else Some e))
      end
  end.

Definition Seed (urls : list bytes) (now t : Z) (nows : nat -> Z) (rnds : list bytes) (met : Metrics)
    (s : PebbleStore db) : go (Z * Metrics * PebbleStore db) :=
  let* (_, met', s1) := ShortenMany urls 0 now t nows rnds met s in
  Ret (Z.of_nat (length urls), met', flushHits s1).

Definition Healthy (s : PebbleStore db) : bool :=
  match db_Get [] (pdb s) with Found _ | ErrNotFound => true | GetError => false end.

Definition IsEmpty (s : PebbleStore db) : bool :=
  match db_Iter l_lower l_upper (pdb s) with None | Some [] => true | Some (_ :: _) => false end.

Definition Flush (s : PebbleStore db) : PebbleStore db := flushHits s.
Definition PollTails (s : PebbleStore db) : PebbleStore db := s.
Definition Compact (s : PebbleStore db) : PebbleStore db := set_pdb (db_Compact l_lower l_upper (pdb s)) s.
Definition Close (s : PebbleStore db) : PebbleStore db :=
  let s1 := flushHits (set_pstopped s) in set_pdb (db_Close (pdb s1)) s1.

End Pebble.

(** ** What the store relies on of Pebble *)

(** The value a merge leaves: the operands so far, then the new one. *)
Definition merged (old : option bytes) (v : bytes) : bytes :=
  match old with
  | None => Finish (u64Merge v)
  | Some o => Finish (MergeNewer (u64Merge o) v)
  end.

Definition apply_bop (m : gmap bytes bytes) (o : bop) : gmap bytes bytes :=
  match o with
  | BSet k v => <[k := v]> m
  | BDelete k => delete k m
  | BMerge k v => <[k := merged (m !! k) v]> m
  end.

(** On an open database whose writes succeed: reads see the last write, a batch
    is applied in order and at once, an iterator visits the keys within its
    bounds once each, and a compaction changes no visible value. *)
Class PebbleLaws (db : Type) `{PebbleDB db} := {
  view : db -> gmap bytes bytes;
  get_view : forall k d, db_Get k d = match view d !! k with Some v => Found v | None => ErrNotFound end;
  set_view : forall k v d, exists d', db_Set k v d = (true, d') /\ view d' = <[k := v]> (view d);
  commit_view : forall ops d, exists d', db_Commit ops d = (true, d') /\ view d' = foldl apply_bop (view d) ops;
  iter_view : forall d, exists kvs, db_Iter l_lower l_upper d = Some kvs /\ NoDup kvs.*1
    /\ forall k v, (k, v) ∈ kvs <-> view d !! k = Some v /\ HasPrefix k l_lower = true;
  compact_view : forall lo hi d, view (db_Compact lo hi d) = view d;
  close_view : forall d, view (db_Close d) = view d
}.
