(* ===== verification/PebbleSpec.v ===== *)
(** * PebbleSpec: the embedded backend on its database's visible map

    The merge operator adds; a flush moves every pending hit to the stored
    counters; created links resolve; [Update], [Remove] and the sweep on every
    branch; and what a batch does when it draws a code twice. *)

From S2P Require Import Prelude GoStd Base62 Store StoreSpec Float Metrics Codec KvCache Dirty PebbleStore.
From stdpp Require Import options.

(** ** The merge operator *)

Lemma put_le_length (n : nat) (z : Z) : length (put_le n z) = n.
Proof. revert z. induction n as [|n IH]; intros z; cbn; [done|]. by rewrite IH. Qed.

Lemma bZ_bofZ_mod (z : Z) : bZ (bofZ z) = z mod 256.
Proof.
  pose proof (Z.mod_pos_bound z 256 eq_refl) as Hb. rewrite <- (bZ_bofZ (z mod 256)) by done.
  unfold bofZ. by rewrite Z.mod_mod.
Qed.

Lemma get_put_le (n : nat) (z : Z) : get_le n (put_le n z) = z mod 2 ^ (8 * Z.of_nat n).
Proof.
  revert z. induction n as [|n IH]; intros z; cbn [get_le put_le]; [by rewrite Z.mod_1_r|].
  rewrite IH, bZ_bofZ_mod, Z.shiftr_div_pow2 by lia. change (2 ^ 8) with 256.
  replace (2 ^ (8 * Z.of_nat (S n))) with (256 * 2 ^ (8 * Z.of_nat n))
    by (change 256 with (2 ^ 8); rewrite <- Z.pow_add_r by lia; f_equal; lia).
  rewrite Z.rem_mul_r; [done|lia|]. apply Z.pow_pos_nonneg; lia.
Qed.

Lemma Uint64_Put (z : Z) : Uint64 (PutUint64 z) = uint64 z.
Proof. unfold Uint64, PutUint64. by rewrite get_put_le. Qed.

Lemma uint64_idem (z : Z) : uint64 (uint64 z) = uint64 z.
Proof. unfold uint64. by rewrite Z.mod_mod. Qed.

Lemma uint64_add (a b : Z) : uint64 (uint64 a + uint64 b) = uint64 (a + b).
Proof. unfold uint64. by rewrite <- Zplus_mod. Qed.

Lemma uint64_add_l (a b : Z) : uint64 (uint64 a + b) = uint64 (a + b).
Proof. unfold uint64. by rewrite Zplus_mod_idemp_l. Qed.

Lemma uint64_add_r (a b : Z) : uint64 (a + uint64 b) = uint64 (a + b).
Proof. unfold uint64. by rewrite Zplus_mod_idemp_r. Qed.

#[export] Hint Rewrite uint64_idem uint64_add uint64_add_l uint64_add_r Uint64_Put : golang.

Lemma int64_uint64 (z : Z) : int64 (uint64 z) = int64 z.
Proof. unfold int64, wrap, uint64. f_equal. by rewrite Zplus_mod_idemp_l. Qed.

Lemma u64Merge_Put (z : Z) : u64Merge (PutUint64 z) = uint64 z.
Proof. unfold u64Merge, PutUint64. rewrite put_le_length. cbn [Nat.leb]. apply Uint64_Put. Qed.

Lemma MergeNewer_Put (base z : Z) : MergeNewer base (PutUint64 z) = uint64 (base + z).
Proof.
  unfold MergeNewer, PutUint64. rewrite put_le_length. cbn [Nat.leb]. fold (PutUint64 z).
  by rewrite Uint64_Put, uint64_add_r.
Qed.

Definition sum (zs : list Z) : Z := foldr Z.add 0 zs.

(** the merge operator is addition modulo 2^64: merging any operands gives
    their sum, in whatever order and from whichever end Pebble hands them over,
    and operands merged beforehand in any grouping give the same. *)
Theorem u64Merge_adds (z : Z) (zs zs' : list Z) :
  let operands l := map (fun x => PutUint64 (uint64 x)) l in
  Finish (foldl MergeNewer (u64Merge (PutUint64 (uint64 z))) (operands zs)) = PutUint64 (uint64 (z + sum zs))
  /\ Finish (foldl MergeOlder (u64Merge (PutUint64 (uint64 z))) (operands zs)) = PutUint64 (uint64 (z + sum zs))
  /\ Finish (MergeNewer (u64Merge (PutUint64 (uint64 z))) (Finish (foldl MergeNewer (u64Merge (PutUint64 0)) (operands zs))))
     = PutUint64 (uint64 (z + sum zs))
  /\ (Permutation zs zs' -> sum zs = sum zs').
Proof.
  intros operands.
  assert (forall l b, foldl MergeNewer (uint64 b) (operands l) = uint64 (b + sum l)) as Hf.
  { intros l. induction l as [|x l IH]; intros b; cbn [operands map foldl sum foldr]; [by rewrite Z.add_0_r|].
    rewrite MergeNewer_Put, uint64_add. fold (operands l). rewrite IH. cbn [sum foldr]. f_equal.
    fold (sum l). lia. }
  rewrite !u64Merge_Put, !uint64_idem. unfold Finish. split_and!.
  - by rewrite Hf.
  - change MergeOlder with MergeNewer. by rewrite Hf.
  - rewrite Hf, MergeNewer_Put. by rewrite Z.add_0_l, uint64_add.
  - unfold sum. induction 1; cbn [foldr]; lia.
Qed.

(** ** The stored counter of a code *)

Definition stored (m : gmap bytes bytes) (code : bytes) : Z :=
  match m !! hkey code with Some v => if (8 <=? length v)%nat then Uint64 v else 0 | None => 0 end.

Lemma pebble_hkey_inj (c c' : bytes) : hkey c = hkey c' -> c = c'.
Proof. by intros [=]. Qed.

Lemma stored_range (m : gmap bytes bytes) (code : bytes) : uint64 (stored m code) = stored m code.
Proof.
  assert (forall n b, 0 <= get_le n b < 2 ^ (8 * Z.of_nat n)) as Hg.
  { intros n. induction n as [|n IH]; intros b; cbn [get_le]; [cbn; lia|].
    replace (2 ^ (8 * Z.of_nat (S n))) with (256 * 2 ^ (8 * Z.of_nat n))
      by (change 256 with (2 ^ 8); rewrite <- Z.pow_add_r by lia; f_equal; lia).
    destruct b as [|c b]; [lia|]. specialize (IH b). pose proof (bZ_bounds c). lia. }
  unfold stored, uint64. apply Z.mod_small. destruct (m !! hkey code) as [v|]; [|lia].
  destruct (8 <=? length v)%nat; [|lia]. apply (Hg 8%nat v).
Qed.

Lemma merged_Put (o : option bytes) (z : Z) :
  merged o (PutUint64 (uint64 z))
  = PutUint64 (uint64 (match o with Some v => if (8 <=? length v)%nat then Uint64 v else 0 | None => 0 end + z)).
Proof.
  unfold merged, Finish. destruct o as [v|].
  - rewrite MergeNewer_Put, uint64_add_r. done.
  - by rewrite u64Merge_Put, uint64_idem.
Qed.

Lemma stored_merge (m : gmap bytes bytes) (c : bytes) (d : Z) (x : bytes) :
  stored (apply_bop m (merge_op (c, d))) x = if decide (c = x) then uint64 (stored m c + d) else stored m x.
Proof.
  cbn [apply_bop merge_op fst snd]. unfold stored at 1. case_decide as E.
  - subst x. rewrite lookup_insert_eq, merged_Put. unfold PutUint64 at 1. rewrite put_le_length. cbn [Nat.leb].
    by rewrite Uint64_Put, uint64_idem.
  - rewrite lookup_insert_ne; [done|]. by intros ?%pebble_hkey_inj.
Qed.

Lemma stored_merges (l : list (bytes * Z)) (m : gmap bytes bytes) (c : bytes) :
  NoDup l.*1 ->
  (forall d, (c, d) ∈ l -> stored (foldl apply_bop m (map merge_op l)) c = uint64 (stored m c + d))
  /\ (c ∉ l.*1 -> stored (foldl apply_bop m (map merge_op l)) c = stored m c).
Proof.
  revert m. induction l as [|[c0 d0] l IH]; intros m Hnd; cbn [map foldl].
  { split; [by intros d ?%not_elem_of_nil|done]. }
  cbn [fmap list_fmap fst] in *. apply NoDup_cons in Hnd as [Hc0 Hnd].
  destruct (IH (apply_bop m (merge_op (c0, d0))) Hnd) as [Hin Hout]. split.
  - intros d [[= -> ->]|Hd]%elem_of_cons.
    + rewrite Hout by done. by rewrite stored_merge, decide_True.
    + rewrite (Hin d Hd), stored_merge, decide_False; [done|]. intros ->. apply Hc0, list_elem_of_fmap. by exists (c, d).
  - intros [Hne Hnl]%not_elem_of_cons. rewrite Hout by done. rewrite stored_merge, decide_False; [done|congruence].
Qed.

(** Merges leave rows alone. *)
Lemma merges_rows (l : list (bytes * Z)) (m : gmap bytes bytes) (code : bytes) :
  foldl apply_bop m (map merge_op l) !! lkey code = m !! lkey code.
Proof.
  revert m. induction l as [|cd l IH]; intros m; cbn [map foldl]; [done|]. rewrite IH. cbn [apply_bop merge_op].
  by rewrite lookup_insert_ne.
Qed.

Section Spec.
Context {db : Type} `{PebbleLaws db} `{MapOrder} `{SliceSort} (hits : bool).

#[local] Set Default Proof Using "Type*".

Lemma getLink_view (code : bytes) (s : PebbleStore db) : getLink code s = view (pdb s) !! lkey code.
Proof. unfold getLink. rewrite get_view. by destruct (_ !! _). Qed.

Lemma linkHits_view (code : bytes) (s : PebbleStore db) :
  linkHits code s = match view (pdb s) !! hkey code with
                    | Some _ => int64 (stored (view (pdb s)) code + pending s code)
                    | None => 0
                    end.
Proof.
  unfold linkHits, stored. rewrite get_view. destruct (_ !! _) as [v|]; [|done].
  destruct (8 <=? length v)%nat; [by rewrite int64_add_l|done].
Qed.

(** What a flush does to the visible map. *)
Lemma flushHits_view (s : PebbleStore db) :
  view (pdb (flushHits s)) = foldl apply_bop (view (pdb s)) (map merge_op (dirty_pairs (pdirty s)))
  /\ pdirty (flushHits s) = clear_all (pdirty s) /\ pcache (flushHits s) = pcache s /\ pprefix (flushHits s) = pprefix s.
Proof.
  unfold flushHits. cbv zeta. destruct (map merge_op (dirty_pairs (pdirty s))) as [|o ops] eqn:E; [done|].
  destruct (commit_view (o :: ops) (pdb s)) as (d' & -> & Hv). done.
Qed.

(** a flush loses no hit and counts none twice: every stored counter grows
    by what was pending for its code, modulo 2^64, nothing is pending any more,
    and no row changes. *)
Theorem pebble_flush_keeps_hits (s : PebbleStore db) (code : bytes) :
  dirty_ok (pdirty s) ->
  let s' := flushHits s in
  stored (view (pdb s')) code = uint64 (stored (view (pdb s)) code + pending s code)
  /\ pending s' code = 0 /\ linkHits code s' = int64 (stored (view (pdb s)) code + pending s code)
  /\ view (pdb s') !! lkey code = view (pdb s) !! lkey code.
Proof.
  intros Hd s'. destruct (flushHits_view s) as (Hv & Hp & _). fold s' in Hv, Hp.
  destruct (stored_merges (dirty_pairs (pdirty s)) (view (pdb s)) code (dirty_pairs_NoDup _ Hd)) as [Hin Hout].
  rewrite <- Hv in Hin, Hout.
  assert (stored (view (pdb s')) code = uint64 (stored (view (pdb s)) code + pending s code)) as Hs.
  { destruct (decide (code ∈ (dirty_pairs (pdirty s)).*1)) as [Hi|Hn].
    - apply list_elem_of_fmap in Hi as ([c d] & -> & Hi). cbn [fst] in *. rewrite (Hin d Hi).
      unfold pending. by destruct (dirty_pairs_elem _ _ _ Hd Hi) as (_ & _ & ->).
    - rewrite Hout by done. unfold pending. by rewrite dirty_pairs_codes, Z.add_0_r, stored_range. }
  assert (pending s' code = 0) as Hp0 by (unfold pending; rewrite Hp; apply pending_clear_all).
  split_and!; [done|done| |by rewrite Hv, merges_rows].
  rewrite linkHits_view, Hs, Hp0, Z.add_0_r, int64_uint64. destruct (view (pdb s') !! hkey code) eqn:E; [done|].
  unfold stored in Hs at 1. rewrite E in Hs. by rewrite <- int64_uint64, <- Hs.
Qed.

(** The value of a code's row. *)
Definition prow (s : PebbleStore db) (code : bytes) : option bytes := view (pdb s) !! lkey code.

Lemma put_link_serves (url : bytes) (exp now t : Z) (code : bytes) (s : PebbleStore db) :
  match prow s code with
  | Some _ => put_link url exp now t code s = (false, s)
  | None => exists d', put_link url exp now t code s = (true, set_pcache (cache_put t code url exp (pcache s)) (set_pdb d' s))
      /\ view d' = <[lkey code := encVal exp now url]> (view (pdb s))
  end.
Proof.
  unfold prow, put_link. rewrite getLink_view. destruct (view _ !! _); [done|].
  destruct (set_view (lkey code) (encVal exp now url) (pdb s)) as (d' & -> & Hv). by exists d'.
Qed.

(** A link was filed under [code]: one row written and the cache filled. *)
Definition filed_link (url : bytes) (exp now t : Z) (code : bytes) (s s' : PebbleStore db) : Prop :=
  prow s code = None /\ view (pdb s') = <[lkey code := encVal exp now url]> (view (pdb s))
  /\ pcache s' = cache_put t code url exp (pcache s).

Lemma pebble_shorten_loop_serves (url : bytes) (exp now t : Z) (rnds : list bytes) (s : PebbleStore db) :
  match shorten_loop url exp now t rnds s with
  | Ret (code, rs, s') => code <> [] /\ filed_link url exp now t code s s' /\ pprefix s' = pprefix s
      /\ pdirty s' = pdirty s /\ exists pre b, rnds = pre ++ b :: rs /\ code = randCode s b
  | Diverge => Forall (fun b => is_Some (prow s (randCode s b))) rnds
  | Panic => False
  end.
Proof.
  induction rnds as [|buf rnds IH]; cbn [shorten_loop]; [constructor|].
  pose proof (put_link_serves url exp now t (randCode s buf) s) as P.
  destruct (prow s (randCode s buf)) as [v|] eqn:Er.
  - rewrite P. destruct (shorten_loop _ _ _ _ _ _) as [[[code rs] s']| |]; [|done|].
    + destruct IH as (Hc & Hf & Hp & Hd & pre & b & -> & Eb). do 4 (split; [done|]). by exists (buf :: pre), b.
    + constructor; [by exists v|done].
  - destruct P as (d' & -> & Hv). split; [done|]. split; [by split|]. do 2 (split; [done|]). by exists [], buf.
Qed.

Lemma pebble_Shorten_serves (url alias : bytes) (hasAlias : bool) (ttlMs now t : Z) (rnds : list bytes)
    (met : Metrics) (s : PebbleStore db) :
  alias <> [] ->
  match Shorten url alias hasAlias ttlMs now t rnds met s with
  | Ret (code, met', s') => met' = StoreWrite met /\
      if decide (code = []) then hasAlias = true /\ is_Some (prow s alias) /\ s' = s
      else (if hasAlias then code = alias else exists b, b ∈ rnds /\ code = randCode s b)
           /\ filed_link url (expiry now ttlMs) now t code s s' /\ pprefix s' = pprefix s
  | Diverge => hasAlias = false /\ Forall (fun b => is_Some (prow s (randCode s b))) rnds
  | Panic => False
  end.
Proof.
  intros Ha. unfold Shorten, Shorten_rnds. cbv zeta. destruct hasAlias.
  - pose proof (put_link_serves url (expiry now ttlMs) now t alias s) as P.
    destruct (prow s alias) as [v|] eqn:Er.
    + rewrite P. cbn [go_bind]. split; [done|]. rewrite decide_True by done. split_and!; [done|by eexists|done].
    + destruct P as (d' & -> & Hv). cbn [go_bind]. split; [done|]. by rewrite decide_False by done.
  - pose proof (pebble_shorten_loop_serves url (expiry now ttlMs) now t rnds s) as P.
    destruct (shorten_loop _ _ _ _ _ _) as [[[code rs] s']| |]; cbn [go_bind]; [|done|done].
    destruct P as (Hc & Hf & Hp & _ & pre & b & -> & Eb). split; [done|]. rewrite decide_False by done.
    split_and!; [|done|done]. exists b. split; [|done]. apply elem_of_app. right. by left.
Qed.

(** [Resolve] on an open database. *)
Lemma pebble_Resolve_serves (code : bytes) (t1 t2 t3 us : Z) (met : Metrics) (s : PebbleStore db) :
  let '(r, met', s') := Resolve hits code t1 t2 t3 us met s in
  (pdb s' = pdb s /\ pprefix s' = pprefix s) /\ match (cache_get t1 code (pcache s)).1 with
  | Some (u, _) => r = Some u /\ met' = CacheHit met
  | None => r = fst <$> live_row t2 (Some (prow s code)) /\ met' = StoreRead us (CacheMiss met)
  end
  /\ (pcache s' = (cache_get t1 code (pcache s)).2
      \/ exists u e, live_row t2 (Some (prow s code)) = Some (u, e)
           /\ pcache s' = cache_put t3 code u e (cache_get t1 code (pcache s)).2).
Proof.
  unfold Resolve. destruct (cache_get t1 code (pcache s)) as [[[u e]|] c]; cbn [fst snd].
  - unfold bump. destruct hits; split_and!; try done; by left.
  - cbv zeta. rewrite getLink_view. unfold live_row, prow. cbn [pdb set_pcache].
    destruct (view (pdb s) !! lkey code) as [v|]; [|split_and!; try done; by left].
    destruct (decVal v) as [[[e c0] u]|]; [|split_and!; try done; by left].
    destruct (negb _ && _); [split_and!; try done; by left|].
    unfold bump. destruct hits; split_and!; try done; right; by exists u, e.
Qed.

(** shortening: a taken alias is refused and nothing changes; otherwise
    exactly one row is written, under a code that had none, the alias when
    there is one; the call returns as soon as one of the codes drawn is free. *)
Theorem pebble_Shorten_spec (url alias : bytes) (hasAlias : bool) (ttlMs now t : Z) (rnds : list bytes)
    (met : Metrics) (s : PebbleStore db) :
  alias <> [] ->
  match Shorten url alias hasAlias ttlMs now t rnds met s with
  | Ret (code, met', s') => met' = StoreWrite met /\
      if decide (code = []) then hasAlias = true /\ is_Some (prow s alias) /\ s' = s
      else (if hasAlias then code = alias else exists b, b ∈ rnds /\ code = randCode s b)
           /\ filed_link url (expiry now ttlMs) now t code s s' /\ pprefix s' = pprefix s
  | Diverge => hasAlias = false /\ Forall (fun b => is_Some (prow s (randCode s b))) rnds
  | Panic => False
  end.
Proof. apply pebble_Shorten_serves. Qed.

(** a created link resolves: the store that created it answers its target,
    from the cache or from the database, and so does any store later opened on
    that database with a cold cache, until the link expires. *)
Theorem pebble_created_link_resolves (url alias : bytes) (hasAlias : bool) (ttlMs now t : Z)
    (rnds : list bytes) (met met' : Metrics) (s s' p : PebbleStore db) (code : bytes) (t1 t2 t3 us : Z) :
  alias <> [] -> is_int64 now -> length (c_shards (pcache s)) = numShards ->
  Shorten url alias hasAlias ttlMs now t rnds met s = Ret (code, met', s') -> code <> [] ->
  ttlMs <= 0 \/ t2 < expiry now ttlMs ->
  p = s' \/ view (pdb p) = view (pdb s') /\ (cache_get t1 code (pcache p)).1 = None ->
  (Resolve hits code t1 t2 t3 us met' p).1.1 = Some url.
Proof.
  intros Ha Hnow Hl E Hc Hlive Hp.
  pose proof (pebble_Shorten_serves url alias hasAlias ttlMs now t rnds met s Ha) as P. rewrite E in P.
  destruct P as [_ P]. rewrite decide_False in P by done. destruct P as (_ & (_ & Hv & Hcache) & _).
  assert (prow p code = Some (encVal (expiry now ttlMs) now url)) as Hr.
  { unfold prow. destruct Hp as [->|[-> _]]; by rewrite Hv, lookup_insert_eq. }
  pose proof (pebble_Resolve_serves code t1 t2 t3 us met' p) as R.
  destruct (Resolve hits code t1 t2 t3 us met' p) as [[r m] p'] eqn:ER. cbn [fst].
  destruct R as (_ & R & _). destruct (cache_get t1 code (pcache p)) as [[[u e]|] c] eqn:Eg; cbn [fst] in *.
  - destruct R as [-> _]. destruct Hp as [->|[_ Hp]]; [|done].
    apply cache_get_hit in Eg as (_ & at' & Hm & _). rewrite Hcache, cache_put_lookup in Hm by done. by injection Hm as <-.
  - destruct R as [-> _]. rewrite Hr, live_row_enc; [done|done|auto with goint|].
    destruct Hlive as [Hz|]; [left|by right]. unfold expiry. by replace (0 <? ttlMs) with false by lia.
Qed.

(** updating: a code without a row, or whose row does not decode, is
    reported missing and nothing changes; otherwise its row, and no other, gets
    the new target, keeps its creation time, and its expiry unless a lifetime
    is given, and the cache forgets the code. *)
Theorem pebble_Update_spec (code url : bytes) (ttlMs : Z) (hasTTL : bool) (now : Z) (s : PebbleStore db) :
  match (match prow s code with Some v => decVal v | None => None end) with
  | None => Update code url ttlMs hasTTL now s = (MutMissing, s)
  | Some (e, c, _) => exists s', Update code url ttlMs hasTTL now s = (MutOK, s')
      /\ view (pdb s') = <[lkey code := encVal (if hasTTL then expiry now ttlMs else e) c url]> (view (pdb s))
      /\ pcache s' = cache_remove code (pcache s)
  end.
Proof.
  unfold prow, Update. rewrite getLink_view. destruct (view (pdb s) !! lkey code) as [v|]; [|done].
  destruct (decVal v) as [[[e c] u]|]; [|done]. cbv zeta.
  destruct (set_view (lkey code) (encVal (if hasTTL then expiry now ttlMs else e) c url) (pdb s)) as (d' & -> & Hv).
  by eexists.
Qed.

(** removing: a code without a row is reported missing and nothing changes;
    otherwise its row and its stored counter go, and nothing else, but hits
    still pending stay, to be credited to whoever takes the code next. *)
Theorem pebble_Remove_spec (code : bytes) (s : PebbleStore db) :
  match prow s code with
  | None => Remove code s = (MutMissing, s)
  | Some _ => exists s', Remove code s = (MutOK, s')
      /\ view (pdb s') = delete (hkey code) (delete (lkey code) (view (pdb s)))
      /\ pcache s' = cache_remove code (pcache s) /\ pending s' code = pending s code
  end.
Proof.
  unfold prow, Remove. rewrite getLink_view. destruct (view (pdb s) !! lkey code) as [v|]; [|done].
  destruct (commit_view [BDelete (lkey code); BDelete (hkey code)] (pdb s)) as (d' & -> & Hv).
  eexists. split; [done|]. split_and!; [exact Hv|done|done].
Qed.

(** The rows the sweep at [now] takes. *)
Definition row_expired (now : Z) (o : option bytes) : bool :=
  match o with Some v => expired_row now ([], v) | None => false end.

Lemma foldl_deletes (ks : list bytes) (m : gmap bytes bytes) (k : bytes) :
  foldl apply_bop m (map BDelete ks) !! k = if decide (k ∈ ks) then None else m !! k.
Proof.
  revert m. induction ks as [|k0 ks IH]; intros m; cbn [map foldl].
  { by rewrite decide_False by apply not_elem_of_nil. }
  rewrite IH. cbn [apply_bop]. case_decide as Hin.
  - rewrite decide_True; [done|by right].
  - destruct (decide (k = k0)) as [->|Hne].
    + rewrite decide_True by by left. by rewrite lookup_delete_eq.
    + rewrite decide_False by (by intros [?|?]%elem_of_cons). by rewrite lookup_delete_ne.
Qed.

Lemma lkey_prefix (code : bytes) : HasPrefix (lkey code) l_lower = true.
Proof. apply (HasPrefix_app l_lower). Qed.

(** What a sweep does to the visible map. *)
Lemma sweep_view (now : Z) (s : PebbleStore db) (k : bytes) :
  let s' := sweepExpired now s in
  (view (pdb s') !! k = if HasPrefix k l_lower && row_expired now (view (pdb s) !! k) then None else view (pdb s) !! k)
  /\ pcache s' = pcache s /\ pprefix s' = pprefix s.
Proof.
  intros s'. destruct (iter_view (pdb s)) as (kvs & Ei & Hnd & Hkvs).
  set (dead := List.filter (expired_row now) kvs).
  assert (view (pdb s') = foldl apply_bop (view (pdb s)) (map BDelete dead.*1)
    /\ pcache s' = pcache s /\ pprefix s' = pprefix s) as (Hv & Hc & Hp).
  { subst s'. unfold sweepExpired. rewrite Ei. fold dead. destruct dead as [|kv l] eqn:Ed; [done|].
    destruct (commit_view (map (fun kv => BDelete kv.1) (kv :: l)) (pdb s)) as (d' & -> & Hv).
    cbn [snd pdb set_pdb]. rewrite Hv. split; [|done]. f_equal.
    change ((kv :: l).*1) with (map fst (kv :: l)). by rewrite map_map. }
  split; [|done]. rewrite Hv, foldl_deletes.
  assert (k ∈ dead.*1 <-> exists v, view (pdb s) !! k = Some v /\ HasPrefix k l_lower = true
                                    /\ expired_row now (k, v) = true) as Hdead.
  { rewrite list_elem_of_fmap. split.
    - intros ([k' v] & -> & Hin). apply list_elem_of_In, List.filter_In in Hin as [Hin He].
      apply list_elem_of_In, Hkvs in Hin as [? ?]. by exists v.
    - intros (v & Hk & Hpre & He). exists (k, v). split; [done|]. apply list_elem_of_In, List.filter_In.
      split; [|done]. apply list_elem_of_In, Hkvs. done. }
  case_decide as Hd.
  - apply Hdead in Hd as (v & -> & -> & He). unfold row_expired, expired_row in *. cbn [snd] in *. cbn [andb]. by rewrite He.
  - destruct (HasPrefix k l_lower) eqn:Hpre; [|done]. destruct (view (pdb s) !! k) as [v|] eqn:Ev; [|done]. cbn [andb].
    destruct (row_expired now (Some v)) eqn:He; [|done]. exfalso. apply Hd, Hdead. by exists v.
Qed.

Lemma sweep_row (now : Z) (s : PebbleStore db) (code : bytes) :
  prow (sweepExpired now s) code = (if row_expired now (prow s code) then None else prow s code).
Proof. unfold prow. destruct (sweep_view now s (lkey code)) as [-> _]. by rewrite lkey_prefix. Qed.

(** the sweep deletes exactly the rows that have expired: every other row
    and every counter stays, and what a code resolves to then or later does not
    change. *)
Theorem pebble_sweep_expired (now t : Z) (s : PebbleStore db) (code : bytes) :
  now <= t ->
  let s' := sweepExpired now s in
  prow s' code = (if row_expired now (prow s code) then None else prow s code)
  /\ view (pdb s') !! hkey code = view (pdb s) !! hkey code
  /\ live_row t (Some (prow s' code)) = live_row t (Some (prow s code)).
Proof.
  intros Ht s'. pose proof (sweep_row now s code) as Hrow. fold s' in Hrow.
  split_and!; [done|exact (proj1 (sweep_view now s (hkey code)))|].
  rewrite Hrow. unfold row_expired, expired_row, live_row. destruct (prow s code) as [v|]; [|done]. cbn [snd].
  destruct (decVal v) as [[[e c] u]|] eqn:Ed; [|by rewrite Ed].
  destruct (negb (e =? 0) && (e <=? now)) eqn:Ee; [|by rewrite Ed].
  replace (negb (e =? 0) && (e <=? t)) with true; [done|].
  symmetry. apply andb_true_iff in Ee as [-> He]. cbn. lia.
Qed.

(** a batch is not checked against itself: when it draws one code for two
    urls, it hands that code out for both and only the second link exists. *)
Theorem pebble_batch_duplicate (u1 u2 b1 b2 : bytes) (ttlMs now t : Z) (nows : nat -> Z) (met : Metrics)
    (s : PebbleStore db) :
  randSuffix b1 = randSuffix b2 -> prow s (randCode s b1) = None ->
  let code := randCode s b1 in
  exists s', ShortenMany [u1; u2] ttlMs now t nows [b1; b2] met s = Ret ([code; code], met, s')
    /\ prow s' code = Some (encVal (expiry now ttlMs) now u2)
    /\ forall c, c <> code -> prow s' c = prow s c.
Proof.
  intros Hb Hfree code. unfold ShortenMany. cbn [draw_codes].
  assert (randCode s b2 = code) as -> by (unfold code, randCode; by rewrite Hb). fold code.
  rewrite getLink_view. unfold prow in Hfree. fold code in Hfree. rewrite Hfree. cbn [go_bind zip].
  cbv zeta. cbn [batch_sets omap list_omap fst snd].
  match goal with |- context [db_Commit ?ops _] => destruct (commit_view ops (pdb s)) as (d' & -> & Hv) end.
  cbn [retry_loop go_bind zip zip_with fst snd]. eexists. split; [done|]. unfold prow.
  cbn [pdb set_pcache set_pdb] in *. rewrite Hv. cbn [foldl apply_bop]. split; [by rewrite lookup_insert_eq|].
  intros c Hc. rewrite !lookup_insert_ne; [done| |]; intros [=]; by apply Hc.
Qed.

End Spec.
