(* ===== verification/PebbleDemo.v ===== *)
(** * PebbleDemo: a database that satisfies [PebbleLaws]

    The visible map itself as the database, its iterator bounded by the order of
    byte strings; on it, the witnesses of the theorems about the embedded
    backend. *)

From S2P Require Import Prelude GoStd Aof Base62 Store StoreSpec Float Metrics Codec KvCache Dirty PebbleStore.
From S2P Require Import PebbleSpec.
From stdpp Require Import options.

Definition in_bounds (lo hi : bytes) (kv : bytes * bytes) : bool :=
  bytes_le lo kv.1 && negb (bytes_le hi kv.1).

#[export] Instance demo_pebble : PebbleDB (gmap bytes bytes) := {
  db_Get k m := match m !! k with Some v => Found v | None => ErrNotFound end;
  db_Set k v m := (true, <[k := v]> m);
  db_Commit ops m := (true, foldl apply_bop m ops);
  db_Iter lo hi m := Some (List.filter (in_bounds lo hi) (map_to_list m));
  db_Compact _ _ m := m;
  db_Close m := m
}.

(** The keys from ["l:"] up to ["l;"] are those that start with ["l:"]. *)
Lemma in_bounds_prefix (k v : bytes) : in_bounds l_lower l_upper (k, v) = HasPrefix k l_lower.
Proof.
  unfold in_bounds. cbn [fst]. destruct k as [|c [|d k]]; [done|..]; destruct c; try (by vm_compute).
  destruct d; cbn; by destruct k.
Qed.

Lemma NoDup_fst_filter {A B : Type} (f : A * B -> bool) (l : list (A * B)) : NoDup l.*1 -> NoDup (List.filter f l).*1.
Proof.
  intros Hl. eapply sublist_NoDup; [exact Hl|]. apply (fmap_sublist fst). clear.
  induction l as [|x l IH]; cbn; [constructor|]. destruct (f x); by constructor.
Qed.

#[export] Program Instance demo_pebble_laws : PebbleLaws (gmap bytes bytes) := { view m := m }.
Next Obligation. done. Qed.
Next Obligation. intros. by eexists. Qed.
Next Obligation. intros. by eexists. Qed.
Next Obligation.
  intros m. eexists. split; [done|]. split; [apply NoDup_fst_filter, NoDup_fst_map_to_list|].
  intros k v. rewrite list_elem_of_In, List.filter_In, <- list_elem_of_In, elem_of_map_to_list.
  by rewrite in_bounds_prefix.
Qed.
Next Obligation. done. Qed.
Next Obligation. done. Qed.

(** ** Witnesses *)

Definition pnode0 : PebbleStore (gmap bytes bytes) := mkPebble ∅ (newKvCache 100000 5000) cleared 0 x30 false.

Definition palias : bytes := [x61; x62].

(** A store with one expired row and one that lives on. *)
Definition prow_old : bytes := encVal 9 5 demo_url.
Definition prow_new : bytes := encVal 0 5 demo_url.
Definition pnode1 : PebbleStore (gmap bytes bytes) :=
  mkPebble (<[lkey palias := prow_old]> {[ lkey [x63] := prow_new ]}) (newKvCache 100000 5000)
    (bump_in palias (bump_in palias cleared)) 0 x30 false.

Lemma NewPebble_demo : NewPebble (Some ∅) 0 100000 5000 = Ret (Some pnode0).
Proof. done. Qed.

Lemma u64Merge_adds_witness :
  Finish (foldl MergeNewer (u64Merge (PutUint64 (uint64 3))) (map (fun x => PutUint64 (uint64 x)) [4; -1]))
  = PutUint64 (uint64 6) /\ sum [4; -1] = sum [-1; 4].
Proof.
  destruct (u64Merge_adds 3 [4; -1] [-1; 4]) as (H & _ & _ & Hp).
  split; [exact H|]. apply Hp. apply (perm_swap (-1) 4 []).
Defined.

Lemma pebble_flush_keeps_hits_witness :
  stored (view (pdb (flushHits pnode1))) palias = 2 /\ pending (flushHits pnode1) palias = 0.
Proof.
  destruct (pebble_flush_keeps_hits pnode1 palias) as (H & Hp & _).
  - assert (small palias) by (unfold small; cbn; lia). repeat apply dirty_ok_bump; [done..|apply dirty_ok_cleared].
  - split; [|exact Hp]. rewrite H. by vm_compute.
Defined.

Lemma pebble_Shorten_spec_witness :
  match Shorten demo_url palias true 0 5 5 [] (init 0) pnode0 with
  | Ret (code, _, _) => code = [] \/ code = palias
  | _ => False
  end.
Proof.
  pose proof (pebble_Shorten_spec demo_url palias true 0 5 5 [] (init 0) pnode0 ltac:(done)) as P.
  destruct (Shorten _ _ _ _ _ _ _ _ _) as [[[code m] s']| |]; [|done|by destruct P].
  destruct P as [_ P]. destruct (decide (code = [])) as [->|_]; [by left|right]. destruct P as [P _]. by apply P.
Defined.

Lemma pebble_created_link_resolves_witness :
  exists s', Shorten demo_url palias true 0 5 5 [] (init 0) pnode0 = Ret (palias, StoreWrite (init 0), s')
    /\ (Resolve true palias 6 6 6 1 (StoreWrite (init 0)) s').1.1 = Some demo_url.
Proof.
  eexists. split; [reflexivity|].
  eapply (pebble_created_link_resolves true demo_url palias true 0 5 5 [] (init 0) (StoreWrite (init 0)) pnode0).
  - done.
  - unfold is_int64. lia.
  - done.
  - reflexivity.
  - done.
  - left. lia.
  - by left.
Defined.

Lemma pebble_sweep_expired_witness :
  prow (sweepExpired 9 pnode1) palias = None /\ prow (sweepExpired 9 pnode1) [x63] = Some prow_new.
Proof.
  split.
  - destruct (pebble_sweep_expired 9 9 pnode1 palias) as (H & _); [lia|]. rewrite H. by vm_compute.
  - destruct (pebble_sweep_expired 9 9 pnode1 [x63]) as (H & _); [lia|]. rewrite H. by vm_compute.
Defined.

Lemma pebble_batch_duplicate_witness :
  let buf := repeat x01 7 in
  exists s', ShortenMany [demo_url; palias] 0 5 5 (fun _ => 5) [buf; buf] (init 0) pnode0
      = Ret ([randCode pnode0 buf; randCode pnode0 buf], init 0, s')
    /\ prow s' (randCode pnode0 buf) = Some (encVal 0 5 palias).
Proof.
  intros buf.
  destruct (pebble_batch_duplicate demo_url palias buf buf 0 5 5 (fun _ => 5) (init 0) pnode0) as (s' & E & Hr & _).
  - done.
  - by vm_compute.
  - exists s'. split; [exact E|exact Hr].
Defined.

Lemma pebble_Update_spec_witness :
  exists s', Update [x63] palias 0 false 7 pnode1 = (MutOK, s')
    /\ prow s' [x63] = Some (encVal 0 5 palias).
Proof.
  pose proof (pebble_Update_spec [x63] palias 0 false 7 pnode1) as P.
  assert ((match prow pnode1 [x63] with Some v => decVal v | None => None end) = Some (0, 5, demo_url)) as E
    by (by vm_compute).
  rewrite E in P. destruct P as (s' & Eu & Hv & _). exists s'. split; [exact Eu|]. unfold prow. rewrite Hv.
  apply lookup_insert_eq.
Defined.

Lemma pebble_Remove_spec_witness :
  exists s', Remove palias pnode1 = (MutOK, s') /\ prow s' palias = None /\ pending s' palias = 2.
Proof.
  pose proof (pebble_Remove_spec palias pnode1) as P.
  assert (prow pnode1 palias = Some prow_old) as E by (by vm_compute).
  rewrite E in P. destruct P as (s' & Eu & Hv & _ & Hp). exists s'. split; [exact Eu|]. split.
  - unfold prow. rewrite Hv. rewrite lookup_delete_ne by done. apply lookup_delete_eq.
  - rewrite Hp. by vm_compute.
Defined.
