(* ===== verification/Backends.v ===== *)
(** * Backends: the three stores behind [store.API], and the choice of one

    [kv_backend] and [pebble_backend] are the instances of [StoreAPI] beside
    [engine]; [Backend] is the value of interface type [NewFromEnv] returns,
    whose methods dispatch on the store inside. Environment variables come from
    [getenv], an unset one being the empty string, as [os.Getenv] has it. *)

From S2P Require Import Prelude GoStd LogLine Aof Store Float Metrics Codec KvCache Dirty Resp Kv.
From S2P Require Import KvStore PebbleStore Api.
From stdpp Require Import options.

(** ** Reading the environment *)

Definition envInt (getenv : bytes -> bytes) (k : bytes) (def : Z) : Z :=
  let v := getenv k in
  if negb (bool_decide (v = [])) then
    match ParseInt v with (n, None) => n | (_, Some _) => def end
  else def.

Definition envStr (getenv : bytes -> bytes) (k def : bytes) : bytes :=
  let v := getenv k in if negb (bool_decide (v = [])) then v else def.

(** ** The instances *)

Section Instances.
Context `{MapOrder} `{SliceSort} (trackHits : bool).

(** [rounds] bounds the cursor loop of a scan of the keyspace. *)
#[export] Instance kv_backend {net : Type} `{Network net} (rounds : nat) : StoreAPI (KvStore net) := {
  api_Shorten ev url alias hasAlias ttlMs met s :=
    KvStore.Shorten url alias hasAlias ttlMs (n_st ev) (rnds ev) met s;
  api_ShortenMany ev urls ttlMs met s :=
    KvStore.ShortenMany urls ttlMs (n_st ev) (n_retry ev) (rnds ev) met s;
  api_Resolve ev code met s :=
    KvStore.Resolve trackHits code (n_st ev) (n_p1 ev) (n_p2 ev) (n_us ev) met s;
  api_Update ev code url ttlMs hasTTL s :=
    KvStore.Update code url ttlMs hasTTL (n_st ev) (n_p1 ev) s;
  api_Remove ev code s := KvStore.Remove code s;
  api_List ev limit offset sortBy q s := KvStore.List rounds limit offset sortBy q (n_st ev) s;
  api_Stats ev code s := KvStore.Stats code s;
  api_Seed ev urls met s := KvStore.Seed urls (n_st ev) (n_retry ev) (rnds ev) met s;
  api_IsEmpty ev s := KvStore.IsEmpty rounds s;
  api_Healthy ev s := KvStore.Healthy s;
  api_Flush ev s := KvStore.Flush s;
  api_PollTails ev s := Ret (KvStore.PollTails s);
  api_Compact ev s := Ret (KvStore.Compact s);
  api_Close ev s := KvStore.Close s
}.

#[export] Instance pebble_backend {db : Type} `{PebbleDB db} : StoreAPI (PebbleStore db) := {
  api_Shorten ev url alias hasAlias ttlMs met s :=
    PebbleStore.Shorten url alias hasAlias ttlMs (n_st ev) (n_p1 ev) (rnds ev) met s;
  api_ShortenMany ev urls ttlMs met s :=
    PebbleStore.ShortenMany urls ttlMs (n_st ev) (n_p1 ev) (n_retry ev) (rnds ev) met s;
  api_Resolve ev code met s :=
    Ret (PebbleStore.Resolve trackHits code (n_st ev) (n_p1 ev) (n_p2 ev) (n_us ev) met s);
  api_Update ev code url ttlMs hasTTL s := Ret (PebbleStore.Update code url ttlMs hasTTL (n_st ev) s);
  api_Remove ev code s := Ret (PebbleStore.Remove code s);
  api_List ev limit offset sortBy q s :=
    let* r := PebbleStore.List limit offset sortBy q (n_st ev) s in Ret (r, s);
  api_Stats ev code s := Ret (PebbleStore.Stats code (n_st ev) s, s);
  api_Seed ev urls met s := PebbleStore.Seed urls (n_st ev) (n_p1 ev) (n_retry ev) (rnds ev) met s;
  api_IsEmpty ev s := Ret (PebbleStore.IsEmpty s, s);
  api_Healthy ev s := Ret (PebbleStore.Healthy s, s);
  api_Flush ev s := Ret (PebbleStore.Flush s);
  api_PollTails ev s := Ret (PebbleStore.PollTails s);
  api_Compact ev s := Ret (PebbleStore.Compact s);
  api_Close ev s := Ret (PebbleStore.Close s)
}.

End Instances.

(** ** The interface value *)

Inductive Backend (net db : Type) :=
| BAof (sd : Store * Disk)
| BKv (s : KvStore net)
| BPebble (s : PebbleStore db).
Arguments BAof {net db} _.
Arguments BKv {net db} _.
Arguments BPebble {net db} _.

(** A call on the store inside; the result goes back into the interface value. *)
Definition within {A S B : Type} (inj : S -> B) (m : go (A * S)) : go (A * B) :=
  let* (a, s) := m in Ret (a, inj s).
Definition within_ {S B : Type} (inj : S -> B) (m : go S) : go B := let* s := m in Ret (inj s).

Section Choice.
Context {net db : Type} `{Network net} `{PebbleDB db} `{MapOrder} `{SliceSort} (trackHits : bool) (rounds : nat).

Local Existing Instance engine.
Local Existing Instance kv_backend.

(** The call [f], written for any store, on the store inside. *)
Definition dispatch {A : Type} (f : forall (St : Type) (api : StoreAPI St), St -> go (A * St)) (b : Backend net db)
    : go (A * Backend net db) :=
  match b with
  | BAof sd => within BAof (f _ (engine trackHits) sd)
  | BKv s => within BKv (f _ (kv_backend trackHits rounds) s)
  | BPebble s => within BPebble (f _ (pebble_backend trackHits) s)
  end.

Definition dispatch_ (f : forall (St : Type) (api : StoreAPI St), St -> go St) (b : Backend net db)
    : go (Backend net db) :=
  match b with
  | BAof sd => within_ BAof (f _ (engine trackHits) sd)
  | BKv s => within_ BKv (f _ (kv_backend trackHits rounds) s)
  | BPebble s => within_ BPebble (f _ (pebble_backend trackHits) s)
  end.

#[export] Instance any_backend : StoreAPI (Backend net db) := {
  api_Shorten ev url alias hasAlias ttlMs met := dispatch (fun _ _ => api_Shorten ev url alias hasAlias ttlMs met);
  api_ShortenMany ev urls ttlMs met := dispatch (fun _ _ => api_ShortenMany ev urls ttlMs met);
  api_Resolve ev code met := dispatch (fun _ _ => api_Resolve ev code met);
  api_Update ev code url ttlMs hasTTL := dispatch (fun _ _ => api_Update ev code url ttlMs hasTTL);
  api_Remove ev code := dispatch (fun _ _ => api_Remove ev code);
  api_List ev limit offset sortBy q := dispatch (fun _ _ => api_List ev limit offset sortBy q);
  api_Stats ev code := dispatch (fun _ _ => api_Stats ev code);
  api_Seed ev urls met := dispatch (fun _ _ => api_Seed ev urls met);
  api_IsEmpty ev := dispatch (fun _ _ => api_IsEmpty ev);
  api_Healthy ev := dispatch (fun _ _ => api_Healthy ev);
  api_Flush ev := dispatch_ (fun _ _ => api_Flush ev);
  api_PollTails ev := dispatch_ (fun _ _ => api_PollTails ev);
  api_Compact ev := dispatch_ (fun _ _ => api_Compact ev);
  api_Close ev := dispatch_ (fun _ _ => api_Close ev)
}.

(** What opening a store needs from outside: the server at an address, the
    database at a path ([None] when it cannot be opened), and for the engine
    the processes alive, this process and its directory. *)
Record Outside := mkOutside {
  o_net : bytes -> net;
  o_db : bytes -> option db;
  o_alive : Z -> bool;
  o_self : Z
}.

Definition or_env (getenv : bytes -> bytes) (v : bytes) (k : bytes) : bytes :=
  if bool_decide (v = []) then getenv k else v.

Definition NewFromEnv (getenv : bytes -> bytes) (o : Outside) (dir : bytes) (instance : Z) (d : Disk)
    : go (option (Backend net db) * Disk) :=
  let kind := getenv (lit "STORE") in
  let cacheN := envInt getenv (lit "CACHE") 100000 in
  let ttl := envInt getenv (lit "CACHE_TTL_MS") 5000 in
  if bool_decide (kind = lit "pebble") || bool_decide (kind = lit "rocksdb") then
    let path := getenv (lit "PEBBLE_PATH") in
    let path := if bool_decide (path = []) then dir ++ lit "/pebble" else path in
    let* r := NewPebble (o_db o path) instance cacheN ttl in
    Ret (BPebble <$> r, d)
  else if bool_decide (kind = lit "dragonfly") || bool_decide (kind = lit "redis") || bool_decide (kind = lit "kv") then
    let addr := or_env getenv (getenv (lit "DRAGONFLY_ADDR")) (lit "KV_ADDR") in
    let addr := if bool_decide (addr = []) then lit "127.0.0.1:6379" else addr in
    let* r := NewKV (o_net o addr) instance cacheN ttl (getenv (lit "KV_LAYOUT")) (getenv (lit "KV_BUCKETS")) in
    Ret (BKv <$> r, d)
  else if bool_decide (dir = lit ":memory:") then Ret (Some (BAof (NewMem, d)), d)
  else
    let* (r, d') := Store.New (o_alive o) (o_self o) instance d in
    Ret (match r with inl s => Some (BAof (s, d')) | inr _ => None end, d').

End Choice.
Arguments Outside : clear implicits.
Arguments mkOutside {net db} _ _ _ _.
