(* ===== verification/Ticks.v ===== *)
(** * Ticks: what goes on behind a store between requests

    The goroutines [New], [NewKV] and [NewPebble] start, a chore per ticker,
    with compaction and the expiry of keys at a server beside them. A ticker
    that is not started is one that never ticks; after [Close] none does. *)

From S2P Require Import Prelude GoStd LogLine Aof Store Float Metrics Codec KvCache Dirty Resp Kv.
From S2P Require Import KvStore KvTicks PebbleStore Api Backends.
From stdpp Require Import options.

Inductive chore :=
| CFlush    (* flushTimer, the flush loops *)
| CSync     (* syncTimer *)
| CPoll     (* tailTimer *)
| CSweep    (* the sweep loops *)
| CCompact  (* a call of Compact *)
| CExpire.  (* expiry at the server, no work of the store's *)

Class Ticks (St : Type) := tick : chore -> Z -> St -> go St.

Section Engine.
Context `{MapOrder} `{SliceSort}.

Definition engine_tick (c : chore) (now : Z) (sd : Store * Disk) : go (Store * Disk) :=
  let '(s, d) := sd in
  match c with
  | CFlush => Ret (if closed s then sd else Store.Flush s d)
  | CSync =>
      match aof s with
      | Some a => if closed s then Ret sd else let '(a', d') := Sync d a in Ret (set_aof (Some a') s, d')
      | None => Ret sd
      end
  | CPoll => if closed s then Ret sd else let* s' := Store.PollTails now d s in Ret (s', d)
  | CCompact => Ret (Store.Compact s d)
  | CSweep | CExpire => Ret sd
  end.

Definition kv_tick {net : Type} `{ExpiringServer net} (rounds : nat) (c : chore) (now : Z) (s : KvStore net)
    : go (KvStore net) :=
  match c with
  | CExpire => Ret (kv_lapse now s)
  | CFlush => if kstopped s then Ret s else KvStore.Flush s
  | CSweep => if kstopped s then Ret s else if layoutHash s then KvStore.sweepExpired rounds now s else Ret s
  | CCompact => Ret (KvStore.Compact s)
  | CSync | CPoll => Ret s
  end.

Definition pebble_tick {db : Type} `{PebbleDB db} (c : chore) (now : Z) (s : PebbleStore db) : go (PebbleStore db) :=
  match c with
  | CFlush => Ret (if pstopped s then s else PebbleStore.flushHits s)
  | CSweep => Ret (if pstopped s then s else PebbleStore.sweepExpired now s)
  | CCompact => Ret (PebbleStore.Compact s)
  | CSync | CPoll | CExpire => Ret s
  end.

#[export] Instance engine_ticks : Ticks (Store * Disk) := engine_tick.
#[export] Instance kv_ticks {net : Type} `{ExpiringServer net} (rounds : nat) : Ticks (KvStore net) := kv_tick rounds.
#[export] Instance pebble_ticks {db : Type} `{PebbleDB db} : Ticks (PebbleStore db) := pebble_tick.

#[export] Instance any_ticks {net db : Type} `{ExpiringServer net} `{PebbleDB db} (rounds : nat)
    : Ticks (Backend net db) := fun c now b =>
  match b with
  | BAof sd => within_ BAof (engine_tick c now sd)
  | BKv s => within_ BKv (kv_tick rounds c now s)
  | BPebble s => within_ BPebble (pebble_tick c now s)
  end.

End Engine.
