(* ===== verification/CacheMap.v ===== *)
(** * CacheMap: a cache in front of a map of links

    [cache_agrees T f c]: whatever the cache [c] holds for a valid code is what
    the map [f] says, or has expired by [T]. Expired entries can outlive their
    rows, which a sweep takes without telling the cache; no reading of the clock
    at or after [T] finds them. [cache_within W c]: whatever it holds is a link of
    which [W] says that it was there once. *)

From S2P Require Import Prelude GoStd Store StoreSpec Float Metrics Codec KvCache Dirty Api App AppProps.
From stdpp Require Import options.

Definition past (T e : Z) : Prop := e <> 0 /\ e <= T.

Definition cache_agrees (T : Z) (f : bytes -> option (bytes * Z)) (c : kvCache) : Prop :=
  cache_ok c /\ forall code x, codeOK code = true -> c_m (cache_shard c code) !! code = Some x ->
    f code = Some (ce_u x, ce_e x) \/ past T (ce_e x).

Lemma past_later (T T' e : Z) : T <= T' -> past T e -> past T' e.
Proof. unfold past. lia. Qed.

Lemma agrees_later (T T' : Z) (f g : bytes -> option (bytes * Z)) (c : kvCache) :
  T <= T' ->
  (forall code u e, codeOK code = true -> f code = Some (u, e) -> g code = Some (u, e) \/ past T' e) ->
  cache_agrees T f c -> cache_agrees T' g c.
Proof.
  intros HT Hfg [Hok Hc]. split; [done|]. intros code x Hcode Hx.
  destruct (Hc code x Hcode Hx) as [Hf|Hp]; [by apply Hfg|right; by eapply past_later].
Qed.

Lemma agrees_ext (T : Z) (f g : bytes -> option (bytes * Z)) (c : kvCache) :
  (forall code x, codeOK code = true -> f code = Some x -> g code = Some x) ->
  cache_agrees T f c -> cache_agrees T g c.
Proof. intros Hfg. apply agrees_later; [done|]. intros code u e Hc Hf. left. by apply Hfg. Qed.

Lemma agrees_get (T : Z) (f : bytes -> option (bytes * Z)) (c : kvCache) (t : Z) (code : bytes) :
  cache_agrees T f c -> cache_agrees T f (cache_get t code c).2.
Proof.
  intros [Hok Hc]. split; [exact (cstep_ok c (CGet t code) Hok)|]. intros k x Hk Hx.
  by apply (cstep_lookup c (CGet t code)), Hc in Hx.
Qed.

Lemma agrees_hit (T : Z) (f : bytes -> option (bytes * Z)) (c : kvCache) (t : Z) (code u : bytes) (e : Z) :
  cache_agrees T f c -> T <= t -> codeOK code = true -> (cache_get t code c).1 = Some (u, e) ->
  f code = Some (u, e) /\ (e <> 0 -> t < e).
Proof.
  intros [Hok Hc] HT Hcode Hg. destruct (cache_get t code c) as [r c'] eqn:E. cbn [fst] in Hg. subst r.
  apply cache_get_hit in E as (_ & at' & Hx & _ & He). split; [|done].
  destruct (Hc code _ Hcode Hx) as [Hf|[H0 Hp]]; [done|]. cbn in H0, Hp. specialize (He H0). lia.
Qed.

(** A put changes what the map may say of its code. *)
Lemma agrees_put (T : Z) (f g : bytes -> option (bytes * Z)) (c : kvCache) (t : Z) (code u : bytes) (e : Z) :
  (forall k, codeOK k = true -> k <> code -> g k = f k) -> g code = Some (u, e) ->
  cache_agrees T f c -> cache_agrees T g (cache_put t code u e c).
Proof.
  intros Hfg Hg [Hok Hc]. split; [exact (cstep_ok c (CPut t code u e) Hok)|]. intros k x Hk Hx.
  apply (cstep_lookup c (CPut t code u e)) in Hx as [[-> ->]|[Hne Hx]]; [by left| |done].
  rewrite Hfg by done. by apply Hc.
Qed.

Lemma agrees_remove (T : Z) (f g : bytes -> option (bytes * Z)) (c : kvCache) (code : bytes) :
  (forall k, codeOK k = true -> k <> code -> g k = f k) -> cache_agrees T f c -> cache_agrees T g (cache_remove code c).
Proof.
  intros Hfg [Hok Hc]. split; [exact (cstep_ok c (CRemove code) Hok)|]. intros k x Hk Hx.
  apply (cstep_lookup c (CRemove code)) in Hx as [Hne Hx]; [|done]. rewrite Hfg by done. by apply Hc.
Qed.

Lemma agrees_new (T : Z) (f : bytes -> option (bytes * Z)) (cap ttl : Z) : cache_agrees T f (newKvCache cap ttl).
Proof.
  split; [apply newKvCache_ok|]. intros code x _. unfold cache_shard, newKvCache. cbn [c_shards].
  rewrite lookup_replicate_2 by apply shardOf_bound. cbn. by rewrite lookup_empty.
Qed.

(** [cache_within W c]: every entry of the cache is a link that [W] allows. *)
Definition cache_within (W : bytes -> bytes -> Z -> Prop) (c : kvCache) : Prop :=
  cache_ok c /\ forall code x, c_m (cache_shard c code) !! code = Some x -> W code (ce_u x) (ce_e x).

Lemma within_mono (W W' : bytes -> bytes -> Z -> Prop) (c : kvCache) :
  (forall code u e, W code u e -> W' code u e) -> cache_within W c -> cache_within W' c.
Proof. intros HW [Hok Hc]. split; [done|]. eauto. Qed.

Lemma within_step (W : bytes -> bytes -> Z -> Prop) (c : kvCache) (o : cop) :
  cache_within W c -> (match o with CPut _ code u e => W code u e | _ => True end) -> cache_within W (cstep c o).
Proof.
  intros [Hok Hc] Ho. split; [by apply cstep_ok|]. intros code x Hx. apply cstep_lookup in Hx; [|done].
  destruct o; [by apply Hc| |by apply Hc, Hx]. destruct Hx as [[-> ->]|[_ Hx]]; [exact Ho|by apply Hc].
Qed.

Lemma within_hit (W : bytes -> bytes -> Z -> Prop) (c : kvCache) (t : Z) (code u : bytes) (e : Z) :
  cache_within W c -> (cache_get t code c).1 = Some (u, e) -> W code u e /\ (e = 0 \/ t < e).
Proof.
  intros [_ Hc] Hg. destruct (cache_get t code c) as [o c'] eqn:Eg. cbn [fst] in Hg. subst o.
  apply cache_get_hit in Eg as (_ & at' & Hm & _ & He). split; [exact (Hc code _ Hm)|].
  destruct (decide (e = 0)); auto.
Qed.

Lemma within_new (W : bytes -> bytes -> Z -> Prop) (cap ttl : Z) : cache_within W (newKvCache cap ttl).
Proof.
  split; [apply newKvCache_ok|]. intros code x. unfold cache_shard, newKvCache. cbn [c_shards].
  rewrite lookup_replicate_2 by apply shardOf_bound. cbn. by rewrite lookup_empty.
Qed.

(** The link a stored row is. *)
Definition row_val (o : option bytes) : option (bytes * Z) :=
  match o with
  | Some v => match decVal v with Some (e, _, u) => Some (u, e) | None => None end
  | None => None
  end.

Lemma row_val_enc (e c : Z) (u : bytes) : is_int64 e -> is_int64 c -> row_val (Some (encVal e c u)) = Some (u, e).
Proof. intros He Hc. unfold row_val. by rewrite decVal_enc. Qed.

(** A row every valid code has reads as a link. *)
Definition readable (o : option bytes) : Prop := is_Some o -> is_Some (row_val o).

Lemma readable_enc (e c : Z) (u : bytes) : is_int64 e -> is_int64 c -> readable (Some (encVal e c u)).
Proof. intros He Hc _. by rewrite row_val_enc. Qed.

Lemma live_row_val (t : Z) (o : option bytes) (u : bytes) (e : Z) :
  live_row t (Some o) = Some (u, e) -> row_val o = Some (u, e).
Proof.
  unfold live_row, row_val. destruct o as [v|]; [|done]. destruct (decVal v) as [[[e' c] u']|]; [|done].
  by destruct (_ && _).
Qed.

Lemma codeOK_small (c : bytes) : codeOK c = true -> small c.
Proof. unfold codeOK, small. destruct (_ || _) eqn:E; [done|]. lia. Qed.

Create HintDb links.
#[export] Hint Resolve codeOK_small row_val_enc readable_enc : links.
