(* ===== verification/KvFleet.v ===== *)
(** * KvFleet: several nodes of the RESP backend over one server

    Any number of processes, each with its own pool, cache and pending hits, in
    front of one server that also drops keys whose lifetime is over; the calls
    are [KvThreads.v] threads, interleaved command by command. What each step
    does to the shared rows; that a look-up answers what a row was; that
    creations never share a code; and that an update can bring back a link that
    another node has removed. *)

From S2P Require Import Prelude GoStd Base62 Store StoreSpec Float Metrics Codec KvCache Dirty Resp Kv.
From S2P Require Import KvStore KvRows KvSpec KvTicks KvThreads KvDemo Api App AppProps CacheMap.
From stdpp Require Import options.

(** A call with the node that runs it. *)
Record fleet (net : Type) := mkFleet { f_nodes : list (KvStore net); f_calls : list (nat * kthread); f_net : net }.
Arguments mkFleet {net} _ _ _.
Arguments f_nodes {net} _.
Arguments f_calls {net} _.
Arguments f_net {net} _.

Inductive fev :=
| FCall (j : nat) (c : kvcall)   (* a call starts at node [j] *)
| FRun (i : nat)                 (* call [i] makes its next step *)
| FLapse (now : Z).              (* expiry at the server *)

Section Steps.
Context {net : Type} `{ExpiringServer net} `{MapOrder} (trackHits : bool).

#[local] Set Default Proof Using "Type*".

(** A node that finds the server in state [n]. *)
Definition at_net (n : net) (s : KvStore net) : KvStore net := set_kv (mkKv (k_pool (kv s)) n) s.

Definition fleet_step (e : fev) (f : fleet net) : go (fleet net) :=
  let '(mkFleet ns ts n) := f in
  match e with
  | FCall j q => Ret (mkFleet ns (ts ++ [(j, kstart q)]) n)
  | FRun i =>
      match ts !! i with
      | None => Ret f
      | Some (j, t) =>
          match ns !! j with
          | None => Ret f
          | Some s =>
              let* (t', s') := kstep trackHits t (at_net n s) in
              Ret (mkFleet (<[j := s']> ns) (<[i := (j, t')]> ts) (k_net (kv s')))
          end
      end
  | FLapse now => Ret (mkFleet ns ts (lapse now n))
  end.

Definition fleet_run (es : list fev) (f : fleet net) : go (fleet net) := go_fold fleet_step es f.

Lemma fleet_run_cons (e : fev) (es : list fev) (f f1 : fleet net) :
  fleet_step e f = Ret f1 -> fleet_run (e :: es) f = fleet_run es f1.
Proof. intros E. unfold fleet_run. cbn [go_fold]. by rewrite E. Qed.

Lemma fleet_run_snoc (es : list fev) (e : fev) (f : fleet net) :
  fleet_run (es ++ [e]) f = (let* f1 := fleet_run es f in fleet_step e f1).
Proof.
  unfold fleet_run. rewrite go_fold_app. destruct (go_fold fleet_step es f) as [f1| |]; [|done|done].
  cbn [go_bind go_fold]. by destruct (fleet_step e f1).
Qed.

(** ** What one step does to the rows *)

(** What a look-up does once it has its answer. *)
Fixpoint tail_ok (t : kthread) : Prop :=
  match t with KBump _ k => tail_ok k | KDone (KLink _ _ _ _) => True | _ => False end.

Definition thread_ok (t : kthread) : Prop :=
  match t with
  | KPutAlias url alias _ now => small url /\ small alias /\ is_int64 now
  | KPutDraw url _ now rnds => small url /\ is_int64 now /\ Forall (fun b => length b = (codeLen - 1)%nat) rnds
  | KHot code _ _ _ | KRead code _ _ _ | KDel code | KDelHits code => small code
  | KFill _ _ _ _ k | KBump _ k => tail_ok k
  | KGetUpd code url _ _ _ _ => small code /\ small url
  | KSetUpd code val _ => small code /\ fits val
  | KForget _ | KDone _ => True
  end.

Definition call_ok (c : kvcall) : Prop := thread_ok (kstart c).

(** [kmove c t t' r r']: the step from [t] to [t'] of a call at a node with the
    cache [c] finds the rows [r] and leaves [r']. *)
Definition kmove (c : kvCache) (t t' : kthread) (r r' : bytes -> option bytes) : Prop :=
  let same := forall x, r' x = r x in
  let created url ttlMs now code := t' = KDone (KCode code) /\ r code = None
    /\ forall x, r' x = if decide (code = x) then Some (encVal (expiry now ttlMs) now url) else r x in
  match t with
  | KPutAlias url alias ttlMs now =>
      match r alias with
      | Some _ => t' = KDone (KCode []) /\ same
      | None => created url ttlMs now alias
      end
  | KPutDraw url ttlMs now rnds =>
      (exists buf rnds', rnds = buf :: rnds' /\ t' = KPutDraw url ttlMs now rnds' /\ same)
      \/ exists code, created url ttlMs now code
  | KHot code t1 t2 t3 => same /\
      match (cache_get t1 code c).1 with
      | Some (u, _) => t' = KBump code (KDone (KLink code t1 t2 (Some u)))
      | None => t' = KRead code t1 t2 t3
      end
  | KRead code t1 t2 t3 => same /\
      match live_row t2 (Some (r code)) with
      | None => t' = KDone (KLink code t1 t2 None)
      | Some (u, e) => t' = KFill u code e t3 (KBump code (KDone (KLink code t1 t2 (Some u))))
      end
  | KFill _ _ _ _ k | KBump _ k => same /\ t' = k
  | KGetUpd code url ttlMs hasTTL t1 t2 => same /\
      match r code with
      | None => t' = KDone (KMut MutMissing)
      | Some v =>
          match decVal v with
          | None => t' = KDone (KMut MutMissing)
          | Some (e, x, _) => exists px, t' = KSetUpd code (encVal (if hasTTL then expiry t1 ttlMs else e) x url) px
          end
      end
  | KSetUpd code val _ => t' = KForget code /\ forall x, r' x = if decide (code = x) then Some val else r x
  | KDel code =>
      t' = match r code with Some _ => KDelHits code | None => KDone (KMut MutMissing) end
      /\ forall x, r' x = if decide (code = x) then None else r x
  | KDelHits code => t' = KForget code /\ forall x, not_counter code x -> r' x = r x
  | KForget code => same /\ t' = KDone (KMut MutOK)
  | KDone _ => same /\ t' = t
  end.

Definition kcache (t : kthread) (c : kvCache) : kvCache :=
  match t with
  | KHot code t1 _ _ => cstep c (CGet t1 code)
  | KFill u code e t3 _ => cstep c (CPut t3 code u e)
  | KForget code => cstep c (CRemove code)
  | _ => c
  end.

Lemma kv_row_some (s : KvStore net) (code : bytes) (o : option bytes) : rows s code = Some o -> kv_row s code = o.
Proof. unfold kv_row. by intros ->. Qed.

Lemma kv_row_put (s s' : KvStore net) (code : bytes) (o : option bytes) :
  (forall x, rows s' x = if decide (code = x) then Some o else rows s x) ->
  forall x, kv_row s' x = if decide (code = x) then o else kv_row s x.
Proof. intros Hr x. unfold kv_row. rewrite Hr. by case_decide. Qed.

Lemma kv_row_same (s s' : KvStore net) : (forall x, rows s' x = rows s x) -> forall x, kv_row s' x = kv_row s x.
Proof. intros Hr x. unfold kv_row. by rewrite Hr. Qed.

Definition stepped (t : kthread) (s : KvStore net) (t' : kthread) (s' : KvStore net) : Prop :=
  node_ok s' /\ (layoutHash s' = layoutHash s /\ buckets s' = buckets s) /\ cache s' = kcache t (cache s)
  /\ kmove (cache s) t t' (kv_row s) (kv_row s').

Lemma put_alias_steps (url alias : bytes) (ttlMs now : Z) (s : KvStore net) :
  node_ok s -> small url -> small alias ->
  exists t' s', put_alias url alias ttlMs now s = Ret (t', s') /\ stepped (KPutAlias url alias ttlMs now) s t' s'.
Proof.
  intros Hn Hu Ha. unfold put_alias. pose proof (rows_kv_row s alias Hn) as Hr.
  destruct (putNX_serves url ttlMs now alias s _ Hn Ha Hu Hr) as (k' & -> & Hn' & Hr'). cbn [go_bind].
  eexists _, _. split; [done|]. split_and!; [done..|]. cbn [kmove]. destruct (kv_row s alias) as [v|].
  - rewrite bool_decide_true by by eexists. split; [done|]. apply kv_row_same. intros x. rewrite Hr'.
    by rewrite decide_False by by intros [? _].
  - rewrite bool_decide_false by by intros [? ?]. split_and!; [done..|]. apply kv_row_put. intros x. rewrite Hr'.
    apply decide_ext. naive_solver.
Qed.

Lemma put_draw_steps (url : bytes) (ttlMs now : Z) (buf : bytes) (rnds : list bytes) (s : KvStore net) :
  node_ok s -> small url -> length buf = (codeLen - 1)%nat ->
  exists t' s', put_draw url ttlMs now buf rnds s = Ret (t', s') /\ stepped (KPutDraw url ttlMs now (buf :: rnds)) s t' s'.
Proof.
  intros Hn Hu Hl. unfold put_draw. pose proof (rows_kv_row s (randCode s buf) Hn) as Hr.
  assert (small (randCode s buf)) as Hsm.
  { unfold small, randCode, randSuffix. cbn [length]. rewrite length_map, Hl. cbn. lia. }
  destruct (putNX_serves url ttlMs now _ s _ Hn Hsm Hu Hr) as (k' & -> & Hn' & Hr'). cbn [go_bind].
  eexists _, _. split; [done|]. split_and!; [done..|]. cbn [kmove]. destruct (kv_row s (randCode s buf)) as [v|] eqn:Ev.
  - left. rewrite bool_decide_true by by eexists. exists buf, rnds. split_and!; [done..|]. apply kv_row_same. intros x.
    rewrite Hr'. by rewrite decide_False by by intros [? _].
  - right. rewrite bool_decide_false by by intros [? ?]. exists (randCode s buf). split_and!; [done..|].
    apply kv_row_put. intros x. rewrite Hr'. apply decide_ext. naive_solver.
Qed.

(** A read of the row, for a look-up or an update. *)
Lemma kvGet_steps (code : bytes) (s : KvStore net) :
  node_ok s -> small code ->
  exists k', kvGet code s = Ret (Some (kv_row s code), set_kv k' s) /\ node_ok (set_kv k' s)
    /\ forall x, kv_row (set_kv k' s) x = kv_row s x.
Proof.
  intros Hn Hc. destruct (kvGet_serves code s _ Hn Hc (rows_kv_row s code Hn)) as (k' & -> & Hs & Ek).
  destruct (node_ok_keys s k' Hn Hs Ek) as [Hn' Hr]. exists k'. split_and!; [done..|]. by apply kv_row_same.
Qed.

Lemma kv_read_steps (code : bytes) (t1 t2 t3 : Z) (s : KvStore net) :
  node_ok s -> small code ->
  exists t' s', kv_read code t1 t2 t3 s = Ret (t', s') /\ stepped (KRead code t1 t2 t3) s t' s'.
Proof.
  intros Hn Hc. unfold kv_read. destruct (kvGet_steps code s Hn Hc) as (k' & -> & Hn' & Hr). cbn [go_bind].
  eexists _, _. split; [done|]. split_and!; [done..|]. cbn [kmove]. split; [done|]. unfold live_row.
  destruct (kv_row s code) as [v|]; [|done]. destruct (decVal v) as [[[e c] u]|]; [|done]. by destruct (_ && _).
Qed.

Lemma kv_read_upd_steps (code url : bytes) (ttlMs : Z) (hasTTL : bool) (t1 t2 : Z) (s : KvStore net) :
  node_ok s -> small code ->
  exists t' s', kv_read_upd code url ttlMs hasTTL t1 t2 s = Ret (t', s')
    /\ stepped (KGetUpd code url ttlMs hasTTL t1 t2) s t' s'.
Proof.
  intros Hn Hc. unfold kv_read_upd. destruct (kvGet_steps code s Hn Hc) as (k' & -> & Hn' & Hr). cbn [go_bind].
  eexists _, _. split; [done|]. split_and!; [done..|]. cbn [kmove]. split; [done|].
  destruct (kv_row s code) as [v|]; [|done]. destruct (decVal v) as [[[e c] u]|]; [|done]. by eexists.
Qed.

Lemma kv_del_steps (code : bytes) (s : KvStore net) :
  node_ok s -> small code -> exists t' s', kstep trackHits (KDel code) s = Ret (t', s') /\ stepped (KDel code) s t' s'.
Proof.
  intros Hn Hc. cbn [kstep]. unfold kv_del, with_kv.
  destruct (row_del_serves code s _ Hn Hc (rows_kv_row s code Hn)) as (k' & -> & Hn' & Hr). cbn [go_bind].
  eexists _, _. split; [done|]. split_and!; [done..|]. split; [by destruct (kv_row s code)|by apply kv_row_put].
Qed.

(** A step on a serving node: it is defined, but for a drawn code when the
    random source has run out, and it does what [kmove] says. *)
Lemma kstep_serves (t : kthread) (s : KvStore net) :
  node_ok s -> thread_ok t ->
  match kstep trackHits t s with
  | Ret (t', s') => stepped t s t' s'
  | Diverge => exists url ttlMs now, t = KPutDraw url ttlMs now []
  | Panic => False
  end.
Proof.
  intros Hn Ht. destruct t as [url alias ttlMs now|url ttlMs now [|buf rnds]|code t1 t2 t3|code t1 t2 t3|u code e t k|code k
    |code url ttlMs hasTTL t1 t2|code val px|code|code|code|r]; cbn [kstep thread_ok] in *.
  - destruct Ht as (Hu & Ha & _). by destruct (put_alias_steps url alias ttlMs now s Hn Hu Ha) as (t' & s' & -> & P).
  - by eexists _, _, _.
  - destruct Ht as (Hu & _ & Hl). apply Forall_cons in Hl as [Hb _].
    by destruct (put_draw_steps url ttlMs now buf rnds s Hn Hu Hb) as (t' & s' & -> & P).
  - destruct (cache_get t1 code (cache s)) as [[[u e]|] c] eqn:Eg.
    + split_and!; [done..|cbn; by rewrite Eg|]. split; [done|]. by rewrite Eg.
    + split_and!; [done..|cbn; by rewrite Eg|]. split; [done|]. by rewrite Eg.
  - by destruct (kv_read_steps code t1 t2 t3 s Hn Ht) as (t' & s' & -> & P).
  - by split_and!.
  - unfold bump. destruct trackHits; by split_and!.
  - by destruct (kv_read_upd_steps code url ttlMs hasTTL t1 t2 s Hn (proj1 Ht)) as (t' & s' & -> & P).
  - unfold kv_write, with_kv. destruct (row_write_serves code val px s Hn) as (k' & -> & Hn' & Hr); [apply Ht..|].
    cbn [go_bind]. split_and!; [done..|]. split; [done|]. by apply kv_row_put.
  - destruct (kv_del_steps code s Hn Ht) as (t' & s' & E & P). cbn [kstep] in E. by rewrite E.
  - unfold kv_del_hits, with_kv. destruct (hits_del_serves code s Hn Ht) as (n & k' & -> & Hn' & Hr). cbn [go_bind].
    split_and!; [done..|]. split; [done|]. intros x Hx. unfold kv_row. by rewrite Hr.
  - by split_and!.
  - by split_and!.
Qed.

(** ** The invariant *)

Variables (lay : bool) (b : Z).

(** The row of a code at the server. *)
Definition fleet_row (f : fleet net) (code : bytes) : option bytes :=
  default None (raw_row lay b (keys (f_net f)) code).

(** A node of the fleet: connections in step, and the fleet's layout. *)
Definition member (s : KvStore net) : Prop := synced (kv s) /\ layoutHash s = lay /\ buckets s = b.

Definition fleet_ok (f : fleet net) : Prop :=
  0 < b /\ (forall code, is_Some (raw_row lay b (keys (f_net f)) code)) /\ Forall member (f_nodes f)
  /\ Forall (fun p => thread_ok p.2) (f_calls f).

Definition fev_ok (e : fev) : Prop := match e with FCall _ c => call_ok c | _ => True end.

Lemma member_rows (s : KvStore net) :
  member s -> rows s = raw_row lay b (keys (k_net (kv s)))
    /\ kv_row s = fun x => default None (raw_row lay b (keys (k_net (kv s))) x).
Proof. intros (_ & Hl & Hb). unfold kv_row, rows. by rewrite Hl, Hb. Qed.

Lemma member_node_ok (f : fleet net) (s : KvStore net) :
  fleet_ok f -> member s -> node_ok (at_net (f_net f) s) /\ kv_row (at_net (f_net f) s) = fleet_row f.
Proof.
  intros (Hb & Ht & _) Hs. destruct (member_rows (at_net (f_net f) s) Hs) as [Hr Hk]. split; [|by rewrite Hk].
  split_and!; [exact (proj1 Hs)|cbn; by rewrite (proj2 (proj2 Hs))|]. by rewrite Hr.
Qed.

Lemma tail_thread_ok (k : kthread) : tail_ok k -> thread_ok k.
Proof. by destruct k. Qed.

Lemma kmove_ok (c : kvCache) (t t' : kthread) (r r' : bytes -> option bytes) :
  thread_ok t -> kmove c t t' r r' -> thread_ok t'.
Proof.
  intros Ht Hm. destruct t as [url alias ttlMs now|url ttlMs now rnds|code t1 t2 t3|code t1 t2 t3|u code e t k|code k
    |code url ttlMs hasTTL t1 t2|code val px|code|code|code|q]; cbn [kmove thread_ok] in *.
  - destruct (r alias); [by destruct Hm as [-> _]|by destruct Hm as (-> & _)].
  - destruct Hm as [(buf & rnds' & -> & -> & _)|(x & -> & _)]; [|done]. destruct Ht as (? & ? & Hl).
    inversion Hl; subst. by split_and!.
  - destruct Hm as [_ Hm]. destruct (cache_get _ _ _).1 as [[u e]|]; by subst t'.
  - destruct Hm as [_ Hm]. destruct (live_row _ _) as [[u e]|]; by subst t'.
  - destruct Hm as [_ ->]. by apply tail_thread_ok.
  - destruct Hm as [_ ->]. by apply tail_thread_ok.
  - destruct Hm as [_ Hm]. destruct (r code) as [v|]; [|by subst t']. destruct (decVal v) as [[[e x] u]|]; [|by subst t'].
    destruct Hm as [px ->]. split; [apply Ht|]. apply encVal_fits, Ht.
  - by destruct Hm as [-> _].
  - destruct Hm as [-> _]. by destruct (r code).
  - by destruct Hm as [-> _].
  - by destruct Hm as [_ ->].
  - by destruct Hm as [_ ->].
Qed.

(** What an event does to the fleet. *)
Inductive fmove (f f' : fleet net) : fev -> Prop :=
| MCall j c : f' = mkFleet (f_nodes f) (f_calls f ++ [(j, kstart c)]) (f_net f) -> fmove f f' (FCall j c)
| MIdle i : (forall j t, f_calls f !! i = Some (j, t) -> f_nodes f !! j = None) -> f' = f -> fmove f f' (FRun i)
| MRun i j t t' s s' :
    f_calls f !! i = Some (j, t) -> f_nodes f !! j = Some s ->
    f_calls f' = <[i := (j, t')]> (f_calls f) -> f_nodes f' = <[j := s']> (f_nodes f) ->
    cache s' = kcache t (cache s) -> kmove (cache s) t t' (fleet_row f) (fleet_row f') -> fmove f f' (FRun i)
| MLapse now :
    f_calls f' = f_calls f -> f_nodes f' = f_nodes f ->
    (forall x, fleet_row f' x = fleet_row f x
      \/ fleet_row f' x = None /\ exists u e, row_val (fleet_row f x) = Some (u, e) /\ e <> 0 /\ e <= now) ->
    fmove f f' (FLapse now).

Lemma fleet_lapse (now : Z) (f : fleet net) :
  fleet_ok f ->
  let f' := mkFleet (f_nodes f) (f_calls f) (lapse now (f_net f)) in
  fleet_ok f' /\ fmove f f' (FLapse now).
Proof.
  intros (Hb & Ht & Hm & Hc) f'.
  set (s := mkKvStore (mkKv [] (f_net f)) (newKvCache 0 0) [] 0 x30 lay b 0 false).
  destruct (lapse_rows now s) as [(_ & _ & Ht') Hs]; [by split_and!; [split; [done|cbn; lia]|..]|].
  split; [by split_and!|]. apply MLapse; [done..|]. intros x. unfold fleet_row.
  specialize (Hs x). unfold rows in Hs. unfold f'. cbn [kv_lapse set_kv layoutHash buckets kv k_net s k_pool f_net] in *.
  destruct Hs as [->|[-> (v & -> & e & c & u & Ed & He)]]; [by left|]. right. split; [done|].
  exists u, e. cbn. by rewrite Ed.
Qed.

Lemma fleet_step_moves (e : fev) (f f' : fleet net) :
  fleet_ok f -> fev_ok e -> fleet_step e f = Ret f' -> fleet_ok f' /\ fmove f f' e.
Proof.
  intros Hf Hok E. pose proof Hf as (Hb & Ht & Hm & Hc). destruct e as [j q|i|now].
  - destruct f as [ns ts n]. injection E as <-. split; [|by apply MCall]. split_and!; [done..|].
    apply Forall_app. split; [done|]. by apply Forall_singleton.
  - destruct f as [ns ts n]. cbn [fleet_step f_nodes f_calls f_net] in *.
    destruct (ts !! i) as [[j t]|] eqn:Ei; [|injection E as <-; split; [done|apply MIdle; [cbn; congruence|done]]].
    destruct (ns !! j) as [s|] eqn:Ej; [|injection E as <-; split; [done|apply MIdle; [cbn; congruence|done]]].
    assert (member s) as Hs by (by eapply (Forall_lookup_1 _ _ _ _ Hm)).
    assert (thread_ok t) as Htk by (by apply (Forall_lookup_1 _ _ _ _ Hc Ei)).
    destruct (member_node_ok _ s Hf Hs) as [Hn Hr]. cbn [f_net] in Hn, Hr.
    pose proof (kstep_serves t (at_net n s) Hn Htk) as P.
    destruct (kstep trackHits t (at_net n s)) as [[t' s']| |]; [|done|done]. cbn [go_bind] in E. injection E as <-.
    destruct P as (Hn' & [El Eb] & Ec & Hk).
    assert (member s') as Hs' by (split_and!; [apply Hn'|rewrite El; apply Hs|rewrite Eb; apply Hs]).
    destruct (member_rows s' Hs') as [Hr' Hk']. rewrite Hr, Hk' in Hk. split.
    + split_and!; [done|intros x; cbn [f_net]; rewrite <- Hr'; apply Hn'|by apply Forall_insert|].
      cbn [f_calls]. apply Forall_insert; [done|]. by eapply kmove_ok.
    + by eapply MRun.
  - destruct f as [ns ts n]. injection E as <-. by apply (fleet_lapse now (mkFleet ns ts n)).
Qed.

(** ** Look-ups *)

(** [W code u e]: the row of [code] was the link [(u, e)] at some time. *)
Fixpoint kthread_saw (W : bytes -> bytes -> Z -> Prop) (t : kthread) : Prop :=
  match t with
  | KFill u code e _ k => W code u e /\ kthread_saw W k
  | KBump _ k => kthread_saw W k
  | KDone (KLink code t1 t2 (Some u)) => exists e, W code u e /\ (e = 0 \/ t1 < e \/ t2 < e)
  | _ => True
  end.

Lemma kthread_saw_mono (W W' : bytes -> bytes -> Z -> Prop) (t : kthread) :
  (forall code u e, W code u e -> W' code u e) -> kthread_saw W t -> kthread_saw W' t.
Proof.
  intros HW. induction t as [| | | |u code e t k IH|code k IH| | | | | |r]; cbn; try done.
  - intros [? ?]. auto.
  - destruct r as [|code t1 t2 [u|]|]; try done. intros (e & ? & ?). eauto.
Qed.

Record fleet_saw (W : bytes -> bytes -> Z -> Prop) (f : fleet net) : Prop := {
  fsaw_caches : Forall (fun s => cache_within W (cache s)) (f_nodes f);
  fsaw_calls : Forall (fun p => kthread_saw W p.2) (f_calls f);
  fsaw_rows : forall code u e, row_val (fleet_row f code) = Some (u, e) -> W code u e
}.

Lemma kmove_saw (W : bytes -> bytes -> Z -> Prop) (c : kvCache) (t t' : kthread) (r r' : bytes -> option bytes) :
  cache_within W c -> kthread_saw W t -> (forall code u e, row_val (r code) = Some (u, e) -> W code u e) ->
  kmove c t t' r r' -> kthread_saw W t' /\ cache_within W (kcache t c).
Proof.
  intros Hc Ht Hr Hm. destruct t as [url alias ttlMs now|url ttlMs now rnds|code t1 t2 t3|code t1 t2 t3|u code e t k|code k
    |code url ttlMs hasTTL t1 t2|code val px|code|code|code|q]; cbn [kmove kcache kthread_saw] in *.
  - split; [|done]. destruct (r alias); [by destruct Hm as [-> _]|by destruct Hm as (-> & _)].
  - split; [|done]. by destruct Hm as [(buf & rnds' & _ & -> & _)|(x & -> & _)].
  - split; [|by apply (within_step W c (CGet t1 code))]. destruct Hm as [_ Hm].
    destruct (cache_get t1 code c).1 as [[u e]|] eqn:Eg; subst t'; [|done].
    destruct (within_hit W c t1 code u e Hc Eg). exists e. tauto.
  - split; [|done]. destruct Hm as [_ Hm]. destruct (live_row t2 (Some (r code))) as [[u e]|] eqn:El; subst t'; [|done].
    pose proof (Hr code u e (live_row_val _ _ _ _ El)) as Hw. split; [done|]. exists e. split; [done|].
    unfold live_row in El. destruct (r code); [|done]. destruct (decVal _) as [[[e' x] u']|]; [|done].
    destruct (_ && _) eqn:Ed; [done|]. injection El as -> ->. lia.
  - destruct Hm as [_ ->]. split; [apply Ht|]. apply (within_step W c (CPut t code u e)); [done|apply Ht].
  - by destruct Hm as [_ ->].
  - split; [|done]. destruct Hm as [_ Hm]. destruct (r code) as [v|]; [|by subst t'].
    destruct (decVal v) as [[[e x] u]|]; [|by subst t']. by destruct Hm as [px ->].
  - by destruct Hm as [-> _].
  - split; [|done]. destruct Hm as [-> _]. by destruct (r code).
  - by destruct Hm as [-> _].
  - destruct Hm as [_ ->]. split; [done|]. by apply (within_step W c (CRemove code)).
  - by destruct Hm as [_ ->].
Qed.

Lemma fmove_saw (W W' : bytes -> bytes -> Z -> Prop) (e : fev) (f f' : fleet net) :
  fleet_saw W f -> fmove f f' e -> (forall code u e, W code u e -> W' code u e) ->
  (forall code u e, row_val (fleet_row f' code) = Some (u, e) -> W' code u e) -> fleet_saw W' f'.
Proof.
  intros [Hc Ht Hr] Hm HW HW'.
  assert (Forall (fun s => cache_within W' (cache s)) (f_nodes f)) as Hc'
    by (eapply Forall_impl; [exact Hc|]; intros s; by apply within_mono).
  assert (Forall (fun p => kthread_saw W' p.2) (f_calls f)) as Ht'
    by (eapply Forall_impl; [exact Ht|]; intros p; by apply kthread_saw_mono).
  destruct Hm as [j c ->|i _ ->|i j t t' s s' Ei Ej Et En Ec Hk|now Et En _].
  - split; [done| |done]. cbn [f_calls]. apply Forall_app. split; [done|]. apply Forall_singleton.
    destruct c as [? ? []| | |]; done.
  - by split.
  - rewrite Forall_forall in Hc. rewrite Forall_forall in Ht. pose proof (Hc s (list_elem_of_lookup_2 _ _ _ Ej)) as Hs.
    pose proof (Ht _ (list_elem_of_lookup_2 _ _ _ Ei)) as Hi. cbn in Hs, Hi.
    destruct (kmove_saw W (cache s) t t' _ _ Hs Hi Hr Hk) as [Ht1 Hc1].
    split; [rewrite En; apply Forall_insert; [done|]; rewrite Ec; by eapply within_mono| |done].
    rewrite Et. apply Forall_insert; [done|]. by eapply kthread_saw_mono.
  - split; [by rewrite En|by rewrite Et|done].
Qed.

(** The row of [code] was [(u, e)] after some part of the run. *)
Definition was_shared_row (es : list fev) (f0 : fleet net) (code u : bytes) (e : Z) : Prop :=
  exists pre f1, pre `prefix_of` es /\ fleet_run pre f0 = Ret f1 /\ row_val (fleet_row f1 code) = Some (u, e).

(** A node starts with an empty cache. *)
Lemma NewKV_cold (n : net) (instance cap ttl : Z) (layout nb : bytes) (s : KvStore net) :
  NewKV n instance cap ttl layout nb = Ret (Some s) -> cache s = newKvCache cap ttl.
Proof.
  unfold NewKV. destruct (Dial n) as [[[[]|] k]| |]; cbn [go_bind]; [|done..].
  destruct (alpha_at _) as [p| |]; cbn [go_bind]; [|done..]. by intros [= <-].
Qed.

(** Nodes that have just started: no calls, and nothing in their caches. *)
Definition fleet_fresh (f : fleet net) : Prop :=
  fleet_ok f /\ f_calls f = [] /\ Forall (fun s => exists cap ttl, cache s = newKvCache cap ttl) (f_nodes f).

Lemma fleet_run_saw (es : list fev) (f0 f : fleet net) :
  fleet_fresh f0 -> Forall fev_ok es -> fleet_run es f0 = Ret f -> fleet_ok f /\ fleet_saw (was_shared_row es f0) f.
Proof.
  intros (Hf & Hc & Hn). revert f. induction es as [|e es IH] using rev_ind; intros f Hok E.
  - injection E as <-. split; [done|]. split.
    + eapply Forall_impl; [exact Hn|]. intros s (cap & ttl & ->). apply within_new.
    + by rewrite Hc.
    + intros code u e Hr. by exists [], f0.
  - apply Forall_app in Hok as [Hok He]. rewrite Forall_singleton in He. pose proof E as E0.
    rewrite fleet_run_snoc in E. destruct (fleet_run es f0) as [f1| |] eqn:E1; cbn [go_bind] in E; [|done|done].
    destruct (IH f1 Hok eq_refl) as [Hf1 Hs1]. destruct (fleet_step_moves e f1 f Hf1 He E) as [Hf2 Hm].
    split; [done|]. eapply fmove_saw; [exact Hs1|exact Hm| |].
    + intros code u x (pre & f2 & Hp & Hr). exists pre, f2. split; [by apply prefix_app_r|done].
    + intros code u x Hx. by exists (es ++ [e]), f.
Qed.

(** C16: look-ups answer links that exist or existed, whatever the nodes do. Several
    processes over one server, any schedule of their calls' commands (batches are
    not among the calls), and keys
    that expire in between: a look-up that answers a target found it in the
    shared row of its code, or in its node's cache, which got it from there; at
    some time of the run that row held this target, with an expiry still to come
    at one of the look-up's readings of the clock. *)
Theorem fleet_answers_were_rows (es : list fev) (f0 f : fleet net) (i j : nat) (code u : bytes) (t1 t2 : Z)
  (Hfresh : fleet_fresh f0) (Hok : Forall fev_ok es) (Hrun : fleet_run es f0 = Ret f)
  (Hi : f_calls f !! i = Some (j, KDone (KLink code t1 t2 (Some u)))) :
  exists pre f1 e, pre `prefix_of` es /\ fleet_run pre f0 = Ret f1
    /\ row_val (fleet_row f1 code) = Some (u, e) /\ (e = 0 \/ t1 < e \/ t2 < e).
Proof.
  destruct (fleet_run_saw es f0 f Hfresh Hok Hrun) as [_ [_ Hts _]]. rewrite Forall_forall in Hts.
  apply list_elem_of_lookup_2 in Hi. apply Hts in Hi as (e & (pre & f1 & Hp & Hr & Hs) & He).
  exists pre, f1, e. by split_and!.
Qed.

(** ** Creations *)

(** Calls that leave every link in place: no removal, and no lifetime. *)
Definition forever (t : kthread) : Prop :=
  match t with
  | KPutAlias _ _ ttlMs _ | KPutDraw _ ttlMs _ _ => ttlMs <= 0
  | KGetUpd _ _ ttlMs hasTTL _ _ => hasTTL = true -> ttlMs <= 0
  | KSetUpd _ val _ => forall u e, row_val (Some val) = Some (u, e) -> e = 0
  | KDel _ | KDelHits _ => False
  | _ => True
  end.

Definition lasting (r : bytes -> option bytes) : Prop := forall code u e, row_val (r code) = Some (u, e) -> e = 0.

Definition answered (t : kthread) (code : bytes) : Prop := t = KDone (KCode code) /\ code <> [].

Lemma expiry_none (now ttlMs : Z) : ttlMs <= 0 -> expiry now ttlMs = 0.
Proof. intros Ht. unfold expiry. by replace (0 <? ttlMs) with false by lia. Qed.

Lemma row_val_forever (c : Z) (u u' : bytes) (e : Z) :
  is_int64 c -> row_val (Some (encVal 0 c u)) = Some (u', e) -> e = 0.
Proof. intros Hc. rewrite row_val_enc; [|unfold is_int64; lia|done]. by intros [= _ <-]. Qed.

(** What a step of such a call can do to the rows: nothing, or a row written,
    which is a new one where the call answers a code. *)
Variant keeps (t t' : kthread) (r r' : bytes -> option bytes) : Prop :=
| KeepsSame : (forall x, r' x = r x) -> (forall code, answered t' code -> t' = t) -> keeps t t' r r'
| KeepsPut code v : (forall x, r' x = if decide (code = x) then Some v else r x) ->
    (forall u e, row_val (Some v) = Some (u, e) -> e = 0) ->
    (forall code', answered t' code' -> code' = code /\ r code = None) -> keeps t t' r r'.

Lemma created_keeps (t t' : kthread) (r r' : bytes -> option bytes) (url : bytes) (ttlMs now : Z) (code : bytes) :
  ttlMs <= 0 -> is_int64 now -> t' = KDone (KCode code) -> r code = None ->
  (forall x, r' x = if decide (code = x) then Some (encVal (expiry now ttlMs) now url) else r x) -> keeps t t' r r'.
Proof.
  intros Hl Hn -> Hr Hr'. rewrite expiry_none in Hr' by done. eapply KeepsPut; [exact Hr'| |].
  - intros u e. exact (row_val_forever now url u e Hn).
  - by intros code' [[= <-] _].
Qed.

Lemma kmove_keeps (c : kvCache) (t t' : kthread) (r r' : bytes -> option bytes) :
  thread_ok t -> forever t -> lasting r -> kmove c t t' r r' -> forever t' /\ keeps t t' r r'.
Proof.
  intros Hok Hf Hr Hm. destruct t as [url alias ttlMs now|url ttlMs now rnds|code t1 t2 t3|code t1 t2 t3|u code e t k|code k
    |code url ttlMs hasTTL t1 t2|code val px|code|code|code|q]; cbn [kmove forever thread_ok] in *; try done.
  - destruct (r alias) eqn:Ea.
    + destruct Hm as [-> Hs]. split; [done|]. apply KeepsSame; [done|]. by intros ? [[= <-] ?].
    + destruct Hm as (-> & _ & Hp). split; [done|]. exact (created_keeps _ _ r r' url ttlMs now alias Hf (proj2 (proj2 Hok)) eq_refl Ea Hp).
  - destruct Hm as [(buf & rnds' & _ & -> & Hs)|(code & -> & He & Hp)].
    + split; [done|]. apply KeepsSame; [done|]. by intros ? [[=] _].
    + split; [done|]. exact (created_keeps _ _ r r' url ttlMs now code Hf (proj1 (proj2 Hok)) eq_refl He Hp).
  - destruct Hm as [Hs Hm].
    destruct (cache_get _ _ _).1 as [[u e]|]; subst t'; (split; [done|]); apply KeepsSame; by intros ? [[=] _] || done.
  - destruct Hm as [Hs Hm].
    destruct (live_row _ _) as [[u e]|]; subst t'; (split; [done|]); apply KeepsSame; by intros ? [[=] _] || done.
  - destruct Hm as [Hs ->]. split; [by destruct k|]. apply KeepsSame; [done|]. intros ? [-> _]. done.
  - destruct Hm as [Hs ->]. split; [by destruct k|]. apply KeepsSame; [done|]. intros ? [-> _]. done.
  - destruct Hm as [Hs Hm]. destruct (r code) as [v|] eqn:Ev;
      [|subst t'; split; [done|]; apply KeepsSame; [done|by intros ? [[=] _]]].
    destruct (decVal v) as [[[e x] u]|] eqn:Ed; [|subst t'; split; [done|]; apply KeepsSame; [done|by intros ? [[=] _]]].
    destruct Hm as [px ->]. split; [|apply KeepsSame; [done|by intros ? [[=] _]]]. cbn [forever]. intros u' e'.
    destruct (decVal_range _ _ _ _ Ed) as [_ Hx].
    assert ((if hasTTL then expiry t1 ttlMs else e) = 0) as ->; [|exact (row_val_forever _ _ _ _ Hx)].
    destruct hasTTL; [apply expiry_none, Hf; reflexivity|]. apply (Hr code u). unfold row_val. rewrite Ev, Ed. reflexivity.
  - destruct Hm as [-> Hp]. split; [done|]. eapply KeepsPut; [exact Hp|done|]. by intros ? [[=] _].
  - destruct Hm as [Hs ->]. split; [done|]. apply KeepsSame; [done|]. by intros ? [[=] _].
  - destruct Hm as [Hs ->]. split; [done|]. by apply KeepsSame.
Qed.

Record fleet_kept (f0 f : fleet net) : Prop := {
  kept_calls : Forall (fun p => forever p.2) (f_calls f);
  kept_rows : lasting (fleet_row f);
  kept_start : forall code, is_Some (fleet_row f0 code) -> is_Some (fleet_row f code);
  kept_codes : forall i j t code, f_calls f !! i = Some (j, t) -> answered t code ->
    fleet_row f0 code = None /\ is_Some (fleet_row f code);
  kept_distinct : forall i1 i2 j1 j2 t1 t2 code, f_calls f !! i1 = Some (j1, t1) -> f_calls f !! i2 = Some (j2, t2) ->
    answered t1 code -> answered t2 code -> i1 = i2
}.

Definition fev_lasting (e : fev) : Prop := match e with FCall _ c => forever (kstart c) | _ => True end.

Lemma kstart_unanswered (c : kvcall) (code : bytes) : ~ answered (kstart c) code.
Proof. destruct c as [? ? []| | |]; by intros [[=] _]. Qed.

Lemma kept_call (f0 f : fleet net) (j : nat) (c : kvcall) :
  fleet_kept f0 f -> forever (kstart c) ->
  fleet_kept f0 (mkFleet (f_nodes f) (f_calls f ++ [(j, kstart c)]) (f_net f)).
Proof.
  intros [Hc Hr Hs Hk Hd] Hq.
  assert (forall i j' t code, (f_calls f ++ [(j, kstart c)]) !! i = Some (j', t) -> answered t code ->
    f_calls f !! i = Some (j', t)) as Hold.
  { intros i j' t code Hi Ha. apply lookup_app_Some in Hi as [Hi|[_ Hi]]; [done|].
    apply list_lookup_singleton_Some in Hi as [_ [= _ <-]]. by apply kstart_unanswered in Ha. }
  split; cbn [f_calls]; [|done|done| |].
  - apply Forall_app. split; [done|]. by apply Forall_singleton.
  - intros i j' t code Hi Ha. exact (Hk _ _ _ _ (Hold _ _ _ _ Hi Ha) Ha).
  - intros i1 i2 j1 j2 t1 t2 code Hi1 Hi2 Ha1 Ha2.
    exact (Hd _ _ _ _ _ _ _ (Hold _ _ _ _ Hi1 Ha1) (Hold _ _ _ _ Hi2 Ha2) Ha1 Ha2).
Qed.

(** Rows that stay, whatever else changes. *)
Lemma kept_put (f0 f f' : fleet net) (code v : bytes) :
  (forall x, fleet_row f' x = if decide (code = x) then Some v else fleet_row f x) ->
  forall x, is_Some (fleet_row f x) -> is_Some (fleet_row f' x).
Proof. intros Hp x Hx. rewrite Hp. by case_decide. Qed.

Lemma kept_run (f0 f f' : fleet net) (i j : nat) (t t' : kthread) :
  fleet_kept f0 f -> f_calls f !! i = Some (j, t) -> f_calls f' = <[i := (j, t')]> (f_calls f) ->
  forever t' -> keeps t t' (fleet_row f) (fleet_row f') -> fleet_kept f0 f'.
Proof.
  intros [Hc Hr Hs Hk Hd] Hi Et Hf Hkp.
  assert (forall x, is_Some (fleet_row f x) -> is_Some (fleet_row f' x)) as Hstay.
  { destruct Hkp as [Hsame _|c v Hp _ _]; [intros x; by rewrite Hsame|by eapply kept_put]. }
  (* a code that the step answers: already answered, or of a new row *)
  assert (forall code, answered t' code -> t' = t \/ fleet_row f code = None /\ is_Some (fleet_row f' code)) as Hnew.
  { intros code Ha. destruct Hkp as [_ Hs'|c v Hp _ Hs']; [left; by eapply Hs'|].
    destruct (Hs' code Ha) as [-> Hn]. right. split; [done|]. rewrite Hp, decide_True by done. by eexists. }
  assert (forall i' j' t1 code, f_calls f' !! i' = Some (j', t1) -> answered t1 code ->
    f_calls f !! i' = Some (j', t1) \/ i' = i /\ fleet_row f code = None /\ is_Some (fleet_row f' code)) as Hold.
  { intros i' j' t1 code Hi' Ha. rewrite Et in Hi'. apply list_lookup_insert_Some in Hi' as [(<- & [= <- <-] & _)|[_ Hi']];
      [|by left]. destruct (Hnew code Ha) as [->|Hn]; [by left|by right]. }
  assert (forall code, is_Some (fleet_row f0 code) -> fleet_row f code = None -> False) as Hne.
  { intros code Hx0 Hx1. destruct (Hs code Hx0) as [v Hv]. congruence. }
  split.
  - rewrite Et. by apply Forall_insert.
  - intros code u e. destruct Hkp as [Hsame _|c v Hp Hv _]; [rewrite Hsame; apply Hr|].
    rewrite Hp. case_decide; [apply Hv|apply Hr].
  - intros code Hx. by apply Hstay, Hs.
  - intros i' j' t1 code Hi' Ha. destruct (Hold _ _ _ _ Hi' Ha) as [Ho|(_ & Hn & Hx)].
    + destruct (Hk _ _ _ _ Ho Ha). split; [done|by apply Hstay].
    + split; [|done]. destruct (fleet_row f0 code) eqn:E0; [|done]. exfalso. by apply (Hne code); [eexists|].
  - intros i1 i2 j1 j2 t1 t2 code Hi1 Hi2 Ha1 Ha2.
    assert (forall i' j' t', f_calls f !! i' = Some (j', t') -> answered t' code -> fleet_row f code = None -> False) as Hx.
    { intros i' j' t3 Ho Ha Hn. destruct (Hk _ _ _ _ Ho Ha) as [_ [v Hv]]. congruence. }
    destruct (Hold _ _ _ _ Hi1 Ha1) as [Ho1|(-> & Hn1 & _)], (Hold _ _ _ _ Hi2 Ha2) as [Ho2|(-> & Hn2 & _)];
      [by eapply Hd|exfalso; by eapply (Hx i1)|exfalso; by eapply (Hx i2)|done].
Qed.

Lemma fmove_kept (f0 f f' : fleet net) (e : fev) :
  fleet_ok f -> fleet_kept f0 f -> fev_lasting e -> fmove f f' e -> fleet_kept f0 f'.
Proof.
  intros Hf Hkept He Hm. pose proof Hkept as [Hc Hr Hs Hk Hd].
  destruct Hm as [j c ->|i _ ->|i j t t' s s' Ei Ej Et En Ec Hmv|now Et En Hl]; [by apply kept_call|done| |].
  - assert (thread_ok t) as Hok by (destruct Hf as (_ & _ & _ & Ht); exact (Forall_lookup_1 _ _ _ _ Ht Ei)).
    assert (forever t) as Hft by exact (Forall_lookup_1 _ _ _ _ Hc Ei).
    destruct (kmove_keeps _ _ _ _ _ Hok Hft Hr Hmv) as [Hf' Hkp]. by eapply kept_run.
  - assert (forall x, fleet_row f' x = fleet_row f x) as Hsame.
    { intros x. destruct (Hl x) as [->|(_ & u & x' & Hv & Hne & _)]; [done|]. by apply Hr in Hv. }
    split; try rewrite Et; try done.
    + intros code u e. rewrite Hsame. apply Hr.
    + intros code. rewrite Hsame. apply Hs.
    + intros i j t code. rewrite Hsame. apply Hk.
Qed.

Lemma fleet_run_kept (es : list fev) (f0 f : fleet net) :
  fleet_ok f0 -> f_calls f0 = [] -> lasting (fleet_row f0) -> Forall fev_ok es -> Forall fev_lasting es ->
  fleet_run es f0 = Ret f -> fleet_ok f /\ fleet_kept f0 f.
Proof.
  intros Hf Hc Hl. revert f. induction es as [|e es IH] using rev_ind; intros f Hok Hla E.
  - injection E as <-. split; [done|]. split; rewrite ?Hc; done.
  - apply Forall_app in Hok as [Hok He]. apply Forall_app in Hla as [Hla Hle]. rewrite Forall_singleton in He, Hle.
    rewrite fleet_run_snoc in E. destruct (fleet_run es f0) as [f1| |] eqn:E1; cbn [go_bind] in E; [|done|done].
    destruct (IH f1 Hok Hla eq_refl) as [Hf1 Hs1]. destruct (fleet_step_moves e f1 f Hf1 He E) as [Hf2 Hm].
    split; [done|]. exact (fmove_kept f0 f1 f e Hf1 Hs1 Hle Hm).
Qed.

(** C15: no two creations get the same code, whatever nodes they run at. While
    nothing is removed and no link has a lifetime, the creations of a run, at
    any nodes and in any interleaving of their commands (batches apart), answer codes that no
    row had when it started, each of them once, and each still has its row at
    the end: the one write that tests and sets decides. *)
Theorem fleet_codes_distinct (es : list fev) (f0 f : fleet net) (i1 i2 j1 j2 : nat) (code : bytes)
  (Hf : fleet_ok f0) (Hc : f_calls f0 = []) (Hl : lasting (fleet_row f0))
  (Hok : Forall fev_ok es) (Hla : Forall fev_lasting es) (Hrun : fleet_run es f0 = Ret f) (Hne : code <> [])
  (Hi1 : f_calls f !! i1 = Some (j1, KDone (KCode code))) (Hi2 : f_calls f !! i2 = Some (j2, KDone (KCode code))) :
  i1 = i2 /\ fleet_row f0 code = None /\ is_Some (fleet_row f code).
Proof.
  destruct (fleet_run_kept es f0 f Hf Hc Hl Hok Hla Hrun) as [_ [_ _ _ Hk Hd]].
  split; [by eapply Hd|by eapply Hk].
Qed.

(** ** An update and a removal *)

Lemma hfield_ne (code : bytes) : not_counter code code.
Proof. intros E. apply (f_equal length) in E. cbn in E. lia. Qed.

Definition drained (t : kthread) : bool := match t with KPutDraw _ _ _ [] => true | _ => false end.

(** The next step of call [i], when it has one. *)
Lemma fleet_step_next (i j : nat) (t : kthread) (ts : list (nat * kthread)) (f : fleet net) :
  fleet_ok f -> f_calls f = ts -> ts !! i = Some (j, t) -> is_Some (f_nodes f !! j) -> drained t = false ->
  exists f' t' c, fleet_step (FRun i) f = Ret f' /\ fleet_ok f'
    /\ f_calls f' = <[i := (j, t')]> ts /\ (forall j', is_Some (f_nodes f !! j') -> is_Some (f_nodes f' !! j'))
    /\ kmove c t t' (fleet_row f) (fleet_row f').
Proof.
  intros Hf <- Hi [s Hj] Ht.
  assert (exists f', fleet_step (FRun i) f = Ret f') as [f' E].
  { pose proof Hf as (_ & _ & Hm & Hc). destruct f as [ns ts n]. cbn [fleet_step f_calls f_nodes f_net] in *. rewrite Hi, Hj.
    destruct (member_node_ok _ s Hf (Forall_lookup_1 _ _ _ _ Hm Hj)) as [Hn _].
    pose proof (kstep_serves t (at_net n s) Hn (Forall_lookup_1 _ _ _ _ Hc Hi)) as P.
    destruct (kstep trackHits t (at_net n s)) as [[t' s']| |]; [by eexists|done|].
    by destruct P as (url & ttlMs & now & ->). }
  destruct (fleet_step_moves (FRun i) f f' Hf I E) as [Hf' Hm]. exists f'.
  inversion Hm as [|? Hno _|? j0 t0 t' s0 s' Hi0 Hj0 Et En _ Hk|]; subst.
  - by rewrite (Hno j t Hi) in Hj.
  - rewrite Hi in Hi0. injection Hi0 as <- <-. exists t', (cache s0). split_and!; [done..| |done].
    intros j' Hj'. rewrite En. destruct (decide (j' = j)) as [->|Hne]; [|by rewrite list_lookup_insert_ne].
    rewrite list_lookup_insert_eq by by eapply lookup_lt_Some. by eexists.
Qed.

(** Node 0 has read the row, node 1 removes the link, node 0 writes. *)
Definition crossing (code url : bytes) (ttlMs : Z) (hasTTL : bool) (t1 t2 : Z) : list fev :=
  [FCall 0 (KUpdate code url ttlMs hasTTL t1 t2); FCall 1 (KRemove code); FRun 0; FRun 1; FRun 1; FRun 1].

(** an update on one node brings back a link that another has removed. From
    every state with a readable row there is a schedule of an update at one node
    and a removal at another in which the removal answers that it is done, and
    the row is gone; the update then writes it again, with its own target, and
    answers that it is done as well. *)
Theorem fleet_removed_link_returns (code url u : bytes) (e ttlMs : Z) (hasTTL : bool) (t1 t2 : Z) (f0 : fleet net)
  (Hf : fleet_ok f0) (Hc0 : f_calls f0 = []) (Hn0 : is_Some (f_nodes f0 !! 0%nat)) (Hn1 : is_Some (f_nodes f0 !! 1%nat))
  (Hcode : small code) (Hurl : small url) (Hrow : row_val (fleet_row f0 code) = Some (u, e)) :
  exists f1 f2, fleet_run (crossing code url ttlMs hasTTL t1 t2) f0 = Ret f1
    /\ f_calls f1 !! 1%nat = Some (1%nat, KDone (KMut MutOK)) /\ fleet_row f1 code = None
    /\ fleet_run [FRun 0; FRun 0] f1 = Ret f2
    /\ f_calls f2 = [(0%nat, KDone (KMut MutOK)); (1%nat, KDone (KMut MutOK))]
    /\ row_val (fleet_row f2 code) = Some (url, if hasTTL then expiry t1 ttlMs else e).
Proof.
  unfold row_val in Hrow. destruct (fleet_row f0 code) as [v|] eqn:Ev; [|done].
  destruct (decVal v) as [[[e0 c] u0]|] eqn:Ed; [|done]. injection Hrow as -> ->.
  set (ts0 := [(0%nat, KGetUpd code url ttlMs hasTTL t1 t2); (1%nat, KDel code)]).
  set (g0 := mkFleet (f_nodes f0) ts0 (f_net f0)).
  assert (fleet_ok g0) as Hg0.
  { destruct Hf as (? & ? & ? & _). split_and!; try done. cbn [f_calls g0].
    apply Forall_cons. split; [by split|]. by apply Forall_singleton. }
  assert (forall x, fleet_row g0 x = fleet_row f0 x) as Hr0 by done.
  destruct (fleet_step_next 0 0 _ ts0 g0 Hg0 eq_refl eq_refl Hn0 eq_refl) as (g1 & ta & ca & E1 & Hg1 & Hts1 & Hm1 & Hs1 & Hk1).
  rewrite Hr0, Ev, Ed in Hk1. destruct Hk1 as [px ->].
  destruct (fleet_step_next 1 1 _ _ g1 Hg1 Hts1 eq_refl (Hm1 1%nat Hn1) eq_refl) as (g2 & tb & cb & E2 & Hg2 & Hts2 & Hm2 & Hk2 & Hs2).
  rewrite Hs1, Hr0, Ev in Hk2. subst tb.
  destruct (fleet_step_next 1 1 _ _ g2 Hg2 Hts2 eq_refl (Hm2 _ (Hm1 1%nat Hn1)) eq_refl)
    as (g3 & tb & cc & E3 & Hg3 & Hts3 & Hm3 & -> & Hs3).
  destruct (fleet_step_next 1 1 _ _ g3 Hg3 Hts3 eq_refl (Hm3 _ (Hm2 _ (Hm1 1%nat Hn1))) eq_refl)
    as (g4 & tb & cd & E4 & Hg4 & Hts4 & Hm4 & Hs4 & ->).
  destruct (fleet_step_next 0 0 _ _ g4 Hg4 Hts4 eq_refl (Hm4 _ (Hm3 _ (Hm2 _ (Hm1 0%nat Hn0)))) eq_refl)
    as (g5 & tb & ce & E5 & Hg5 & Hts5 & Hm5 & -> & Hs5).
  destruct (fleet_step_next 0 0 _ _ g5 Hg5 Hts5 eq_refl (Hm5 _ (Hm4 _ (Hm3 _ (Hm2 _ (Hm1 0%nat Hn0))))) eq_refl)
    as (g6 & tb & cf & E6 & Hg6 & Hts6 & _ & Hs6 & ->).
  exists g4, g6. split_and!.
  - assert (fleet_run (crossing code url ttlMs hasTTL t1 t2) f0 = fleet_run [FRun 0; FRun 1; FRun 1; FRun 1] g0) as ->
      by (destruct f0 as [ns ts n]; cbn [f_calls] in Hc0; by subst ts).
    by rewrite (fleet_run_cons _ _ _ _ E1), (fleet_run_cons _ _ _ _ E2), (fleet_run_cons _ _ _ _ E3),
      (fleet_run_cons _ _ _ _ E4).
  - by rewrite Hts4.
  - rewrite Hs4, Hs3, Hs2 by exact (hfield_ne code). by rewrite decide_True.
  - by rewrite (fleet_run_cons _ _ _ _ E5), (fleet_run_cons _ _ _ _ E6).
  - by rewrite Hts6.
  - rewrite Hs6, Hs5, decide_True by done. destruct (decVal_range _ _ _ _ Ed) as [He Hc].
    apply row_val_enc; [|done]. destruct hasTTL; [apply expiry_int64|done].
Qed.

End Steps.

(** * Witnesses: two nodes over the server of [KvDemo.v] *)

Definition demo_fleet (lay : bool) (n : demo_net) : fleet demo_net := mkFleet [demo_node lay; demo_node lay] [] n.

Lemma demo_fleet_ok (lay : bool) (n : demo_net) :
  (forall code, is_Some (raw_row lay 1000000 (d_keys n) code)) -> fleet_ok lay 1000000 (demo_fleet lay n).
Proof.
  intros Ht. split_and!; [lia|exact Ht| |constructor].
  repeat (apply Forall_cons; split; [split_and!; [split; [constructor|cbn; unfold kvPoolSize; lia]|done|done]|]). constructor.
Qed.

Lemma demo_fleet_fresh (lay : bool) : fleet_fresh lay 1000000 (demo_fleet lay demo_net0).
Proof.
  split_and!; [|done|].
  - apply demo_fleet_ok. intros code. destruct (demo_node_ok lay) as (_ & _ & Ht). exact (Ht code).
  - repeat (apply Forall_cons; split; [by exists 100000, 5000|]). constructor.
Qed.

(** An alias is created at node 0 and looked up at node 1 while node 0 updates it. *)
Definition fleet_schedule : list fev :=
  [FCall 0 (KShorten demo_url demo_alias true 0 5 []); FRun 0;
   FCall 1 (KResolve demo_alias 6 6 6); FCall 0 (KUpdate demo_alias demo_alias 0 false 6 6);
   FRun 1; FRun 1; FRun 2; FRun 2; FLapse 7; FRun 1; FRun 1; FRun 2].

Lemma fleet_schedule_ok : Forall fev_ok fleet_schedule.
Proof.
  destruct demo_small as [Hu Ha]. repeat (apply Forall_cons; split; [try done|]); try apply List.Forall_nil;
    cbv; split_and!; try done; try lia.
Qed.

Lemma fleet_answers_were_rows_witness :
  exists f, fleet_run true fleet_schedule (demo_fleet true demo_net0) = Ret f
    /\ f_calls f !! 1%nat = Some (1%nat, KDone (KLink demo_alias 6 6 (Some demo_url)))
    /\ row_val (fleet_row true 1000000 f demo_alias) <> Some (demo_url, 0)
    /\ exists pre f1 e, pre `prefix_of` fleet_schedule /\ fleet_run true pre (demo_fleet true demo_net0) = Ret f1
         /\ row_val (fleet_row true 1000000 f1 demo_alias) = Some (demo_url, e) /\ (e = 0 \/ 6 < e \/ 6 < e).
Proof.
  assert (match fleet_run true fleet_schedule (demo_fleet true demo_net0) with
          | Ret f => match f_calls f !! 1%nat with
                     | Some (j, KDone (KLink code t1 t2 (Some u))) =>
                         (j =? 1)%nat && bool_decide (code = demo_alias) && bool_decide (u = demo_url) && (t1 =? 6) && (t2 =? 6)
                         && negb (bool_decide (row_val (fleet_row true 1000000 f demo_alias) = Some (demo_url, 0)))
                     | _ => false
                     end
          | _ => false
          end = true) as R by (vm_compute; reflexivity).
  pose proof (fun f => fleet_answers_were_rows true true 1000000 fleet_schedule (demo_fleet true demo_net0) f 1 1
    demo_alias demo_url 6 6 (demo_fleet_fresh true) fleet_schedule_ok) as P.
  destruct (fleet_run true fleet_schedule (demo_fleet true demo_net0)) as [f| |]; [|discriminate R..].
  exists f. split; [reflexivity|]. specialize (P f eq_refl).
  destruct (f_calls f !! 1%nat) as [[j [| | | | | | | | | | |[|code t1 t2 [u|]|]]]|]; try discriminate R.
  repeat (apply andb_true_iff in R as [R ?R]). apply bool_decide_eq_true_1 in R3, R4. subst code u.
  apply Z.eqb_eq in R1, R2. apply Nat.eqb_eq in R. subst t1 t2 j. split; [reflexivity|].
  split; [intros E; rewrite bool_decide_true in R0 by exact E; discriminate R0|]. exact (P eq_refl).
Defined.

(** The same alias at both nodes, and a drawn code. *)
Definition fleet_creations : list fev :=
  [FCall 0 (KShorten demo_url demo_alias true 0 5 []); FCall 1 (KShorten demo_alias demo_alias true 0 5 []);
   FCall 1 (KShorten demo_url [] false 0 5 [[x00; x00; x00; x00; x00; x00; x00]]); FRun 0; FRun 1; FRun 2].

Lemma fleet_creations_ok : Forall fev_ok fleet_creations /\ Forall fev_lasting fleet_creations.
Proof.
  split; repeat (apply Forall_cons; split; [try done|]); try apply List.Forall_nil; cbv; split_and!; try done; try lia.
  repeat constructor.
Qed.

Lemma demo_net0_lasting (lay : bool) : lasting (fleet_row lay 1000000 (demo_fleet lay demo_net0)).
Proof. intros code u e. unfold fleet_row. pose proof (demo_rows lay code) as Hr. cbn [f_net demo_fleet]. unfold rows in Hr. cbn in Hr. cbn. by rewrite Hr. Qed.

Lemma fleet_codes_distinct_witness :
  exists f, fleet_run true fleet_creations (demo_fleet false demo_net0) = Ret f
    /\ f_calls f !! 0%nat = Some (0%nat, KDone (KCode demo_alias)) /\ f_calls f !! 1%nat = Some (1%nat, KDone (KCode []))
    /\ is_Some (fleet_row false 1000000 f demo_alias).
Proof.
  assert (match fleet_run true fleet_creations (demo_fleet false demo_net0) with
          | Ret f => match f_calls f !! 0%nat, f_calls f !! 1%nat with
                     | Some (j, KDone (KCode code)), Some (j', KDone (KCode [])) =>
                         (j =? 0)%nat && (j' =? 1)%nat && bool_decide (code = demo_alias)
                     | _, _ => false
                     end
          | _ => false
          end = true) as R by (vm_compute; reflexivity).
  pose proof (fun f => fleet_codes_distinct true false 1000000 fleet_creations (demo_fleet false demo_net0) f 0 0 0 0
    demo_alias (proj1 (demo_fleet_fresh false)) eq_refl (demo_net0_lasting false)
    (proj1 fleet_creations_ok) (proj2 fleet_creations_ok)) as P.
  destruct (fleet_run true fleet_creations (demo_fleet false demo_net0)) as [f| |]; [|discriminate R..].
  exists f. split; [reflexivity|]. specialize (P f eq_refl ltac:(discriminate)).
  destruct (f_calls f !! 0%nat) as [[j [| | | | | | | | | | |[code| |]]]|]; try discriminate R.
  destruct (f_calls f !! 1%nat) as [[j' [| | | | | | | | | | |[[|]| |]]]|]; try discriminate R.
  repeat (apply andb_true_iff in R as [R ?R]). apply bool_decide_eq_true_1 in R0. apply Nat.eqb_eq in R, R1. subst j j' code.
  split; [reflexivity|]. split; [reflexivity|]. exact (proj2 (proj2 (P eq_refl eq_refl))).
Defined.

(** The server with one link. *)
Definition demo_net1 : demo_net := (exec (set_args (lkey demo_alias) (encVal 0 5 demo_url) 0 true) demo_net0).2.

Lemma demo_net1_keys : keys demo_net1 = <[lkey demo_alias := VStr (encVal 0 5 demo_url)]> ∅.
Proof.
  pose proof (exec_set (lkey demo_alias) (encVal 0 5 demo_url) 0 true demo_net0) as P.
  change (keys demo_net0) with (∅ : gmap bytes rvalue) in P. rewrite lookup_empty in P.
  rewrite bool_decide_false in P by (by intros [? ?]). apply P. apply encVal_fits, demo_small.
Qed.

Lemma demo_net1_typed (code : bytes) : is_Some (raw_row false 1000000 (d_keys demo_net1) code).
Proof.
  change (d_keys demo_net1) with (keys demo_net1). rewrite demo_net1_keys. unfold raw_row.
  destruct (decide (lkey demo_alias = lkey code)) as [->|Hne]; [rewrite lookup_insert_eq|rewrite lookup_insert_ne, lookup_empty by done];
    by eexists.
Qed.

Lemma fleet_removed_link_returns_witness :
  exists f1 f2, fleet_run true (crossing demo_alias demo_alias 0 false 6 6) (demo_fleet false demo_net1) = Ret f1
    /\ f_calls f1 !! 1%nat = Some (1%nat, KDone (KMut MutOK)) /\ fleet_row false 1000000 f1 demo_alias = None
    /\ fleet_run true [FRun 0; FRun 0] f1 = Ret f2
    /\ f_calls f2 = [(0%nat, KDone (KMut MutOK)); (1%nat, KDone (KMut MutOK))]
    /\ row_val (fleet_row false 1000000 f2 demo_alias) = Some (demo_alias, 0).
Proof.
  apply (fleet_removed_link_returns true false 1000000 demo_alias demo_alias demo_url 0 0 false 6 6 (demo_fleet false demo_net1)).
  - apply demo_fleet_ok, demo_net1_typed.
  - reflexivity.
  - by eexists.
  - by eexists.
  - apply demo_small.
  - apply demo_small.
  - vm_compute. reflexivity.
Defined.

Lemma kv_thread_alone_witness :
  kthread_run true 1 (kstart (KShorten demo_url demo_alias true 0 5 [])) (demo_node true)
  = (let* (r, s') := kanswer true (KShorten demo_url demo_alias true 0 5 []) (init 0) (demo_node true) in Ret (KDone r, s')).
Proof. apply (kv_thread_alone true (KShorten demo_url demo_alias true 0 5 [])). simpl. lia. Defined.
