(* ===== verification/PebbleThreads.v ===== *)
(** * PebbleThreads: calls of the embedded backend running at the same time

    [pebblestore.go] takes no lock of its own around a call: each access to
    the database and each access to the cache is atomic, and other calls run in
    between. A call is a thread whose steps are these accesses. This file has
    the threads and the proof that a thread that runs alone does what the
    operation of [PebbleStore.v] does; [PebbleOverlap.v] interleaves them. *)

From S2P Require Import Prelude GoStd Base62 Store StoreSpec Float Metrics Codec KvCache Dirty PebbleStore PebbleSpec.
From stdpp Require Import options.

Inductive pcall :=
| CallShorten (url alias : bytes) (hasAlias : bool) (ttlMs now t : Z) (rnds : list bytes)
| CallResolve (code : bytes) (t1 t2 t3 : Z)
| CallUpdate (code url : bytes) (ttlMs : Z) (hasTTL : bool) (now : Z)
| CallRemove (code : bytes)
| CallSweep (now : Z).

(** What a call answers; a look-up with the clock readings it made. *)
Inductive pres :=
| PCode (code : bytes)
| PLink (code : bytes) (t1 t2 : Z) (url : option bytes)
| PMut (r : MutResult)
| PSwept.

Inductive pthread :=
| PGetAlias (url alias : bytes) (exp now t : Z)              (* put(alias): the look-up *)
| PSetAlias (url alias : bytes) (exp now t : Z)              (* put(alias): the write *)
| PGetDraw (url : bytes) (exp now t : Z) (rnds : list bytes)
| PSetDraw (url code : bytes) (exp now t : Z) (rnds : list bytes)
| PFill (url code : bytes) (exp t : Z) (k : pthread)         (* s.cache.put *)
| PHot (code : bytes) (t1 t2 t3 : Z)                         (* s.cache.get *)
| PRead (code : bytes) (t1 t2 t3 : Z)
| PBump (code : bytes) (k : pthread)
| PGetUpd (code url : bytes) (ttlMs : Z) (hasTTL : bool) (now : Z)
| PSetUpd (code url : bytes) (exp c : Z)
| PGetDel (code : bytes)
| PDel (code : bytes)
| PForget (code : bytes)                                     (* s.cache.remove *)
| PScan (now : Z)
| PSweep (dead : list bytes)
| PDone (r : pres).

Section PebbleThreads.
Context {db : Type} `{PebbleDB db} (hits : bool).

(** [put(code)], up to the look-up and from the write on. *)
Definition get_free (code : bytes) (free taken : pthread) (s : PebbleStore db) : pthread :=
  match getLink code s with Some _ => taken | None => free end.

Definition set_row (code url : bytes) (exp now : Z) (ok failed : pthread) (s : PebbleStore db) : pthread * PebbleStore db :=
  let '(b, d) := db_Set (lkey code) (encVal exp now url) (pdb s) in
  (if (b : bool) then ok else failed, set_pdb d s).

(** [Resolve] after the miss. *)
Definition read_row (code : bytes) (t1 t2 t3 : Z) (s : PebbleStore db) : pthread :=
  match getLink code s with
  | None => PDone (PLink code t1 t2 None)
  | Some v =>
      match decVal v with
      | None => PDone (PLink code t1 t2 None)
      | Some (e, _, u) =>
          if negb (e =? 0) && (e <=? t2) then PDone (PLink code t1 t2 None)
          else PFill u code e t3 (PBump code (PDone (PLink code t1 t2 (Some u))))
      end
  end.

Definition read_upd (code url : bytes) (ttlMs : Z) (hasTTL : bool) (now : Z) (s : PebbleStore db) : pthread :=
  match getLink code s with
  | None => PDone (PMut MutMissing)
  | Some v =>
      match decVal v with
      | None => PDone (PMut MutMissing)
      | Some (e, c, _) => PSetUpd code url (if hasTTL then expiry now ttlMs else e) c
      end
  end.

Definition scan_dead (now : Z) (s : PebbleStore db) : pthread :=
  match db_Iter l_lower l_upper (pdb s) with
  | None => PDone PSwept
  | Some kvs =>
      match List.filter (expired_row now) kvs with
      | [] => PDone PSwept
      | dead => PSweep (map fst dead)
      end
  end.

Definition pstep (t : pthread) (s : PebbleStore db) : go (pthread * PebbleStore db) :=
  match t with
  | PGetAlias url alias exp now t => Ret (get_free alias (PSetAlias url alias exp now t) (PDone (PCode [])) s, s)
  | PSetAlias url alias exp now t =>
      Ret (set_row alias url exp now (PFill url alias exp t (PDone (PCode alias))) (PDone (PCode [])) s)
  | PGetDraw url exp now t [] => Diverge
  | PGetDraw url exp now t (buf :: rnds) =>
      let c := randCode s buf in
      Ret (get_free c (PSetDraw url c exp now t rnds) (PGetDraw url exp now t rnds) s, s)
  | PSetDraw url c exp now t rnds =>
      Ret (set_row c url exp now (PFill url c exp t (PDone (PCode c))) (PGetDraw url exp now t rnds) s)
  | PFill url code exp t k => Ret (k, set_pcache (cache_put t code url exp (pcache s)) s)
  | PHot code t1 t2 t3 =>
      let '(r, c) := cache_get t1 code (pcache s) in
      Ret (match r with
           | Some (u, _) => PBump code (PDone (PLink code t1 t2 (Some u)))
           | None => PRead code t1 t2 t3
           end, set_pcache c s)
  | PRead code t1 t2 t3 => Ret (read_row code t1 t2 t3 s, s)
  | PBump code k => Ret (k, bump hits code s)
  | PGetUpd code url ttlMs hasTTL now => Ret (read_upd code url ttlMs hasTTL now s, s)
  | PSetUpd code url exp c => Ret (set_row code url exp c (PForget code) (PDone (PMut MutMissing)) s)
  | PGetDel code => Ret (match getLink code s with Some _ => PDel code | None => PDone (PMut MutMissing) end, s)
  | PDel code => Ret (PForget code, set_pdb (db_Commit [BDelete (lkey code); BDelete (hkey code)] (pdb s)).2 s)
  | PForget code => Ret (PDone (PMut MutOK), set_pcache (cache_remove code (pcache s)) s)
  | PScan now => Ret (scan_dead now s, s)
  | PSweep dead => Ret (PDone PSwept, set_pdb (db_Commit (map BDelete dead) (pdb s)).2 s)
  | PDone r => Ret (PDone r, s)
  end.

Definition pstart (c : pcall) : pthread :=
  match c with
  | CallShorten url alias hasAlias ttlMs now t rnds =>
      if hasAlias then PGetAlias url alias (expiry now ttlMs) now t else PGetDraw url (expiry now ttlMs) now t rnds
  | CallResolve code t1 t2 t3 => PHot code t1 t2 t3
  | CallUpdate code url ttlMs hasTTL now => PGetUpd code url ttlMs hasTTL now
  | CallRemove code => PGetDel code
  | CallSweep now => PScan now
  end.

Fixpoint pthread_run (n : nat) (t : pthread) (s : PebbleStore db) : go (pthread * PebbleStore db) :=
  match n with
  | O => Ret (t, s)
  | S n => let* (t', s') := pstep t s in pthread_run n t' s'
  end.

(** Enough steps for a call that runs alone. *)
Definition pfuel (c : pcall) : nat :=
  match c with
  | CallShorten _ _ _ _ _ _ rnds => 3 + 2 * length rnds
  | CallResolve _ _ _ _ => 4
  | _ => 3
  end.

(** The operation of [PebbleStore.v]. *)
Definition panswer (c : pcall) (met : Metrics) (s : PebbleStore db) : go (pres * PebbleStore db) :=
  match c with
  | CallShorten url alias hasAlias ttlMs now t rnds =>
      let* (code, _, s') := Shorten url alias hasAlias ttlMs now t rnds met s in Ret (PCode code, s')
  | CallResolve code t1 t2 t3 =>
      let '(r, _, s') := Resolve hits code t1 t2 t3 0 met s in Ret (PLink code t1 t2 r, s')
  | CallUpdate code url ttlMs hasTTL now =>
      let '(r, s') := Update code url ttlMs hasTTL now s in Ret (PMut r, s')
  | CallRemove code => let '(r, s') := Remove code s in Ret (PMut r, s')
  | CallSweep now => Ret (PSwept, sweepExpired now s)
  end.

(** ** Alone *)

Lemma pthread_run_done (n : nat) (r : pres) (s : PebbleStore db) : pthread_run n (PDone r) s = Ret (PDone r, s).
Proof. induction n as [|n IH]; [done|exact IH]. Qed.

Lemma run_draws (url : bytes) (exp now t : Z) (rnds : list bytes) (s : PebbleStore db) (n : nat) :
  (3 + 2 * length rnds <= n)%nat ->
  pthread_run n (PGetDraw url exp now t rnds) s
  = (let* (c, _, s') := shorten_loop url exp now t rnds s in Ret (PDone (PCode c), s')).
Proof.
  revert s n. induction rnds as [|buf rnds IH]; intros s [|n] Hn; cbn [length] in Hn; [lia|done|lia|].
  cbn [pthread_run pstep go_bind shorten_loop]. unfold put_link, get_free.
  destruct (getLink (randCode s buf) s) as [v|]; [apply IH; lia|].
  destruct n as [|n]; [lia|]. cbn [pthread_run pstep]. unfold set_row.
  destruct (db_Set _ _ _) as [[] d]; cbn [go_bind]; [|apply IH; lia].
  destruct n as [|n]; [lia|]. cbn [pthread_run pstep go_bind]. apply pthread_run_done.
Qed.

Ltac peel n := destruct n as [|n]; [lia|]; cbn [pthread_run pstep go_bind]; try apply pthread_run_done.

(** a call that runs alone, access by access, ends within [pfuel] steps with
    the answer and the store of its operation. *)
Theorem pebble_thread_alone (c : pcall) (met : Metrics) (s : PebbleStore db) (n : nat) (Hn : (pfuel c <= n)%nat) :
  pthread_run n (pstart c) s = (let* (r, s') := panswer c met s in Ret (PDone r, s')).
Proof.
  destruct c as [url alias hasAlias ttlMs now t rnds|code t1 t2 t3|code url ttlMs hasTTL now|code|now];
    cbn [pfuel pstart panswer] in *.
  - unfold Shorten, Shorten_rnds. destruct hasAlias.
    + peel n. unfold get_free, put_link. destruct (getLink alias s); [apply pthread_run_done|].
      peel n. unfold set_row. destruct (db_Set _ _ _) as [[] d]; cbn [go_bind]; [|apply pthread_run_done].
      peel n.
    + rewrite run_draws by lia. by destruct (shorten_loop _ _ _ _ _ _) as [[[c rs] s']| |].
  - unfold Resolve. peel n. destruct (cache_get t1 code (pcache s)) as [[[u e]|] c]; cbn [go_bind].
    + peel n.
    + peel n. unfold read_row. destruct (getLink code _) as [v|]; [|apply pthread_run_done].
      destruct (decVal v) as [[[e c0] u]|]; [|apply pthread_run_done].
      destruct (_ && _); [apply pthread_run_done|]. peel n. peel n.
  - unfold Update. peel n. unfold read_upd. destruct (getLink code s) as [v|]; [|apply pthread_run_done].
    destruct (decVal v) as [[[e c] u]|]; [|apply pthread_run_done]. peel n. unfold set_row.
    destruct (db_Set _ _ _) as [[] d]; cbn [go_bind]; [|apply pthread_run_done]. peel n.
  - unfold Remove. peel n. destruct (getLink code s) as [v|]; [|apply pthread_run_done]. peel n. peel n.
  - unfold sweepExpired. peel n. unfold scan_dead.
    destruct (db_Iter _ _ _) as [kvs|]; [|apply pthread_run_done].
    destruct (List.filter _ kvs) as [|kv dead]; [apply pthread_run_done|]. peel n. rewrite map_map. apply pthread_run_done.
Qed.

End PebbleThreads.
