(* ===== verification/PebbleOverlap.v ===== *)
(** * PebbleOverlap: interleavings of the embedded backend's calls

    Any number of [PebbleThreads.v] threads over one store, with flushes and
    compactions in between. Whatever the schedule, a look-up answers a target
    that the row of its code had at some time of the run; but what a creation,
    a removal or a sweep found need not hold any more when it writes. *)

From S2P Require Import Prelude GoStd Base62 Store StoreSpec Float Metrics Codec KvCache Dirty PebbleStore PebbleSpec.
From S2P Require Import PebbleDemo CacheMap PebbleThreads.
From stdpp Require Import options.

Record pconc (db : Type) := mkPconc { pthreads : list pthread; pst : PebbleStore db }.
Arguments mkPconc {db} _ _.
Arguments pthreads {db} _.
Arguments pst {db} _.

Inductive pev :=
| PCall (c : pcall)   (* a call starts *)
| PRun (i : nat)      (* call [i] makes its next access *)
| PFlush | PCompact.

Section PebbleOverlap.
Context {db : Type} `{PebbleLaws db} `{MapOrder} (hits : bool).

Definition pconc_step (e : pev) (c : pconc db) : go (pconc db) :=
  let '(mkPconc ts s) := c in
  match e with
  | PCall q => Ret (mkPconc (ts ++ [pstart q]) s)
  | PRun i =>
      match ts !! i with
      | Some t => let* (t', s') := pstep hits t s in Ret (mkPconc (<[i := t']> ts) s')
      | None => Ret c
      end
  | PFlush => Ret (mkPconc ts (flushHits s))
  | PCompact => Ret (mkPconc ts (Compact s))
  end.

Definition pconc_run (es : list pev) (c : pconc db) : go (pconc db) := go_fold pconc_step es c.

Definition pev_ok (e : pev) : Prop :=
  match e with PCall (CallShorten _ _ _ _ now _ _) => is_int64 now | _ => True end.

(** ** Answers *)

(** The link that the row of [code] is, in a state of the run. *)
Definition shown_at (c : pconc db) (code u : bytes) (e : Z) : Prop := row_val (prow (pst c) code) = Some (u, e).

(** [W code u e]: the row of [code] was the link [(u, e)] at some time. *)
Fixpoint thread_saw (W : bytes -> bytes -> Z -> Prop) (t : pthread) : Prop :=
  match t with
  | PGetAlias _ _ exp now _ | PSetAlias _ _ exp now _ | PGetDraw _ exp now _ _ | PSetDraw _ _ exp now _ _ =>
      is_int64 exp /\ is_int64 now
  | PFill url code exp _ k => W code url exp /\ thread_saw W k
  | PBump _ k => thread_saw W k
  | PDone (PLink code t1 t2 (Some u)) => exists e, W code u e /\ (e = 0 \/ t1 < e \/ t2 < e)
  | _ => True
  end.

Record saw (W : bytes -> bytes -> Z -> Prop) (c : pconc db) : Prop := {
  saw_cache : cache_within W (pcache (pst c));
  saw_threads : Forall (thread_saw W) (pthreads c);
  saw_rows : forall code u e, shown_at c code u e -> W code u e
}.

Lemma thread_saw_mono (W W' : bytes -> bytes -> Z -> Prop) (t : pthread) :
  (forall code u e, W code u e -> W' code u e) -> thread_saw W t -> thread_saw W' t.
Proof.
  intros HW. induction t as [| | | |url code exp t k IH| | |code k IH| | | | | | | |r]; cbn; try done.
  - intros [? ?]. auto.
  - destruct r as [|code t1 t2 [u|]| |]; try done. intros (e & ? & ?). eauto.
Qed.

(** What one access does: nothing to the rows, or a row of what it wrote. *)
Lemma pstep_saw (W : bytes -> bytes -> Z -> Prop) (t t' : pthread) (ts : list pthread) (s s' : PebbleStore db) :
  saw W (mkPconc ts s) -> thread_saw W t -> pstep hits t s = Ret (t', s') ->
  forall W' : bytes -> bytes -> Z -> Prop, (forall code u e, W code u e -> W' code u e) ->
  (forall code u e, row_val (prow s' code) = Some (u, e) -> W' code u e) ->
  thread_saw W' t' /\ cache_within W' (pcache s').
Proof.
  intros [Hc _ Hr] Ht E W' HW HW'. cbn [pst pthreads] in *. apply (within_mono W W' _ HW) in Hc.
  pose proof (thread_saw_mono W W' t HW Ht) as Ht'.
  assert (forall code url exp now ok failed, is_int64 exp -> is_int64 now ->
    Ret (set_row code url exp now ok failed s) = Ret (t', s') ->
    (W' code url exp -> thread_saw W' ok) ->
    thread_saw W' t' /\ pcache s' = pcache s) as Hset.
  { intros code url exp now ok failed He Hn Es Hthen. unfold set_row in Es.
    destruct (set_view (lkey code) (encVal exp now url) (pdb s)) as (d' & Ed & Hv). rewrite Ed in Es.
    injection Es as <- <-. split; [|done]. apply Hthen, HW'. unfold prow. cbn [pdb set_pdb].
    rewrite Hv, lookup_insert_eq. by apply row_val_enc. }
  destruct t as [url alias exp now t|url alias exp now t|url exp now t [|buf rnds]|url code exp now t rnds
    |url code exp t k|code t1 t2 t3|code t1 t2 t3|code k|code url ttlMs hasTTL now|code url exp c|code|code|code
    |now|dead|r]; cbn [pstep] in E; try discriminate E.
  - injection E as <- <-. unfold get_free. destruct (getLink _ s); by split_and!.
  - destruct Ht' as [He Hn]. destruct (Hset _ _ _ _ _ _ He Hn E) as [Ht1 ->]; [by intros; cbn|by split_and!].
  - injection E as <- <-. unfold get_free. destruct (getLink _ s); by split_and!.
  - destruct Ht' as [He Hn]. destruct (Hset _ _ _ _ _ _ He Hn E) as [Ht1 ->]; [by intros; cbn|by split_and!].
  - injection E as <- <-. destruct Ht' as [Hw Hk]. split; [done|]. by apply (within_step W' _ (CPut t code url exp)).
  - pose proof (within_step W' _ (CGet t1 code) Hc I) as Hc1. pose proof (within_hit W' (pcache s) t1 code) as Hh. cbn [cstep] in Hc1.
    destruct (cache_get t1 code (pcache s)) as [o c] eqn:Eg. injection E as <- <-. split; [|done].
    destruct o as [[u e]|]; [|done]. destruct (Hh u e Hc eq_refl) as [Hw He]. exists e. tauto.
  - injection E as <- <-. split; [|done]. unfold read_row. rewrite getLink_view. fold (prow s code).
    pose proof (Hr code) as Hrow. unfold shown_at in Hrow. cbn [pst] in Hrow.
    destruct (prow s code) as [v|]; [|done]. cbn [row_val] in Hrow.
    destruct (decVal v) as [[[e c] u]|]; [|done]. destruct (_ && _) eqn:El; [done|]. cbn.
    assert (W' code u e) as Hwu by (by apply HW, Hrow). split; [done|]. exists e. split; [done|]. lia.
  - injection E as <- <-. unfold bump. destruct hits; by split_and!.
  - injection E as <- <-. split; [|done]. unfold read_upd. destruct (getLink _ s); [|done].
    by destruct (decVal _) as [[[? ?] ?]|].
  - unfold set_row in E. destruct (db_Set _ _ _) as [[] d]; injection E as <- <-; by split_and!.
  - injection E as <- <-. destruct (getLink _ s); by split_and!.
  - injection E as <- <-. by split_and!.
  - injection E as <- <-. split; [done|]. by apply (within_step W' _ (CRemove code)).
  - injection E as <- <-. split; [|done]. unfold scan_dead. destruct (db_Iter _ _ _) as [kvs|]; [|done].
    by destruct (List.filter _ kvs).
  - injection E as <- <-. by split_and!.
  - injection E as <- <-. by split_and!.
Qed.

Lemma pconc_step_saw (W W' : bytes -> bytes -> Z -> Prop) (e : pev) (c c' : pconc db) :
  saw W c -> pev_ok e -> pconc_step e c = Ret c' ->
  (forall code u e, W code u e -> W' code u e) -> (forall code u e, shown_at c' code u e -> W' code u e) -> saw W' c'.
Proof.
  destruct c as [ts s]. intros Hs Hok E HW HW'. pose proof Hs as [Hc Hts Hr]. cbn [pst pthreads] in *.
  assert (Forall (thread_saw W') ts) as Hts'
    by (eapply Forall_impl; [exact Hts|]; intros t; by apply thread_saw_mono).
  apply (within_mono W W' _ HW) in Hc. destruct e as [q|i| |]; cbn [pconc_step] in E.
  - injection E as <-. split; try done. cbn [pthreads]. apply Forall_app. split; [done|]. apply Forall_singleton.
    destruct q; try done. cbn in Hok. pose proof (expiry_int64 now ttlMs). by destruct hasAlias.
  - destruct (ts !! i) as [t|] eqn:Ei; [|by injection E as <-].
    destruct (pstep hits t s) as [[t' s']| |] eqn:Es; cbn [go_bind] in E; [|done|done]. injection E as <-.
    destruct (pstep_saw W t t' ts s s' Hs) with (W' := W') as [Ht' Hc']; try done.
    { rewrite Forall_forall in Hts. apply Hts. by eapply list_elem_of_lookup_2. }
    split; [done| |done]. cbn [pthreads]. by apply Forall_insert.
  - injection E as <-. destruct (flushHits_view s) as (_ & _ & Ec & _).
    split; cbn [pst pthreads] in *; rewrite ?Ec; done.
  - injection E as <-. by split.
Qed.

Lemma pconc_run_snoc (es : list pev) (e : pev) (c : pconc db) :
  pconc_run (es ++ [e]) c = (let* c1 := pconc_run es c in pconc_step e c1).
Proof.
  unfold pconc_run. rewrite go_fold_app. destruct (go_fold pconc_step es c) as [c1| |]; [|done|done].
  cbn [go_bind go_fold]. by destruct (pconc_step e c1).
Qed.

(** The row of [code] was [(u, e)] after some part of the run. *)
Definition was_row (es : list pev) (c0 : pconc db) (code u : bytes) (e : Z) : Prop :=
  exists pre c1, pre `prefix_of` es /\ pconc_run pre c0 = Ret c1 /\ shown_at c1 code u e.

Lemma pconc_run_saw (es : list pev) (c0 c : pconc db) :
  saw (was_row [] c0) c0 -> Forall pev_ok es -> pconc_run es c0 = Ret c -> saw (was_row es c0) c.
Proof.
  intros Hs0. revert c. induction es as [|e es IH] using rev_ind; intros c Hok E.
  - by injection E as <-.
  - apply Forall_app in Hok as [Hok He]. rewrite Forall_singleton in He. pose proof E as E0.
    rewrite pconc_run_snoc in E. destruct (pconc_run es c0) as [c1| |] eqn:E1; cbn [go_bind] in E; [|done|done].
    eapply pconc_step_saw; [by apply IH|exact He|exact E| |].
    + intros code u x (pre & c2 & Hp & Hr). exists pre, c2. split; [by apply prefix_app_r|done].
    + intros code u x Hx. exists (es ++ [e]), c. by split_and!.
Qed.

Lemma saw_start (d : db) (instance cap ttl : Z) (s0 : PebbleStore db) :
  NewPebble (Some d) instance cap ttl = Ret (Some s0) -> saw (was_row [] (mkPconc [] s0)) (mkPconc [] s0).
Proof.
  unfold NewPebble. intros E.
  destruct (alpha_at _) as [p| |]; cbn [go_bind] in E; [|done|done]. injection E as <-. split; cbn [pst pthreads pcache].
  - apply within_new.
  - done.
  - intros code u e Hs. eexists [], _. split; [done|]. split; [reflexivity|exact Hs].
Qed.

(** C23: look-ups of the embedded backend answer links that exist or existed.
    However the calls interleave, a look-up that answers a target found it in
    the row of its code, or in the cache that got it from there: at some time
    of the run that row held this target with an expiry that was still to come
    at one of the look-up's readings of the clock. *)
Theorem pebble_answers_were_rows (d : db) (instance cap ttl : Z) (s0 : PebbleStore db) (es : list pev) (c : pconc db)
  (i : nat) (code u : bytes) (t1 t2 : Z)
  (HN : NewPebble (Some d) instance cap ttl = Ret (Some s0)) (Hok : Forall pev_ok es)
  (Hrun : pconc_run es (mkPconc [] s0) = Ret c)
  (Hi : pthreads c !! i = Some (PDone (PLink code t1 t2 (Some u)))) :
  exists pre c1 e, pre `prefix_of` es /\ pconc_run pre (mkPconc [] s0) = Ret c1
    /\ row_val (prow (pst c1) code) = Some (u, e) /\ (e = 0 \/ t1 < e \/ t2 < e).
Proof.
  pose proof (pconc_run_saw es _ c (saw_start d instance cap ttl s0 HN) Hok Hrun) as [_ Hts _].
  rewrite Forall_forall in Hts. apply list_elem_of_lookup_2 in Hi. apply Hts in Hi as (e & (pre & c1 & Hp & Hr & Hs) & He).
  exists pre, c1, e. by split_and!.
Qed.

(** ** One alias, two creations *)

(** Both look first, then both write. *)
Definition both_create (u1 u2 alias : bytes) (ttlMs now t : Z) : list pev :=
  [PCall (CallShorten u1 alias true ttlMs now t []); PCall (CallShorten u2 alias true ttlMs now t []);
   PRun 0; PRun 1; PRun 0; PRun 1; PRun 0; PRun 1].

(** the embedded backend can give one alias to two creations. From every state
    where the alias is free there is a schedule of two calls in which both
    answer the alias, as created, and only the target of the second is filed. *)
Theorem pebble_alias_given_twice (u1 u2 alias : bytes) (ttlMs now t : Z) (s : PebbleStore db)
  (Hnow : is_int64 now) (Hfree : prow s alias = None) :
  exists s', pconc_run (both_create u1 u2 alias ttlMs now t) (mkPconc [] s)
      = Ret (mkPconc [PDone (PCode alias); PDone (PCode alias)] s')
    /\ row_val (prow s' alias) = Some (u2, expiry now ttlMs).
Proof.
  unfold pconc_run, both_create.
  cbn [go_fold pconc_step pstart go_bind app lookup list_lookup insert list_insert pstep].
  unfold get_free. rewrite !getLink_view. unfold prow in Hfree. rewrite Hfree.
  cbn [go_fold pconc_step go_bind lookup list_lookup insert list_insert pstep]. unfold set_row.
  destruct (set_view (lkey alias) (encVal (expiry now ttlMs) now u1) (pdb s)) as (d1 & -> & Hv1).
  cbn [go_fold pconc_step go_bind lookup list_lookup insert list_insert pstep pdb set_pdb]. unfold set_row. cbn [pdb set_pdb].
  destruct (set_view (lkey alias) (encVal (expiry now ttlMs) now u2) d1) as (d2 & -> & Hv2).
  cbn [go_fold pconc_step go_bind lookup list_lookup insert list_insert pstep].
  eexists. split; [reflexivity|]. unfold prow. cbn [pdb set_pdb set_pcache]. rewrite Hv2, lookup_insert_eq.
  apply row_val_enc; [apply expiry_int64|done].
Qed.

(** ** A sweep and an update *)

(** Up to the point where the sweep has its list and the update is done. *)
Definition renewal (code url : bytes) (ttlMs now t : Z) : list pev :=
  [PCall (CallSweep now); PCall (CallUpdate code url ttlMs true t); PRun 0; PRun 1; PRun 1; PRun 1].

Lemma scan_dead_expired (code : bytes) (now : Z) (s : PebbleStore db) :
  row_expired now (prow s code) = true -> exists dead, scan_dead now s = PSweep dead /\ lkey code ∈ dead.
Proof.
  intros He. unfold scan_dead. destruct (iter_view (pdb s)) as (kvs & -> & _ & Hkvs).
  unfold prow in He. destruct (view (pdb s) !! lkey code) as [v|] eqn:Ev; [|done].
  assert ((lkey code, v) ∈ List.filter (expired_row now) kvs) as Hin.
  { apply list_elem_of_In, List.filter_In. split; [apply list_elem_of_In, Hkvs; by rewrite lkey_prefix|exact He]. }
  destruct (List.filter _ kvs) as [|kv dead]; [by apply elem_of_nil in Hin|]. eexists. split; [done|].
  change (lkey code) with (lkey code, v).1. by apply (list_elem_of_fmap_2 fst).
Qed.

(** the sweep can delete a link that has just been renewed. From every state
    with an expired row there is a schedule in which the sweep finds the row,
    an update gives it a new target and lifetime and answers that it is done,
    and the sweep then deletes it. *)
Theorem pebble_sweep_takes_renewed (code url : bytes) (ttlMs now t : Z) (s : PebbleStore db)
  (Hexp : row_expired now (prow s code) = true) :
  exists dead s1 s2, pconc_run (renewal code url ttlMs now t) (mkPconc [] s)
      = Ret (mkPconc [PSweep dead; PDone (PMut MutOK)] s1)
    /\ row_val (prow s1 code) = Some (url, expiry t ttlMs)
    /\ pconc_run [PRun 0] (mkPconc [PSweep dead; PDone (PMut MutOK)] s1)
       = Ret (mkPconc [PDone PSwept; PDone (PMut MutOK)] s2)
    /\ prow s2 code = None.
Proof.
  destruct (scan_dead_expired code now s Hexp) as (dead & Es & Hdead). unfold prow in Hexp.
  destruct (view (pdb s) !! lkey code) as [v|] eqn:Ev; [|done]. unfold row_expired, expired_row in Hexp. cbn [snd] in Hexp.
  destruct (decVal v) as [[[e c] u]|] eqn:Ed; [|done]. destruct (decVal_range _ _ _ _ Ed) as [_ Hc].
  destruct (set_view (lkey code) (encVal (expiry t ttlMs) c url) (pdb s)) as (d1 & Esd & Hv1).
  destruct (commit_view (map BDelete dead) d1) as (d2 & Ecd & Hv2).
  exists dead. eexists _, _. split_and!.
  - unfold pconc_run, renewal.
    cbn [go_fold pconc_step pstart go_bind app lookup list_lookup insert list_insert pstep]. rewrite Es.
    unfold read_upd. rewrite getLink_view, Ev, Ed.
    cbn [go_fold pconc_step go_bind lookup list_lookup insert list_insert pstep]. unfold set_row. rewrite Esd.
    cbn [go_fold pconc_step go_bind lookup list_lookup insert list_insert pstep]. reflexivity.
  - unfold prow. cbn [pdb set_pdb set_pcache]. rewrite Hv1, lookup_insert_eq.
    apply row_val_enc; [apply expiry_int64|done].
  - unfold pconc_run. cbn [go_fold pconc_step go_bind lookup list_lookup insert list_insert pstep]. reflexivity.
  - unfold prow. cbn [pdb set_pdb set_pcache]. rewrite Ecd. cbn [snd pdb set_pdb]. rewrite Hv2, foldl_deletes.
    by rewrite decide_True.
Qed.

(** ** A look-up and a removal *)

(** The look-up has read the row, the removal runs, the look-up fills the cache. *)
Definition late_fill (code : bytes) (t1 t2 t3 : Z) : list pev :=
  [PCall (CallResolve code t1 t2 t3); PCall (CallRemove code); PRun 0; PRun 0; PRun 1; PRun 1; PRun 1; PRun 0; PRun 0].

Lemma cache_get_found (now at' : Z) (code u : bytes) (e : Z) (c : kvCache) :
  c_m (cache_shard c code) !! code = Some (mkEnt u e at') ->
  c_ttl c <= 0 \/ int64 (now - at') <= c_ttl c -> e = 0 \/ now < e ->
  (cache_get now code c).1 = Some (u, e).
Proof.
  intros Hm Ht He. unfold cache_get. rewrite Hm. cbn [ce_at ce_e ce_u].
  replace ((0 <? c_ttl c) && (c_ttl c <? int64 (now - at'))) with false by (symmetry; apply andb_false_iff; lia).
  replace (negb (e =? 0) && (e <=? now)) with false by (symmetry; apply andb_false_iff; destruct He as [->|]; [by left|right; lia]).
  done.
Qed.

Lemma cstep_shards (c : kvCache) (o : cop) :
  length (c_shards (cstep c o)) = length (c_shards c) /\ c_ttl (cstep c o) = c_ttl c.
Proof.
  destruct o as [now code|now code u e|code]; cbn [cstep]; [|by cbn; rewrite length_insert..].
  unfold cache_get. destruct (c_m _ !! _); [|done]. destruct (_ && _); [by cbn; rewrite length_insert|]. by destruct (_ && _).
Qed.

(** a removed link can stay in the cache. From every state where a code has a
    live row and is not cached there is a schedule of a look-up and a removal in
    which the removal answers that it is done and the row is gone, and
    every look-up after both still answers the target, until the entry
    is stale or the link expires. *)
Theorem pebble_removed_link_cached (code u : bytes) (e t1 t2 t3 : Z) (s : PebbleStore db) (t1' t2' t3' us : Z) (met : Metrics)
  (Hc : length (c_shards (pcache s)) = numShards) (Hmiss : (cache_get t1 code (pcache s)).1 = None)
  (Hrow : live_row t2 (Some (prow s code)) = Some (u, e))
  (Hfresh : c_ttl (pcache s) <= 0 \/ int64 (t1' - t3) <= c_ttl (pcache s)) (Hlive : e = 0 \/ t1' < e) :
  exists s', pconc_run (late_fill code t1 t2 t3) (mkPconc [] s)
      = Ret (mkPconc [PDone (PLink code t1 t2 (Some u)); PDone (PMut MutOK)] s')
    /\ prow s' code = None
    /\ (Resolve hits code t1' t2' t3' us met s').1.1 = Some u.
Proof.
  unfold prow in Hrow. destruct (view (pdb s) !! lkey code) as [v|] eqn:Ev; [|done]. unfold live_row in Hrow.
  destruct (decVal v) as [[[e0 c0] u0]|] eqn:Ed; [|done]. destruct (negb (e0 =? 0) && (e0 <=? t2)) eqn:El; [done|].
  injection Hrow as -> ->. destruct (cache_get t1 code (pcache s)) as [o c1] eqn:Eg. cbn [fst] in Hmiss. subst o.
  destruct (commit_view [BDelete (lkey code); BDelete (hkey code)] (pdb s)) as (d1 & Ecd & Hv1).
  destruct (cstep_shards (pcache s) (CGet t1 code)) as [Hl1 Ht1]. cbn [cstep] in Hl1, Ht1. rewrite Eg in Hl1, Ht1. cbn [snd] in Hl1, Ht1.
  destruct (cstep_shards c1 (CRemove code)) as [Hl2 Ht2]. set (c2 := cache_remove code c1) in *. cbn [cstep] in Hl2, Ht2. fold c2 in Hl2, Ht2.
  destruct (cstep_shards c2 (CPut t3 code u e)) as [Hl3 Ht3]. set (c3 := cache_put t3 code u e c2) in *. cbn [cstep] in Hl3, Ht3. fold c3 in Hl3, Ht3.
  eexists. split_and!.
  - unfold pconc_run, late_fill.
    cbn [go_fold pconc_step pstart go_bind app lookup list_lookup insert list_insert pstep]. rewrite Eg.
    cbn [go_fold pconc_step go_bind lookup list_lookup insert list_insert pstep].
    unfold read_row. rewrite !getLink_view. cbn [pdb set_pcache]. rewrite Ev, Ed, El.
    cbn [go_fold pconc_step go_bind lookup list_lookup insert list_insert pstep pdb set_pcache set_pdb pcache].
    rewrite Ecd. cbn [snd]. fold c2. fold c3. reflexivity.
  - unfold prow, bump. destruct hits; cbn [pdb set_pdb set_pcache set_pdirty]; rewrite Hv1; cbn [foldl apply_bop];
      rewrite lookup_delete_ne by done; apply lookup_delete_eq.
  - assert ((cache_get t1' code c3).1 = Some (u, e)) as Hget.
    { apply (cache_get_found t1' t3); [apply cache_put_lookup; congruence|by rewrite Ht3, Ht2, Ht1|done]. }
    unfold Resolve, bump. destruct hits; cbn [pcache set_pcache set_pdirty set_pdb];
      destruct (cache_get t1' code c3) as [[[u' e']|] c4]; cbn in Hget; try discriminate; by injection Hget as -> _.
Qed.

End PebbleOverlap.

(** * Witnesses: on the map itself as the database *)

(** An alias is created, looked up by two calls that overlap with an update. *)
Definition demo_schedule : list pev :=
  [PCall (CallShorten demo_url palias true 0 5 5 []); PRun 0; PRun 0; PRun 0; PFlush;
   PCall (CallResolve palias 6 6 6); PCall (CallUpdate palias palias 0 false 6);
   PRun 1; PRun 2; PRun 2; PRun 1; PRun 2; PCompact].

Lemma demo_schedule_ok : Forall pev_ok demo_schedule.
Proof. repeat (apply Forall_cons; split; [try done|]); try apply List.Forall_nil. Defined.

Lemma pebble_answers_were_rows_witness :
  exists c, pconc_run true demo_schedule (mkPconc [] pnode0) = Ret c
    /\ pthreads c !! 1%nat = Some (PDone (PLink palias 6 6 (Some demo_url)))
    /\ row_val (prow (pst c) palias) <> Some (demo_url, 0)
    /\ exists pre c1 e, pre `prefix_of` demo_schedule /\ pconc_run true pre (mkPconc [] pnode0) = Ret c1
         /\ row_val (prow (pst c1) palias) = Some (demo_url, e) /\ (e = 0 \/ 6 < e \/ 6 < e).
Proof.
  assert (match pconc_run true demo_schedule (mkPconc [] pnode0) with
          | Ret c => match pthreads c !! 1%nat with
                     | Some (PDone (PLink code t1 t2 (Some u))) =>
                         bool_decide (code = palias) && bool_decide (u = demo_url) && (t1 =? 6) && (t2 =? 6)
                         && negb (bool_decide (row_val (prow (pst c) palias) = Some (demo_url, 0)))
                     | _ => false
                     end
          | _ => false
          end = true) as R by (vm_compute; reflexivity).
  pose proof (fun c => pebble_answers_were_rows true ∅ 0 100000 5000 pnode0 demo_schedule c 1 palias demo_url 6 6
    NewPebble_demo demo_schedule_ok) as P.
  destruct (pconc_run true demo_schedule (mkPconc [] pnode0)) as [c| |]; [|discriminate R..].
  exists c. split; [reflexivity|]. specialize (P c eq_refl).
  destruct (pthreads c !! 1%nat) as [[| | | | | | | | | | | | | | |[|code t1 t2 [u|]| |]]|]; try discriminate R.
  repeat (apply andb_true_iff in R as [R ?R]). apply bool_decide_eq_true_1 in R, R3. subst code u.
  apply Z.eqb_eq in R1, R2. subst t1 t2. split; [reflexivity|].
  split; [intros E; rewrite bool_decide_true in R0 by exact E; discriminate R0|]. exact (P eq_refl).
Defined.

Lemma pebble_thread_alone_witness :
  pthread_run true 3 (pstart (CallShorten demo_url palias true 0 5 5 [])) pnode0
  = (let* (r, s') := panswer true (CallShorten demo_url palias true 0 5 5 []) (init 0) pnode0 in Ret (PDone r, s')).
Proof. apply (pebble_thread_alone true (CallShorten demo_url palias true 0 5 5 [])). simpl. lia. Defined.

Lemma pebble_alias_given_twice_witness :
  exists s', pconc_run true (both_create demo_url palias palias 0 5 5) (mkPconc [] pnode0)
      = Ret (mkPconc [PDone (PCode palias); PDone (PCode palias)] s')
    /\ row_val (prow s' palias) = Some (palias, 0).
Proof. apply (pebble_alias_given_twice true demo_url palias palias 0 5 5 pnode0); [unfold is_int64; lia|reflexivity]. Defined.

Lemma pebble_sweep_takes_renewed_witness :
  exists dead s1 s2, pconc_run true (renewal palias demo_url 100 20 20) (mkPconc [] pnode1)
      = Ret (mkPconc [PSweep dead; PDone (PMut MutOK)] s1)
    /\ row_val (prow s1 palias) = Some (demo_url, 120)
    /\ pconc_run true [PRun 0] (mkPconc [PSweep dead; PDone (PMut MutOK)] s1)
       = Ret (mkPconc [PDone PSwept; PDone (PMut MutOK)] s2)
    /\ prow s2 palias = None.
Proof. apply (pebble_sweep_takes_renewed true palias demo_url 100 20 20 pnode1). vm_compute. reflexivity. Defined.

Lemma pebble_removed_link_cached_witness :
  exists s', pconc_run true (late_fill [x63] 20 20 20) (mkPconc [] pnode1)
      = Ret (mkPconc [PDone (PLink [x63] 20 20 (Some demo_url)); PDone (PMut MutOK)] s')
    /\ prow s' [x63] = None /\ (Resolve true [x63] 30 30 30 0 (init 0) s').1.1 = Some demo_url.
Proof.
  apply (pebble_removed_link_cached true [x63] demo_url 0 20 20 20 pnode1 30 30 30 0 (init 0));
    [reflexivity|vm_compute; reflexivity|vm_compute; reflexivity|right; vm_compute; discriminate|by left].
Defined.
