(* ===== verification/LinkMap.v ===== *)
(** * LinkMap: what every store behind [store.API] promises

    The abstract specification of a backend: a map from codes to targets with
    expiry times, which [Shorten] and [ShortenMany] extend at free codes,
    [Update] and [Remove] change at one code, [Resolve] and [Stats] read, and
    from which the work behind the store takes nothing but links that have
    expired. [LinkMap] states it over [StoreAPI] and [Ticks], call by call;
    [runs_as_map] lifts it to runs against the abstract machine [aruns]. *)

From S2P Require Import Prelude GoStd Base62 LogLine Aof Store Float Metrics Batch Codec.
From S2P Require Import KvCache Dirty Api App Ticks CacheMap.
From stdpp Require Import options.

(** What a request passes on: checked URLs and codes, buffers of 7 random
    bytes, and clock readings that are int64s. *)
Definition url_ok (u : bytes) : Prop := Z.of_nat (length u) <= 2048.

Definition env_ok (ev : Env) : Prop :=
  Forall (fun b => length b = (codeLen - 1)%nat) (rnds ev) /\ is_int64 (n_st ev) /\ forall i, is_int64 (n_retry ev i).

(** No reading of the clock in a request is before [T]. *)
Definition since (T : Z) (ev : Env) : Prop :=
  T <= n_st ev /\ T <= n_p1 ev /\ T <= n_p2 ev /\ forall i, T <= n_retry ev i.

(** A link with expiry [e] lives, or has expired, at every reading of the clock. *)
Definition live_at (ev : Env) (e : Z) : Prop := e = 0 \/ (n_st ev < e /\ n_p1 ev < e /\ n_p2 ev < e).
Definition expired_at (ev : Env) (e : Z) : Prop := e <> 0 /\ e <= n_st ev /\ e <= n_p1 ev /\ e <= n_p2 ev.

(** The readings the links of a batch may be dated with. *)
Definition reading (ev : Env) (t : Z) : Prop := t = n_st ev \/ exists i, t = n_retry ev i.

Definition new_link (ttlMs t : Z) (u : bytes) : bytes * Z := (u, expiry t ttlMs).

(** The answer to a resolution of a link, and to a look at its statistics; for
    one that expires between the readings of the clock they may go either way. *)
Definition resolves (ev : Env) (l : option (bytes * Z)) (r : option bytes) : Prop :=
  match l, r with
  | None, r => r = None
  | Some (u, e), Some u' => u' = u /\ ~ expired_at ev e
  | Some (u, e), None => ~ live_at ev e
  end.

Definition shown (ev : Env) (code : bytes) (l : option (bytes * Z)) (r : option Link) : Prop :=
  match l, r with
  | None, r => r = None
  | Some (u, e), Some k => Code k = code /\ URL k = u /\ ExpiresAt k = (if e =? 0 then None else Some e)
  | Some (u, e), None => ~ live_at ev e
  end.

Section Laws.
Context {St : Type} `{StoreAPI St} `{Ticks St}.
Context (serving : Z -> St -> Prop) (link_at : St -> bytes -> option (bytes * Z)).

Definition same_links (st st' : St) : Prop := forall c, codeOK c = true -> link_at st' c = link_at st c.

(** [code] has the link [l] now, other codes what they had. *)
Definition filed (code : bytes) (l : option (bytes * Z)) (st st' : St) : Prop :=
  forall c, codeOK c = true -> link_at st' c = if decide (code = c) then l else link_at st c.

Definition Shorten_law : Prop := forall T ev url alias hasAlias ttlMs met st,
  serving T st -> env_ok ev -> since T ev -> url_ok url -> (hasAlias = true -> codeOK alias = true) ->
  match api_Shorten ev url alias hasAlias ttlMs met st with
  | Ret (code, _, st') => serving T st' /\
      if decide (code = []) then hasAlias = true /\ is_Some (link_at st alias) /\ same_links st st'
      else codeOK code = true /\ (hasAlias = true -> code = alias) /\ link_at st code = None
           /\ filed code (Some (url, expiry (n_st ev) ttlMs)) st st'
  | Diverge => hasAlias = false
  | Panic => False
  end.

Definition Many_law : Prop := forall T ev urls ttlMs met st,
  serving T st -> env_ok ev -> since T ev -> Forall url_ok urls ->
  length (rnd ev) = ((codeLen - 1) * length urls)%nat ->
  match api_ShortenMany ev urls ttlMs met st with
  | Ret (cs, _, st') => serving T st' /\ length cs = length urls /\ Forall (fun c => codeOK c = true) cs
      /\ files (new_link ttlMs) (reading ev) (zip urls cs) (link_at st) (link_at st')
  | Diverge => True
  | Panic => False
  end.

Definition Resolve_law : Prop := forall T ev code met st,
  serving T st -> since T ev -> codeOK code = true ->
  exists r met' st', api_Resolve ev code met st = Ret (r, met', st') /\ serving T st' /\ same_links st st'
    /\ resolves ev (link_at st code) r.

Definition Stats_law : Prop := forall T ev code st,
  serving T st -> since T ev -> codeOK code = true ->
  exists r st', api_Stats ev code st = Ret (r, st') /\ serving T st' /\ same_links st st'
    /\ shown ev code (link_at st code) r.

Definition Update_law : Prop := forall T ev code url ttlMs hasTTL st,
  serving T st -> env_ok ev -> since T ev -> codeOK code = true -> url_ok url ->
  exists r st', api_Update ev code url ttlMs hasTTL st = Ret (r, st') /\ serving T st'
    /\ match r with
       | MutOK => exists u e, link_at st code = Some (u, e)
           /\ filed code (Some (url, if hasTTL then expiry (n_st ev) ttlMs else e)) st st'
       | MutMissing => link_at st code = None /\ same_links st st'
       | MutRemote => False
       end.

Definition Remove_law : Prop := forall T ev code st,
  serving T st -> since T ev -> codeOK code = true ->
  exists r st', api_Remove ev code st = Ret (r, st') /\ serving T st'
    /\ match r with
       | MutOK => is_Some (link_at st code) /\ filed code None st st'
       | MutMissing => link_at st code = None /\ same_links st st'
       | MutRemote => False
       end.

(** Links are taken only when they have expired. *)
Definition swept (now : Z) (st st' : St) : Prop :=
  forall c, codeOK c = true -> link_at st' c = link_at st c
    \/ link_at st' c = None /\ exists u e, link_at st c = Some (u, e) /\ past now e.

Definition Tick_law : Prop := forall T c now st,
  serving T st -> T <= now ->
  match tick c now st with
  | Ret st' => serving now st' /\ swept now st st'
  | Diverge => c = CSweep
  | Panic => False
  end.

End Laws.

(** [serving T]: the store works as the laws say, from the time [T] on. *)
Class LinkMap (St : Type) `{StoreAPI St} `{Ticks St} := {
  serving : Z -> St -> Prop;
  link_at : St -> bytes -> option (bytes * Z);
  lm_Shorten : Shorten_law serving link_at;
  lm_Many : Many_law serving link_at;
  lm_Resolve : Resolve_law serving link_at;
  lm_Stats : Stats_law serving link_at;
  lm_Update : Update_law serving link_at;
  lm_Remove : Remove_law serving link_at;
  lm_tick : Tick_law serving link_at
}.

(** ** The abstract machine

    A map from codes to targets and expiry times, and what it answers. *)

Definition amap : Type := bytes -> option (bytes * Z).

Definition upd (code : bytes) (l : option (bytes * Z)) (m : amap) : amap :=
  fun c => if decide (code = c) then l else m c.

Inductive request :=
| QShorten (url alias : bytes) (hasAlias : bool) (ttlMs : Z)
| QShortenMany (urls : list bytes) (ttlMs : Z)
| QResolve (code : bytes)
| QStats (code : bytes)
| QUpdate (code url : bytes) (ttlMs : Z) (hasTTL : bool)
| QRemove (code : bytes).

Inductive answer :=
| ACode (code : bytes)
| ACodes (codes : list bytes)
| ATarget (target : option bytes)
| ALink (l : option Link)
| AMut (r : MutResult).

Inductive astep (ev : Env) (m : amap) : request -> answer -> amap -> Prop :=
| a_taken url alias ttlMs :
    is_Some (m alias) -> astep ev m (QShorten url alias true ttlMs) (ACode []) m
| a_filed url alias hasAlias ttlMs code :
    codeOK code = true -> m code = None -> (hasAlias = true -> code = alias) ->
    astep ev m (QShorten url alias hasAlias ttlMs) (ACode code) (upd code (Some (url, expiry (n_st ev) ttlMs)) m)
| a_batch urls ttlMs codes m' :
    length codes = length urls -> Forall (fun c => codeOK c = true) codes ->
    files (new_link ttlMs) (reading ev) (zip urls codes) m m' ->
    astep ev m (QShortenMany urls ttlMs) (ACodes codes) m'
| a_resolved code r :
    resolves ev (m code) r -> astep ev m (QResolve code) (ATarget r) m
| a_shown code r :
    shown ev code (m code) r -> astep ev m (QStats code) (ALink r) m
| a_updated code url ttlMs hasTTL u e :
    m code = Some (u, e) ->
    astep ev m (QUpdate code url ttlMs hasTTL) (AMut MutOK)
      (upd code (Some (url, if hasTTL then expiry (n_st ev) ttlMs else e)) m)
| a_removed code : is_Some (m code) -> astep ev m (QRemove code) (AMut MutOK) (upd code None m)
| a_no_update code url ttlMs hasTTL :
    m code = None -> astep ev m (QUpdate code url ttlMs hasTTL) (AMut MutMissing) m
| a_no_remove code : m code = None -> astep ev m (QRemove code) (AMut MutMissing) m.

Definition aswept (now : Z) (m m' : amap) : Prop :=
  forall c, m' c = m c \/ m' c = None /\ exists u e, m c = Some (u, e) /\ past now e.

(** A request, or a chore at a time. *)
Inductive event :=
| ECall (ev : Env) (q : request)
| ETick (c : chore) (now : Z).

Inductive aruns : amap -> list event -> list answer -> amap -> Prop :=
| ar_nil m : aruns m [] [] m
| ar_call m ev q a m1 es rs m2 :
    astep ev m q a m1 -> aruns m1 es rs m2 -> aruns m (ECall ev q :: es) (a :: rs) m2
| ar_tick m c now m1 es rs m2 :
    aswept now m m1 -> aruns m1 es rs m2 -> aruns m (ETick c now :: es) rs m2.

(** What the handler makes sure of before it calls the store. *)
Definition request_ok (ev : Env) (q : request) : Prop :=
  env_ok ev /\
  match q with
  | QShorten url alias hasAlias _ => url_ok url /\ (hasAlias = true -> codeOK alias = true)
  | QShortenMany urls _ => Forall url_ok urls /\ length (rnd ev) = ((codeLen - 1) * length urls)%nat
  | QResolve code | QStats code | QRemove code => codeOK code = true
  | QUpdate code url _ _ => codeOK code = true /\ url_ok url
  end.

(** The clock does not run backwards past a chore: what has expired when it
    runs has expired in whatever comes later. *)
Fixpoint in_time (T : Z) (es : list event) : Prop :=
  match es with
  | [] => True
  | ECall ev q :: es' => since T ev /\ request_ok ev q /\ in_time T es'
  | ETick _ now :: es' => T <= now /\ in_time now es'
  end.

Fixpoint end_time (T : Z) (es : list event) : Z :=
  match es with
  | [] => T
  | ECall _ _ :: es' => end_time T es'
  | ETick _ now :: es' => end_time now es'
  end.

Lemma end_time_later (es : list event) (T : Z) : in_time T es -> T <= end_time T es.
Proof.
  revert T. induction es as [|[ev q|c now] es IH]; intros T; cbn [in_time end_time]; [lia|naive_solver|].
  intros [? Hes]. specialize (IH now Hes). lia.
Qed.

Lemma in_time_app (T : Z) (es es' : list event) :
  in_time T (es ++ es') <-> in_time T es /\ in_time (end_time T es) es'.
Proof. revert T. induction es as [|[ev q|c now] es IH]; intros T; cbn [app in_time end_time]; rewrite ?IH; tauto. Qed.

Lemma aruns_app (m m1 m2 : amap) (es es' : list event) (rs rs' : list answer) :
  aruns m es rs m1 -> aruns m1 es' rs' m2 -> aruns m (es ++ es') (rs ++ rs') m2.
Proof. induction 1; cbn [app]; [done|econstructor; eauto..]. Qed.

(** The events that may run on: a search for free codes, whose random source
    can fail it, and a sweep, whose scans the server leads. *)
Definition may_run_on (e : event) : Prop :=
  match e with
  | ECall _ (QShorten _ _ false _) | ECall _ (QShortenMany _ _) | ETick CSweep _ => True
  | _ => False
  end.

Section Runs.
Context {St : Type} `{StoreAPI St} `{Ticks St}.

Definition call (ev : Env) (q : request) (met : Metrics) (st : St) : go (answer * Metrics * St) :=
  match q with
  | QShorten url alias hasAlias ttlMs =>
      let* (code, met', st') := api_Shorten ev url alias hasAlias ttlMs met st in Ret (ACode code, met', st')
  | QShortenMany urls ttlMs =>
      let* (codes, met', st') := api_ShortenMany ev urls ttlMs met st in Ret (ACodes codes, met', st')
  | QResolve code => let* (r, met', st') := api_Resolve ev code met st in Ret (ATarget r, met', st')
  | QStats code => let* (r, st') := api_Stats ev code st in Ret (ALink r, met, st')
  | QUpdate code url ttlMs hasTTL =>
      let* (r, st') := api_Update ev code url ttlMs hasTTL st in Ret (AMut r, met, st')
  | QRemove code => let* (r, st') := api_Remove ev code st in Ret (AMut r, met, st')
  end.

(** A run: each event one step of the store. *)
Fixpoint runs (es : list event) (met : Metrics) (st : St) : go (list answer * Metrics * St) :=
  match es with
  | [] => Ret ([], met, st)
  | ECall ev q :: es' =>
      let* (a, met1, st1) := call ev q met st in
      let* (rs, met2, st2) := runs es' met1 st1 in
      Ret (a :: rs, met2, st2)
  | ETick c now :: es' =>
      let* st1 := tick c now st in
      runs es' met st1
  end.

Context `{!LinkMap St}.

Definition represents (st : St) (m : amap) : Prop := forall c, codeOK c = true -> m c = link_at st c.

Lemma represents_upd (st st' : St) (m : amap) (code : bytes) (l : option (bytes * Z)) :
  represents st m -> filed link_at code l st st' -> represents st' (upd code l m).
Proof. intros Hm Hf c Hc. rewrite Hf by done. unfold upd. case_decide; [done|by apply Hm]. Qed.

Lemma represents_same (st st' : St) (m : amap) : represents st m -> same_links link_at st st' -> represents st' m.
Proof. intros Hm Hs c Hc. rewrite Hs by done. by apply Hm. Qed.

(** The map of [st] at the valid codes, [m] elsewhere. *)
Definition overlay (st : St) (m : amap) : amap := fun c => if codeOK c then link_at st c else m c.

Lemma represents_overlay (st : St) (m : amap) : represents st (overlay st m).
Proof. intros c Hc. unfold overlay. by rewrite Hc. Qed.

Lemma overlay_batch (ttlMs : Z) (ts : Z -> Prop) (urls cs : list bytes) (st st' : St) (m : amap) :
  represents st m -> length cs = length urls -> Forall (fun c => codeOK c = true) cs ->
  files (new_link ttlMs) ts (zip urls cs) (link_at st) (link_at st') ->
  files (new_link ttlMs) ts (zip urls cs) m (overlay st' m).
Proof.
  intros Hm Hlen Hok [Hn Hf]. rewrite Forall_forall in Hok. split.
  - intros u c Hin. rewrite Hm; [by eapply Hn|]. apply Hok. by apply elem_of_zip_r in Hin.
  - intros x. unfold overlay. destruct (codeOK x) eqn:Ex; [by rewrite Hm|]. left. split; [|done].
    rewrite snd_zip by lia. intros Hx%Hok. congruence.
Qed.

Lemma overlay_swept (now : Z) (st st' : St) (m : amap) :
  represents st m -> swept link_at now st st' -> aswept now m (overlay st' m).
Proof.
  intros Hm Hs c. unfold overlay. destruct (codeOK c) eqn:Ec; [|by left].
  pose proof (Hs c Ec) as P. by rewrite <- (Hm c Ec) in P.
Qed.

Lemma call_as_map (T : Z) (ev : Env) (q : request) (met : Metrics) (st : St) (m : amap) :
  serving T st -> since T ev -> request_ok ev q -> represents st m ->
  match call ev q met st with
  | Ret (a, _, st') => serving T st' /\ exists m', astep ev m q a m' /\ represents st' m'
  | Diverge => may_run_on (ECall ev q)
  | Panic => False
  end.
Proof.
  intros Hs HT [He Hq] Hm.
  destruct q as [url alias hasAlias ttlMs|urls ttlMs|code|code|code url ttlMs hasTTL|code]; cbn [call] in *.
  - destruct Hq as [Hu Ha]. pose proof (lm_Shorten T ev url alias hasAlias ttlMs met st Hs He HT Hu Ha) as P.
    destruct (api_Shorten _ _ _ _ _ _ _) as [[[code met'] st']| |]; cbn [go_bind]; [|done|by subst hasAlias].
    destruct P as [Hs' P]. split; [done|]. destruct (decide (code = [])) as [->|Hne].
    + destruct P as (-> & Ht & Hsame). exists m. split; [|by eapply represents_same].
      constructor. by rewrite Hm by by apply Ha.
    + destruct P as (Hc & Hal & Hfree & Hf). eexists. split; [|by eapply represents_upd].
      constructor; [done|by rewrite Hm|done].
  - destruct Hq as [Hu Hr]. pose proof (lm_Many T ev urls ttlMs met st Hs He HT Hu Hr) as P.
    destruct (api_ShortenMany _ _ _ _ _) as [[[cs met'] st']| |]; cbn [go_bind]; [|done|done].
    destruct P as (Hs' & Hlen & Hok & Hf). split; [done|]. exists (overlay st' m).
    split; [|apply represents_overlay]. constructor; [done..|]. by eapply overlay_batch.
  - destruct (lm_Resolve T ev code met st Hs HT Hq) as (r & met' & st' & -> & Hs' & Hsame & Hr). cbn [go_bind].
    split; [done|]. exists m. split; [constructor; by rewrite Hm|by eapply represents_same].
  - destruct (lm_Stats T ev code st Hs HT Hq) as (r & st' & -> & Hs' & Hsame & Hr). cbn [go_bind].
    split; [done|]. exists m. split; [constructor; by rewrite Hm|by eapply represents_same].
  - destruct Hq as [Hc Hu].
    destruct (lm_Update T ev code url ttlMs hasTTL st Hs He HT Hc Hu) as (r & st' & -> & Hs' & P). cbn [go_bind].
    split; [done|]. destruct r; [| |done].
    + destruct P as (u & e & Hl & Hf). eexists. split; [|by eapply represents_upd]. econstructor. by rewrite Hm.
    + destruct P as [Hl Hsame]. exists m. split; [|by eapply represents_same]. constructor. by rewrite Hm.
  - destruct (lm_Remove T ev code st Hs HT Hq) as (r & st' & -> & Hs' & P). cbn [go_bind].
    split; [done|]. destruct r; [| |done].
    + destruct P as [Hl Hf]. eexists. split; [|by eapply represents_upd]. constructor. by rewrite Hm.
    + destruct P as [Hl Hsame]. exists m. split; [|by eapply represents_same]. constructor. by rewrite Hm.
Qed.

(** A store answers every run as the abstract machine does. *)
Lemma runs_as_map (es : list event) (T : Z) (met : Metrics) (st : St) (m : amap) :
  serving T st -> in_time T es -> represents st m ->
  match runs es met st with
  | Ret (rs, _, st') => serving (end_time T es) st' /\ exists m', aruns m es rs m' /\ represents st' m'
  | Diverge => exists e, e ∈ es /\ may_run_on e
  | Panic => False
  end.
Proof.
  revert T met st m. induction es as [|[ev q|c now] es IH]; intros T met st m Hs; cbn [in_time runs end_time].
  { intros _ Hm. split; [done|]. exists m. split; [constructor|done]. }
  - intros (HT & Hq & Hes) Hm. pose proof (call_as_map T ev q met st m Hs HT Hq Hm) as P.
    destruct (call ev q met st) as [[[a met1] st1]| |]; cbn [go_bind]; [|done|eexists; by split; [left|]].
    destruct P as (Hs1 & m1 & Ha & Hm1). specialize (IH T met1 st1 m1 Hs1 Hes Hm1).
    destruct (runs es met1 st1) as [[[rs met2] st2]| |]; cbn [go_bind]; [|done|].
    + destruct IH as (Hs2 & m2 & Har & Hm2). split; [done|]. exists m2. split; [by econstructor|done].
    + destruct IH as (e & Hin & He). exists e. by split; [right|].
  - intros [HT Hes] Hm. pose proof (lm_tick T c now st Hs HT) as P.
    destruct (tick c now st) as [st1| |]; cbn [go_bind]; [|done|subst c; eexists; by split; [left|]].
    destruct P as [Hs1 Hsw]. specialize (IH now met st1 (overlay st1 m) Hs1 Hes (represents_overlay st1 m)).
    destruct (runs es met st1) as [[[rs met2] st2]| |]; [|done|].
    + destruct IH as (Hs2 & m2 & Har & Hm2). split; [done|]. exists m2. split; [|done].
      econstructor; [by eapply overlay_swept|done].
    + destruct IH as (e & Hin & He). exists e. by split; [right|].
Qed.

End Runs.

(** ** What runs leave of one link *)

(** The events that leave a link alone while it lives, and those that make none. *)
Definition spares (code : bytes) (e : event) : Prop :=
  match e with
  | ECall _ (QUpdate c _ _ _) | ECall _ (QRemove c) => c <> code
  | _ => True
  end.

Definition makes_none (e : event) : Prop :=
  match e with
  | ECall _ (QShorten _ _ _ _) | ECall _ (QShortenMany _ _) | ECall _ (QUpdate _ _ _ _) => False
  | _ => True
  end.

Lemma astep_spares (ev : Env) (m m' : amap) (q : request) (a : answer) (code : bytes) (l : bytes * Z) :
  astep ev m q a m' -> spares code (ECall ev q) -> m code = Some l -> m' code = Some l.
Proof.
  intros Ha Hsp Hl. destruct Ha as [| |? ? ? ? _ _ [Hn Hf]| | | | | |]; cbn in Hsp; try done;
    unfold upd; try (rewrite decide_False; [done|]; congruence).
  destruct (Hf code) as [[_ ->]|(u & t & Hin & _)]; [done|]. apply Hn in Hin. congruence.
Qed.

Lemma astep_makes_none (ev : Env) (m m' : amap) (q : request) (a : answer) (code : bytes) :
  astep ev m q a m' -> makes_none (ECall ev q) -> m' code = m code \/ m' code = None.
Proof.
  intros Ha Hq. destruct Ha; try done; try by left. unfold upd. case_decide; [by right|by left].
Qed.

(** A link outlives a run that spares it, and none comes back in a run that
    makes none. *)
Lemma aruns_link (m m' : amap) (es : list event) (rs : list answer) (T : Z) (code u : bytes) (e : Z) :
  aruns m es rs m' -> in_time T es -> Forall (spares code) es -> e = 0 \/ end_time T es < e ->
  m code = Some (u, e) -> m' code = Some (u, e).
Proof.
  intros Hr. revert T. induction Hr as [m|m ev q a m1 es rs m2 Ha _ IH|m c now m1 es rs m2 Hs _ IH];
    intros T; cbn [in_time end_time]; [done|..].
  - intros (_ & _ & Hes) [Hsp Hsps]%Forall_cons He Hm. apply (IH T); [done..|]. by eapply astep_spares.
  - intros [HT Hes] [_ Hsps]%Forall_cons He Hm. apply (IH now); [done..|].
    destruct (Hs code) as [->|(_ & u' & e' & E & Hp)]; [done|]. rewrite Hm in E. injection E as <- <-.
    pose proof (end_time_later es now Hes). unfold past in Hp. lia.
Qed.

Lemma aruns_makes_none (m m' : amap) (es : list event) (rs : list answer) (code : bytes) :
  aruns m es rs m' -> Forall makes_none es -> m' code = m code \/ m' code = None.
Proof.
  induction 1 as [m|m ev q a m1 es rs m2 Ha _ IH|m c now m1 es rs m2 Hs _ IH]; [by left|..];
    intros [Hq Hes]%Forall_cons.
  - destruct (IH Hes) as [->| ->]; [by eapply astep_makes_none|by right].
  - destruct (IH Hes) as [->| ->]; [|by right]. destruct (Hs code) as [->|[-> _]]; [by left|by right].
Qed.

Lemma url_small (u : bytes) : url_ok u -> small u.
Proof. unfold url_ok, small. lia. Qed.
#[export] Hint Resolve url_small : links.

(** What a resolution answers, from a cache that agrees or from the row. *)
Lemma resolved_link (T : Z) (ev : Env) (o : option bytes) (c : kvCache) (f : bytes -> option (bytes * Z))
    (code : bytes) (r : option bytes) :
  cache_agrees T f c -> since T ev -> codeOK code = true -> f code = row_val o ->
  match (cache_get (n_st ev) code c).1 with
  | Some (u, _) => r = Some u
  | None => r = fst <$> live_row (n_p1 ev) (Some o)
  end ->
  resolves ev (row_val o) r.
Proof.
  intros Ha (HT & _) Hc Ho Hr. destruct (cache_get (n_st ev) code c).1 as [[u e]|] eqn:Eg.
  - apply (agrees_hit T f) in Eg as [Hf Hl]; [|done..]. rewrite <- Ho, Hf. subst r. split; [done|].
    intros (He & Ht & _). specialize (Hl He). lia.
  - subst r. unfold live_row, row_val. destruct o as [v|]; [|done].
    destruct (decVal v) as [[[e c'] u]|]; [|done]. destruct (_ && _) eqn:E; cbn.
    + intros Hl. unfold live_at in Hl. lia.
    + split; [done|]. unfold expired_at. lia.
Qed.
