(* ===== verification/EngineLinks.v ===== *)
(** * EngineLinks: the in-process engine is a map of links

    A running instance without siblings, whose files agree with it, satisfies
    [LinkMap]: the map is its index, and none of its chores changes it. *)

From S2P Require Import Prelude GoStd Base62 LogLine Aof Store StoreSpec StoreRead Replay Alone Queue Durable Trace Session.
From S2P Require Import Float Metrics Batch Codec KvCache Dirty Api App AppSpec AppProps Ticks CacheMap LinkMap.
From stdpp Require Import options.

Section Engine.
Context `{MapOrder} `{SliceSort} (trackHits : bool).

Definition engine_serving (inst T : Z) (sd : Store * Disk) : Prop := kept false inst sd.1 sd.2.
Definition engine_link (sd : Store * Disk) (code : bytes) : option (bytes * Z) :=
  (fun e => (e_u e, e_e e)) <$> index sd.1 code.

Lemma codeOK_prefix (s : Store) : sane s -> codeOK [prefix s] = true.
Proof.
  intros Hs. destruct (alpha_at_spec (instance s) (sa_inst s Hs)) as (c & Ec & _ & Hin).
  rewrite (sa_prefix s Hs) in Ec. injection Ec as <-.
  assert (forallb (fun c => codeOK [c]) ALPHABET = true) as Hf by (vm_compute; reflexivity).
  rewrite forallb_forall in Hf. by apply Hf, list_elem_of_In.
Qed.

Lemma engine_link_ext (s s' : Store) (d d' : Disk) :
  (forall c, index s' c = index s c) -> forall c, engine_link (s', d') c = engine_link (s, d) c.
Proof. intros Hi c. unfold engine_link. cbn [fst]. by rewrite Hi. Qed.

Lemma engine_Shorten (inst : Z) : @Shorten_law _ (engine trackHits) (engine_serving inst) engine_link.
Proof.
  intros T ev url alias hasAlias ttlMs met st ((snap & log & Hdu) & <- & Hcl) (Hl & Hnow & _) _ _ Ha.
  cbn [api_Shorten engine]. pose proof (du_sane _ _ _ _ _ Hdu) as Hsa.
  pose proof (Shorten_cases url alias hasAlias ttlMs (n_st ev) (rnds ev) st.1 st.2 (sa_wf _ Hsa)) as S.
  pose proof (Shorten_durable false st.1 st.2 snap log url alias hasAlias ttlMs (n_st ev) (rnds ev) Hdu Hcl Hnow
    (fun Hh => codeOK_ok _ (Ha Hh))) as K.
  destruct (Shorten _ _ _ _ _ _ _ _) as [[[code s'] d']| |]; cbn [go_bind]; [|done|by destruct S].
  split; [done|].
  unfold engine_link, filed, same_links. cbn [fst].
  destruct S as [(-> & Hs & -> & -> & _)|(Hc & Hn & Hi & Hw')].
  - rewrite decide_True by done. split_and!; [done| |done]. by apply fmap_is_Some.
  - assert (codeOK code = true) as Hok.
    { destruct hasAlias; [subst code; by apply Ha|]. destruct Hc as (buf & Hb & ->).
      apply generated_codeOK; [by apply codeOK_prefix|]. rewrite Forall_forall in Hl. by apply Hl. }
    rewrite decide_False by (by intros ->). split_and!; [done|by intros ->|by rewrite Hn|].
    intros c _. rewrite Hi. by case_decide.
Qed.

(** The codes of a batch are generated ones. *)
Lemma many_loop_codes (now exp : Z) (urls : list bytes) (rnd : bytes) (s : Store) (rnds : list bytes) :
  codeOK [prefix s] = true -> length rnd = ((codeLen - 1) * length urls)%nat ->
  Forall (fun b => length b = (codeLen - 1)%nat) rnds ->
  match many_loop now exp urls rnd s rnds with
  | Ret (codes, _) => Forall (fun c => codeOK c = true) codes
  | _ => True
  end.
Proof.
  revert rnd s rnds. induction urls as [|u urls IH]; intros rnd s rnds Hp Hr Hl; cbn [many_loop]; [done|].
  unfold many_step. cbn [length] in Hr.
  assert (length (take (codeLen - 1) rnd) = 7%nat) as Hb by (rewrite length_take; unfold codeLen in *; lia).
  assert (length (drop (codeLen - 1) rnd) = ((codeLen - 1) * length urls)%nat) as Hd
    by (rewrite length_drop; unfold codeLen in *; lia).
  assert (forall code rs, codeOK code = true -> Forall (fun b => length b = (codeLen - 1)%nat) rs ->
    match (let* (codes, s2) := many_loop now exp urls (drop (codeLen - 1) rnd) (create code u now exp s) rs in
           Ret (code :: codes, s2)) with
    | Ret (codes, _) => Forall (fun c => codeOK c = true) codes | _ => True end) as Hnext.
  { intros code rs Hc Hrs. specialize (IH (drop (codeLen - 1) rnd) (create code u now exp s) rs Hp Hd Hrs).
    destruct (many_loop _ _ _ _ _ _) as [[codes s2]| |]; cbn [go_bind]; [by constructor|done|done]. }
  destruct (index s _) as [e|]; cbn [go_bind].
  - pose proof (free_code_spec s rnds) as F. destruct (free_code s rnds) as [[code rest]| |]; cbn [go_bind]; [|done|done].
    destruct F as (_ & pre & b & -> & -> & _). apply Forall_app in Hl as [_ [Hb' Hl]%Forall_cons].
    by apply Hnext; [apply generated_codeOK|].
  - by apply Hnext; [apply generated_codeOK|].
Qed.

Lemma engine_Many (inst : Z) : @Many_law _ (engine trackHits) (engine_serving inst) engine_link.
Proof.
  intros T ev urls ttlMs met st ((snap & log & Hdu) & <- & Hcl) (Hl & Hnow & _) _ Hu Hr.
  cbn [api_ShortenMany engine]. pose proof (du_sane _ _ _ _ _ Hdu) as Hsa.
  pose proof (ShortenMany_cases urls ttlMs (n_st ev) (rnd ev) (rnds ev) st.1 st.2 (sa_wf _ Hsa)) as S.
  pose proof (ShortenMany_durable false st.1 st.2 snap log urls ttlMs (n_st ev) (rnd ev) (rnds ev) Hdu Hcl Hnow) as K.
  pose proof (many_loop_codes (n_st ev) (expiry (n_st ev) ttlMs) urls (rnd ev) st.1 (rnds ev)
    (codeOK_prefix _ Hsa) Hr Hl) as C.
  revert S K. unfold ShortenMany. destruct (many_loop _ _ _ _ _ _) as [[codes s1]| |]; cbn [go_bind]; [|done|done].
  destruct (flush_if_big s1 st.2) as [s2 d1]. cbn [go_bind]. intros (Hlen & Hnd & Hfree & Hnew & Hold) K.
  split; [done|]. split_and!; [done|done|]. unfold engine_link. cbn [fst]. split.
  - intros u c Hin. rewrite Hfree; [done|]. by apply elem_of_zip_r in Hin.
  - intros x. destruct (decide (x ∈ codes)) as [Hx|Hx].
    + right. apply list_elem_of_lookup in Hx as [i Hi].
      destruct (lookup_lt_is_Some_2 urls i) as [u Hui]; [rewrite <- Hlen; by eapply lookup_lt_Some|].
      exists u, (n_st ev). split; [|split; [by left|by rewrite (Hnew i x u Hi Hui)]].
      apply list_elem_of_lookup. exists i. by rewrite lookup_zip_with, Hui, Hi.
    + left. rewrite snd_zip by lia. split; [done|]. by rewrite Hold.
Qed.

Lemma engine_Resolve (inst : Z) : @Resolve_law _ (engine trackHits) (engine_serving inst) engine_link.
Proof.
  intros T ev code met st ((snap & log & Hdu) & <- & Hcl) _ Hc. cbn [api_Resolve engine].
  pose proof (du_sane _ _ _ _ _ Hdu) as Hsa. pose proof (sa_wf _ Hsa) as Hw.
  pose proof (Resolve_durable false st.1 st.2 snap log trackHits code (n_p1 ev) (n_p2 ev) (n_st ev) Hdu Hcl) as K.
  revert K. unfold Resolve.
  destruct (resolve_miss_alone code (n_p1 ev) (n_p2 ev) st.2 st.1) as (s1 & -> & Hsame & _);
    [apply inst_int64, Hsa|apply Hsa|apply (du_filed _ _ _ _ _ Hdu)|]. cbn [go_bind].
  destruct Hsame as (Esh & _). assert (wf s1) as Hw1 by by apply (wf_same st.1).
  assert (forall c, index s1 c = index st.1 c) as Hidx by (intros c; by apply index_same).
  unfold engine_link, resolves. rewrite <- (Hidx code). destruct (index s1 code) as [en|] eqn:He; cbn [fmap option_fmap option_map].
  - destruct (live en (n_st ev)) eqn:El; cbn [go_bind]; intros K; eexists _, _, _; split; [done| |done|].
    + split; [done|]. split.
      * intros c _. cbn [fst]. rewrite <- Hidx. destruct trackHits; [|done]. rewrite index_count_hit by apply Hw1.
        case_decide; [subst c|done]. by rewrite He.
      * split; [done|]. unfold live in El. intros (Hz & Ht & _). lia.
    + split; [done|]. split; [intros c _; cbn [fst]; by rewrite Hidx|].
      unfold live in El. intros [Hz|(Ht & _)]; lia.
  - intros K. eexists _, _, _. split; [done|]. split; [done|].
    split; [|done]. intros c _. cbn [fst]. by rewrite Hidx.
Qed.

Lemma engine_Stats (inst : Z) : @Stats_law _ (engine trackHits) (engine_serving inst) engine_link.
Proof.
  intros T ev code st Hs _ _. cbn [api_Stats engine]. exists (Stats code st.1), st. split; [done|].
  split; [done|]. split; [done|]. unfold shown, engine_link, Stats.
  by destruct (index st.1 code).
Qed.

Lemma engine_Update (inst : Z) : @Update_law _ (engine trackHits) (engine_serving inst) engine_link.
Proof.
  intros T ev code url ttlMs hasTTL st ((snap & log & Hdu) & <- & Hcl) _ _ Hc _. cbn [api_Update engine].
  pose proof (du_sane _ _ _ _ _ Hdu) as Hsa.
  pose proof (Update_cases code url ttlMs hasTTL (n_st ev) st.1 (sa_wf _ Hsa)) as U.
  pose proof (Update_durable st.1 st.2 snap log code url ttlMs hasTTL (n_st ev) Hdu Hcl) as K.
  destruct (Update _ _ _ _ _ _) as [r s']. exists r, (s', st.2). split; [done|].
  split; [done|]. unfold filed, same_links, engine_link. cbn [fst].
  destruct (index st.1 code) as [en|] eqn:Ei; [|by destruct U as [-> ->]].
  destruct (sa_entries _ Hsa code en Ei) as (_ & _ & _ & Hi & _). rewrite Hi, Z.eqb_refl in U.
  cbv zeta in U. destruct U as (-> & Hidx & _). exists (e_u en), (e_e en). split; [done|].
  intros c _. rewrite Hidx. case_decide; [|done]. cbn. by destruct hasTTL.
Qed.

Lemma engine_Remove (inst : Z) : @Remove_law _ (engine trackHits) (engine_serving inst) engine_link.
Proof.
  intros T ev code st ((snap & log & Hdu) & <- & Hcl) _ Hc. cbn [api_Remove engine].
  pose proof (du_sane _ _ _ _ _ Hdu) as Hsa.
  pose proof (Remove_cases code st.1 (sa_wf _ Hsa)) as U.
  pose proof (Remove_durable st.1 st.2 snap log code Hdu Hcl) as K.
  destruct (Remove _ _) as [r s']. exists r, (s', st.2). split; [done|].
  split; [done|]. unfold filed, same_links, engine_link. cbn [fst].
  destruct (index st.1 code) as [en|] eqn:Ei; [|by destruct U as [-> ->]].
  destruct (sa_entries _ Hsa code en Ei) as (_ & _ & _ & Hi & _). rewrite Hi, Z.eqb_refl in U.
  destruct U as (-> & Hidx & _). split; [done|]. intros c _. rewrite Hidx. by case_decide.
Qed.

(** No chore of the engine changes its links. *)
Lemma engine_tick_same (c : chore) (now : Z) (s : Store) (d : Disk) (inst : Z) :
  kept false inst s d ->
  match engine_tick c now (s, d) with
  | Ret (s', d') => kept false inst s' d' /\ forall x, index s' x = index s x
  | _ => False
  end.
Proof.
  intros K. pose proof K as ((snap & log & Hdu) & <- & Hcl). destruct c; cbn [engine_tick]; rewrite ?Hcl.
  - pose proof (sstep_kept false OFlush s d _ K I ltac:(done)) as P. cbn [sstep] in P.
    pose proof (flush_durable false s d snap log Hdu) as F. cbv zeta in F. unfold Flush in *.
    destruct (flushLocked s d) as [s' d']. destruct F as (_ & Hi & _). split; [done|]. intros x. apply Hi.
  - pose proof (sstep_kept false OSync s d _ K I ltac:(done)) as P. cbn [sstep] in P.
    destruct (aof s) as [a|]; [|done]. by destruct (Sync d a).
  - pose proof (sstep_kept false (OPoll now) s d _ K I ltac:(done)) as P. cbn [sstep] in P.
    destruct (PollTails_alone now d s) as (s' & E & (Esh & _) & _); [apply (du_filed _ _ _ _ _ Hdu)|].
    rewrite E in *. cbn [go_bind] in *. split; [done|]. intros x. by apply index_same.
  - done.
  - pose proof (Compact_durable false s d snap log Hdu Hcl) as P. by destruct (Compact s d).
  - done.
Qed.

Lemma engine_Tick (inst : Z) : @Tick_law _ engine_ticks (engine_serving inst) engine_link.
Proof.
  intros T c now [s d] K _. pose proof (engine_tick_same c now s d inst K) as P.
  unfold tick, engine_ticks. destruct (engine_tick c now (s, d)) as [[s' d']| |]; [|done|done].
  destruct P as [K' Hi]. split; [done|]. intros x _. left. by apply engine_link_ext.
Qed.

#[export] Instance engine_links (inst : Z) : @LinkMap _ (engine trackHits) engine_ticks := {
  serving := engine_serving inst;
  link_at := engine_link;
  lm_Shorten := engine_Shorten inst;
  lm_Many := engine_Many inst;
  lm_Resolve := engine_Resolve inst;
  lm_Stats := engine_Stats inst;
  lm_Update := engine_Update inst;
  lm_Remove := engine_Remove inst;
  lm_tick := engine_Tick inst
}.

End Engine.
