(* ===== verification/KvLinks.v ===== *)
(** * KvLinks: the RESP backend is a map of links

    [KvStore], over any server that keeps [ExpiringServer], satisfies [LinkMap]:
    the map is the rows at the server, its cache agrees with them, and its
    flushes, its sweeps and the server's own expiry take only expired links. *)

From S2P Require Import Prelude GoStd Base62 Store StoreSpec Float Metrics Batch Codec KvCache Dirty Resp Kv.
From S2P Require Import KvStore KvRows KvSpec KvTicks KvBatch Api App AppProps Backends Ticks CacheMap LinkMap.
From stdpp Require Import options.

Section Links.
Context {net : Type} `{ExpiringServer net} `{MapOrder} `{SliceSort} (trackHits : bool) (rounds : nat).
Context (lay : bool) (bk : Z).

#[local] Set Default Proof Using "Type*".

Definition kv_link (s : KvStore net) (code : bytes) : option (bytes * Z) := row_val (kv_row s code).

(** A node that answers for its server's rows, in the layout it was given. *)
Definition configured (s : KvStore net) : Prop :=
  codeOK [kprefix s] = true /\ layoutHash s = lay /\ buckets s = bk.

Lemma configured_conf (s s' : KvStore net) : kv_conf s' = kv_conf s -> configured s -> configured s'.
Proof. unfold configured, kv_conf. by intros [= -> -> ->]. Qed.

Definition kv_serving (T : Z) (s : KvStore net) : Prop :=
  node_ok s /\ configured s /\ (forall c, codeOK c = true -> readable (kv_row s c))
  /\ dirty_ok (kdirty s) /\ cache_agrees T (kv_link s) (cache s).

Lemma kv_row_ext (s s' : KvStore net) (code : bytes) : rows s' code = rows s code -> kv_link s' code = kv_link s code.
Proof. unfold kv_link, kv_row. by intros ->. Qed.

Lemma readable_none (T : Z) (s : KvStore net) (code : bytes) :
  kv_serving T s -> codeOK code = true -> kv_link s code = None -> kv_row s code = None.
Proof.
  intros (_ & _ & Hr & _) Hc Hn. destruct (kv_row s code) as [v|] eqn:E; [|done]. exfalso.
  specialize (Hr code Hc). rewrite E in Hr. unfold kv_link in Hn. rewrite E in Hn.
  destruct (Hr ltac:(by eexists)) as [x Hx]. by rewrite Hx in Hn.
Qed.

(** One row written: to a value that is the link [l], if any. *)
Lemma kv_serving_row (T : Z) (s s' : KvStore net) (code : bytes) (o : option bytes) :
  kv_serving T s -> node_ok s' -> kv_conf s' = kv_conf s -> kdirty s' = kdirty s -> readable o ->
  (forall c, codeOK c = true -> rows s' c = if decide (code = c) then Some o else rows s c) ->
  cache_agrees T (kv_link s') (cache s') ->
  kv_serving T s' /\ filed kv_link code (row_val o) s s'.
Proof.
  intros (Hn & Hp & Hr & Hd & _) Hn' Hp' Hd' Ho Hrows Hc. split.
  - split_and!; [done|by eapply configured_conf| |by rewrite Hd'|done]. intros c Hcode. unfold kv_row. rewrite Hrows by done.
    case_decide; [done|]. by apply Hr.
  - intros c Hcode. unfold kv_link, kv_row. rewrite Hrows by done. by case_decide.
Qed.

Lemma kv_same_rows (s s' : KvStore net) :
  (forall c, codeOK c = true -> rows s' c = rows s c) -> same_links kv_link s s'.
Proof. intros Hr c Hc. by apply kv_row_ext, Hr. Qed.

Lemma kv_serving_same (T : Z) (s s' : KvStore net) :
  kv_serving T s -> node_ok s' -> kv_conf s' = kv_conf s -> dirty_ok (kdirty s') ->
  (forall c, codeOK c = true -> rows s' c = rows s c) ->
  cache_agrees T (kv_link s) (cache s') -> kv_serving T s'.
Proof.
  intros (Hn & Hp & Hr & _) Hn' Hp' Hd' Hrows Hc. split_and!; [done|by eapply configured_conf| |done|].
  - intros c Hcode. unfold kv_row. rewrite Hrows by done. by apply Hr.
  - eapply agrees_ext; [|exact Hc]. intros c x Hcode. by rewrite (kv_row_ext s s' c) by by apply Hrows.
Qed.

Lemma drawn_codeOK (s : KvStore net) (rnds : list bytes) (code : bytes) :
  codeOK [kprefix s] = true -> Forall (fun b => length b = (codeLen - 1)%nat) rnds -> draws s rnds code ->
  codeOK code = true.
Proof.
  rewrite Forall_forall. intros Hp Hl (b & Hb & ->). by apply generated_codeOK, Hl.
Qed.

Lemma kv_Shorten : @Shorten_law _ (kv_backend trackHits rounds) kv_serving kv_link.
Proof.
  intros T ev url alias hasAlias ttlMs met s Hs (Hl & Hnow & _) _ Hu Ha. pose proof Hs as (Hn & Hp & Hr & Hd & Hc).
  set (al := if hasAlias then alias else [x30]).
  assert (codeOK al = true) as Hal by (destruct hasAlias; [by apply Ha|done]).
  assert (al <> []) as Hne by (intros E; by rewrite E in Hal).
  assert (@api_Shorten _ (kv_backend trackHits rounds) ev url alias hasAlias ttlMs met s
          = KvStore.Shorten url al hasAlias ttlMs (n_st ev) (rnds ev) met s) as -> by (subst al; by destruct hasAlias).
  pose proof (kv_Shorten_serves url al hasAlias ttlMs (n_st ev) (rnds ev) met s Hn
    (url_small _ Hu) (codeOK_small _ Hal) Hne Hl) as P.
  destruct (KvStore.Shorten _ _ _ _ _ _ _ _) as [[[code met'] s']| |] eqn:E; [|done|by destruct P].
  destruct P as (k' & -> & Hn' & _ & P). destruct (decide (code = [])) as [_|Hcode].
  - destruct P as (-> & (v & Hv) & Hrows). cbv beta iota in al. subst al. split.
    + apply (kv_serving_same T s); [done..|by intros c _; apply Hrows|exact Hc].
    + split_and!; [done| |apply kv_same_rows; by intros c _; apply Hrows].
      pose proof (Hr alias Hal) as Hra. unfold kv_link, kv_row in *. rewrite Hv in *. apply Hra. by eexists.
  - destruct P as (Hal' & Hfree & Hrows).
    assert (codeOK code = true) as Hok.
    { destruct hasAlias; [by rewrite Hal'|by apply (drawn_codeOK s (rnds ev)); [apply Hp|..]]. }
    destruct (kv_serving_row T s (set_kv k' s) code (Some (encVal (expiry (n_st ev) ttlMs) (n_st ev) url)))
      as [Hs' Hf]; [done|done|done|done|auto with links goint|by intros c _; apply Hrows| |].
    { cbn [cache set_kv]. eapply agrees_ext; [|exact Hc]. intros c x Hcc Hx. unfold kv_link, kv_row in *.
      rewrite Hrows. case_decide as Ec; [subst c; by rewrite Hfree in Hx|done]. }
    rewrite row_val_enc in Hf by auto with goint. split; [done|]. split_and!; [done| | |done].
    + by intros ->.
    + unfold kv_link, kv_row. by rewrite Hfree.
Qed.

Lemma kv_Many : @Many_law _ (kv_backend trackHits rounds) kv_serving kv_link.
Proof.
  intros T ev urls ttlMs met s Hs (Hl & Hnow & Hret) _ Hu _. pose proof Hs as (Hn & Hp & Hr & Hd & Hc).
  cbn [api_ShortenMany kv_backend].
  pose proof (kv_ShortenMany_serves urls ttlMs (n_st ev) (n_retry ev) (rnds ev) met s Hn
    (Forall_impl _ _ _ Hu url_small) Hl) as P.
  destruct (KvStore.ShortenMany _ _ _ _ _ _ _) as [[[cs met'] s']| |]; [|done|done].
  destruct P as ([k' ->] & Hn' & Hlen & Hdraw & F).
  assert (forall t, reading ev t -> is_int64 t) as Ht by (intros t [->|[i ->]]; done).
  assert (forall t u, reading ev t -> row_val (Some (new_row ttlMs t u)) = Some (new_link ttlMs t u)) as Hv.
  { intros t u Hrt. apply row_val_enc; auto with goint. }
  assert (files (new_link ttlMs) (reading ev) (zip urls cs) (kv_link s) (kv_link (set_kv k' s))) as Fl.
  { by apply (files_map (new_row ttlMs) (new_link ttlMs) (reading ev) row_val). }
  split; [|split; [done|split; [|done]]].
  - split_and!; [done|done| |done|].
    + intros c Hok. destruct F as [_ F]. destruct (F c) as [[_ ->]|(u & t & _ & Hrt & ->)]; [by apply Hr|].
      intros _. by rewrite (Hv t u Hrt).
    + eapply agrees_ext; [|exact Hc]. intros c x _ Hx. destruct Fl as [Fn Fl].
      destruct (Fl c) as [[_ ->]|(u & t & Hin & _)]; [done|]. by rewrite (Fn u c Hin) in Hx.
  - apply Forall_forall. intros c Hin. apply (drawn_codeOK s (rnds ev)); [apply Hp|done|by apply Hdraw].
Qed.

Lemma kv_Resolve : @Resolve_law _ (kv_backend trackHits rounds) kv_serving kv_link.
Proof.
  intros T ev code met s Hs HT Hcode. pose proof Hs as (Hn & _ & _ & Hd & Hc).
  destruct (kv_Resolve_serves trackHits code (n_st ev) (n_p1 ev) (n_p2 ev) (n_us ev) met s Hn (codeOK_small _ Hcode))
    as (r & met' & s' & E & Hn' & Hrows & P & (Hp & Hdirty) & Hcache).
  exists r, met', s'. split; [exact E|]. rewrite (rows_kv_row s code Hn) in P, Hcache. split_and!.
  - apply (kv_serving_same T s); [done..| |by intros c _; apply Hrows|].
    + destruct Hdirty as [->| ->]; [done|]. apply dirty_ok_bump; auto with links.
    + destruct Hcache as [->|(u' & e' & Hl & ->)]; [by apply agrees_get|].
      apply (agrees_put _ (kv_link s)); [done| |by apply agrees_get]. by apply live_row_val in Hl.
  - apply kv_same_rows. by intros c _; apply Hrows.
  - apply (resolved_link T ev (kv_row s code) (cache s) (kv_link s) code r); [done..|].
    destruct (cache_get _ _ _).1 as [[u' e']|]; by destruct P.
Qed.

(** A read leaves a serving node. *)
Lemma kv_read (T : Z) (s : KvStore net) (k' : Kv net) :
  kv_serving T s -> synced k' -> keys (k_net k') = keys (k_net (kv s)) ->
  kv_serving T (set_kv k' s) /\ same_links kv_link s (set_kv k' s) /\ node_ok (set_kv k' s)
  /\ forall x, rows (set_kv k' s) x = rows s x.
Proof.
  intros Hs Hs' Ek. pose proof Hs as (Hn & _ & _ & Hd & Hc). destruct (node_ok_keys s k' Hn Hs' Ek) as [Hn' Hr'].
  split; [by apply (kv_serving_same T s)|]. split; [by apply kv_same_rows|done].
Qed.

(** The counter read for the statistics may be no number. *)
Lemma counter_read (s : KvStore net) (code : bytes) :
  node_ok s -> small code ->
  exists o k', with_kv s (if layoutHash s then Hget (bkey (buckets s) code) (hfield code) (kv s)
                          else Get (hkey code) (kv s)) = Ret (o, set_kv k' s)
    /\ synced k' /\ keys (k_net k') = keys (k_net (kv s)).
Proof.
  intros (Hs & Hb & Ht) Hc. unfold with_kv. specialize (Ht code). unfold rows, raw_row in Ht. destruct (layoutHash s).
  - destruct (hash_at _) as [h|] eqn:Eh; [|by destruct Ht].
    destruct (Hget_serves (bkey (buckets s) code) (hfield code) (kv s) h) as (k' & -> & P); [eauto with fitting..| |done|].
    + unfold small, fits, hfield in *. cbn [length app] in *. lia.
    + by eexists _, k'.
  - destruct (Get_reads (hkey code) (kv s)) as (o & k' & -> & P); [eauto with fitting..|]. by eexists _, k'.
Qed.

Lemma kv_Stats : @Stats_law _ (kv_backend trackHits rounds) kv_serving kv_link.
Proof.
  intros T ev code s Hs _ Hcode. pose proof Hs as (Hn & _ & _ & Hd & Hc). cbn [api_Stats kv_backend]. unfold KvStore.Stats.
  destruct (kvGet_serves code s (kv_row s code) Hn (codeOK_small _ Hcode) (rows_kv_row s code Hn)) as (k1 & -> & Hs1 & Ek1).
  cbn [go_bind]. destruct (kv_read T s k1 Hs Hs1 Ek1) as (Hsv & Hsame & Hn1 & Hr1).
  unfold shown, kv_link at 2, row_val. destruct (kv_row s code) as [v|] eqn:Ev; [|by eexists _, _].
  destruct (decVal v) as [[[e c] u]|] eqn:Ed; [|by eexists _, _]. set (s1 := set_kv k1 s) in *.
  destruct (counter_read s1 code Hn1 (codeOK_small _ Hcode)) as (o & k2 & -> & Hs2 & Ek2). cbn [go_bind].
  destruct (kv_read T s1 k2 Hsv Hs2 Ek2) as (Hsv2 & Hsame2 & _). eexists _, _. split; [done|]. split; [exact Hsv2|].
  split; [|done]. intros x Hx. by rewrite Hsame2, Hsame.
Qed.

Lemma kv_Update : @Update_law _ (kv_backend trackHits rounds) kv_serving kv_link.
Proof.
  intros T ev code url ttlMs hasTTL s Hs (_ & Hnow & _) _ Hcode Hu. pose proof Hs as (Hn & _ & _ & Hdd & Hc).
  pose proof (rows_kv_row s code Hn) as Ho. cbn [api_Update kv_backend].
  destruct (kv_link s code) as [[u e]|] eqn:El.
  - pose proof El as El'. unfold kv_link, row_val in El'. destruct (kv_row s code) as [v|]; [|done].
    destruct (decVal v) as [[[e0 c0] u0]|] eqn:Ed; [|done]. injection El' as -> ->.
    destruct (kv_Update_serves code url v ttlMs hasTTL (n_st ev) (n_p1 ev) e c0 u s Hn (codeOK_small _ Hcode)
      (url_small _ Hu) Ho Ed) as (s' & E & Hn' & Hrows & Ec & Hp & Hd').
    pose proof (decVal_range _ _ _ _ Ed) as [He Hc0].
    exists MutOK, s'. split; [exact E|].
    assert (is_int64 (if hasTTL then expiry (n_st ev) ttlMs else e)) as Hexp by (destruct hasTTL; auto with goint).
    destruct (kv_serving_row T s s' code (Some (encVal (if hasTTL then expiry (n_st ev) ttlMs else e) c0 url)))
      as [Hs' Hf]; [done|done|done|done|auto with links|by intros c _; apply Hrows| |].
    { rewrite Ec. eapply agrees_remove; [|exact Hc]. intros k Hk Hne. apply kv_row_ext.
      by rewrite Hrows, decide_False. }
    rewrite row_val_enc in Hf by done. split; [done|]. by exists u, e.
  - rewrite (readable_none T s code Hs Hcode El) in Ho. unfold KvStore.Update.
    destruct (kvGet_serves code s None Hn (codeOK_small _ Hcode) Ho) as (k1 & -> & Hs1 & Ek1). cbn [go_bind].
    destruct (kv_read T s k1 Hs Hs1 Ek1) as (Hsv & Hsame & _). exists MutMissing, (set_kv k1 s). by split_and!.
Qed.

Lemma codeOK_row (c : bytes) : codeOK c = true -> row_code c.
Proof.
  intros Hc x ->. unfold codeOK in Hc. destruct (_ || _); [done|]. cbn [hfield app forallb] in Hc. by vm_compute in Hc.
Qed.

Lemma kv_Remove : @Remove_law _ (kv_backend trackHits rounds) kv_serving kv_link.
Proof.
  intros T ev code s Hs _ Hcode. pose proof Hs as (Hn & _ & _ & Hd & Hc).
  destruct (kv_Remove_serves code s (kv_row s code) Hn (codeOK_small _ Hcode) (rows_kv_row s code Hn))
    as (s' & E & Hn' & El' & Eb' & (Ep' & Hd') & Ec & Hrows).
  assert (kv_conf s' = kv_conf s) as Hp by (unfold kv_conf; by rewrite El', Eb', Ep').
  assert (forall c, codeOK c = true -> rows s' c = if decide (code = c) then Some None else rows s c) as Hrows'.
  { intros c Hk. by apply Hrows, codeOK_row. }
  eexists _, s'. split; [exact E|]. destruct (kv_row s code) as [v|] eqn:Ev.
  - destruct (kv_serving_row T s s' code None) as [Hs' Hf]; [done|done|done|done|by intros [? [=]]|done| |].
    { rewrite Ec. eapply agrees_remove; [|exact Hc]. intros k Hk Hne. apply kv_row_ext.
      by rewrite Hrows', decide_False. }
    split; [done|]. split; [|done]. unfold kv_link. rewrite Ev. destruct Hs as (_ & _ & Hr & _).
    rewrite <- Ev. apply (Hr code Hcode). rewrite Ev. by eexists.
  - assert (forall c, codeOK c = true -> rows s' c = rows s c) as Hsame.
    { intros c Hk. rewrite Hrows' by done. case_decide; [subst c|done]. by rewrite (rows_kv_row s code Hn), Ev. }
    split; [|split; [by unfold kv_link; rewrite Ev|by apply kv_same_rows]].
    apply (kv_serving_same T s); [done|done|done|by rewrite Hd'|done|]. by rewrite Ec.
Qed.

(** Rows taken because they had expired, under a cache that is not told. *)
Lemma kv_serving_swept (T now : Z) (s s' : KvStore net) :
  kv_serving T s -> T <= now -> node_ok s' -> kv_conf s' = kv_conf s -> dirty_ok (kdirty s') -> cache s' = cache s ->
  (forall c, codeOK c = true -> swept_row now (rows s c) (rows s' c)) ->
  kv_serving now s' /\ swept kv_link now s s'.
Proof.
  intros (Hn & Hp & Hr & Hd & Hc) HT Hn' Hp' Hd' Hc' Hsw.
  assert (swept kv_link now s s') as Hl.
  { intros c Hcode. unfold kv_link, kv_row. destruct (Hsw c Hcode) as [->|[-> (v & -> & e & c0 & u & Ed & He)]]; [by left|].
    right. cbn. split; [done|]. exists u, e. by rewrite Ed. }
  split; [|done]. split_and!; [done|by eapply configured_conf| |done|].
  - intros c Hcode. unfold kv_row. destruct (Hsw c Hcode) as [->|[-> _]]; [by apply Hr|]. by intros [? [=]].
  - rewrite Hc'. eapply agrees_later; [exact HT| |exact Hc]. intros c u e Hcode Hf.
    destruct (Hl c Hcode) as [->|(_ & u' & e' & E & Hpast)]; [by left|right]. rewrite Hf in E. by injection E as <- <-.
Qed.

Lemma kv_Tick : @Tick_law _ (kv_ticks rounds) kv_serving kv_link.
Proof.
  intros T c now s Hs HT. pose proof Hs as (Hn & Hp & Hr & Hd & Hc). unfold tick, kv_ticks.
  assert (kv_serving now s /\ swept kv_link now s s) as Hidle.
  { apply (kv_serving_swept T now s s); try done. intros x _. by left. }
  destruct c; cbn [kv_tick]; try done.
  - destruct (kstopped s); [done|]. unfold KvStore.Flush.
    destruct (flush_rows s Hn Hd) as (k' & -> & Hn' & Hrows). cbn [go_bind].
    apply (kv_serving_swept T now s); try done.
    + intros i m x d Hi Hx. unfold set_kv, set_kdirty, clear_all in Hi. cbn [kdirty] in Hi.
      apply list_elem_of_lookup_2, list_elem_of_In, in_map_iff in Hi as (m' & <- & _). by rewrite lookup_empty in Hx.
    + intros x Hx. left. by apply Hrows, codeOK_row.
  - destruct (kstopped s); [done|]. destruct (layoutHash s) eqn:El; [|done].
    pose proof (sweep_rows rounds now s Hn El) as P.
    destruct (KvStore.sweepExpired rounds now s) as [s'| |]; [|done|done].
    destruct P as (k' & -> & Hn' & Hsw). apply (kv_serving_swept T now s); done.
  - destruct (lapse_rows now s Hn) as [Hn' Hsw]. apply (kv_serving_swept T now s); done.
Qed.

#[export] Instance kv_links : @LinkMap _ (kv_backend trackHits rounds) (kv_ticks rounds) := {
  serving := kv_serving;
  link_at := kv_link;
  lm_Shorten := kv_Shorten;
  lm_Many := kv_Many;
  lm_Resolve := kv_Resolve;
  lm_Stats := kv_Stats;
  lm_Update := kv_Update;
  lm_Remove := kv_Remove;
  lm_tick := kv_Tick
}.

End Links.
