(* ===== verification/PebbleBatch.v ===== *)
(** * PebbleBatch: batches on the embedded backend

    When a [PebbleStore] is serving: its rows read as links and its cache agrees
    with them. [ShortenMany] on a serving store: one committed batch for the
    codes that were free, a code drawn anew for the others; when a code is drawn
    twice its last link is the one filed, in the database and in the cache. *)

From S2P Require Import Prelude GoStd Base62 Store StoreSpec Float Metrics Batch Codec KvCache Dirty Resp Kv KvStore PebbleStore.
From S2P Require Import PebbleSpec Api App AppProps Backends CacheMap LinkMap.
From stdpp Require Import options.

(** ** One commit *)

Definition taken_codes (l : list (bytes * option bytes)) : list (bytes * bytes) :=
  omap (fun uc => match uc.2 with Some c => Some (uc.1, c) | None => None end) l.

Definition batch_links (exp : Z) (l : list (bytes * option bytes)) (f : amap) : amap :=
  foldl (fun f uc => match uc.2 with Some c => upd c (Some (uc.1, exp)) f | None => f end) f l.

Lemma batch_links_ext (exp : Z) (l : list (bytes * option bytes)) (f g : amap) (x : bytes) :
  (forall y, f y = g y) -> batch_links exp l f x = batch_links exp l g x.
Proof.
  revert f g. induction l as [|[u [c|]] l IH]; intros f g Hfg; [apply Hfg| |]; cbn [batch_links foldl snd fst].
  - apply IH. intros y. unfold upd. case_decide; [done|apply Hfg].
  - by apply IH.
Qed.

Lemma batch_links_rows (exp now : Z) (l : list (bytes * option bytes)) (m : gmap bytes bytes) (x : bytes) :
  is_int64 exp -> is_int64 now ->
  row_val (foldl apply_bop m (batch_sets exp now l) !! lkey x) = batch_links exp l (fun y => row_val (m !! lkey y)) x.
Proof.
  intros He Hn. revert m. induction l as [|[u [c|]] l IH]; intros m; [done| |];
    cbn [batch_sets omap list_omap foldl snd fst batch_links]; unfold batch_sets in IH; [|by rewrite IH].
  rewrite IH. apply batch_links_ext. intros y. unfold upd. cbn [apply_bop]. case_decide as E.
  - subst y. by rewrite lookup_insert_eq, row_val_enc.
  - rewrite lookup_insert_ne; [done|]. by intros [=].
Qed.

(** The rows of the codes taken are those of the batch, the last one for each. *)
Lemma batch_links_files (ttlMs now : Z) (l : list (bytes * option bytes)) (f : amap) :
  (forall u c, (u, c) ∈ taken_codes l -> f c = None) ->
  files (new_link ttlMs) (eq now) (taken_codes l) f (batch_links (expiry now ttlMs) l f).
Proof.
  intros Hn. split; [done|]. clear Hn. revert f. induction l as [|[u [c|]] l IH]; intros f x.
  - left. split; [apply not_elem_of_nil|done].
  - cbn [batch_links foldl snd fst taken_codes omap list_omap fmap list_fmap].
    destruct (IH (upd c (Some (u, expiry now ttlMs)) f) x) as [[Hx E]|(u' & t & Hin & Ht & E)].
    + unfold batch_links in E. rewrite E. unfold upd. case_decide as Ec.
      * right. exists u, now. subst x. split; [by left|done].
      * left. split; [|done]. apply not_elem_of_cons. split; [by intros ->|done].
    + right. exists u', t. split; [by right|done].
  - exact (IH f x).
Qed.

Lemma fill_agrees (T exp t : Z) (l : list (bytes * option bytes)) (f : amap) (c : kvCache) :
  cache_agrees T f c -> cache_agrees T (batch_links exp l f) (fill_cache exp t l c).
Proof.
  revert f c. induction l as [|[u [code|]] l IH]; intros f c Hc; [done| |]; cbn [batch_links fill_cache foldl snd fst].
  - apply IH. apply (agrees_put T f); [|unfold upd; by rewrite decide_True|done].
    intros k _ Hk. unfold upd. by rewrite decide_False.
  - by apply IH.
Qed.

Section Serving.
Context {db : Type} `{PebbleLaws db} `{MapOrder} `{SliceSort}.

#[local] Set Default Proof Using "Type*".

Definition pebble_link (s : PebbleStore db) (code : bytes) : option (bytes * Z) := row_val (prow s code).

Definition pebble_serving (T : Z) (s : PebbleStore db) : Prop :=
  codeOK [pprefix s] = true /\ (forall c, codeOK c = true -> readable (prow s c))
  /\ cache_agrees T (pebble_link s) (pcache s).

Lemma pebble_readable_none (T : Z) (s : PebbleStore db) (code : bytes) :
  pebble_serving T s -> codeOK code = true -> pebble_link s code = None -> prow s code = None.
Proof.
  intros (_ & Hr & _) Hc Hn. specialize (Hr code Hc). unfold pebble_link in Hn.
  destruct (prow s code) as [v|]; [|done]. destruct (Hr ltac:(by eexists)) as [x Hx]. by rewrite Hx in Hn.
Qed.

Lemma prow_put (s s' : PebbleStore db) (code v : bytes) :
  view (pdb s') = <[lkey code := v]> (view (pdb s)) ->
  forall c, prow s' c = if decide (code = c) then Some v else prow s c.
Proof.
  intros Hv c. unfold prow. rewrite Hv. case_decide as E; [subst c; by rewrite lookup_insert_eq|].
  rewrite lookup_insert_ne; [done|]. by intros [=].
Qed.

Lemma pebble_serving_row (T : Z) (s s' : PebbleStore db) (code : bytes) (o : option bytes) :
  pebble_serving T s -> pprefix s' = pprefix s -> readable o ->
  (forall c, prow s' c = if decide (code = c) then o else prow s c) ->
  cache_agrees T (pebble_link s') (pcache s') ->
  pebble_serving T s' /\ filed pebble_link code (row_val o) s s'.
Proof.
  intros (Hp & Hr & _) Hp' Ho Hrows Hc. split.
  - split_and!; [by rewrite Hp'| |done]. intros c Hcode. rewrite Hrows. case_decide; [done|]. by apply Hr.
  - intros c Hcode. unfold pebble_link. rewrite Hrows. by case_decide.
Qed.

(** A link filed with its cache entry. *)
Lemma filed_link_serves (T : Z) (url : bytes) (ttlMs now t : Z) (code : bytes) (s s' : PebbleStore db) :
  pebble_serving T s -> is_int64 now -> pprefix s' = pprefix s -> filed_link url (expiry now ttlMs) now t code s s' ->
  pebble_serving T s' /\ pebble_link s code = None
  /\ forall c, pebble_link s' c = if decide (code = c) then Some (url, expiry now ttlMs) else pebble_link s c.
Proof.
  intros Hs Hnow Hp (Hfree & Hv & Hca). pose proof Hs as (_ & _ & Hc).
  pose proof (prow_put s s' code _ Hv) as Hrows.
  assert (forall c, pebble_link s' c = if decide (code = c) then Some (url, expiry now ttlMs) else pebble_link s c) as Hl.
  { intros c. unfold pebble_link. rewrite Hrows. case_decide; [|done]. auto with links goint. }
  split; [|split; [unfold pebble_link; by rewrite Hfree|done]].
  apply (pebble_serving_row T s s' code (Some (encVal (expiry now ttlMs) now url))); [done|done|auto with links goint|done|].
  rewrite Hca. apply (agrees_put T (pebble_link s)); [|by rewrite Hl, decide_True|done].
  intros k _ Hk. by rewrite Hl, decide_False.
Qed.

(** ** Codes drawn *)

Definition pdraws (s : PebbleStore db) (rnds : list bytes) (c : bytes) : Prop := exists b, b ∈ rnds /\ c = randCode s b.

Lemma pdraws_codeOK (s : PebbleStore db) (rnds : list bytes) (code : bytes) :
  codeOK [pprefix s] = true -> Forall (fun b => length b = (codeLen - 1)%nat) rnds -> pdraws s rnds code ->
  codeOK code = true.
Proof. rewrite Forall_forall. intros Hp Hl (b & Hb & ->). by apply generated_codeOK, Hl. Qed.

Lemma pdraws_sub (s s' : PebbleStore db) (rnds rs : list bytes) (c : bytes) :
  pprefix s' = pprefix s -> rs ⊆ rnds -> pdraws s' rs c -> pdraws s rnds c.
Proof. intros Hp Hsub (b & Hb & ->). exists b. split; [by apply Hsub|]. unfold randCode. by rewrite Hp. Qed.

Lemma pebble_draw_codes (s : PebbleStore db) (urls rnds : list bytes) :
  match draw_codes s urls rnds with
  | Ret (cs, rs) => length cs = length urls
      /\ (forall c, Some c ∈ cs -> prow s c = None /\ pdraws s rnds c) /\ rs ⊆ rnds
  | Diverge => True
  | Panic => False
  end.
Proof.
  revert rnds. induction urls as [|u urls IH]; intros rnds; cbn [draw_codes].
  { split_and!; [done| |done]. by intros c ?%not_elem_of_nil. }
  destruct rnds as [|b rnds]; [done|]. specialize (IH rnds). rewrite getLink_view.
  change (view (pdb s) !! lkey (randCode s b)) with (prow s (randCode s b)).
  destruct (draw_codes s urls rnds) as [[cs rs]| |]; cbn [go_bind]; [|done|done].
  destruct IH as (Hlen & Hd & Hs). split_and!; [cbn; by rewrite Hlen| |].
  - intros c [E|Hc]%elem_of_cons.
    + destruct (prow s (randCode s b)) eqn:Ep; [done|]. injection E as ->. split; [done|].
      exists b. by split; [left|].
    + destruct (Hd c Hc) as [? (b' & Hb & ->)]. split; [done|]. exists b'. by split; [right|].
  - intros x Hx. right. by apply Hs.
Qed.

(** ** The retries *)

Definition pretried (ttlMs : Z) (nows : nat -> Z) (ps : list (bytes * bytes)) (s s' : PebbleStore db) : Prop :=
  files (new_link ttlMs) (fun t => exists j, t = nows j) ps (pebble_link s) (pebble_link s').

Lemma pebble_one_retried (T : Z) (u : bytes) (ttlMs : Z) (nows : nat -> Z) (i : nat) (rnds : list bytes)
    (met : Metrics) (s : PebbleStore db) :
  pebble_serving T s -> (forall j, is_int64 (nows j)) ->
  match Shorten_rnds u [] false ttlMs (nows i) (nows i) rnds met s with
  | Ret (c, rs, _, s') => pebble_serving T s' /\ pprefix s' = pprefix s /\ pdraws s rnds c /\ rs ⊆ rnds
      /\ pretried ttlMs nows [(u, c)] s s'
  | Diverge => True
  | Panic => False
  end.
Proof.
  intros Hs Hi. unfold Shorten_rnds. cbv zeta.
  pose proof (pebble_shorten_loop_serves u (expiry (nows i) ttlMs) (nows i) (nows i) rnds s) as P.
  destruct (shorten_loop _ _ _ _ _ _) as [[[c rs] s']| |]; cbn [go_bind]; [|done|done].
  destruct P as (_ & Hf & Hp & _ & pre & b & -> & Eb).
  destruct (filed_link_serves T u ttlMs (nows i) (nows i) c s s' Hs (Hi i) Hp Hf) as (Hs' & Hfree & Hl).
  split_and!; [done|done| | |].
  - exists b. split; [|done]. apply elem_of_app. right. by left.
  - intros x Hx. apply elem_of_app. right. by right.
  - apply (files_one _ _ u c (nows i)); [by exists i|done|done].
Qed.

Lemma pebble_retry_loop (T ttlMs : Z) (nows : nat -> Z) (l : list (bytes * option bytes)) (i : nat)
    (rnds : list bytes) (met : Metrics) (s : PebbleStore db) :
  pebble_serving T s -> (forall j, is_int64 (nows j)) ->
  match retry_loop ttlMs nows i l rnds met s with
  | Ret (cs, _, s') => pebble_serving T s' /\ length cs = length l
      /\ exists ps, pretried ttlMs nows ps s s' /\ (forall c, c ∈ ps.*2 -> pdraws s rnds c)
           /\ forall p, p ∈ zip (l.*1) cs <-> p ∈ taken_codes l ++ ps
  | Diverge => True
  | Panic => False
  end.
Proof.
  intros Hs Hi. revert i rnds met s Hs. induction l as [|[u [c|]] l IH]; intros i rnds met s Hs;
    cbn [retry_loop fmap list_fmap fst].
  - split_and!; [done|done|]. exists []. split_and!; [by apply files_nil| |done]. by intros c ?%not_elem_of_nil.
  - specialize (IH (S i) rnds met s Hs).
    destruct (retry_loop _ _ _ _ _ _ _) as [[[cs met'] s']| |]; cbn [go_bind]; [|done|done].
    destruct IH as (Hs' & Hlen & ps & Hf & Hd & Hp). split_and!; [done|cbn; by rewrite Hlen|].
    exists ps. split_and!; [done..|]. intros p. cbn [zip zip_with taken_codes omap list_omap fst snd app].
    rewrite !elem_of_cons. by rewrite Hp.
  - pose proof (pebble_one_retried T u ttlMs nows i rnds met s Hs Hi) as P.
    destruct (Shorten_rnds _ _ _ _ _ _ _ _ _) as [[[[c' rs] met1] s1]| |]; cbn [go_bind]; [|done|done].
    destruct P as (Hs1 & Hp1 & Hd1 & Hsub & F1). specialize (IH (S i) rs met1 s1 Hs1).
    destruct (retry_loop _ _ _ _ _ _ _) as [[[cs met'] s']| |]; cbn [go_bind]; [|done|done].
    destruct IH as (Hs' & Hlen & ps & Hf & Hd & Hp). split_and!; [done|cbn; by rewrite Hlen|].
    exists ((u, c') :: ps). split_and!.
    + change ((u, c') :: ps) with ([(u, c')] ++ ps). by eapply files_app.
    + cbn [fmap list_fmap snd]. intros x [->|Hx]%elem_of_cons; [done|].
      eapply pdraws_sub; [exact Hp1|exact Hsub|by apply Hd].
    + intros p. cbn [zip zip_with taken_codes omap list_omap fst snd]. rewrite elem_of_cons, Hp, !elem_of_app, elem_of_cons.
      unfold taken_codes. naive_solver.
Qed.

(** ** The batch *)

Lemma pebble_ShortenMany (T : Z) (urls : list bytes) (ttlMs now t : Z) (nows : nat -> Z) (rnds : list bytes)
    (met : Metrics) (s : PebbleStore db) :
  pebble_serving T s -> is_int64 now -> (forall j, is_int64 (nows j)) ->
  match ShortenMany urls ttlMs now t nows rnds met s with
  | Ret (cs, _, s') => pebble_serving T s' /\ length cs = length urls /\ (forall c, c ∈ cs -> pdraws s rnds c)
      /\ files (new_link ttlMs) (fun t => t = now \/ exists j, t = nows j) (zip urls cs) (pebble_link s) (pebble_link s')
  | Diverge => True
  | Panic => False
  end.
Proof.
  intros Hs Hnow Hi. pose proof Hs as (Hp & Hr & Hc). unfold ShortenMany. cbv zeta.
  pose proof (pebble_draw_codes s urls rnds) as D.
  destruct (draw_codes s urls rnds) as [[codes rnds']| |]; cbn [go_bind]; [|done|done].
  destruct D as (Hlen & Hdraw & Hsub). set (exp := expiry now ttlMs). set (l := zip urls codes).
  destruct (commit_view (batch_sets exp now l) (pdb s)) as (d & -> & Hv).
  set (s1 := set_pcache _ (set_pdb d s)).
  assert (is_int64 exp) as He by (subst exp; auto with goint).
  assert (forall x, pebble_link s1 x = batch_links exp l (pebble_link s) x) as Hl1.
  { intros x. unfold pebble_link, prow. cbn [s1 pdb set_pcache set_pdb]. rewrite Hv. by apply batch_links_rows. }
  assert (forall u c, (u, c) ∈ taken_codes l -> prow s c = None /\ pdraws s rnds c) as Htaken.
  { intros u c Hin. apply list_elem_of_omap in Hin as ([u' [c'|]] & Hin & [= -> ->]). apply Hdraw.
    by apply elem_of_zip_r in Hin. }
  assert (files (new_link ttlMs) (eq now) (taken_codes l) (pebble_link s) (pebble_link s1)) as F1.
  { destruct (batch_links_files ttlMs now l (pebble_link s)) as [Hn Hf].
    - intros u c Hin. unfold pebble_link. by destruct (Htaken u c Hin) as [-> _].
    - split; [done|]. intros x. rewrite Hl1. apply Hf. }
  assert (pebble_serving T s1) as Hs1.
  { split_and!; [done| |].
    - intros c Hok. unfold readable. change (row_val (prow s1 c)) with (pebble_link s1 c).
      destruct F1 as [_ F1]. destruct (F1 c) as [[Hx E]|(u & t' & _ & _ & E)]; [|intros _; rewrite E; by eexists].
      assert (prow s1 c = prow s c) as Er; [|rewrite E, Er; by apply Hr].
      unfold prow. cbn [s1 pdb set_pcache set_pdb]. rewrite Hv. clear -Hx. revert Hx. generalize (view (pdb s)).
      induction l as [|[u [c'|]] l IH]; intros m Hx; [done| |exact (IH m Hx)].
      cbn [taken_codes omap list_omap fst snd fmap list_fmap] in Hx. apply not_elem_of_cons in Hx as [Hne Hx].
      cbn [batch_sets omap list_omap foldl snd fst apply_bop]. unfold batch_sets in IH. rewrite (IH _ Hx).
      rewrite lookup_insert_ne; [done|]. by intros [=].
    - eapply agrees_ext; [|by apply fill_agrees]. intros c x _. by rewrite Hl1. }
  pose proof (pebble_retry_loop T ttlMs nows l 0 rnds' met s1 Hs1 Hi) as R.
  destruct (retry_loop _ _ _ _ _ _ _) as [[[cs met'] s']| |]; [|done|done].
  destruct R as (Hs' & Hlcs & ps & F2 & Hd & Hps).
  assert (l.*1 = urls) as El by (apply fst_zip; lia). rewrite El in Hps.
  assert (length cs = length urls) as Hcs by (rewrite Hlcs; subst l; rewrite length_zip_with; lia).
  split_and!; [done|done| |].
  - intros c Hin. assert (c ∈ (zip urls cs).*2) as Hin2 by (by rewrite snd_zip by lia).
    apply list_elem_of_fmap in Hin2 as ([u c'] & -> & Hin2). apply Hps, elem_of_app in Hin2 as [Hin2|Hin2].
    + by destruct (Htaken u c' Hin2).
    + eapply (pdraws_sub s s1); [done|exact Hsub|]. apply Hd, list_elem_of_fmap. by exists (u, c').
  - apply (files_equiv _ _ (taken_codes l ++ ps)); [intros p; by rewrite Hps|].
    eapply files_app; [eapply files_weaken; [|exact F1]; by left|].
    eapply files_weaken; [|exact F2]. by right.
Qed.

End Serving.
