(* ===== verification/PebbleLinks.v ===== *)
(** * PebbleLinks: the embedded backend is a map of links

    [PebbleStore], over any database that keeps [PebbleLaws], satisfies
    [LinkMap]: the map is the rows of the database, the cache agrees with them,
    and the sweep takes only links that have expired. *)

From S2P Require Import Prelude GoStd Base62 Store StoreSpec Float Metrics Batch Codec KvCache Dirty Resp Kv KvStore PebbleStore.
From S2P Require Import PebbleSpec Api App AppProps Backends Ticks CacheMap LinkMap PebbleBatch.
From stdpp Require Import options.

Section Links.
Context {db : Type} `{PebbleLaws db} `{MapOrder} `{SliceSort} (trackHits : bool).

#[local] Set Default Proof Using "Type*".

Lemma pebble_Shorten : @Shorten_law _ (pebble_backend trackHits) pebble_serving pebble_link.
Proof.
  intros T ev url alias hasAlias ttlMs met s Hs (Hl & Hnow & _) _ Hu Ha. pose proof Hs as (Hp & Hr & Hc).
  set (al := if hasAlias then alias else [x30]).
  assert (codeOK al = true) as Hal by (destruct hasAlias; [by apply Ha|done]).
  assert (al <> []) as Hne by (intros E; by rewrite E in Hal).
  assert (@api_Shorten _ (pebble_backend trackHits) ev url alias hasAlias ttlMs met s
          = PebbleStore.Shorten url al hasAlias ttlMs (n_st ev) (n_p1 ev) (rnds ev) met s) as ->
    by (subst al; by destruct hasAlias).
  pose proof (pebble_Shorten_serves url al hasAlias ttlMs (n_st ev) (n_p1 ev) (rnds ev) met s Hne) as P.
  destruct (PebbleStore.Shorten _ _ _ _ _ _ _ _ _) as [[[code met'] s']| |]; [|done|by destruct P].
  destruct P as [_ P]. destruct (decide (code = [])) as [_|Hcode].
  - destruct P as (-> & Hrow & ->). cbv beta iota in al. subst al. split; [done|]. split_and!; [done| |done].
    by apply (Hr alias Hal).
  - destruct P as (Hal' & Hf & Hp').
    destruct (filed_link_serves T url ttlMs (n_st ev) (n_p1 ev) code s s' Hs Hnow Hp' Hf) as (Hs' & Hfree & Hlk).
    split; [done|]. split_and!; [|by intros ->|done|by intros c _].
    destruct hasAlias; [by rewrite Hal'|by apply (pdraws_codeOK s (rnds ev))].
Qed.

Lemma pebble_Many : @Many_law _ (pebble_backend trackHits) pebble_serving pebble_link.
Proof.
  intros T ev urls ttlMs met s Hs (Hl & Hnow & Hret) _ Hu _. cbn [api_ShortenMany pebble_backend].
  pose proof (pebble_ShortenMany T urls ttlMs (n_st ev) (n_p1 ev) (n_retry ev) (rnds ev) met s Hs Hnow Hret) as P.
  destruct (PebbleStore.ShortenMany _ _ _ _ _ _ _ _) as [[[cs met'] s']| |]; [|done|done].
  destruct P as (Hs' & Hlen & Hd & F). split_and!; [done|done| |done].
  apply Forall_forall. intros c Hin. apply (pdraws_codeOK s (rnds ev)); [apply Hs|done|by apply Hd].
Qed.

Lemma pebble_same (T : Z) (s s' : PebbleStore db) :
  pebble_serving T s -> (forall c, prow s' c = prow s c) -> pprefix s' = pprefix s ->
  cache_agrees T (pebble_link s) (pcache s') ->
  pebble_serving T s' /\ same_links pebble_link s s'.
Proof.
  intros (Hp & Hr & _) Hrow Hp' Hc.
  assert (forall c, pebble_link s' c = pebble_link s c) as Hl by (intros c; unfold pebble_link; by rewrite Hrow).
  split; [|by intros c _]. split_and!; [by rewrite Hp'|intros c Hok; rewrite Hrow; by apply Hr|].
  eapply agrees_ext; [|exact Hc]. intros c x _. by rewrite Hl.
Qed.

Lemma pebble_Resolve : @Resolve_law _ (pebble_backend trackHits) pebble_serving pebble_link.
Proof.
  intros T ev code met s Hs HT Hcode. pose proof Hs as (Hp & Hr & Hc).
  pose proof (pebble_Resolve_serves trackHits code (n_st ev) (n_p1 ev) (n_p2 ev) (n_us ev) met s) as P.
  cbn [api_Resolve pebble_backend].
  destruct (PebbleStore.Resolve _ _ _ _ _ _ _ _) as [[r met'] s']. destruct P as ([Hd Hp'] & P & Hcache).
  destruct (pebble_same T s s') as [Hs' Hsame]; [done|intros c; unfold prow; by rewrite Hd|done| |].
  { destruct Hcache as [->|(u' & e' & Hl & ->)]; [by apply agrees_get|].
    apply (agrees_put _ (pebble_link s)); [done| |by apply agrees_get]. by apply live_row_val in Hl. }
  exists r, met', s'. split_and!; [done..|].
  apply (resolved_link T ev (prow s code) (pcache s) (pebble_link s) code r); [done..|].
  destruct (cache_get _ _ _).1 as [[u' e']|]; by destruct P.
Qed.

Lemma pebble_Stats : @Stats_law _ (pebble_backend trackHits) pebble_serving pebble_link.
Proof.
  intros T ev code s Hs HT Hcode. cbn [api_Stats pebble_backend]. eexists _, s. split; [done|]. split; [done|].
  split; [done|]. unfold PebbleStore.Stats. rewrite getLink_view. change (view (pdb s) !! lkey code) with (prow s code).
  unfold pebble_link, row_val. destruct (prow s code) as [v|]; [|done].
  destruct (decVal v) as [[[e c] u]|]; [|done]. destruct (_ && _) eqn:E; [|done].
  cbn. unfold live_at. lia.
Qed.

Lemma pebble_Update : @Update_law _ (pebble_backend trackHits) pebble_serving pebble_link.
Proof.
  intros T ev code url ttlMs hasTTL s Hs (_ & Hnow & _) _ Hcode Hu. pose proof Hs as (_ & _ & Hc).
  cbn [api_Update pebble_backend]. unfold PebbleStore.Update. rewrite getLink_view.
  change (view (pdb s) !! lkey code) with (prow s code).
  destruct (pebble_link s code) as [[u e]|] eqn:El.
  - pose proof El as El'. unfold pebble_link, row_val in El'. destruct (prow s code) as [v|]; [|done].
    destruct (decVal v) as [[[e0 c0] u0]|] eqn:Ed; [|done]. injection El' as -> ->. cbv zeta.
    pose proof (decVal_range _ _ _ _ Ed) as [He Hc0].
    assert (is_int64 (if hasTTL then expiry (n_st ev) ttlMs else e)) as Hexp by (destruct hasTTL; auto with goint).
    set (val := encVal (if hasTTL then _ else e) c0 url).
    destruct (set_view (lkey code) val (pdb s)) as (d' & -> & Hv).
    set (s' := set_pcache _ _). exists MutOK, s'. split; [done|].
    pose proof (prow_put s s' code val Hv) as Hrows.
    destruct (pebble_serving_row T s s' code (Some val)) as [Hs' Hf]; [done|done|by apply readable_enc|done| |].
    { cbn [s' pcache set_pcache set_pdb]. eapply agrees_remove; [|exact Hc]. intros k Hk Hne. unfold pebble_link.
      by rewrite Hrows, decide_False. }
    subst val. rewrite row_val_enc in Hf by done. split; [done|]. by exists u, e.
  - rewrite (pebble_readable_none T s code Hs Hcode El). by exists MutMissing, s.
Qed.

Lemma pebble_Remove : @Remove_law _ (pebble_backend trackHits) pebble_serving pebble_link.
Proof.
  intros T ev code s Hs _ Hcode. pose proof Hs as (_ & Hr & Hc).
  cbn [api_Remove pebble_backend]. unfold PebbleStore.Remove. rewrite getLink_view.
  change (view (pdb s) !! lkey code) with (prow s code). destruct (prow s code) as [v|] eqn:Ev.
  - destruct (commit_view [BDelete (lkey code); BDelete (hkey code)] (pdb s)) as (d' & -> & Hv).
    set (s' := set_pcache _ _). exists MutOK, s'. split; [done|].
    assert (forall c, prow s' c = if decide (code = c) then None else prow s c) as Hrows.
    { intros c. unfold prow. cbn [s' pdb set_pcache set_pdb snd]. rewrite Hv. cbn [foldl apply_bop].
      rewrite lookup_delete_ne by done. case_decide as E; [subst c; by rewrite lookup_delete_eq|].
      rewrite lookup_delete_ne; [done|]. by intros [=]. }
    destruct (pebble_serving_row T s s' code None) as [Hs' Hf]; [done|done|by intros [? [=]]|done| |].
    { cbn [s' pcache set_pcache set_pdb]. eapply agrees_remove; [|exact Hc]. intros k Hk Hne. unfold pebble_link.
      by rewrite Hrows, decide_False. }
    split; [done|]. split; [|done]. unfold pebble_link. rewrite Ev. specialize (Hr code Hcode). rewrite Ev in Hr.
    apply Hr. by eexists.
  - exists MutMissing, s. split; [done|]. split; [done|]. split; [by unfold pebble_link; rewrite Ev|done].
Qed.

(** Rows taken because they had expired, under a cache that is not told. *)
Lemma pebble_serving_swept (T now : Z) (s s' : PebbleStore db) :
  pebble_serving T s -> T <= now -> pprefix s' = pprefix s -> pcache s' = pcache s ->
  (forall c, prow s' c = (if row_expired now (prow s c) then None else prow s c) \/ prow s' c = prow s c) ->
  pebble_serving now s' /\ swept pebble_link now s s'.
Proof.
  intros (Hp & Hr & Hc) HT Hp' Hc' Hrow.
  assert (forall c, prow s' c = prow s c
    \/ prow s' c = None /\ exists u e, pebble_link s c = Some (u, e) /\ past now e) as Hsw.
  { intros c. destruct (Hrow c) as [-> | ->]; [|by left]. destruct (row_expired now (prow s c)) eqn:E; [|by left].
    right. split; [done|]. unfold row_expired, expired_row in E. unfold pebble_link, row_val.
    destruct (prow s c) as [v|]; [|done]. cbn [snd] in E. destruct (decVal v) as [[[e c0] u]|]; [|done].
    exists u, e. split; [done|]. unfold past. lia. }
  assert (swept pebble_link now s s') as Hl.
  { intros c _. unfold pebble_link at 1 2 3. destruct (Hsw c) as [->|[-> P]]; [by left|by right]. }
  split; [|done]. split_and!; [by rewrite Hp'| |].
  - intros c Hok. destruct (Hsw c) as [->|[-> _]]; [by apply Hr|by intros [? [=]]].
  - rewrite Hc'. eapply agrees_later; [exact HT| |exact Hc]. intros c u e Hok Hf.
    destruct (Hl c Hok) as [->|(_ & u' & e' & E & Hpast)]; [by left|right]. rewrite Hf in E. by injection E as <- <-.
Qed.

Lemma pebble_Tick : @Tick_law _ pebble_ticks pebble_serving pebble_link.
Proof.
  intros T c now s Hs HT. unfold tick, pebble_ticks.
  assert (pebble_serving now s /\ swept pebble_link now s s) as Hidle.
  { apply (pebble_serving_swept T now s s); try done. by right. }
  destruct c; cbn [pebble_tick]; try done.
  - destruct (pstopped s); [done|]. destruct (flushHits_view s) as (Hv & _ & Hca & Hpr).
    apply (pebble_serving_swept T now s); [done..|]. intros x. right. unfold prow. by rewrite Hv, merges_rows.
  - destruct (pstopped s); [done|]. destruct (sweep_view now s []) as (_ & Hca & Hpr).
    apply (pebble_serving_swept T now s); [done..|]. intros x. left. apply sweep_row.
  - apply (pebble_serving_swept T now s); [done..|]. intros x. right. unfold prow, PebbleStore.Compact.
    cbn [pdb set_pdb]. by rewrite compact_view.
Qed.

#[export] Instance pebble_links : @LinkMap _ (pebble_backend trackHits) pebble_ticks := {
  serving := pebble_serving;
  link_at := pebble_link;
  lm_Shorten := pebble_Shorten;
  lm_Many := pebble_Many;
  lm_Resolve := pebble_Resolve;
  lm_Stats := pebble_Stats;
  lm_Update := pebble_Update;
  lm_Remove := pebble_Remove;
  lm_tick := pebble_Tick
}.

End Links.
