(* ===== verification/AnyBackend.v ===== *)
(** * AnyBackend: whichever store is chosen, it is a map of links

    The interface value of [NewFromEnv] satisfies [LinkMap] because each of the
    three stores does, a store opened on a fresh directory or on readable rows
    is serving, and so every run on it, of requests and of the work behind it in
    any order, is a run of the abstract machine. *)

From S2P Require Import Prelude GoStd Base62 LogLine Aof Store StoreSpec Replay Alone Queue Durable Restart Trace Session.
From S2P Require Import Float Metrics Batch Codec KvCache Dirty Resp Kv KvStore KvRows KvSpec KvTicks PebbleStore PebbleSpec.
From S2P Require Import Api App AppSpec AppProps Backends Ticks CacheMap LinkMap EngineLinks KvLinks PebbleBatch PebbleLinks.
From stdpp Require Import options.

Section Any.
Context {net db : Type} `{ExpiringServer net} `{PebbleLaws db} `{MapOrder} `{SliceSort} (trackHits : bool) (rounds : nat).
Context (inst : Z) (lay : bool) (bk : Z).

#[local] Set Default Proof Using "Type*".

#[local] Instance the_backend : StoreAPI (Backend net db) := any_backend trackHits rounds.
#[local] Instance the_ticks : Ticks (Backend net db) := any_ticks rounds.

Definition backend_serving (T : Z) (b : Backend net db) : Prop :=
  match b with BAof sd => engine_serving inst T sd | BKv s => kv_serving lay bk T s | BPebble s => pebble_serving T s end.

Definition backend_link (b : Backend net db) : bytes -> option (bytes * Z) :=
  match b with BAof sd => engine_link sd | BKv s => kv_link s | BPebble s => pebble_link s end.

Lemma backend_Shorten : Shorten_law backend_serving backend_link.
Proof.
  intros T ev url alias hasAlias ttlMs met [sd|s|s] Hs He HT Hu Ha;
    cbn [api_Shorten the_backend any_backend dispatch within].
  - pose proof (engine_Shorten trackHits inst T ev url alias hasAlias ttlMs met sd Hs He HT Hu Ha) as P.
    by destruct (api_Shorten _ _ _ _ _ _ sd) as [[[? ?] ?]| |].
  - pose proof (kv_Shorten trackHits rounds lay bk T ev url alias hasAlias ttlMs met s Hs He HT Hu Ha) as P.
    by destruct (api_Shorten _ _ _ _ _ _ s) as [[[? ?] ?]| |].
  - pose proof (pebble_Shorten trackHits T ev url alias hasAlias ttlMs met s Hs He HT Hu Ha) as P.
    by destruct (api_Shorten _ _ _ _ _ _ s) as [[[? ?] ?]| |].
Qed.

Lemma backend_Many : Many_law backend_serving backend_link.
Proof.
  intros T ev urls ttlMs met [sd|s|s] Hs He HT Hu Hr; cbn [api_ShortenMany the_backend any_backend dispatch within].
  - pose proof (engine_Many trackHits inst T ev urls ttlMs met sd Hs He HT Hu Hr) as P.
    by destruct (api_ShortenMany _ _ _ _ sd) as [[[? ?] ?]| |].
  - pose proof (kv_Many trackHits rounds lay bk T ev urls ttlMs met s Hs He HT Hu Hr) as P.
    by destruct (api_ShortenMany _ _ _ _ s) as [[[? ?] ?]| |].
  - pose proof (pebble_Many trackHits T ev urls ttlMs met s Hs He HT Hu Hr) as P.
    by destruct (api_ShortenMany _ _ _ _ s) as [[[? ?] ?]| |].
Qed.

Lemma backend_Resolve : Resolve_law backend_serving backend_link.
Proof.
  intros T ev code met [sd|s|s] Hs HT Hc; cbn [api_Resolve the_backend any_backend dispatch within].
  - destruct (engine_Resolve trackHits inst T ev code met sd Hs HT Hc) as (r & m & st & -> & P).
    by exists r, m, (BAof st).
  - destruct (kv_Resolve trackHits rounds lay bk T ev code met s Hs HT Hc) as (r & m & st & -> & P).
    by exists r, m, (BKv st).
  - destruct (pebble_Resolve trackHits T ev code met s Hs HT Hc) as (r & m & st & -> & P).
    by exists r, m, (BPebble st).
Qed.

Lemma backend_Stats : Stats_law backend_serving backend_link.
Proof.
  intros T ev code [sd|s|s] Hs HT Hc; cbn [api_Stats the_backend any_backend dispatch within].
  - destruct (engine_Stats trackHits inst T ev code sd Hs HT Hc) as (r & st & -> & P). by exists r, (BAof st).
  - destruct (kv_Stats trackHits rounds lay bk T ev code s Hs HT Hc) as (r & st & -> & P). by exists r, (BKv st).
  - destruct (pebble_Stats trackHits T ev code s Hs HT Hc) as (r & st & -> & P). by exists r, (BPebble st).
Qed.

Lemma backend_Update : Update_law backend_serving backend_link.
Proof.
  intros T ev code url ttlMs hasTTL [sd|s|s] Hs He HT Hc Hu; cbn [api_Update the_backend any_backend dispatch within].
  - destruct (engine_Update trackHits inst T ev code url ttlMs hasTTL sd Hs He HT Hc Hu) as (r & st & -> & P).
    by exists r, (BAof st).
  - destruct (kv_Update trackHits rounds lay bk T ev code url ttlMs hasTTL s Hs He HT Hc Hu) as (r & st & -> & P).
    by exists r, (BKv st).
  - destruct (pebble_Update trackHits T ev code url ttlMs hasTTL s Hs He HT Hc Hu) as (r & st & -> & P).
    by exists r, (BPebble st).
Qed.

Lemma backend_Remove : Remove_law backend_serving backend_link.
Proof.
  intros T ev code [sd|s|s] Hs HT Hc; cbn [api_Remove the_backend any_backend dispatch within].
  - destruct (engine_Remove trackHits inst T ev code sd Hs HT Hc) as (r & st & -> & P). by exists r, (BAof st).
  - destruct (kv_Remove trackHits rounds lay bk T ev code s Hs HT Hc) as (r & st & -> & P). by exists r, (BKv st).
  - destruct (pebble_Remove trackHits T ev code s Hs HT Hc) as (r & st & -> & P). by exists r, (BPebble st).
Qed.

Lemma backend_Tick : Tick_law backend_serving backend_link.
Proof.
  intros T c now [sd|s|s] Hs HT; unfold tick, the_ticks, any_ticks, within_.
  - pose proof (engine_Tick inst T c now sd Hs HT) as P. unfold tick, engine_ticks in P.
    by destruct (engine_tick c now sd) as [?| |].
  - pose proof (kv_Tick rounds lay bk T c now s Hs HT) as P. unfold tick, kv_ticks in P.
    by destruct (kv_tick rounds c now s) as [?| |].
  - pose proof (pebble_Tick T c now s Hs HT) as P. unfold tick, pebble_ticks in P.
    by destruct (pebble_tick c now s) as [?| |].
Qed.

#[export] Instance backend_links : @LinkMap _ (any_backend trackHits rounds) (any_ticks rounds) := {
  serving := backend_serving;
  link_at := backend_link;
  lm_Shorten := backend_Shorten;
  lm_Many := backend_Many;
  lm_Resolve := backend_Resolve;
  lm_Stats := backend_Stats;
  lm_Update := backend_Update;
  lm_Remove := backend_Remove;
  lm_tick := backend_Tick
}.

End Any.

(** ** Opening a store *)

Section Opening.
Context {net db : Type} `{ExpiringServer net} `{PebbleLaws db} `{MapOrder} `{SliceSort} (trackHits : bool) (rounds : nat).
Context (getenv : bytes -> bytes) (dir : bytes) (on_disk_dir : dir <> lit ":memory:").

#[local] Instance a_backend : StoreAPI (Backend net db) := any_backend trackHits rounds.
#[local] Instance a_ticks : Ticks (Backend net db) := any_ticks rounds.

(** KV_LAYOUT and KV_BUCKETS. *)
Definition env_layout : bool := bool_decide (getenv (lit "KV_LAYOUT") = lit "hash").
Definition env_buckets : Z := buckets_of (getenv (lit "KV_BUCKETS")).

(** What is found outside can be read: the rows of the server in the layout
    chosen, the rows of the database, and for the engine a directory with the
    files of one instance, [k], or none. *)
Definition readable_server (n : net) : Prop :=
  forall c, exists o, raw_row env_layout env_buckets (keys n) c = Some o /\ (codeOK c = true -> readable o).

Definition readable_db (d : db) : Prop := forall c, codeOK c = true -> readable (view d !! lkey c).

Definition outside_ok (o : Outside net db) (k : Z) (d : Disk) : Prop :=
  (forall addr, readable_server (o_net o addr))
  /\ (forall path x, o_db o path = Some x -> readable_db x)
  /\ 0 <= k < maxInstances /\ exists snap log, own_dir k d snap log.

(** [NewKV] and [NewPebble] clamp the instance number and find its letter. *)
Lemma clamped_prefix (i : Z) :
  let i := if i <? 0 then 0 else i in
  let i := if maxInstances <=? i then maxInstances - 1 else i in
  exists p, alpha_at i = Ret p /\ codeOK [p] = true.
Proof.
  cbv zeta. set (i' := if _ <=? _ : bool then _ else _).
  assert (0 <= i' < 62) as Hi by (subst i'; unfold maxInstances; repeat bcase; lia).
  destruct (alpha_at_spec i' Hi) as (p & E & _ & Hin). exists p. split; [done|].
  assert (forallb (fun c => codeOK [c]) ALPHABET = true) as Hf by (vm_compute; reflexivity).
  rewrite forallb_forall in Hf. by apply Hf, list_elem_of_In.
Qed.

Lemma buckets_of_pos (v : bytes) : 0 < buckets_of v.
Proof. unfold buckets_of. destruct (ParseUint _ _ _) as [b [?|]]; [lia|]. destruct (Z.ltb_spec 0 b); lia. Qed.

Lemma NewKV_serving (n : net) (instance cap ttl : Z) :
  readable_server n ->
  exists s, NewKV n instance cap ttl (getenv (lit "KV_LAYOUT")) (getenv (lit "KV_BUCKETS")) = Ret (Some s)
    /\ kv_row s = (fun c => default None (raw_row env_layout env_buckets (keys n) c))
    /\ forall T, kv_serving env_layout env_buckets T s.
Proof.
  intros Hr. unfold NewKV, Dial, conn. cbn [k_pool k_net]. rewrite dial_up.
  assert (synced (put [] (mkKv [] n))) as Hs0.
  { unfold put. cbn. split; [by repeat constructor|cbn; unfold kvPoolSize; lia]. }
  destruct (cmd_serves [w_PING] _ Hs0) as (k & -> & Hk & En).
  { split; [cbn; lia|]. apply Forall_singleton. unfold fits. cbn. lia. }
  cbn [kbind go_bind]. destruct (clamped_prefix instance) as (p & -> & Hp). cbn [go_bind].
  fold env_layout env_buckets. eexists. split; [done|].
  unfold kv_serving, node_ok, kv_row, rows. cbn [kv layoutHash buckets kprefix cache kdirty].
  assert (keys (k_net k) = keys n) as -> by (rewrite En; apply (proj2 (exec_ping n))).
  split; [done|]. intros T.
  split; [split; [done|split; [apply buckets_of_pos|]]|split; [done|split; [|split; [apply dirty_ok_cleared|]]]].
  - intros c. destruct (Hr c) as (o & -> & _). by eexists.
  - intros c Hc. destruct (Hr c) as (o & -> & Ho). by apply Ho.
  - match goal with |- cache_agrees T ?f _ => destruct (agrees_new T f cap ttl) as [Hok Ha] end. by split.
Qed.

Lemma NewPebble_serving (d : option db) (instance cap ttl : Z) :
  (forall x, d = Some x -> readable_db x) ->
  match NewPebble d instance cap ttl with
  | Ret (Some s) => d = Some (pdb s) /\ forall T, pebble_serving T s
  | Ret None => d = None
  | _ => False
  end.
Proof.
  intros Hr. unfold NewPebble. destruct d as [d|]; [|done]. destruct (clamped_prefix instance) as (p & -> & Hp).
  cbn [go_bind]. split; [done|]. intros T. split_and!; [done|by apply Hr|]. apply agrees_new.
Qed.

(** The store [NewFromEnv] makes, and where it finds its links. *)
Definition is_pebble : bool :=
  bool_decide (getenv (lit "STORE") = lit "pebble") || bool_decide (getenv (lit "STORE") = lit "rocksdb").
Definition is_kv : bool :=
  bool_decide (getenv (lit "STORE") = lit "dragonfly") || bool_decide (getenv (lit "STORE") = lit "redis")
  || bool_decide (getenv (lit "STORE") = lit "kv").
Definition db_path : bytes :=
  let path := getenv (lit "PEBBLE_PATH") in if bool_decide (path = []) then dir ++ lit "/pebble" else path.
Definition kv_addr : bytes :=
  let addr := or_env getenv (getenv (lit "DRAGONFLY_ADDR")) (lit "KV_ADDR") in
  if bool_decide (addr = []) then lit "127.0.0.1:6379" else addr.

Definition of_env (b : Backend net db) : Prop :=
  match b with
  | BPebble _ => is_pebble = true
  | BKv _ => is_pebble = false /\ is_kv = true
  | BAof _ => is_pebble = false /\ is_kv = false
  end.

(** The links outside, before the store is opened. *)
Definition found (o : Outside net db) (k : Z) (d : Disk) : amap :=
  if is_pebble then fun c => row_val (match o_db o db_path with Some x => view x !! lkey c | None => None end)
  else if is_kv then fun c => row_val (default None (raw_row env_layout env_buckets (keys (o_net o kv_addr)) c))
  else match open_as k None d with
       | Ret (inl s, d') => engine_link (s, d')
       | _ => fun _ => None
       end.

(** Opening a store whose links can be read: it serves them. *)
Lemma NewFromEnv_serving (o : Outside net db) (instance k : Z) (d : Disk) :
  outside_ok o k d -> picks (o_alive o) instance k d ->
  match NewFromEnv getenv o dir instance d with
  | Ret (Some b, d') => of_env b /\ match b with BAof _ => True | _ => d' = d end /\ (forall T, backend_serving k env_layout env_buckets T b)
                       /\ forall c, backend_link b c = found o k d c
  | Ret (None, _) => o_db o db_path = None
  | _ => False
  end.
Proof using Type* on_disk_dir.
  intros (Hkv & Hdb & Hk & snap & log & Hod) Hp. unfold NewFromEnv, found, of_env. cbv zeta.
  fold is_pebble is_kv db_path kv_addr. destruct is_pebble.
  - pose proof (NewPebble_serving (o_db o db_path) instance (envInt getenv (lit "CACHE") 100000)
      (envInt getenv (lit "CACHE_TTL_MS") 5000) (Hdb db_path)) as P.
    destruct (NewPebble _ _ _ _) as [[s|]| |]; cbn [go_bind fmap option_fmap option_map]; [|done..].
    destruct P as [-> P]. split_and!; done.
  - destruct is_kv.
    + destruct (NewKV_serving (o_net o kv_addr) instance (envInt getenv (lit "CACHE") 100000)
        (envInt getenv (lit "CACHE_TTL_MS") 5000) (Hkv kv_addr)) as (s & -> & Er & Hs).
      cbn [go_bind fmap option_fmap option_map]. split_and!; [done..|]. intros c. cbn [backend_link]. unfold kv_link. by rewrite Er.
    + rewrite (bool_decide_eq_false_2 _ on_disk_dir).
      destruct (New_kept (o_alive o) (o_self o) instance k d snap log Hk Hp Hod) as (s0 & d0 & -> & K & Hi).
      cbn [go_bind]. split_and!; [done..|]. intros c. cbn [backend_link].
      destruct (open_as_on_disk k None d snap log Hk (proj1 Hod) (proj2 Hod)) as (s1 & d1 & -> & _ & _ & _ & _ & Hi').
      unfold engine_link. cbn [fst]. by rewrite Hi, (proj1 (Hi' c)).
Qed.

(** C3: whichever backend the environment selects, every run on it, of requests
    and of the flushes, syncs, polls, sweeps, compactions and expiries behind
    them in any order, is answered as by a map from codes to targets and expiry
    times: nothing panics, codes, also of batches, are filed where none was,
    links resolve until they expire or are removed, updates and removals take
    effect at once, and what happens behind the requests takes nothing but links
    that have expired. Only a search for free codes can run on, when the random
    source yields none, or a sweep, while the server's scan has no end. *)
Theorem backend_runs_as_map (o : Outside net db) (instance k : Z) (d d' : Disk)
    (b : Backend net db) (T : Z) (es : list event) (met : Metrics) (m : amap) :
  outside_ok o k d -> picks (o_alive o) instance k d ->
  NewFromEnv getenv o dir instance d = Ret (Some b, d') ->
  (forall c, codeOK c = true -> m c = backend_link b c) -> in_time T es ->
  match runs es met b with
  | Ret (rs, _, b') => exists m', aruns m es rs m' /\ forall c, codeOK c = true -> m' c = backend_link b' c
  | Diverge => exists e, e ∈ es /\ may_run_on e
  | Panic => False
  end.
Proof using Type* on_disk_dir.
  intros Ho Hp E Hm Hq. pose proof (NewFromEnv_serving o instance k d Ho Hp) as Hs. rewrite E in Hs.
  destruct Hs as (_ & _ & Hs & _).
  pose proof (@runs_as_map _ _ _ (backend_links trackHits rounds k env_layout env_buckets) es T met b m (Hs T) Hq Hm) as P.
  destruct (runs es met b) as [[[rs met'] b']| |]; [by destruct P|done|done].
Qed.

End Opening.
