(* ===== verification/Service.v ===== *)
(** * Service: links over HTTP, whatever the store

    What a client sees through the handler, from [LinkMap] alone: a created link
    redirects until it expires, a changed one redirects to its new target, a
    deleted one is not found, whatever else the store is asked in between and
    whatever work goes on behind it. *)

From S2P Require Import Prelude GoStd Float Base62 Store StoreSpec RateLimit Metrics Query Codec.
From S2P Require Import Api App AppSpec AppProps Ticks LinkMap.
From stdpp Require Import options.

Section Service.
Context {St : Type} `{StoreAPI St} `{Ticks St} `{!LinkMap St} (cf : Conf).
Context (url_Parse : bytes -> option (bytes * bytes))
        (sonic_shorten : bytes -> option shortenReq)
        (sonic_bulk : bytes -> option (list bytes))
        (sonic_patch : bytes -> option patchReq)
        (sonic_link : Link -> bytes)
        (sonic_links : list Link -> Z -> bytes)
        (AppendFloat : float64 -> bytes)
        (int64_oor : float64 -> Z).

Local Abbreviation handle :=
  (Handle cf url_Parse sonic_shorten sonic_bulk sonic_patch sonic_link sonic_links AppendFloat int64_oor).

Ltac slash_in := apply (bool_decide_unpack _); vm_compute; exact I.
Ltac refuse := cbn [go_bind]; by intros [= <- _].
Ltac lits := repeat first
  [ rewrite bool_decide_eq_true_2 by reflexivity
  | rewrite bool_decide_eq_false_2 by (by vm_compute) ].

Lemma isValidURL_ok (u : bytes) : isValidURL url_Parse u = true -> url_ok u.
Proof. unfold isValidURL, url_ok. destruct (_ || _) eqn:E; [done|]. lia. Qed.

(** What a 201 of POST /api/shorten leaves in the store. *)
Lemma post_files (T : Z) (ev : Env) (body adminToken client : bytes) (w w' : World St) (r : Reply) :
  serving T (w_st w) -> env_ok ev -> since T ev ->
  handle ev (lit "POST") p_shorten body adminToken client w = Ret (r, w') -> r_Status r = 201 ->
  exists p u code ttl, sonic_shorten body = Some p /\ s_URL p = Some u
    /\ shorten_ttl cf int64_oor (s_TTLMS p) = Some ttl /\ Body r = shorten_body code
    /\ codeOK code = true /\ (forall a, s_Alias p = Some a -> code = a)
    /\ serving T (w_st w') /\ link_at (w_st w) code = None
    /\ filed link_at code (Some (u, expiry (n_st ev) ttl)) (w_st w) (w_st w').
Proof.
  intros Hs Hev HT. unfold Handle, route.
  replace (cut_byte x3f p_shorten) with (@None (bytes * bytes)) by (vm_compute; reflexivity).
  destruct (Tick (n_tick ev) (w_met w)) as [met| |]; cbn [go_bind]; [|done|done]. lits.
  unfold route_post. lits. destruct (sonic_shorten body) as [p|]; [|refuse].
  unfold guarded. destruct (Allow _ _ _ _) as [[|] l]; [|refuse].
  unfold shortenOne. destruct (s_URL p) as [u|] eqn:Eu; [|refuse].
  destruct (isValidURL url_Parse u) eqn:Ev; cbn [negb]; [|refuse].
  destruct (match s_Alias p with Some a => negb (codeOK a) | None => false end) eqn:Ea; [refuse|].
  destruct (shorten_ttl _ _ _) as [ttl|] eqn:Et; [|refuse]. cbn [set_met w_st w_met].
  assert (bool_decide (is_Some (s_Alias p)) = true -> codeOK (default [] (s_Alias p)) = true) as Hal.
  { destruct (s_Alias p) as [a|]; [|done]. intros _. cbn. by destruct (codeOK a). }
  match goal with |- context [api_Shorten ?e ?u ?a ?b ?t ?m ?s] =>
    pose proof (lm_Shorten T e u a b t m s Hs Hev HT (isValidURL_ok _ Ev) Hal) as P;
    destruct (api_Shorten e u a b t m s) as [[[code met'] st']| |]; cbn [go_bind]; [|done|done] end.
  destruct P as [Hs' P]. destruct (bool_decide (code = [])) eqn:Hc; [refuse|].
  apply bool_decide_eq_false in Hc. rewrite decide_False in P by done. cbn [go_bind].
  intros [= <- <-] _. destruct P as (Hok & Hcode & Hfree & Hf). exists p, u, code, ttl. split_and!; try done.
  intros a Eal. rewrite Eal in Hcode. by apply Hcode.
Qed.

(** GET of a code. *)
Lemma get_resolves (T : Z) (ev : Env) (code adminToken client body : bytes) (w : World St) (met : Metrics) :
  serving T (w_st w) -> since T ev -> codeOK code = true -> code <> lit "metrics" -> Tick (n_tick ev) (w_met w) = Ret met ->
  exists o w', handle ev (lit "GET") (x2f :: code) body adminToken client w
      = Ret (match o with Some t => mkReply 302 t [] [] | None => notFound end, w')
    /\ resolves ev (link_at (w_st w) code) o /\ serving T (w_st w') /\ same_links link_at (w_st w) (w_st w').
Proof.
  intros Hs HT Hc Hm Ht. unfold Handle, route. rewrite code_pathname, Ht by done. cbn [go_bind]. lits.
  assert (forall t, x2f ∈ t -> x2f :: code <> x2f :: t) as Hne.
  { intros t Hin [= E]. by apply (alias_no_slash code t). }
  unfold route_get.
  rewrite (bool_decide_eq_false_2 (x2f :: code = lit "/api/health")) by (apply (Hne (lit "api/health")); slash_in).
  rewrite (bool_decide_eq_false_2 (x2f :: code = lit "/api/metrics")) by (apply (Hne (lit "api/metrics")); slash_in).
  rewrite (bool_decide_eq_false_2 (x2f :: code = lit "/metrics")) by (intros [= E]; by apply Hm).
  rewrite (bool_decide_eq_false_2 (x2f :: code = lit "/")) by (intros [= ->]; done).
  rewrite (bool_decide_eq_false_2 (x2f :: code = lit "/api/links")) by (apply (Hne (lit "api/links")); slash_in).
  assert (HasPrefix (x2f :: code) p_stats = false) as ->.
  { apply (alias_no_prefix code (lit "api/stats/")); [done|slash_in]. }
  rewrite Hc. cbn [set_met w_st w_met].
  match goal with |- context [api_Resolve ?e ?c ?m ?s] =>
    destruct (lm_Resolve T e c m s Hs HT Hc) as (r & met' & st' & -> & Hs' & Hsame & Hr) end.
  cbn [go_bind]. exists r. destruct r as [t|]; cbn [go_bind]; eexists; (split; [done|]); by split_and!.
Qed.

Lemma links_pathname (code : bytes) :
  codeOK code = true -> cut_byte x3f (p_links ++ code) = None /\ HasPrefix (p_links ++ code) p_links = true
    /\ drop (length p_links) (p_links ++ code) = code.
Proof.
  intros Hc. split_and!; [|apply HasPrefix_app|by rewrite drop_app_length].
  assert (forall s, forallb (fun c => negb (c =b x3f)) s = true -> break_at (Byte.eqb x3f) s = (s, [])) as Hb.
  { induction s as [|c s IH]; [done|]. cbn [forallb break_at]. intros [Hx Hs]%andb_true_iff.
    rewrite (IH Hs). by destruct c. }
  unfold cut_byte. rewrite Hb; [done|]. rewrite forallb_app. apply andb_true_iff. split; [done|].
  unfold codeOK in Hc. destruct (_ || _); [done|]. apply forallb_forall. rewrite forallb_forall in Hc.
  intros c Hin. specialize (Hc c Hin). by destruct c.
Qed.

(** A 204 of DELETE: the link is gone. *)
Lemma delete_removes (T : Z) (ev : Env) (code adminToken client body : bytes) (w w' : World St) (r : Reply) :
  serving T (w_st w) -> since T ev -> codeOK code = true ->
  handle ev (lit "DELETE") (p_links ++ code) body adminToken client w = Ret (r, w') -> r_Status r = 204 ->
  is_Some (link_at (w_st w) code) /\ serving T (w_st w') /\ filed link_at code None (w_st w) (w_st w').
Proof.
  intros Hs HT Hc. destruct (links_pathname code Hc) as (Hq & Hp & Hd). unfold Handle, route. rewrite Hq.
  destruct (Tick _ _) as [met| |]; cbn [go_bind]; [|done|done]. lits. cbn [orb]. rewrite Hp, Hd. cbn [negb orb].
  destruct (adminOk cf adminToken); cbn [negb]; [|refuse]. rewrite Hc. cbn [negb]. unfold route_delete.
  cbn [set_met w_st]. match goal with |- context [api_Remove ?e ?c ?s] =>
    destruct (lm_Remove T e c s Hs HT Hc) as (m & st' & -> & Hs' & P) end.
  cbn [go_bind]. destruct m; cbn [go_bind mut_reply]; [|refuse|refuse].
  intros [= <- <-] _. by destruct P.
Qed.

(** A 200 of PATCH: the link has its new target. *)
Lemma patch_updates (T : Z) (ev : Env) (code adminToken client body : bytes) (w w' : World St) (r : Reply) :
  serving T (w_st w) -> env_ok ev -> since T ev -> codeOK code = true ->
  handle ev (lit "PATCH") (p_links ++ code) body adminToken client w = Ret (r, w') -> r_Status r = 200 ->
  exists p u u0 e ttl, sonic_patch body = Some p /\ p_URL p = Some u
    /\ link_at (w_st w) code = Some (u0, e) /\ serving T (w_st w')
    /\ filed link_at code (Some (u, if bool_decide (is_Some (p_TTLMS p)) then expiry (n_st ev) ttl else e))
         (w_st w) (w_st w').
Proof.
  intros Hs Hev HT Hc. destruct (links_pathname code Hc) as (Hq & Hp & Hd). unfold Handle, route. rewrite Hq.
  destruct (Tick _ _) as [met| |]; cbn [go_bind]; [|done|done]. lits. cbn [orb]. rewrite Hp, Hd. cbn [negb orb].
  destruct (adminOk cf adminToken); cbn [negb]; [|refuse]. rewrite Hc. cbn [negb]. unfold route_patch.
  destruct (sonic_patch body) as [p|]; [|refuse]. destruct (p_URL p) as [u|] eqn:Eu; [|refuse].
  destruct (isValidURL url_Parse u) eqn:Ev; cbn [negb]; [|refuse]. cbv zeta. cbn [set_met w_st].
  match goal with |- context [api_Update ?e ?c ?u ?t ?b ?s] =>
    destruct (lm_Update T e c u t b s Hs Hev HT Hc (isValidURL_ok _ Ev)) as (m & st' & -> & Hs' & P); set (ttl := t) in * end.
  cbn [go_bind]. destruct m; cbn [go_bind mut_reply]; [|refuse|refuse].
  intros [= <- <-] _. destruct P as (u0 & e & Hl & Hf). by exists p, u, u0, e, ttl.
Qed.

(** ** After other calls and chores *)

(** [w'] is [w] after the store was asked and worked as [es] says; what other
    requests left in the counters and the limiter is any. *)
Definition later (es : list event) (w w' : World St) : Prop :=
  exists met rs met', runs es met (w_st w) = Ret (rs, met', w_st w').

Lemma later_link (T : Z) (es : list event) (w w' : World St) (code : bytes) :
  serving T (w_st w) -> in_time T es -> later es w w' -> codeOK code = true ->
  serving (end_time T es) (w_st w')
  /\ (forall u e, Forall (spares code) es -> e = 0 \/ end_time T es < e ->
        link_at (w_st w) code = Some (u, e) -> link_at (w_st w') code = Some (u, e))
  /\ (Forall makes_none es -> link_at (w_st w') code = link_at (w_st w) code \/ link_at (w_st w') code = None).
Proof.
  intros Hs Hes (met & rs & met' & E) Hc.
  pose proof (runs_as_map es T met (w_st w) (link_at (w_st w)) Hs Hes (fun _ _ => eq_refl)) as P. rewrite E in P.
  destruct P as (Hs' & m' & Har & Hm'). split; [done|]. rewrite <- (Hm' code Hc). split.
  - intros u e Hsp He Hl. by eapply aruns_link.
  - intros Hn. by eapply aruns_makes_none.
Qed.

(** What GET answers then. *)
Lemma get_later (T : Z) (es : list event) (ev : Env) (code adminToken client body : bytes) (w w' : World St)
    (met : Metrics) :
  serving T (w_st w) -> in_time T es -> later es w w' -> since (end_time T es) ev ->
  codeOK code = true -> code <> lit "metrics" -> Tick (n_tick ev) (w_met w') = Ret met ->
  exists r w2, handle ev (lit "GET") (x2f :: code) body adminToken client w' = Ret (r, w2)
    /\ (forall u e, Forall (spares code) es -> link_at (w_st w) code = Some (u, e) -> live_at ev e ->
          r = mkReply 302 u [] [])
    /\ (Forall makes_none es ->
          match link_at (w_st w) code with Some (_, e) => expired_at ev e | None => True end -> r = notFound).
Proof.
  intros Hs Hes Hw HT Hc Hm Ht. destruct (later_link T es w w' code Hs Hes Hw Hc) as (Hs' & Hkeep & Hnone).
  destruct (get_resolves (end_time T es) ev code adminToken client body w' met Hs' HT Hc Hm Ht)
    as (o & w2 & E & Ho & _). eexists _, w2. split; [exact E|]. split.
  - intros u e Hsp Hl Hlive. rewrite (Hkeep u e Hsp) in Ho; [|unfold live_at, since in *; lia|done].
    destruct o as [t|]; [by destruct Ho as [-> _]|by apply Ho in Hlive].
  - intros Hn Hx. destruct o as [t|]; [|done]. exfalso.
    destruct (Hnone Hn) as [Eq|Eq]; rewrite Eq in Ho; [|done].
    destruct (link_at (w_st w) code) as [[u e]|]; [|done]. by destruct Ho as [_ He].
Qed.

(** C11: over any store that is a map of links, a created link redirects: after
    POST /api/shorten answered 201 for a code other than "metrics" (which GET
    serves as the Prometheus page), and after any other calls of the store and
    any work behind it, GET of the code answers 302 with the posted URL while the
    link lives, if none of the calls was an update or removal of the code, and
    404 once it has expired, if none of them was a creation or an update. *)
Theorem any_store_serves_created_link (T : Z) (es : list event) (ev ev' : Env)
    (body adminToken client body' adminToken' client' : bytes) (w w1 w2 : World St) (r : Reply) (met : Metrics) :
  serving T (w_st w) -> env_ok ev -> since T ev ->
  handle ev (lit "POST") p_shorten body adminToken client w = Ret (r, w1) -> r_Status r = 201 ->
  in_time T es -> later es w1 w2 -> since (end_time T es) ev' -> Tick (n_tick ev') (w_met w2) = Ret met ->
  exists p u code ttl, sonic_shorten body = Some p /\ s_URL p = Some u
    /\ shorten_ttl cf int64_oor (s_TTLMS p) = Some ttl /\ Body r = shorten_body code
    /\ (code <> lit "metrics" -> exists r' w3,
          handle ev' (lit "GET") (x2f :: code) body' adminToken' client' w2 = Ret (r', w3)
          /\ (Forall (spares code) es -> live_at ev' (expiry (n_st ev) ttl) -> r' = mkReply 302 u [] [])
          /\ (Forall makes_none es -> expired_at ev' (expiry (n_st ev) ttl) -> r' = notFound)).
Proof.
  intros Hs Hev HT E Hr Hes Hw HT' Ht.
  destruct (post_files T ev body adminToken client w w1 r Hs Hev HT E Hr)
    as (p & u & code & ttl & Hp & Hu & Httl & Hb & Hc & _ & Hs1 & _ & Hf).
  exists p, u, code, ttl. split_and!; [done..|]. intros Hm.
  destruct (get_later T es ev' code adminToken' client' body' w1 w2 met Hs1 Hes Hw HT' Hc Hm Ht)
    as (r' & w3 & E' & Hlive & Hexp). exists r', w3. rewrite (Hf code Hc), decide_True in Hlive, Hexp by done.
  split_and!; [exact E'| |by apply Hexp]. intros Hsp Hl. by eapply Hlive.
Qed.

(** C12: over any store that is a map of links, an administrator's changes of a
    code other than "metrics" take effect at once and stay, whatever other calls
    and work behind the store follow: after a PATCH answered 200, GET redirects
    to the new URL while the link lives, if none of the calls updates or removes
    the code; after a DELETE answered 204, or once the updated link has expired,
    GET answers 404 if none of the calls is a creation or an update. *)
Theorem any_store_serves_changes (T : Z) (es : list event) (ev ev' : Env)
    (code body adminToken client body' adminToken' client' : bytes) (w w1 w2 : World St) (r : Reply) (met : Metrics) :
  serving T (w_st w) -> env_ok ev -> since T ev -> codeOK code = true -> code <> lit "metrics" ->
  in_time T es -> later es w1 w2 -> since (end_time T es) ev' -> Tick (n_tick ev') (w_met w2) = Ret met ->
  let get := handle ev' (lit "GET") (x2f :: code) body' adminToken' client' w2 in
  (handle ev (lit "DELETE") (p_links ++ code) body adminToken client w = Ret (r, w1) -> r_Status r = 204 ->
     exists r' w3, get = Ret (r', w3) /\ (Forall makes_none es -> r' = notFound))
  /\ (handle ev (lit "PATCH") (p_links ++ code) body adminToken client w = Ret (r, w1) -> r_Status r = 200 ->
     exists p u e r' w3, sonic_patch body = Some p /\ p_URL p = Some u /\ get = Ret (r', w3)
       /\ (p_TTLMS p = None -> exists u0, link_at (w_st w) code = Some (u0, e))
       /\ (Forall (spares code) es -> live_at ev' e -> r' = mkReply 302 u [] [])
       /\ (Forall makes_none es -> expired_at ev' e -> r' = notFound)).
Proof.
  intros Hs Hev HT Hc Hm Hes Hw HT' Ht get. split.
  - intros E Hr. destruct (delete_removes T ev code adminToken client body w w1 r Hs HT Hc E Hr) as (_ & Hs1 & Hf).
    destruct (get_later T es ev' code adminToken' client' body' w1 w2 met Hs1 Hes Hw HT' Hc Hm Ht)
      as (r' & w3 & E' & _ & Hexp). rewrite (Hf code Hc), decide_True in Hexp by done.
    exists r', w3. split; [exact E'|]. intros Hn. by apply Hexp.
  - intros E Hr. destruct (patch_updates T ev code adminToken client body w w1 r Hs Hev HT Hc E Hr)
      as (p & u & u0 & e & ttl & Hp & Hu & Hl & Hs1 & Hf).
    destruct (get_later T es ev' code adminToken' client' body' w1 w2 met Hs1 Hes Hw HT' Hc Hm Ht)
      as (r' & w3 & E' & Hlive & Hexp). rewrite (Hf code Hc), decide_True in Hlive, Hexp by done.
    eexists p, u, (if bool_decide (is_Some (p_TTLMS p)) then expiry (n_st ev) ttl else e), r', w3.
    split_and!; [done|done|exact E'| | |by apply Hexp].
    + intros Hn. rewrite Hn. cbn. by exists u0.
    + intros Hsp Hlv. by eapply Hlive.
Qed.

End Service.
