(* ===== verification/Bench.v ===== *)
(** * Bench: the load generator, [cmd/bench/main.go]

    The response parser, the loop each connection runs, the tally of a run and
    the requests it sends. The clock, how many writes of a round succeed and
    the bytes that arrive on a connection are arguments; [BenchRun.v] has the
    servers and the course of a benchmark. *)

From S2P Require Import Prelude GoStd Float App.
From Stdlib Require Import SpecFloat.

From stdpp Require Import options.

Definition envInt (getenv : bytes -> bytes) (k : bytes) (def : Z) : Z :=
  let v := getenv k in
  if negb (bool_decide (v = [])) then
    match ParseInt v with (n, None) => n | (_, Some _) => def end
  else def.

(** ** Reading a response

    A connection is the bytes that arrive on it; [eof] says whether it is closed
    after them, for without a deadline a read past them waits for ever. A call
    returns its value, [None] for an error, and the bytes left. *)

Definition rcall (A : Type) : Type := go (option A * bytes).

Definition rbind {A B : Type} (m : rcall A) (f : A -> bytes -> rcall B) : rcall B :=
  let* (o, s) := m in match o with Some a => f a s | None => Ret (None, s) end.

(** [bufio.Reader.ReadString] of a newline. *)
Definition ReadString (eof : bool) (s : bytes) : rcall bytes :=
  match break_at (Byte.eqb x0a) s with
  | (a, c :: b) => Ret (Some (a ++ [c]), b)
  | (_, []) => if eof then Ret (None, []) else Diverge
  end.

(** [io.CopyN] to [io.Discard]: a negative count is no error. *)
Definition CopyN (eof : bool) (n : Z) (s : bytes) : rcall unit :=
  if n <=? 0 then Ret (Some tt, s)
  else if n <=? Z.of_nat (length s) then Ret (Some tt, drop (Z.to_nat n) s)
  else if eof then Ret (None, []) else Diverge.

(** [strconv.ParseInt] in base 16. *)
Definition ParseHex (s : bytes) : Z * option num_err :=
  let signed (neg : bool) (s : bytes) :=
    match ParseUint s 16 64 with
    | (_, Some ErrSyntax) => (0, Some ErrSyntax)
    | (un, _) =>
        if negb neg && (2 ^ 63 <=? un) then (2 ^ 63 - 1, Some ErrRange)
        else if neg && (2 ^ 63 <? un) then (- 2 ^ 63, Some ErrRange)
        else ((if neg then - un else un), None)
    end in
  match s with
  | [] => (0, Some ErrSyntax)
  | c :: s' => if c =b x2b then signed false s' else if c =b x2d then signed true s' else signed false s
  end.

(** [strings.EqualFold] with a lower-case ASCII text: two characters outside
    ASCII fold to letters, the long s and the Kelvin sign. *)
Fixpoint to_ascii (s : bytes) : bytes :=
  match s with
  | xc5 :: xbf :: s' => x73 :: to_ascii s'
  | xe2 :: x84 :: xaa :: s' => x6b :: to_ascii s'
  | c :: s' => c :: to_ascii s'
  | [] => []
  end.
Definition folds_to (s t : bytes) : bool := bool_decide (map to_lower (to_ascii s) = t).

(** The code in a status line: [SplitN] into three, the second one. *)
Definition status_code (line : bytes) : option Z :=
  match cut_byte x20 line with
  | None => None
  | Some (_, r) =>
      let p := match cut_byte x20 r with Some (p, _) => p | None => r end in
      match ParseInt p with (n, None) => Some n | (_, Some _) => None end
  end.

(** What a header line does to the content length and the chunked flag. *)
Definition header (h : bytes) (cl : Z) (chunked : bool) : Z * bool :=
  match cut_byte x3a h with
  | None => (cl, chunked)
  | Some (k, v) =>
      let v := TrimSpace v in
      if folds_to k (lit "content-length") then ((ParseInt v).1, chunked)
      else if folds_to k (lit "transfer-encoding") && Contains v (lit "chunked") then (cl, true)
      else (cl, chunked)
  end.

Fixpoint read_headers (fuel : nat) (eof : bool) (cl : Z) (chunked : bool) (s : bytes) : rcall (Z * bool) :=
  match fuel with
  | O => Diverge
  | S fuel' =>
      rbind (ReadString eof s) (fun h s1 =>
        if bool_decide (h = [x0d; x0a]) || bool_decide (h = [x0a]) then Ret (Some (cl, chunked), s1)
        else let '(cl, chunked) := header h cl chunked in read_headers fuel' eof cl chunked s1)
  end.

Fixpoint read_chunks (fuel : nat) (eof : bool) (s : bytes) : rcall unit :=
  match fuel with
  | O => Diverge
  | S fuel' =>
      rbind (ReadString eof s) (fun sz s1 =>
        match ParseHex (TrimSpace sz) with
        | (_, Some _) => Ret (None, s1)
        | (n, None) =>
            if n =? 0 then
              let* (_, s2) := ReadString eof s1 in Ret (Some tt, s2)
            else rbind (CopyN eof (int64 (n + 2)) s1) (fun _ s2 => read_chunks fuel' eof s2)
        end)
  end.

Definition readResp (eof : bool) (s : bytes) : rcall Z :=
  rbind (ReadString eof s) (fun line s1 =>
    match status_code line with
    | None => Ret (None, s1)
    | Some code =>
        rbind (read_headers (S (length s1)) eof 0 false s1) (fun '(cl, chunked) s2 =>
          if chunked : bool then rbind (read_chunks (S (length s2)) eof s2) (fun _ s3 => Ret (Some code, s3))
          else if 0 <? cl then rbind (CopyN eof cl s2) (fun _ s3 => Ret (Some code, s3))
          else Ret (Some code, s2))
    end).

(** ** One connection *)

(** A round of the loop before the deadline: how many writes succeed, and the
    time it takes in microseconds. *)
Record round := mkRound { r_writes : nat; r_us : Z }.

(** What a connection adds to the counters of the run. *)
Record tally := mkTally {
  t_total : Z; t_non2xx : Z; t_errs : Z;
  t_latSum : Z;
  t_lats : list float64;
  t_sent : list bytes    (* the requests written, in order *)
}.

Definition tally0 : tally := mkTally 0 0 0 0 [] [].

(** Up to [n] responses: how many were read, how many of them have a code
    outside 200 to 399, and whether a read failed. *)
Fixpoint read_batch (n : nat) (eof : bool) (s : bytes) : go (nat * Z * bool * bytes) :=
  match n with
  | O => Ret (O, 0, false, s)
  | S n' =>
      let* (o, s1) := readResp eof s in
      match o with
      | None => Ret (O, 0, true, s1)
      | Some code =>
          let* (got, bad, err, s2) := read_batch n' eof s1 in
          Ret (S got, bad + (if (code <? 200) || (400 <=? code) then 1 else 0), err, s2)
      end
  end.

(** The requests from the [i]-th on, cyclically. *)
Definition cycled (reqs : list bytes) (i n : nat) : list bytes :=
  map (fun j => nth ((i + j) mod length reqs) reqs []) (seq 0 n).

(** Milliseconds per request of a round. *)
Definition per_req (us : Z) (got : nat) : float64 :=
  f64_div (f64_div (f64_of_Z us) (f64_of_Z 1000)) (f64_of_Z (Z.of_nat got)).

Section Worker.
Context (reqs : list bytes) (pipe : nat) (int64_oor : float64 -> Z).

(** [int64(x)], what it gives out of range being up to the machine. *)
Definition to_int64 (x : float64) : Z :=
  if f64_le (f64_of_Z (- 2 ^ 63)) x && f64_lt x (f64_of_Z (2 ^ 63)) then f64_trunc x else int64_oor x.

Fixpoint worker (rounds : list round) (i : nat) (eof : bool) (s : bytes) (t : tally) : go tally :=
  match rounds with
  | [] => Ret t
  | r :: rounds' =>
      let batch := Nat.min pipe (r_writes r) in
      let werr := if (r_writes r <? pipe)%nat then 1 else 0 in
      let i' := ((i + batch) mod length reqs)%nat in
      let t := mkTally (t_total t) (t_non2xx t) (t_errs t + werr) (t_latSum t) (t_lats t) (t_sent t ++ cycled reqs i batch) in
      if (batch =? 0)%nat then Ret t
      else
        let* (got, bad, err, s1) := read_batch batch eof s in
        let t := mkTally (t_total t) (t_non2xx t + bad) (t_errs t + (if err : bool then 1 else 0)) (t_latSum t) (t_lats t) (t_sent t) in
        if (got =? 0)%nat then Ret t
        else
          let el := per_req (r_us r) got in
          worker rounds' i' eof s1
            (mkTally (t_total t + Z.of_nat got) (t_non2xx t) (t_errs t)
               (int64 (t_latSum t + to_int64 (f64_mul el (f64_of_Z 1000)))) (t_lats t ++ [el]) (t_sent t))
  end.

(** A connection: [None] when it could not be made. *)
Definition connection (seed : nat) (c : option (list round * bool * bytes)) : go tally :=
  match c with
  | None => Ret (mkTally 0 0 1 0 [] [])
  | Some (rounds, eof, s) =>
      match reqs with
      | [] => Panic
      | _ => worker rounds (seed mod length reqs) eof s tally0
      end
  end.

End Worker.

(** ** A run *)

(** [sort.Float64s], of numbers. *)
Fixpoint insert_f64 (x : float64) (l : list float64) : list float64 :=
  match l with
  | [] => [x]
  | y :: l' => if f64_lt y x then y :: insert_f64 x l' else x :: l
  end.
Definition Float64s (l : list float64) : list float64 := foldr insert_f64 [] l.

Record result := mkResult { reqs_done : Z; non2xx : Z; errs : Z; latSum : float64; latVals : list float64 }.

(** The goroutines only add to shared counters, so the run adds up what they
    add, in whatever order they come. *)
Definition add_tally (a b : tally) : tally :=
  mkTally (t_total a + t_total b) (t_non2xx a + t_non2xx b) (t_errs a + t_errs b)
    (int64 (t_latSum a + t_latSum b)) (t_lats a ++ t_lats b) (t_sent a ++ t_sent b).

Fixpoint connections (reqs : list bytes) (pipe : nat) (int64_oor : float64 -> Z) (seed : nat)
    (cs : list (option (list round * bool * bytes))) : go tally :=
  match cs with
  | [] => Ret tally0
  | c :: cs' =>
      let* a := connection reqs pipe int64_oor seed c in
      let* b := connections reqs pipe int64_oor (S seed) cs' in
      Ret (add_tally a b)
  end.

(** 0.99, to the nearest double. *)
Definition f64_099 : float64 := f64_div (f64_of_Z 99) (f64_of_Z 100).

Definition p99_index (n : Z) : Z := f64_trunc (f64_mul (f64_of_Z n) f64_099).

Definition blast (reqs : list bytes) (pipe : nat) (int64_oor : float64 -> Z)
    (cs : list (option (list round * bool * bytes))) : go result :=
  let* t := connections reqs pipe int64_oor 0 cs in
  let lats := Float64s (t_lats t) in
  let* p99 :=
    match lats with
    | [] => Ret (f64_of_Z 0)
    | _ => match lats !! Z.to_nat (p99_index (Z.of_nat (length lats))) with Some x => Ret x | None => Panic end
    end in
  let avg := if 0 <? t_total t
             then f64_div (f64_div (f64_of_Z (t_latSum t)) (f64_of_Z 1000)) (f64_of_Z (t_total t))
             else f64_of_Z 0 in
  Ret (mkResult (t_total t) (t_non2xx t) (t_errs t) avg [avg; p99]).

(** ** The requests *)

Definition CRLF : bytes := [x0d; x0a].

Definition getReq (path : bytes) : bytes :=
  lit "GET " ++ path ++ lit " HTTP/1.1" ++ CRLF ++ lit "Host: x" ++ CRLF ++ CRLF.

Definition postReq (path body : bytes) : bytes :=
  lit "POST " ++ path ++ lit " HTTP/1.1" ++ CRLF ++ lit "Host: x" ++ CRLF
  ++ lit "content-type: application/json" ++ CRLF ++ lit "content-length: "
  ++ itoa (Z.of_nat (length body)) ++ CRLF ++ CRLF ++ body.

(** The codes [makeCodes] seeds, and the body of each request. *)
Definition bench_code (i : nat) : bytes := lit "bk" ++ itoa (Z.of_nat i).
Definition bench_url (i : nat) : bytes := lit "https://bench.example/" ++ itoa (Z.of_nat i).
Definition alias_body (i : nat) : bytes :=
  lit "{'url':'" ++ bench_url i ++ lit "','alias':'" ++ bench_code i ++ lit "'}".

Definition bench_dir (tmp tag : bytes) (port : Z) : bytes := tmp ++ lit "/bench-go-" ++ tag ++ lit "-" ++ itoa port.

(** [envFor]: the next port, a directory of its own below the temporary one,
    and the settings given, which come last. *)
Definition envFor (tmp : bytes) (extra : gmap bytes bytes) (tag : bytes) (portSeq : Z) : gmap bytes bytes * Z :=
  (extra ∪ (<[lit "PORT" := itoa portSeq]> (<[lit "DATA_DIR" := bench_dir tmp tag portSeq]> ∅)), portSeq + 10).

Definition bulkN : nat := 1000.

(** The URLs of the bulk request. *)
Definition bulk_url (i : nat) : bytes := lit "https://b.example/" ++ itoa (Z.of_nat i).

Fixpoint quoted_list (first : bool) (us : list bytes) : bytes :=
  match us with
  | [] => []
  | u :: us' => (if first then [] else [x2c]) ++ lit "'" ++ u ++ lit "'" ++ quoted_list false us'
  end.

Definition bulk_json : bytes := lit "{'urls':[" ++ quoted_list true (map bulk_url (seq 0 bulkN)) ++ lit "]}".

Definition writeReq : bytes := postReq (lit "/api/shorten") (lit "{'url':'https://bench.example/write'}").
Definition bulkReq : bytes := postReq (lit "/api/shorten/bulk") bulk_json.

(** The redirects of the seeded codes, and the mix of 95 of them and 5 writes. *)
Definition redirects (codes : list bytes) : list bytes := map (fun c => getReq (x2f :: c)) codes.
Definition mixed (rs : list bytes) : list bytes := take 95 rs ++ repeat writeReq 5.

(** ** The scenarios of main *)

Record scenario := mkScenario { sc_name : bytes; sc_conns : Z; sc_reqs : list bytes; sc_pipe : nat; sc_rows : Z }.

Definition fast_scenarios (conns : Z) (codes : list bytes) : list scenario :=
  let reqs := redirects codes in
  [mkScenario (lit "redirect (fast)") conns reqs 1 1;
   mkScenario (lit "redirect (fast, p10)") conns reqs 10 1;
   mkScenario (lit "mixed 95/5 (fast)") conns (mixed reqs) 1 1;
   mkScenario (lit "shorten (fast)") conns [writeReq] 1 1;
   mkScenario (lit "bulk x1000 (fast)") (Z.quot conns 4) [bulkReq] 1 1000].

Definition std_scenarios (conns : Z) (codes : list bytes) : list scenario :=
  [mkScenario (lit "redirect (std)") conns (redirects codes) 1 1;
   mkScenario (lit "shorten (std)") conns [writeReq] 1 1].

Definition multi_scenarios (conns : Z) (codes : list bytes) : list scenario :=
  [mkScenario (lit "bulk x1000 (fast x4)") (Z.quot conns 2) [bulkReq] 1 1000;
   mkScenario (lit "redirect (fast x4)") conns (redirects codes) 1 1].

(** * Theorems *)

(** ** Reading lines *)

Definition no_nl (t : bytes) : Prop := Forall (fun c => c <> x0a) t.

Lemma no_nl_eqb (t : bytes) : no_nl t -> Forall (fun c => Byte.eqb x0a c = false) t.
Proof. intros Ht. eapply Forall_impl; [exact Ht|]. intros c Hc. apply byte_eqb_ne. congruence. Qed.

Lemma ReadString_line (eof : bool) (t r : bytes) :
  no_nl t -> ReadString eof (t ++ CRLF ++ r) = Ret (Some (t ++ CRLF), r).
Proof.
  intros Ht. unfold ReadString, CRLF. replace (t ++ [x0d; x0a] ++ r) with ((t ++ [x0d]) ++ x0a :: r) by (by rewrite <- app_assoc).
  rewrite break_at_app; [by rewrite <- app_assoc| |done]. apply Forall_app. split; [by apply no_nl_eqb|by repeat constructor].
Qed.

Lemma ReadString_shorter (s : bytes) :
  match ReadString true s with
  | Ret (Some l, s') => l <> [] /\ (length s' < length s)%nat
  | Ret (None, s') => s' = []
  | _ => False
  end.
Proof.
  unfold ReadString. destruct (break_at (Byte.eqb x0a) s) as [a [|c b]] eqn:E; [done|].
  apply break_at_split in E as ->. rewrite length_app. cbn [length]. split; [by destruct a|lia].
Qed.

Lemma CopyN_exact (eof : bool) (b r : bytes) : CopyN eof (Z.of_nat (length b)) (b ++ r) = Ret (Some tt, r).
Proof.
  unfold CopyN. destruct (Z.leb_spec (Z.of_nat (length b)) 0); [by destruct b; [|cbn in *; lia]|].
  rewrite (proj2 (Z.leb_le _ _)) by (rewrite length_app; lia). by rewrite Nat2Z.id, drop_app_length.
Qed.

Lemma CopyN_shorter (n : Z) (s : bytes) :
  match CopyN true n s with Ret (_, s') => (length s' <= length s)%nat | _ => False end.
Proof. unfold CopyN. repeat bcase; cbn; rewrite ?length_drop; lia. Qed.

(** ** Reading ends with the connection *)

Lemma read_headers_returns (fuel : nat) (cl : Z) (ch : bool) (s : bytes) :
  (length s < fuel)%nat ->
  match read_headers fuel true cl ch s with Ret (_, s') => (length s' <= length s)%nat | _ => False end.
Proof.
  revert cl ch s. induction fuel as [|fuel IH]; intros cl ch s Hl; [lia|]. cbn [read_headers]. unfold rbind.
  pose proof (ReadString_shorter s) as P. destruct (ReadString true s) as [[[h|] s1]| |]; cbn [go_bind]; [|by subst; cbn; lia|done..].
  destruct P as [_ P]. destruct (_ || _); [lia|]. destruct (header h cl ch) as [cl' ch'].
  specialize (IH cl' ch' s1 ltac:(lia)). destruct (read_headers fuel true cl' ch' s1) as [[? ?]| |]; [lia|done..].
Qed.

Lemma read_chunks_returns (fuel : nat) (s : bytes) :
  (length s < fuel)%nat -> is_ret (read_chunks fuel true s) = true.
Proof.
  revert s. induction fuel as [|fuel IH]; intros s Hl; [lia|]. cbn [read_chunks]. unfold rbind.
  pose proof (ReadString_shorter s) as P. destruct (ReadString true s) as [[[h|] s1]| |]; cbn [go_bind]; [|done..].
  destruct (ParseHex _) as [n [?|]]; [done|]. destruct (n =? 0).
  - pose proof (ReadString_shorter s1) as P1. by destruct (ReadString true s1) as [[? ?]| |].
  - pose proof (CopyN_shorter (int64 (n + 2)) s1) as P1.
    destruct (CopyN true _ s1) as [[[[]|] s2]| |]; cbn [go_bind]; [|done..]. apply IH. lia.
Qed.

(** the parser returns on every input of a connection that is closed. *)
Lemma bench_readResp_returns (s : bytes) : is_ret (readResp true s) = true.
Proof.
  unfold readResp, rbind. pose proof (ReadString_shorter s) as P.
  destruct (ReadString true s) as [[[line|] s1]| |]; cbn [go_bind]; [|done..].
  destruct (status_code line) as [code|]; [|done].
  pose proof (read_headers_returns (S (length s1)) 0 false s1 (Nat.lt_succ_diag_r _)) as P1.
  destruct (read_headers _ _ _ _ _) as [[[[cl ch]|] s2]| |]; cbn [go_bind]; [|done..].
  destruct ch.
  - pose proof (read_chunks_returns (S (length s2)) s2 (Nat.lt_succ_diag_r _)) as P2.
    by destruct (read_chunks _ _ _) as [[[[]|] s3]| |].
  - destruct (0 <? cl); [|done]. pose proof (CopyN_shorter cl s2) as P2.
    by destruct (CopyN true cl s2) as [[[[]|] s3]| |].
Qed.

(** ** Responses on the wire *)

(** The first line, and the header lines that say nothing about the body. *)
Definition status_line (code : Z) (reason : bytes) : bytes := lit "HTTP/1.1 " ++ itoa code ++ [x20] ++ reason ++ CRLF.

Definition field (kv : bytes * bytes) : bytes := kv.1 ++ [x3a] ++ kv.2 ++ CRLF.

Definition plain (kv : bytes * bytes) : Prop :=
  no_nl kv.1 /\ no_nl kv.2 /\ Forall (fun c => c <> x3a) kv.1
  /\ folds_to kv.1 (lit "content-length") = false /\ folds_to kv.1 (lit "transfer-encoding") = false.

(** A chunk: its size line, read as the number of bytes that follow. *)
Definition chunk (cd : bytes * bytes) : bytes := cd.1 ++ CRLF ++ cd.2 ++ CRLF.
Definition chunk_ok (cd : bytes * bytes) : Prop :=
  no_nl cd.1 /\ cd.2 <> [] /\ ParseHex (TrimSpace (cd.1 ++ CRLF)) = (Z.of_nat (length cd.2), None).

(** A response with code [code]: of a given length, or in chunks. *)
Inductive wire (code : Z) : bytes -> Prop :=
| wire_sized reason hs k hs' body :
    is_int64 code -> no_nl reason -> Forall plain hs -> Forall plain hs' ->
    no_nl k -> Forall (fun c => c <> x3a) k -> folds_to k (lit "content-length") = true ->
    is_int64 (Z.of_nat (length body)) ->
    wire code (status_line code reason ++ concat (map field hs)
               ++ field (k, x20 :: itoa (Z.of_nat (length body))) ++ concat (map field hs') ++ CRLF ++ body)
| wire_chunked reason hs k hs' cs :
    is_int64 code -> no_nl reason -> Forall plain hs -> Forall plain hs' ->
    no_nl k -> Forall (fun c => c <> x3a) k -> folds_to k (lit "transfer-encoding") = true ->
    folds_to k (lit "content-length") = false -> Forall chunk_ok cs -> Forall (fun cd => is_int64 (Z.of_nat (length cd.2) + 2)) cs ->
    wire code (status_line code reason ++ concat (map field hs)
               ++ field (k, lit " chunked") ++ concat (map field hs') ++ CRLF
               ++ concat (map chunk cs) ++ lit "0" ++ CRLF ++ CRLF).

(** *** Headers *)

Lemma field_line (kv : bytes * bytes) : field kv = (kv.1 ++ [x3a] ++ kv.2) ++ CRLF.
Proof. unfold field. by rewrite <- !app_assoc. Qed.

Lemma header_field (k v : bytes) (cl : Z) (ch : bool) :
  Forall (fun c => c <> x3a) k ->
  header (field (k, v)) cl ch
  = let v := TrimSpace (v ++ CRLF) in
    if folds_to k (lit "content-length") then ((ParseInt v).1, ch)
    else if folds_to k (lit "transfer-encoding") && Contains v (lit "chunked") then (cl, true)
    else (cl, ch).
Proof.
  intros Hk. unfold header, cut_byte, field. cbn [fst snd app]. rewrite break_at_app; [done| |done].
  eapply Forall_impl; [exact Hk|]. intros c Hc. apply byte_eqb_ne. congruence.
Qed.

Lemma field_length (kv : bytes * bytes) : (3 <= length (field kv))%nat.
Proof. unfold field. rewrite !length_app. cbn. lia. Qed.

Lemma read_headers_fields (eof : bool) (kvs : list (bytes * bytes)) (r : bytes) (fuel : nat) (cl : Z) (ch : bool) :
  (length kvs < fuel)%nat -> Forall (fun kv => no_nl kv.1 /\ no_nl kv.2) kvs ->
  read_headers fuel eof cl ch (concat (map field kvs) ++ CRLF ++ r)
  = Ret (Some (foldl (fun x kv => header (field kv) x.1 x.2) (cl, ch) kvs), r).
Proof.
  revert fuel cl ch. induction kvs as [|kv kvs IH]; intros fuel cl ch Hf Hn; (destruct fuel as [|fuel]; [cbn in Hf; lia|]).
  - cbn [map concat app read_headers foldl]. unfold rbind.
    pose proof (ReadString_line eof [] r ltac:(by constructor)) as E. cbn [app] in E. by rewrite E.
  - apply Forall_cons in Hn as [[Hk Hv] Hn]. cbn [map concat read_headers foldl]. unfold rbind.
    replace (_ ++ CRLF ++ r) with ((kv.1 ++ [x3a] ++ kv.2) ++ CRLF ++ (concat (map field kvs) ++ CRLF ++ r))
      by (rewrite field_line; by rewrite <- !app_assoc).
    rewrite ReadString_line by (apply Forall_app; split; [done|by constructor]). rewrite <- field_line.
    cbn [go_bind].
    rewrite bool_decide_eq_false_2, bool_decide_eq_false_2; cbn [orb].
    + cbn [fst snd]. destruct (header _ cl ch) as [cl' ch']. apply IH; [cbn in Hf; lia|done].
    + intros E. pose proof (field_length kv) as Hl. rewrite E in Hl. cbn in Hl. lia.
    + intros E. pose proof (field_length kv) as Hl. rewrite E in Hl. cbn in Hl. lia.
Qed.

Lemma foldl_plain (kvs : list (bytes * bytes)) (cl : Z) (ch : bool) :
  Forall plain kvs -> foldl (fun x kv => header (field kv) x.1 x.2) (cl, ch) kvs = (cl, ch).
Proof.
  revert cl ch. induction kvs as [|[k v] kvs IH]; intros cl ch; cbn [foldl]; [done|].
  intros [(_ & _ & Hk & Hc & Ht) Hp]%Forall_cons. cbn [fst snd] in *. rewrite header_field by done.
  cbv zeta. rewrite Hc, Ht. by apply IH.
Qed.

Lemma plain_no_nl (kvs : list (bytes * bytes)) : Forall plain kvs -> Forall (fun kv => no_nl kv.1 /\ no_nl kv.2) kvs.
Proof. intros Hp. eapply Forall_impl; [exact Hp|]. by intros kv (? & ? & _). Qed.

(** One header that counts among others that do not. *)
Lemma read_headers_one (eof : bool) (hs hs' : list (bytes * bytes)) (k v r : bytes) (fuel : nat) (cl : Z) (ch : bool) :
  (length hs + length hs' + 1 < fuel)%nat -> Forall plain hs -> Forall plain hs' -> no_nl k -> no_nl v ->
  header (field (k, v)) 0 false = (cl, ch) ->
  read_headers fuel eof 0 false (concat (map field hs) ++ field (k, v) ++ concat (map field hs') ++ CRLF ++ r)
  = Ret (Some (cl, ch), r).
Proof.
  intros Hf Hp Hp' Hk Hv Hh.
  replace (_ ++ field (k, v) ++ _) with (concat (map field (hs ++ (k, v) :: hs')) ++ CRLF ++ r)
    by (rewrite map_app, concat_app; cbn [map concat]; by rewrite <- !app_assoc).
  rewrite read_headers_fields.
  - rewrite foldl_app, foldl_plain by done. cbn [foldl fst snd]. by rewrite Hh, foldl_plain.
  - rewrite length_app. cbn [length]. lia.
  - apply Forall_app. split; [by apply plain_no_nl|]. constructor; [done|by apply plain_no_nl].
Qed.

(** *** Space around a number *)

Lemma trim_step (f : nat) (c : byte) (t : bytes) :
  c ∈ [x0a; x0d; x20] -> trim_loop (S f) space_seqs (c :: t) = trim_loop f space_seqs t
    /\ trim_loop (S f) (map (@rev byte) space_seqs) (c :: t) = trim_loop f (map (@rev byte) space_seqs) t.
Proof.
  intros Hc. repeat (apply elem_of_cons in Hc as [->|Hc]; [destruct t; split; reflexivity|]). by apply elem_of_nil in Hc.
Qed.

Lemma TrimSpace_value (s : bytes) : s <> [] -> Forall numeric s -> TrimSpace (x20 :: s ++ CRLF) = s.
Proof.
  intros Hne Hs. unfold TrimSpace. rewrite (proj1 (trim_step _ x20 _ ltac:(by repeat constructor))).
  destruct s as [|c s]; [done|]. pose proof Hs as [Hc _]%Forall_cons. cbn [app].
  rewrite (trim_loop_id _ _ c (s ++ CRLF)) by exact (numeric_no_space c (s ++ CRLF) false Hc).
  change (c :: s ++ CRLF) with ((c :: s) ++ CRLF). rewrite rev_app_distr. cbn [rev CRLF app length].
  rewrite (proj2 (trim_step _ x0a _ ltac:(by repeat constructor))), length_app.
  rewrite Nat.add_comm. cbn [length Nat.add]. rewrite (proj2 (trim_step _ x0d _ ltac:(by repeat constructor))).
  change (rev s ++ [c]) with (rev (c :: s)).
  destruct (rev (c :: s)) as [|d t] eqn:E; [by apply (f_equal length) in E; rewrite length_rev in E|].
  assert (numeric d) as Hd.
  { eapply (proj1 (Forall_forall numeric (c :: s)) Hs), list_elem_of_In. rewrite in_rev, E. by left. }
  rewrite (trim_loop_id _ _ d t) by exact (numeric_no_space d t true Hd). by rewrite <- E, rev_involutive.
Qed.

Lemma itoa_no_nl (z : Z) : no_nl (itoa z).
Proof. eapply Forall_impl; [apply itoa_numeric|]. intros c [Hc| ->]; [by intros ->|done]. Qed.

(** *** The body *)

Lemma read_chunks_all (eof : bool) (cs : list (bytes * bytes)) (r : bytes) (fuel : nat) :
  (length cs < fuel)%nat -> Forall chunk_ok cs -> Forall (fun cd => is_int64 (Z.of_nat (length cd.2) + 2)) cs ->
  read_chunks fuel eof (concat (map chunk cs) ++ lit "0" ++ CRLF ++ CRLF ++ r) = Ret (Some tt, r).
Proof.
  revert fuel. induction cs as [|[t d] cs IH]; intros fuel Hf; (destruct fuel as [|fuel]; [cbn in Hf; lia|]); intros Hok Hsz.
  - cbn [map concat app read_chunks]. unfold rbind. rewrite (ReadString_line eof (lit "0") (CRLF ++ r)) by by repeat constructor.
    cbn [go_bind]. replace (ParseHex (TrimSpace (lit "0" ++ CRLF))) with ((0, None) : Z * option num_err) by (vm_compute; reflexivity).
    cbn [Z.eqb]. pose proof (ReadString_line eof [] r ltac:(by constructor)) as E. cbn [app] in E. by rewrite E.
  - apply Forall_cons in Hok as [(Ht & Hd & Hp) Hok]. apply Forall_cons in Hsz as [Hz Hsz]. cbn [fst snd] in *.
    cbn [map concat read_chunks]. unfold rbind. unfold chunk at 1. cbn [fst snd].
    replace (_ ++ lit "0" ++ CRLF ++ CRLF ++ r)
      with (t ++ CRLF ++ ((d ++ CRLF) ++ (concat (map chunk cs) ++ lit "0" ++ CRLF ++ CRLF ++ r))) by (by rewrite <- !app_assoc).
    rewrite ReadString_line by done. cbn [go_bind]. rewrite Hp.
    destruct (Z.eqb_spec (Z.of_nat (length d)) 0); [by destruct d|].
    rewrite int64_id by done. replace (Z.of_nat (length d) + 2) with (Z.of_nat (length (d ++ CRLF))) by (rewrite length_app; cbn; lia).
    rewrite CopyN_exact. cbn [go_bind]. apply IH; [cbn in Hf; lia|done..].
Qed.

Lemma status_code_line (code : Z) (reason : bytes) : is_int64 code -> status_code (status_line code reason) = Some code.
Proof.
  intros Hc. unfold status_code, status_line, cut_byte.
  change (lit "HTTP/1.1 " ++ ?x) with (lit "HTTP/1.1" ++ x20 :: x). rewrite (break_at_app _ (lit "HTTP/1.1") x20);
    [|by repeat constructor|done].
  change ([x20] ++ reason ++ CRLF) with (x20 :: reason ++ CRLF).
  rewrite (break_at_app _ (itoa code) x20); [|eapply Forall_impl; [apply itoa_numeric|]; by intros c [Hd| ->]; [apply byte_eqb_ne; intros <-|]|done].
  by rewrite ParseInt_itoa.
Qed.

Lemma status_line_no_nl (code : Z) (reason : bytes) :
  no_nl reason -> exists t, no_nl t /\ status_line code reason = t ++ CRLF.
Proof.
  intros Hr. exists (lit "HTTP/1.1 " ++ itoa code ++ [x20] ++ reason). split.
  - apply Forall_app. split; [by repeat constructor|]. apply Forall_app. split; [apply itoa_no_nl|]. by constructor.
  - unfold status_line. by rewrite <- !app_assoc.
Qed.

Lemma concat_fields_length (kvs : list (bytes * bytes)) : (length kvs <= length (concat (map field kvs)))%nat.
Proof.
  induction kvs as [|kv kvs IH]; cbn [map concat length]; [lia|]. rewrite length_app. pose proof (field_length kv). lia.
Qed.

Lemma concat_chunks_length (cs : list (bytes * bytes)) : (length cs <= length (concat (map chunk cs)))%nat.
Proof.
  induction cs as [|cd cs IH]; cbn [map concat length]; [lia|]. unfold chunk at 1. rewrite !length_app. cbn [CRLF length]. lia.
Qed.

(** The parser reads exactly one response, and its code. *)
Lemma readResp_wire (eof : bool) (code : Z) (w r : bytes) :
  wire code w -> readResp eof (w ++ r) = Ret (Some code, r).
Proof.
  intros [reason hs k hs' body Hc Hr Hp Hp' Hk Hk' Hf Hb|reason hs k hs' cs Hc Hr Hp Hp' Hk Hk' Hf Hf' Hcs Hsz];
    destruct (status_line_no_nl code reason Hr) as (t & Ht & Es); unfold readResp, rbind.
  - set (v := x20 :: itoa (Z.of_nat (length body))).
    replace (_ ++ r) with (t ++ CRLF ++ (concat (map field hs) ++ field (k, v) ++ concat (map field hs') ++ CRLF ++ (body ++ r)))
      by (rewrite Es; by rewrite <- !app_assoc).
    rewrite ReadString_line by done. rewrite <- Es. cbn [go_bind]. rewrite status_code_line by done.
    rewrite (read_headers_one _ hs hs' k v _ _ (Z.of_nat (length body)) false).
    + cbn [go_bind]. destruct (Z.ltb_spec 0 (Z.of_nat (length body))); [by rewrite CopyN_exact|].
      destruct body; [done|cbn in *; lia].
    + rewrite !length_app. pose proof (concat_fields_length hs). pose proof (concat_fields_length hs').
      pose proof (field_length (k, v)). lia.
    + done.
    + done.
    + done.
    + constructor; [done|apply itoa_no_nl].
    + rewrite header_field by done. cbv zeta. rewrite Hf. unfold v. cbn [app].
      rewrite TrimSpace_value; [by rewrite ParseInt_itoa| |apply itoa_numeric]. apply itoa_nonempty.
  - replace (_ ++ r) with (t ++ CRLF ++ (concat (map field hs) ++ field (k, lit " chunked") ++ concat (map field hs') ++ CRLF
      ++ (concat (map chunk cs) ++ lit "0" ++ CRLF ++ CRLF ++ r))) by (rewrite Es; by rewrite <- !app_assoc).
    rewrite ReadString_line by done. rewrite <- Es. cbn [go_bind]. rewrite status_code_line by done.
    rewrite (read_headers_one _ hs hs' k (lit " chunked") _ _ 0 true).
    + cbn [go_bind]. rewrite read_chunks_all; [done| |done|done].
      rewrite !length_app. pose proof (concat_chunks_length cs). lia.
    + rewrite !length_app. pose proof (concat_fields_length hs). pose proof (concat_fields_length hs').
      pose proof (field_length (k, lit " chunked")). lia.
    + done.
    + done.
    + done.
    + by repeat constructor.
    + rewrite header_field by done. cbv zeta. rewrite Hf, Hf'. by vm_compute.
Qed.

(** ** Counting *)

Definition bad_code (code : Z) : bool := (code <? 200) || (400 <=? code).

Lemma read_batch_wires (eof : bool) (codes : list Z) (ws : list bytes) (r : bytes) :
  Forall2 wire codes ws ->
  read_batch (length codes) eof (concat ws ++ r)
  = Ret (length codes, Z.of_nat (length (List.filter bad_code codes)), false, r).
Proof.
  induction 1 as [|code w codes ws Hw _ IH]; [done|]. cbn [length concat read_batch].
  rewrite <- app_assoc, (readResp_wire eof code w) by done. cbn [go_bind]. rewrite IH. cbn [go_bind].
  do 4 f_equal. cbn [List.filter]. change ((code <? 200) || (400 <=? code)) with (bad_code code).
  destruct (bad_code code); cbn [length]; lia.
Qed.

Lemma cycled_app (reqs : list bytes) (i a b : nat) :
  reqs <> [] -> cycled reqs i (a + b) = cycled reqs i a ++ cycled reqs ((i + a) mod length reqs) b.
Proof.
  intros Hne. assert (length reqs <> 0)%nat as Hl by (by destruct reqs). unfold cycled.
  rewrite seq_app, map_app. f_equal. cbn [Nat.add].
  replace (seq a b) with (Nat.add a <$> seq 0 b) by (rewrite fmap_add_seq; by rewrite Nat.add_0_r).
  rewrite <- list_fmap_compose. apply list_fmap_ext. intros k j Hj. unfold compose.
  rewrite Nat.Div0.add_mod_idemp_l. f_equal. f_equal. lia.
Qed.

Lemma worker_wires (reqs : list bytes) (pipe : nat) (int64_oor : float64 -> Z) (rounds : list round) (i : nat) (eof : bool)
    (codes : list Z) (ws : list bytes) (r : bytes) (t : tally) :
  reqs <> [] -> (0 < pipe)%nat -> Forall (fun r => pipe <= r_writes r)%nat rounds ->
  Forall2 wire codes ws -> length codes = (length rounds * pipe)%nat ->
  exists lat, worker reqs pipe int64_oor rounds i eof (concat ws ++ r) t
    = Ret (mkTally (t_total t + Z.of_nat (length codes)) (t_non2xx t + Z.of_nat (length (List.filter bad_code codes)))
             (t_errs t) lat (t_lats t ++ map (fun r => per_req (r_us r) pipe) rounds)
             (t_sent t ++ cycled reqs i (length codes))).
Proof.
  intros Hne Hp. revert i codes ws t. induction rounds as [|rd rounds IH]; intros i codes ws t Hr Hw Hl.
  - destruct codes; [|done]. exists (t_latSum t). destruct t. unfold cycled. cbn. by rewrite !Z.add_0_r, !app_nil_r.
  - apply Forall_cons in Hr as [Hr Hrs]. cbn [length Nat.mul] in Hl.
    assert (codes = take pipe codes ++ drop pipe codes) as Ec by (by rewrite take_drop).
    assert (length (take pipe codes) = pipe) as Hlc by (rewrite length_take; lia).
    rewrite Ec in Hw. apply Forall2_app_inv_l in Hw as (ws1 & ws2 & Hw1 & Hw2 & ->).
    cbn [worker]. rewrite (Nat.min_l pipe (r_writes rd)) by done. rewrite (proj2 (Nat.ltb_ge _ _)) by done.
    rewrite (proj2 (Nat.eqb_neq pipe 0)) by lia. rewrite concat_app, <- app_assoc.
    pose proof (read_batch_wires eof _ _ (concat ws2 ++ r) Hw1) as Eb. rewrite Hlc in Eb. rewrite Eb. cbn [go_bind].
    rewrite (proj2 (Nat.eqb_neq pipe 0)) by lia. cbn [t_total t_non2xx t_errs t_latSum t_lats t_sent].
    match goal with |- context [worker _ _ _ rounds ?i' _ _ ?t'] =>
      destruct (IH i' (drop pipe codes) ws2 t' Hrs Hw2) as [lat ->]; [rewrite length_drop; lia|] end.
    exists lat. cbn [t_total t_non2xx t_errs t_latSum t_lats t_sent]. do 2 f_equal.
    + rewrite length_drop. lia.
    + rewrite Ec at 3. rewrite List.filter_app, length_app. lia.
    + lia.
    + cbn [map]. by rewrite <- app_assoc.
    + rewrite <- app_assoc. f_equal. rewrite <- cycled_app by done. f_equal. rewrite length_drop. lia.
Qed.

(** C26: a connection of the load generator counts what happened on it: when the
    server answers every request with a response of its own, sized or in chunks
    and with whatever headers, the responses counted are as many as the requests
    written, none is lost between two rounds or to pipelining, the refused ones
    are those with a code outside 200 to 399, there is a latency per round, and
    the requests are the given ones in cyclic order. *)
Theorem connection_counts (reqs : list bytes) (pipe : nat) (int64_oor : float64 -> Z) (seed : nat) (rounds : list round)
    (eof : bool) (codes : list Z) (ws : list bytes) (r : bytes) :
  reqs <> [] -> (0 < pipe)%nat -> Forall (fun r => pipe <= r_writes r)%nat rounds ->
  Forall2 wire codes ws -> length codes = (length rounds * pipe)%nat ->
  exists t, connection reqs pipe int64_oor seed (Some (rounds, eof, concat ws ++ r)) = Ret t
    /\ t_total t = Z.of_nat (length rounds * pipe) /\ t_errs t = 0
    /\ t_non2xx t = Z.of_nat (length (List.filter bad_code codes))
    /\ t_lats t = map (fun r => per_req (r_us r) pipe) rounds
    /\ t_sent t = cycled reqs (seed mod length reqs) (length rounds * pipe).
Proof.
  intros Hne Hp Hr Hw Hl.
  destruct (worker_wires reqs pipe int64_oor rounds (seed mod length reqs) eof codes ws r tally0 Hne Hp Hr Hw Hl)
    as [lat E].
  eexists. split; [unfold connection; destruct reqs; [done|exact E]|]. cbn. rewrite Hl. by split_and!.
Qed.

(** ** The percentile *)

Lemma f64_099_val : f64_099 = S754_finite false 8917127262193582 (-53).
Proof. vm_compute. reflexivity. Qed.

(** The index of the 99th percentile is one of the list's: rounding the product
    with 0.99 never reaches the length. *)
Lemma p99_in_range (n : Z) : 1 <= n < 2 ^ 52 -> 0 <= p99_index n < n.
Proof.
  intros Hn. unfold p99_index. destruct (f64_of_small n Hn) as (m & -> & Em). rewrite f64_099_val.
  unfold f64_mul, SFmul. cbn [xorb].
  assert (0 <= Z.log2 n < 52) as Hl by (split; [apply Z.log2_nonneg|apply Z.log2_lt_pow2; lia]).
  assert (Z.log2 (Zpos m) = 52) as Hm by (rewrite Em, Z.log2_mul_pow2; lia).
  assert (2 ^ 52 <= Zpos m < 2 ^ 53) as Hmb.
  { pose proof (Z.log2_spec (Zpos m) ltac:(lia)) as Hs. rewrite Hm in Hs. exact Hs. }
  set (P := Zpos (m * 8917127262193582)). assert (P = Zpos m * 8917127262193582) as EP by done.
  assert (2 ^ 104 <= P < 2 ^ 106) as HP by lia.
  assert (104 <= Z.log2 P < 106) as HlP.
  { split; [change 104 with (Z.log2 (2 ^ 104)); apply Z.log2_le_mono; lia|apply Z.log2_lt_pow2; lia]. }
  set (e := Z.log2 n - 52 + -53).
  pose proof (round_trunc P e ltac:(lia)) as R. cbv zeta in R.
  replace (Z.max 0 _) with (Z.log2 P - 52) in R by (subst e; lia).
  set (k := Z.log2 P - 52) in *. assert (52 <= k < 54) as Hk by (subst k; lia).
  assert (0 < 2 ^ k) as H2k by (apply Z.pow_pos_nonneg; lia).
  assert (2 ^ k <= 2 ^ 53) as H2k' by (apply Z.pow_le_mono_r; lia).
  destruct R as [R0 R1].
  { apply Z.div_str_pos. split; [done|]. lia. }
  { subst e. lia. }
  split; [exact R0|]. eapply Z.le_lt_trans; [exact R1|].
  apply Z.div_lt_upper_bound; [apply Z.pow_pos_nonneg; subst e; lia|].
  assert (P < 2 ^ k * (2 ^ (- (e + k)) * n - 1)) as Hfin.
  { rewrite Z.mul_sub_distr_l, Z.mul_assoc, <- Z.pow_add_r by (subst e; lia).
    replace (k + - (e + k)) with (53 + (52 - Z.log2 n)) by (subst e; lia).
    rewrite Z.pow_add_r, <- (Z.mul_assoc _ _ n), (Z.mul_comm _ n), <- Em by lia. lia. }
  pose proof (Z.div_lt_upper_bound P (2 ^ k) _ H2k Hfin). lia.
Qed.

(** ** A run returns *)

Lemma bench_readResp_ret (s : bytes) : exists o s', readResp true s = Ret (o, s').
Proof. pose proof (bench_readResp_returns s) as P. destruct (readResp true s) as [[o s']| |]; [by exists o, s'|done..]. Qed.

Lemma read_batch_returns (n : nat) (s : bytes) :
  match read_batch n true s with
  | Ret (got, bad, err, _) => (got <= n)%nat /\ 0 <= bad <= Z.of_nat got /\ (err = false -> got = n)
  | _ => False
  end.
Proof.
  revert s. induction n as [|n IH]; intros s; cbn [read_batch]; [by split_and!|].
  destruct (bench_readResp_ret s) as (o & s1 & ->). cbn [go_bind]. destruct o as [code|]; [|split_and!; [lia|lia|lia|done]].
  specialize (IH s1). destruct (read_batch n true s1) as [[[[got bad] err] s2]| |]; cbn [go_bind]; [|done..].
  destruct IH as (Hg & Hb & He). split_and!; [lia|destruct (_ || _); lia|destruct (_ || _); lia|].
  intros Hf. by rewrite (He Hf).
Qed.

Lemma worker_returns (reqs : list bytes) (pipe : nat) (int64_oor : float64 -> Z) (rounds : list round) (i : nat)
    (s : bytes) (t : tally) :
  match worker reqs pipe int64_oor rounds i true s t with
  | Ret t' => (length (t_lats t') <= length (t_lats t) + length rounds)%nat
  | _ => False
  end.
Proof.
  revert i s t. induction rounds as [|rd rounds IH]; intros i s t; cbn [worker length]; [lia|].
  destruct (_ =? 0)%nat; [cbn; lia|]. pose proof (read_batch_returns (Nat.min pipe (r_writes rd)) s) as P.
  destruct (read_batch _ true s) as [[[[got bad] err] s1]| |]; cbn [go_bind]; [|done..].
  destruct (got =? 0)%nat; [cbn; lia|].
  match goal with |- context [worker _ _ _ rounds ?i' _ ?s' ?t'] => specialize (IH i' s' t') end.
  destruct (worker _ _ _ rounds _ _ _ _) as [t'| |]; [|done..]. cbn [t_lats] in IH. rewrite length_app in IH. cbn in IH. lia.
Qed.

Definition rounds_of (c : option (list round * bool * bytes)) : nat :=
  match c with Some (rounds, _, _) => length rounds | None => 0%nat end.
Definition closed_conn (c : option (list round * bool * bytes)) : Prop :=
  match c with Some (_, eof, _) => eof = true | None => True end.

Lemma connections_return (reqs : list bytes) (pipe : nat) (int64_oor : float64 -> Z) (cs : list (option (list round * bool * bytes)))
    (seed : nat) :
  reqs <> [] -> Forall closed_conn cs ->
  match connections reqs pipe int64_oor seed cs with
  | Ret t => (length (t_lats t) <= sum_list (map rounds_of cs))%nat
  | _ => False
  end.
Proof.
  intros Hne. revert seed. induction cs as [|c cs IH]; intros seed Hc; [cbn; lia|]. apply Forall_cons in Hc as [Hc Hcs].
  cbn [connections map sum_list sum_list_with].
  assert (match connection reqs pipe int64_oor seed c with
          | Ret a => (length (t_lats a) <= rounds_of c)%nat | _ => False end) as P.
  { destruct c as [[[rounds eof] s]|]; cbn [connection rounds_of]; [|cbn; lia]. cbn in Hc. subst eof.
    destruct reqs as [|q reqs]; [done|]. apply (worker_returns (q :: reqs) pipe int64_oor rounds _ s tally0). }
  destruct (connection _ _ _ _ c) as [a| |]; cbn [go_bind]; [|done..]. specialize (IH (S seed) Hcs).
  destruct (connections _ _ _ _ cs) as [b| |]; cbn [go_bind]; [|done..]. cbn [add_tally t_lats]. rewrite length_app.
  cbn in IH |- *. lia.
Qed.

Lemma insert_f64_length (x : float64) (l : list float64) : length (insert_f64 x l) = S (length l).
Proof. induction l as [|y l IH]; cbn; [done|]. destruct (f64_lt y x); cbn; [by rewrite IH|done]. Qed.

Lemma Float64s_length (l : list float64) : length (Float64s l) = length l.
Proof. induction l as [|x l IH]; cbn; [done|]. by rewrite insert_f64_length, <- IH. Qed.

(** a benchmark run ends: whatever bytes the server sends before its connections
    are closed, however many of them could be made and however writes fail, the
    tallies are added up and the percentile is read within the list. *)
Theorem blast_returns (reqs : list bytes) (pipe : nat) (int64_oor : float64 -> Z) (cs : list (option (list round * bool * bytes))) :
  reqs <> [] -> Forall closed_conn cs -> Z.of_nat (sum_list (map rounds_of cs)) < 2 ^ 52 ->
  exists t res, connections reqs pipe int64_oor 0 cs = Ret t /\ blast reqs pipe int64_oor cs = Ret res
    /\ reqs_done res = t_total t /\ non2xx res = t_non2xx t /\ errs res = t_errs t.
Proof.
  intros Hne Hc Hn. pose proof (connections_return reqs pipe int64_oor cs 0 Hne Hc) as P. unfold blast.
  destruct (connections reqs pipe int64_oor 0 cs) as [t| |]; cbn [go_bind]; [|done..]. exists t.
  pose proof (Float64s_length (t_lats t)) as Hl. destruct (Float64s (t_lats t)) as [|x l] eqn:E.
  - cbn [go_bind]. eexists. by split_and!.
  - rewrite <- E in *. pose proof (p99_in_range (Z.of_nat (length (Float64s (t_lats t))))) as Hp.
    destruct (lookup_lt_is_Some_2 (Float64s (t_lats t)) (Z.to_nat (p99_index (Z.of_nat (length (Float64s (t_lats t)))))))
      as [v ->]; [|cbn [go_bind]; eexists; by split_and!].
    assert (1 <= Z.of_nat (length (Float64s (t_lats t)))) by (rewrite E; cbn; lia). lia.
Qed.

(** ** The requests sent *)

(** A POST carries the length of its body, and the body after the headers. *)
Lemma postReq_framed (path body : bytes) :
  no_nl path -> is_int64 (Z.of_nat (length body)) ->
  exists line rest, ReadString true (postReq path body) = Ret (Some line, rest)
    /\ read_headers (S (length rest)) true 0 false rest = Ret (Some (Z.of_nat (length body), false), body).
Proof.
  intros Hp Hb. set (hs := [(lit "Host", lit " x"); (lit "content-type", lit " application/json")]).
  set (v := x20 :: itoa (Z.of_nat (length body))).
  exists ((lit "POST " ++ path ++ lit " HTTP/1.1") ++ CRLF),
    (concat (map field hs) ++ field (lit "content-length", v) ++ concat (map field []) ++ CRLF ++ body).
  split.
  - rewrite <- (ReadString_line true).
    + f_equal. unfold postReq, field, v. cbn [hs map concat fst snd]. rewrite <- !app_assoc.
      generalize (itoa (Z.of_nat (length body))). intros n. vm_compute. reflexivity.
    + repeat (apply Forall_app; split); [by repeat constructor|done|by repeat constructor].
  - apply (read_headers_one true hs [] (lit "content-length") v body).
    + rewrite !length_app. pose proof (field_length (lit "content-length", v)). cbn [length hs map concat app]. lia.
    + repeat constructor; vm_compute; congruence.
    + constructor.
    + by repeat constructor.
    + constructor; [done|apply itoa_no_nl].
    + rewrite header_field by by repeat constructor. cbv zeta.
      replace (folds_to (lit "content-length") (lit "content-length")) with true by (vm_compute; reflexivity).
      unfold v. cbn [app]. rewrite TrimSpace_value; [by rewrite ParseInt_itoa|apply itoa_nonempty|apply itoa_numeric].
Qed.

(** What [makeCodes] seeds: aliases the service accepts, each once. *)
Lemma bench_code_inj (i j : nat) :
  is_int64 (Z.of_nat i) -> is_int64 (Z.of_nat j) -> bench_code i = bench_code j -> i = j.
Proof.
  intros Hi Hj E. unfold bench_code in E. apply app_inv_head, (f_equal ParseInt) in E.
  rewrite !ParseInt_itoa in E by done. injection E as E. lia.
Qed.

Lemma bench_codes_ok : Forall (fun c => codeOK c = true) (map bench_code (seq 0 100)) /\ NoDup (map bench_code (seq 0 100)).
Proof. split; [apply (bool_decide_unpack _); vm_compute; exact I|apply (bool_decide_unpack _); vm_compute; exact I]. Qed.

(** The bulk request stays within the limits of the service. *)
Lemma bulk_request_ok :
  Forall (fun u => okBulkURL u = true) (map bulk_url (seq 0 bulkN)) /\ Z.of_nat bulkN <= MaxBulkURLs
  /\ Z.of_nat (length bulk_json) <= MaxBulkBody.
Proof.
  split; [apply (bool_decide_unpack _); vm_compute; exact I|].
  split; apply Z.leb_le; vm_compute; reflexivity.
Qed.

(** Each server gets a port and a directory of its own, and what it is told
    besides. *)
Lemma envFor_port (tmp : bytes) (extra : gmap bytes bytes) (tag : bytes) (p : Z) :
  extra !! lit "PORT" = None -> (envFor tmp extra tag p).1 !! lit "PORT" = Some (itoa p).
Proof. intros He. cbn [envFor fst]. rewrite lookup_union_r by done. apply lookup_insert_eq. Qed.

Lemma envFor_extra (tmp : bytes) (extra : gmap bytes bytes) (tag : bytes) (p : Z) (k v : bytes) :
  extra !! k = Some v -> (envFor tmp extra tag p).1 !! k = Some v.
Proof. intros He. cbn [envFor fst]. by apply lookup_union_Some_l. Qed.

(** No scenario is without requests. *)
Lemma scenarios_have_requests (conns : Z) (codes : list bytes) :
  codes <> [] ->
  Forall (fun s => sc_reqs s <> [] /\ (0 < sc_pipe s)%nat)
    (fast_scenarios conns codes ++ std_scenarios conns codes ++ multi_scenarios conns codes).
Proof.
  intros Hc. assert (redirects codes <> []) as Hr by (by destruct codes).
  assert (mixed (redirects codes) <> []) as Hm by (unfold mixed; destruct (take 95 _); done).
  repeat (apply Forall_cons; split; [split; [done|cbn; lia]|]). constructor.
Qed.

(** * Witnesses *)

Definition bench_ok : bytes :=
  status_line 302 (lit "Found") ++ concat (map field [(lit "location", lit " /a:b")])
  ++ field (lit "Content-Length", x20 :: itoa 0) ++ concat (map field []) ++ CRLF ++ [].
Definition bench_refused : bytes :=
  status_line 404 (lit "Not Found") ++ concat (map field [])
  ++ field (lit "Transfer-Encoding", lit " chunked") ++ concat (map field []) ++ CRLF
  ++ concat (map chunk [(lit "2", lit "ab"); (lit "B", lit "0123456789a")]) ++ lit "0" ++ CRLF ++ CRLF.

Lemma bench_wires : Forall2 wire [302; 404] [bench_ok; bench_refused].
Proof.
  assert (is_int64 302 /\ is_int64 404 /\ is_int64 0) as (H1 & H2 & H3) by (unfold is_int64; lia).
  constructor; [|constructor; [|constructor]].
  - apply (wire_sized 302 (lit "Found") [(lit "location", lit " /a:b")] (lit "Content-Length") [] []);
      first [assumption|repeat constructor; vm_compute; congruence|vm_compute; reflexivity].
  - apply (wire_chunked 404 (lit "Not Found") [] (lit "Transfer-Encoding") [] [(lit "2", lit "ab"); (lit "B", lit "0123456789a")]);
      first [assumption|repeat constructor; vm_compute; congruence|vm_compute; reflexivity].
Qed.

Definition no_oor : float64 -> Z := fun _ => 0.

(** One round of two pipelined requests. *)
Lemma connection_counts_witness :
  exists t, connection [getReq (lit "/a"); getReq (lit "/b")] 2 no_oor 1
      (Some ([mkRound 2 1500], true, concat [bench_ok; bench_refused] ++ [])) = Ret t
    /\ t_total t = 2 /\ t_non2xx t = 1 /\ t_sent t = [getReq (lit "/b"); getReq (lit "/a")].
Proof.
  destruct (connection_counts [getReq (lit "/a"); getReq (lit "/b")] 2 no_oor 1 [mkRound 2 1500] true [302; 404]
    [bench_ok; bench_refused] [] ltac:(discriminate) ltac:(lia) ltac:(repeat constructor) bench_wires eq_refl)
    as (t & E & Ht & _ & Hb & _ & Hs).
  exists t. split; [exact E|]. split; [exact Ht|]. split; [exact Hb|]. rewrite Hs. vm_compute. reflexivity.
Defined.

(** A connection that is cut off in the second response, and one never made. *)
Lemma blast_returns_witness :
  exists res, blast [getReq (lit "/a")] 2 no_oor [Some ([mkRound 2 1500; mkRound 1 10], true, bench_ok ++ take 20 bench_refused); None] = Ret res
    /\ reqs_done res = 1 /\ errs res = 4.
Proof.
  destruct (blast_returns [getReq (lit "/a")] 2 no_oor
    [Some ([mkRound 2 1500; mkRound 1 10], true, bench_ok ++ take 20 bench_refused); None]
    ltac:(discriminate) ltac:(repeat constructor) ltac:(cbn; lia)) as (t & res & Et & E & Hr & _ & He).
  exists res. split; [exact E|]. rewrite Hr, He. vm_compute in Et. injection Et as <-. split; reflexivity.
Defined.
