(* ===== verification/Processes.v ===== *)
(** * Processes: programs that start and stop other programs

    What [cmd/shrt] (as a supervisor) and [cmd/bench] ask of the operating system,
    as a class; a small state monad of such programs, in which a panic keeps the
    state it happened in; a recorder that makes any machine keep the list of what
    was asked of it; and triples that say of a program which phases of a protocol
    its requests go through. *)

From S2P Require Import Prelude GoStd.
From stdpp Require Import options.

Inductive signal := SIGTERM | SIGINT | SIGKILL.

#[export] Instance signal_eq_dec : EqDecision signal.
Proof. solve_decision. Defined.

(** The operating system; [line] is a line of a report, [load] what the
    connections of a run saw. *)
Class Machine (os line load : Type) := {
  m_start : (bytes -> bytes) -> os -> option Z * os;   (* Cmd.Start in an environment: the process, or an error *)
  m_signal : Z -> signal -> os -> os;                  (* Process.Signal, Process.Kill *)
  m_exits : Z -> Z -> os -> bool * os;                 (* whether a process exits within so many ns *)
  m_wait : Z -> os -> os;                              (* Cmd.Wait returns *)
  m_notified : os -> os;                               (* SIGINT or SIGTERM arrives *)
  m_now : os -> Z * os;                                (* time.Now, in ns *)
  m_sleep : Z -> os -> os;
  m_get : Z -> bytes -> os -> option Z * os;           (* http.Get of a path at a port: the status, or an error *)
  m_post : Z -> bytes -> bytes -> os -> option Z * os;
  m_drive : Z -> Z -> list bytes -> nat -> os -> load * os;   (* what the connections of a run saw *)
  m_build : os -> bool * os;                           (* go build *)
  m_remove : bytes -> os -> os;                        (* os.Remove, os.RemoveAll *)
  m_print : line -> os -> os
}.

(** ** The monad *)

Inductive outcome (A : Type) := Done (a : A) | Panicked | Unfinished.
Arguments Done {A} _.
Arguments Panicked {A}.
Arguments Unfinished {A}.

Definition sys (os A : Type) : Type := os -> outcome A * os.

Section Monad.
Context {os : Type}.

Definition sret {A : Type} (a : A) : sys os A := fun w => (Done a, w).
Definition spanic {A : Type} : sys os A := fun w => (Panicked, w).
Definition sbind {A B : Type} (m : sys os A) (f : A -> sys os B) : sys os B := fun w =>
  match m w with
  | (Done a, w') => f a w'
  | (Panicked, w') => (Panicked, w')
  | (Unfinished, w') => (Unfinished, w')
  end.

(** A request with an answer, and one without. *)
Definition ask {A : Type} (q : os -> A * os) : sys os A := fun w => let '(a, w') := q w in (Done a, w').
Definition tell (q : os -> os) : sys os unit := fun w => (Done tt, q w).

(** A computation of the program itself. *)
Definition pure_go {A : Type} (g : go A) : sys os A := fun w =>
  match g with Ret a => (Done a, w) | Panic => (Panicked, w) | Diverge => (Unfinished, w) end.

Fixpoint each {A : Type} (f : A -> sys os unit) (l : list A) : sys os unit :=
  match l with [] => sret tt | a :: l' => sbind (f a) (fun _ => each f l') end.

(** [m], then [q] whether it panics or not. *)
Definition deferred (q : os -> os) (m : sys os unit) : sys os unit := fun w =>
  match m w with
  | (Unfinished, w') => (Unfinished, w')
  | (r, w') => (r, q w')
  end.

Lemma sbind_done {A B : Type} (m : sys os A) (f : A -> sys os B) (w w' : os) (a : A) :
  m w = (Done a, w') -> sbind m f w = f a w'.
Proof. intros E. unfold sbind. by rewrite E. Qed.

Lemma sbind_panicked {A B : Type} (m : sys os A) (f : A -> sys os B) (w w' : os) :
  m w = (Panicked, w') -> sbind m f w = (Panicked, w').
Proof. intros E. unfold sbind. by rewrite E. Qed.

End Monad.

Declare Scope sys_scope.
Delimit Scope sys_scope with sys.
Notation "x <- m ; k" := (sbind m (fun x => k)) (at level 100, m at next level, k at level 200, right associativity) : sys_scope.
Notation "m ;; k" := (sbind m (fun _ => k)) (at level 100, k at level 200, right associativity) : sys_scope.

(** ** The recorder *)

Inductive act (line : Type) :=
| AStart (env : bytes -> bytes) (pid : option Z)
| ASignal (pid : Z) (s : signal)
| AWait (pid : Z)
| ANotified
| AHttp (port : Z)
| ADrive (port : Z)
| APrint (l : line).
Arguments AStart {line} _ _.
Arguments ASignal {line} _ _.
Arguments AWait {line} _.
Arguments ANotified {line}.
Arguments AHttp {line} _.
Arguments ADrive {line} _.
Arguments APrint {line} _.

Section Recorder.
Context {os line load : Type} `{Machine os line load}.

(** The same machine, with the requests that matter appended to a list. *)
#[export] Instance recorder : Machine (os * list (act line)) line load := {
  m_start env w := let '(p, w') := m_start env w.1 in (p, (w', w.2 ++ [AStart env p]));
  m_signal p s w := (m_signal p s w.1, w.2 ++ [ASignal p s]);
  m_exits p t w := let '(b, w') := m_exits p t w.1 in (b, (w', w.2));
  m_wait p w := (m_wait p w.1, w.2 ++ [AWait p]);
  m_notified w := (m_notified w.1, w.2 ++ [ANotified]);
  m_now w := let '(t, w') := m_now w.1 in (t, (w', w.2));
  m_sleep d w := (m_sleep d w.1, w.2);
  m_get port path w := let '(r, w') := m_get port path w.1 in (r, (w', w.2 ++ [AHttp port]));
  m_post port path body w := let '(r, w') := m_post port path body w.1 in (r, (w', w.2 ++ [AHttp port]));
  m_drive port conns reqs pipe w := let '(r, w') := m_drive port conns reqs pipe w.1 in (r, (w', w.2 ++ [ADrive port]));
  m_build w := let '(b, w') := m_build w.1 in (b, (w', w.2));
  m_remove path w := (m_remove path w.1, w.2);
  m_print l w := (m_print l w.1, w.2 ++ [APrint l])
}.

End Recorder.

(** ** Protocols

    A protocol is an automaton on requests. [triple ph m Q]: started in phase
    [ph], [m] asks for nothing that the protocol refuses, whatever the machine
    answers, and when it returns its answer and the phase it leaves satisfy [Q]. *)

Section Protocol.
Context {os line load phase : Type} `{Machine os line load} (ph0 : phase) (pstep : phase -> act line -> option phase).

Definition accepts (l : list (act line)) : option phase := foldl (fun o a => o ≫= fun ph => pstep ph a) (Some ph0) l.

Lemma accepts_snoc (l : list (act line)) (a : act line) : accepts (l ++ [a]) = accepts l ≫= fun ph => pstep ph a.
Proof. unfold accepts. by rewrite foldl_app. Qed.

Definition triple {A : Type} (ph : phase) (m : sys (os * list (act line)) A) (Q : A -> phase -> Prop) : Prop :=
  forall w, accepts w.2 = Some ph ->
    match m w with
    | (Done a, w') => exists ph', accepts w'.2 = Some ph' /\ Q a ph'
    | (_, w') => is_Some (accepts w'.2)
    end.

Lemma triple_ret {A : Type} (ph : phase) (a : A) (Q : A -> phase -> Prop) : Q a ph -> triple ph (sret a) Q.
Proof. intros HQ w Hw. by exists ph. Qed.

Lemma triple_panic {A : Type} (ph : phase) (Q : A -> phase -> Prop) : triple ph spanic Q.
Proof. intros w Hw. by exists ph. Qed.

Lemma triple_pure {A : Type} (ph : phase) (g : go A) (Q : A -> phase -> Prop) :
  (forall a, g = Ret a -> Q a ph) -> triple ph (pure_go g) Q.
Proof.
  intros HQ w Hw. unfold pure_go. destruct g as [a| |]; cbn; [|by exists ph..]. exists ph. split; [done|by apply HQ].
Qed.

Lemma triple_bind {A B : Type} (ph : phase) (m : sys _ A) (f : A -> sys _ B) (Q : A -> phase -> Prop) (R : B -> phase -> Prop) :
  triple ph m Q -> (forall a ph', Q a ph' -> triple ph' (f a) R) -> triple ph (sbind m f) R.
Proof.
  intros Hm Hf w Hw. specialize (Hm w Hw). unfold sbind. destruct (m w) as [[a| |] w']; [|done..].
  destruct Hm as (ph' & Hw' & HQ). exact (Hf a ph' HQ w' Hw').
Qed.

(** [m] keeps the phase. *)
Lemma triple_seq {A B : Type} (ph : phase) (m : sys _ A) (f : A -> sys _ B) (R : B -> phase -> Prop) :
  triple ph m (fun _ ph' => ph' = ph) -> (forall a, triple ph (f a) R) -> triple ph (sbind m f) R.
Proof. intros Hm Hf. eapply triple_bind; [exact Hm|]. by intros a ph' ->. Qed.

Lemma triple_mono {A : Type} (ph : phase) (m : sys _ A) (Q R : A -> phase -> Prop) :
  triple ph m Q -> (forall a ph', Q a ph' -> R a ph') -> triple ph m R.
Proof.
  intros Hm HR w Hw. specialize (Hm w Hw). destruct (m w) as [[a| |] w']; [|done..].
  destruct Hm as (ph' & ? & ?). exists ph'. auto.
Qed.

Lemma triple_each {A : Type} (ph : phase) (f : A -> sys _ unit) (l : list A) :
  (forall a, a ∈ l -> triple ph (f a) (fun _ ph' => ph' = ph)) -> triple ph (each f l) (fun _ ph' => ph' = ph).
Proof.
  induction l as [|a l IH]; intros Hf; cbn [each]; [by apply triple_ret|].
  apply triple_seq; [apply Hf; by left|]. intros _. apply IH. intros x Hx. apply Hf. by right.
Qed.

Lemma triple_deferred (ph : phase) (q : os * list (act line) -> os * list (act line)) (m : sys _ unit) (Q : unit -> phase -> Prop) :
  (forall w, (q w).2 = w.2) -> triple ph m Q -> triple ph (deferred q m) Q.
Proof.
  intros Hq Hm w Hw. specialize (Hm w Hw). unfold deferred. by destruct (m w) as [[a| |] w']; rewrite ?Hq.
Qed.

(** Requests: those the recorder leaves out, and the recorded ones. *)
Lemma triple_ask {A : Type} (ph : phase) (q : os * list (act line) -> A * (os * list (act line))) :
  (forall w, (q w).2.2 = w.2) -> triple ph (ask q) (fun _ ph' => ph' = ph).
Proof. intros Hq w Hw. unfold ask. specialize (Hq w). destruct (q w) as [a w']. cbn in Hq. exists ph. by rewrite Hq. Qed.

Lemma triple_tell (ph ph' : phase) (q : os * list (act line) -> os * list (act line)) (a : act line) :
  (forall w, (q w).2 = w.2 ++ [a]) -> pstep ph a = Some ph' -> triple ph (tell q) (fun _ p => p = ph').
Proof. intros Hq Hp w Hw. unfold tell. exists ph'. by rewrite Hq, accepts_snoc, Hw. Qed.

Lemma triple_asked {A : Type} (ph : phase) (q : os * list (act line) -> A * (os * list (act line)))
    (a : A -> act line) (Q : A -> phase -> Prop) :
  (forall w, (q w).2.2 = w.2 ++ [a (q w).1]) ->
  (forall x, exists ph', pstep ph (a x) = Some ph' /\ Q x ph') -> triple ph (ask q) Q.
Proof.
  intros Hq Hp w Hw. unfold ask. specialize (Hq w). destruct (q w) as [x w']. cbn in Hq.
  destruct (Hp x) as (ph' & Hs & HQ). exists ph'. by rewrite Hq, accepts_snoc, Hw.
Qed.

End Protocol.

(** ** A concrete machine

    A clock and the number of processes started; the processes of which [bad]
    says so cannot be started, a POST has the status [posted], nothing exits in
    time. *)
Definition toy_machine {line load : Type} (bad : Z -> bool) (posted : Z) (seen : load) : Machine (Z * Z) line load := {|
  m_start env w := ((if bad w.2 then None else Some (100 + w.2)), (w.1, w.2 + 1));
  m_signal _ _ w := w;
  m_exits _ t w := (false, (w.1 + t, w.2));
  m_wait _ w := w;
  m_notified w := w;
  m_now w := (w.1, w);
  m_sleep d w := (w.1 + d, w.2);
  m_get _ _ w := (Some 200, w);
  m_post _ _ _ w := (Some posted, w);
  m_drive _ _ _ _ w := (seen, w);
  m_build w := (true, w);
  m_remove _ w := w;
  m_print _ w := w
|}.
