(* ===== verification/BenchRun.v ===== *)
(** * BenchRun: the course of a benchmark, [cmd/bench/main.go]

    [main] of the load generator with the servers it starts and stops, as a
    program over a [Machine]: building, starting, polling, seeding, the runs of
    [Bench.v], the report, stopping. It ends, and at each moment it has at most
    one server, to which alone it talks; but a panic leaves that one running. *)

From S2P Require Import Prelude GoStd Float App Bench Processes.
From Stdlib Require Import SpecFloat.
From stdpp Require Import options.

(** What the connections of a run saw. *)
Definition load : Type := list (option (list round * bool * bytes)).

(** A line of the report; numbers as they are before printing. *)
Record line := mkLine {
  l_name : bytes;
  l_rps : float64;
  l_rows : float64;
  l_avg : float64;
  l_p99 : float64;
  l_non2xx : Z;
  l_errs : Z
}.

Record bench_conf := mkBench { b_duration : Z; b_connections : Z; b_environ : bytes -> bytes; b_tmp : bytes }.

Definition bench_config (getenv : bytes -> bytes) (tmp : bytes) : bench_conf :=
  mkBench (envInt getenv (lit "BENCH_DURATION") 5) (envInt getenv (lit "CONNECTIONS") 64) getenv tmp.

Definition keyspace : Z := 50000.
Definition bin (tmp : bytes) : bytes := tmp ++ lit "/shrt-bench-bin".
Definition portSeq : Z := 4300.

Section Run.
Context {os : Type} `{Machine os line load} (int64_oor : float64 -> Z) (polls : nat) (conf : bench_conf).

#[local] Open Scope sys_scope.

(** ** Servers *)

(** [polls] bounds the rounds; the clock ends the loop. *)
Fixpoint wait_loop (polls : nat) (deadline port : Z) : sys os unit :=
  match polls with
  | O => fun w => (Unfinished, w)
  | S polls' =>
      t <- ask m_now;
      if t <? deadline then
        r <- ask (m_get port (lit "/api/health"));
        if bool_decide (r = Some 200) then sret tt
        else tell (m_sleep (100 * 10 ^ 6));; wait_loop polls' deadline port
      else spanic
  end.

Definition waitHealthy (port : Z) : sys os unit :=
  t <- ask m_now; wait_loop polls (t + 15 * 10 ^ 9) port.

Definition server_env (env : gmap bytes bytes) (k : bytes) : bytes := default (b_environ conf k) (env !! k).

Definition startServer (env : gmap bytes bytes) (ports : list Z) : sys os Z :=
  c <- ask (m_start (server_env env));
  match c with
  | None => spanic
  | Some c => each waitHealthy ports;; sret c
  end.

Definition stopServer (c : Z) : sys os unit :=
  tell (m_signal c SIGINT);;
  b <- ask (m_exits c (3 * 10 ^ 9));
  (if (b : bool) then sret tt else tell (m_signal c SIGKILL));;
  tell (m_wait c).

Fixpoint makeCodes (port : Z) (ns : list nat) : sys os (list bytes) :=
  match ns with
  | [] => sret []
  | i :: ns' =>
      r <- ask (m_post port (lit "/api/shorten") (alias_body i));
      if bool_decide (r = Some 201) then
        codes <- makeCodes port ns'; sret (bench_code i :: codes)
      else spanic
  end.

(** ** Runs *)

Definition report (name : bytes) (res : result) (rowsPerReq : Z) : go line :=
  let rps := f64_div (f64_of_Z (reqs_done res)) (f64_of_Z (b_duration conf)) in
  match latVals res with
  | avg :: p99 :: _ => Ret (mkLine name rps (f64_mul rps (f64_of_Z rowsPerReq)) avg p99 (non2xx res) (errs res))
  | _ => Panic
  end.

Definition run_scenario (port : Z) (sc : scenario) : sys os unit :=
  seen <- ask (m_drive port (sc_conns sc) (sc_reqs sc) (sc_pipe sc));
  res <- pure_go (blast (sc_reqs sc) (sc_pipe sc) int64_oor seen);
  l <- pure_go (report (sc_name sc) res (sc_rows sc));
  tell (m_print l).

(** [envFor] with the removal of the directory; the port read back. *)
Definition fresh_env (extra : gmap bytes bytes) (tag : bytes) (p : Z) : sys os (gmap bytes bytes * Z) :=
  tell (m_remove (bench_dir (b_tmp conf) tag p));;
  sret (envFor (b_tmp conf) extra tag p).

Definition port_of (env : gmap bytes bytes) : Z := (ParseInt (default [] (env !! lit "PORT"))).1.

Definition settings (server : bytes) : gmap bytes bytes :=
  <[lit "SERVER" := server]> (<[lit "SEED" := itoa keyspace]> ∅).

(** A block of main: a server in an environment of its own, what is done with
    it, its end. *)
Definition block (extra : gmap bytes bytes) (tag : bytes) (body : Z -> sys os unit) (p : Z) : sys os Z :=
  e <- fresh_env extra tag p;
  srv <- startServer e.1 [port_of e.1];
  body (port_of e.1);;
  stopServer srv;;
  sret e.2.

(** With one server process: its links, its runs. *)
Definition single (server tag : bytes) (scenarios : Z -> list bytes -> list scenario) : Z -> sys os Z :=
  block (settings server) tag (fun port =>
    codes <- makeCodes port (seq 0 100);
    each (run_scenario port) (scenarios (b_connections conf) codes)).

(** With four processes on one port: the bulk run comes first, and each link is
    looked up once before the redirects. *)
Definition several : Z -> sys os Z :=
  block (<[lit "WORKERS" := lit "4"]> (settings (lit "fast"))) (lit "fast4") (fun port =>
    each (run_scenario port) (take 1 (multi_scenarios (b_connections conf) []));;
    codes <- makeCodes port (seq 0 100);
    each (fun c => _ <- ask (m_get port (x2f :: c)); sret tt) codes;;
    each (run_scenario port) (drop 1 (multi_scenarios (b_connections conf) codes))).

Definition bench_body : sys os unit :=
  p <- single (lit "fast") (lit "fast1") fast_scenarios portSeq;
  p <- single (lit "std") (lit "std1") std_scenarios p;
  p <- several p;
  sret tt.

Definition bench_main : sys os unit :=
  built <- ask m_build;
  if (built : bool) then deferred (m_remove (bin (b_tmp conf))) bench_body else spanic.

End Run.

(** * One server at a time *)

(** The protocol: the [n]-th server (from 0) is started on port 4300 + 10n; while
    it is up, only it is talked to, signalled and waited for; when it has been
    waited for the next may start. *)
Inductive phase :=
| Idle (n : Z)
| Up (n c : Z).

Definition nth_port (n : Z) : Z := portSeq + 10 * n.

Definition one_server (ph : phase) (a : act line) : option phase :=
  match ph, a with
  | Idle n, AStart env o =>
      if (ParseInt (env (lit "PORT"))).1 =? nth_port n
      then Some (match o with Some c => Up n c | None => Idle n end) else None
  | Up n _, (AHttp q | ADrive q) => if q =? nth_port n then Some ph else None
  | Up _ c, ASignal d _ => if d =? c then Some ph else None
  | Up n c, AWait d => if d =? c then Some (Idle (n + 1)) else None
  | _, APrint _ => Some ph
  | _, _ => None
  end.

Section Orderly.
Context {os : Type} `{Machine os line load} (int64_oor : float64 -> Z) (polls : nat) (conf : bench_conf).

#[local] Abbreviation tri := (triple (os := os) (Idle 0) one_server).
#[local] Abbreviation keeps ph m := (triple (os := os) (Idle 0) one_server ph m (fun _ ph' => ph' = ph)).

(** Requests that the protocol allows and that change nothing in it. *)
Lemma keeps_http {A : Type} (n c port : Z) (q : os * list (act line) -> A * (os * list (act line))) :
  port = nth_port n -> (forall w, (q w).2.2 = w.2 ++ [AHttp port]) -> keeps (Up n c) (ask q).
Proof.
  intros -> Hq. apply (triple_asked _ _ _ _ (fun _ => AHttp (nth_port n))); [exact Hq|]. intros _. exists (Up n c).
  cbn [one_server]. by rewrite Z.eqb_refl.
Qed.

Lemma keeps_signal (n c : Z) (s : signal) : keeps (Up n c) (tell (m_signal c s)).
Proof. apply (triple_tell _ _ _ _ _ (ASignal c s)); [done|]. cbn [one_server]. by rewrite Z.eqb_refl. Qed.

Ltac unrecorded :=
  let w := fresh "w" in intros w; cbn [m_now m_sleep m_get m_post m_drive m_start m_exits m_build recorder];
    repeat case_match; cbn [fst snd] in *; simplify_eq; reflexivity.

Lemma keeps_now (ph : phase) : keeps ph (ask m_now).
Proof. apply triple_ask. unrecorded. Qed.

Lemma keeps_get (n c port : Z) (path : bytes) : port = nth_port n -> keeps (Up n c) (ask (m_get port path)).
Proof. intros Hp. apply (keeps_http n c port _ Hp). unrecorded. Qed.

Lemma keeps_tell (ph : phase) (q : os * list (act line) -> os * list (act line)) :
  (forall w, (q w).2 = w.2) -> keeps ph (tell q).
Proof. intros Hq w Hw. exists ph. by rewrite Hq. Qed.

Lemma keeps_wait_loop (n c deadline port : Z) (k : nat) :
  port = nth_port n -> keeps (Up n c) (wait_loop k deadline port).
Proof.
  intros Hp. induction k as [|k IH]; cbn [wait_loop]; [intros w Hw; by exists (Up n c)|].
  apply triple_seq; [apply keeps_now|]. intros t. destruct (t <? deadline); [|apply triple_panic].
  apply triple_seq; [by apply keeps_get|]. intros r. case_bool_decide; [by apply triple_ret|].
  apply triple_seq; [by apply keeps_tell|]. by intros _.
Qed.

Lemma keeps_waitHealthy (n c port : Z) : port = nth_port n -> keeps (Up n c) (waitHealthy polls port).
Proof. intros Hp. apply triple_seq; [apply keeps_now|]. intros t. by apply keeps_wait_loop. Qed.

Lemma startServer_up (n : Z) (env : gmap bytes bytes) :
  (ParseInt (default (b_environ conf (lit "PORT")) (env !! lit "PORT"))).1 = nth_port n ->
  tri (Idle n) (startServer polls conf env [nth_port n]) (fun c ph => ph = Up n c).
Proof.
  intros Hp. eapply (triple_bind _ _ _ _ _ (fun o ph => ph = match o with Some c => Up n c | None => Idle n end)).
  - apply (triple_asked _ _ _ _ (AStart (server_env conf env))); [unrecorded|]. intros o. eexists. split; [|reflexivity].
    cbn [one_server]. unfold server_env. by rewrite Hp, Z.eqb_refl.
  - intros [c|] ph' ->; [|apply triple_panic]. apply triple_seq; [|intros _; by apply triple_ret].
    apply triple_each. intros q ->%list_elem_of_singleton. by apply keeps_waitHealthy.
Qed.

Lemma stopServer_idle (n c : Z) : tri (Up n c) (stopServer c) (fun _ ph => ph = Idle (n + 1)).
Proof.
  apply triple_seq; [apply keeps_signal|]. intros _. apply triple_seq; [apply triple_ask; unrecorded|]. intros b.
  apply triple_seq; [destruct b; [by apply triple_ret|apply keeps_signal]|]. intros _.
  apply (triple_tell _ _ _ _ _ (AWait c)); [done|]. cbn [one_server]. by rewrite Z.eqb_refl.
Qed.

Lemma keeps_makeCodes (n c port : Z) (ns : list nat) : port = nth_port n -> keeps (Up n c) (makeCodes port ns).
Proof.
  intros Hp. induction ns as [|i ns IH]; cbn [makeCodes]; [by apply triple_ret|].
  apply triple_seq; [apply (keeps_http n c port _ Hp); unrecorded|]. intros r. case_bool_decide; [|apply triple_panic].
  apply triple_seq; [exact IH|]. intros codes. by apply triple_ret.
Qed.

Lemma keeps_run_scenario (n c port : Z) (sc : scenario) :
  port = nth_port n -> keeps (Up n c) (run_scenario int64_oor conf port sc).
Proof.
  intros ->. apply triple_seq.
  { apply (triple_asked _ _ _ _ (fun _ => ADrive (nth_port n))); [unrecorded|]. intros _. exists (Up n c).
    cbn [one_server]. by rewrite Z.eqb_refl. }
  intros seen. apply triple_seq; [by apply triple_pure|]. intros res. apply triple_seq; [by apply triple_pure|]. intros l.
  by apply (triple_tell _ _ _ _ _ (APrint l)).
Qed.

(** What a block finds in its environment. *)
Lemma block_port (extra : gmap bytes bytes) (tag : bytes) (n : Z) :
  extra !! lit "PORT" = None -> is_int64 (nth_port n) ->
  let env := (envFor (b_tmp conf) extra tag (nth_port n)).1 in
  port_of env = nth_port n /\ (ParseInt (default (b_environ conf (lit "PORT")) (env !! lit "PORT"))).1 = nth_port n.
Proof.
  intros He Hn env. unfold port_of, env. rewrite (envFor_port _ _ _ _ He). cbn [from_option id]. by rewrite ParseInt_itoa.
Qed.

(** The environment of a block, before its server is started. *)
Lemma fresh_env_idle (extra : gmap bytes bytes) (tag : bytes) (n : Z) :
  tri (Idle n) (fresh_env conf extra tag (nth_port n))
    (fun e ph => e = envFor (b_tmp conf) extra tag (nth_port n) /\ ph = Idle n).
Proof. apply triple_seq; [by apply keeps_tell|]. intros _. by apply triple_ret. Qed.

Lemma block_orderly (extra : gmap bytes bytes) (tag : bytes) (n : Z) (body : Z -> sys (os * list (act line)) unit) :
  extra !! lit "PORT" = None -> is_int64 (nth_port n) -> (forall c, keeps (Up n c) (body (nth_port n))) ->
  tri (Idle n) (block polls conf extra tag body (nth_port n)) (fun p ph => p = nth_port (n + 1) /\ ph = Idle (n + 1)).
Proof.
  intros He Hn Hb. eapply triple_bind; [apply fresh_env_idle|]. intros e ph' [-> ->].
  destruct (block_port extra tag n He Hn) as [Hp Hs]. cbv zeta in Hp, Hs. rewrite Hp.
  eapply triple_bind; [by apply startServer_up|]. intros srv ph' ->.
  apply triple_seq; [apply Hb|]. intros _. eapply triple_bind; [apply stopServer_idle|]. intros _ ph' ->.
  apply triple_ret. split; [|done]. unfold nth_port. cbn [envFor snd]. lia.
Qed.

Lemma keeps_runs (n c : Z) (scs : list scenario) : keeps (Up n c) (each (run_scenario int64_oor conf (nth_port n)) scs).
Proof. apply triple_each. intros sc _. by apply keeps_run_scenario. Qed.

Lemma nth_port_int64 (n : Z) : 0 <= n < 3 -> is_int64 (nth_port n).
Proof. unfold is_int64, nth_port, portSeq. lia. Qed.

Lemma bench_body_orderly : tri (Idle 0) (bench_body int64_oor polls conf) (fun _ ph => ph = Idle 3).
Proof.
  assert (forall n server tag scenarios, 0 <= n < 3 ->
    tri (Idle n) (single int64_oor polls conf server tag scenarios (nth_port n))
      (fun p ph => p = nth_port (n + 1) /\ ph = Idle (n + 1))) as Hsingle.
  { intros n server tag scenarios Hn. apply block_orderly; [done|by apply nth_port_int64|]. intros c.
    apply triple_seq; [by apply keeps_makeCodes|]. intros codes. apply keeps_runs. }
  eapply triple_bind; [apply (Hsingle 0); lia|]. intros p ph [-> ->].
  eapply triple_bind; [apply (Hsingle 1); lia|]. intros p ph [-> ->].
  eapply triple_bind; [apply (block_orderly _ _ 2); [done|apply nth_port_int64; lia|]|].
  - intros c. apply triple_seq; [apply keeps_runs|]. intros _. apply triple_seq; [by apply keeps_makeCodes|]. intros codes.
    apply triple_seq; [|intros _; apply keeps_runs]. apply triple_each. intros code _.
    apply triple_seq; [by apply keeps_get|]. intros r. by apply triple_ret.
  - intros p ph [-> ->]. by apply triple_ret.
Qed.

Lemma bench_main_orderly : tri (Idle 0) (bench_main int64_oor polls conf) (fun _ ph => ph = Idle 3).
Proof.
  apply triple_seq; [apply triple_ask; unrecorded|]. intros [|]; [|apply triple_panic].
  by apply triple_deferred, bench_body_orderly.
Qed.

End Orderly.

(** * The benchmark ends

    What it relies on: a clock that does not go back and that sleeping advances,
    and runs whose connections are closed in the end. *)

Class MachineLaws (os : Type) `{Machine os line load} := {
  clock : os -> Z;
  now_clock : forall w, (m_now w).1 = clock w /\ clock w <= clock (m_now w).2;
  get_clock : forall port path w, clock w <= clock (m_get port path w).2;
  sleep_clock : forall d w, clock w + d <= clock (m_sleep d w);
  drive_closes : forall port conns reqs pipe w,
    Forall closed_conn (m_drive port conns reqs pipe w).1
    /\ Z.of_nat (sum_list (map rounds_of (m_drive port conns reqs pipe w).1)) < 2 ^ 52
}.

#[export] Instance recorder_laws {os : Type} `{MachineLaws os} : MachineLaws (os * list (act line)).
Proof.
  refine {| clock w := clock w.1 |}.
  - intros w. cbn. pose proof (now_clock w.1) as P. by destruct (m_now w.1).
  - intros port path w. cbn. pose proof (get_clock port path w.1) as P. by destruct (m_get port path w.1).
  - intros d w. apply sleep_clock.
  - intros port conns reqs pipe w. cbn. pose proof (drive_closes port conns reqs pipe w.1) as P.
    by destruct (m_drive port conns reqs pipe w.1).
Defined.

Section Ends.
Context {os : Type} `{MachineLaws os} (int64_oor : float64 -> Z) (polls : nat) (conf : bench_conf).
#[local] Set Default Proof Using "Type*".

Definition ends {A : Type} (m : sys os A) : Prop := forall w, (m w).1 <> Unfinished.

Lemma ends_bind {A B : Type} (m : sys os A) (f : A -> sys os B) :
  ends m -> (forall a, (exists w w', m w = (Done a, w')) -> ends (f a)) -> ends (sbind m f).
Proof.
  intros Hm Hf w. specialize (Hm w). unfold sbind. destruct (m w) as [[a| |] w'] eqn:E; cbn in *; [|done..].
  apply Hf. by exists w, w'.
Qed.

Lemma ends_seq {A B : Type} (m : sys os A) (f : A -> sys os B) : ends m -> (forall a, ends (f a)) -> ends (sbind m f).
Proof. intros Hm Hf. apply ends_bind; [done|]. intros a _. apply Hf. Qed.

Lemma ends_ret {A : Type} (a : A) : ends (sret a).
Proof. done. Qed.
Lemma ends_panic {A : Type} : ends (spanic (A := A)).
Proof. done. Qed.
Lemma ends_ask {A : Type} (q : os -> A * os) : ends (ask q).
Proof. intros w. unfold ask. by destruct (q w). Qed.
Lemma ends_tell (q : os -> os) : ends (tell q).
Proof. done. Qed.
Lemma ends_each {A : Type} (f : A -> sys os unit) (l : list A) : (forall a, a ∈ l -> ends (f a)) -> ends (each f l).
Proof.
  induction l as [|a l IH]; intros Hf; cbn [each]; [done|]. apply ends_seq; [apply Hf; by left|].
  intros _. apply IH. intros x Hx. apply Hf. by right.
Qed.

Lemma wait_loop_ends (deadline port : Z) (k : nat) (w : os) :
  (1 <= k)%nat -> deadline - clock w <= (Z.of_nat k - 1) * (100 * 10 ^ 6) -> (wait_loop k deadline port w).1 <> Unfinished.
Proof.
  revert w. induction k as [|k IH]; intros w Hk Hd; [lia|]. cbn [wait_loop]. unfold sbind at 1, ask at 1.
  destruct (now_clock w) as [Ht Hw1]. destruct (m_now w) as [t w1]. cbn [fst snd] in *. subst t.
  destruct (Z.ltb_spec (clock w) deadline) as [Hlt|Hge]; [|done]. unfold sbind at 1, ask at 1.
  pose proof (get_clock port (lit "/api/health") w1) as Hw2. destruct (m_get port _ w1) as [r w2]. cbn [snd] in *.
  case_bool_decide; [done|]. unfold sbind at 1, tell at 1.
  pose proof (sleep_clock (100 * 10 ^ 6) w2) as Hw3. apply IH; lia.
Qed.

Lemma makeCodes_codes (port : Z) (ns : list nat) (w w' : os) (codes : list bytes) :
  makeCodes port ns w = (Done codes, w') -> codes = map bench_code ns.
Proof.
  revert w w' codes. induction ns as [|i ns IH]; intros w w' codes E; cbn [makeCodes] in E; [by injection E as <- _|].
  unfold sbind at 1, ask in E. destruct (m_post _ _ _ w) as [r w1]. case_bool_decide; [|done].
  unfold sbind in E. destruct (makeCodes port ns w1) as [[cs| |] w2] eqn:Ec; [|done..].
  injection E as <- _. cbn [map]. by rewrite (IH _ _ _ Ec).
Qed.

Lemma makeCodes_ends (port : Z) (ns : list nat) : ends (makeCodes port ns).
Proof.
  induction ns as [|i ns IH]; cbn [makeCodes]; [done|]. apply ends_seq; [apply ends_ask|]. intros r.
  case_bool_decide; [|done]. by apply ends_seq.
Qed.

Lemma run_scenario_ends (port : Z) (sc : scenario) : sc_reqs sc <> [] -> ends (run_scenario int64_oor conf port sc).
Proof.
  intros Hr. apply ends_bind; [apply ends_ask|]. intros seen (w & w' & E). unfold ask in E.
  destruct (drive_closes port (sc_conns sc) (sc_reqs sc) (sc_pipe sc) w) as [Hc Hn].
  destruct (m_drive _ _ _ _ w) as [seen' w1]. injection E as -> _. cbn [fst] in *.
  destruct (blast_returns (sc_reqs sc) (sc_pipe sc) int64_oor seen Hr Hc Hn) as (t & res & _ & Eb & _).
  apply ends_seq; [intros w2; unfold pure_go; by rewrite Eb|]. intros res'.
  apply ends_seq; [|intros l; apply ends_tell]. intros w2. unfold pure_go, report.
  by destruct (latVals res') as [|a [|b l]].
Qed.

Lemma runs_end (port : Z) (scs : list scenario) :
  Forall (fun s => sc_reqs s <> [] /\ (0 < sc_pipe s)%nat) scs -> ends (each (run_scenario int64_oor conf port) scs).
Proof. intros Hs. apply ends_each. intros sc Hin. apply run_scenario_ends. rewrite Forall_forall in Hs. by apply Hs. Qed.

Context (enough : (151 <= polls)%nat).

Lemma waitHealthy_ends (port : Z) : ends (waitHealthy polls port).
Proof.
  intros w. unfold waitHealthy, sbind, ask. destruct (now_clock w) as [Ht Hw1]. destruct (m_now w) as [t w1].
  cbn [fst snd] in *. subst t. apply wait_loop_ends; lia.
Qed.

Lemma block_ends (extra : gmap bytes bytes) (tag : bytes) (body : Z -> sys os unit) (p : Z) :
  (forall port, ends (body port)) -> ends (block polls conf extra tag body p).
Proof.
  intros Hb. apply ends_seq; [by apply ends_seq|]. intros e. apply ends_seq.
  { apply ends_seq; [apply ends_ask|]. intros [c|]; [|done]. apply ends_seq; [|done].
    apply ends_each. intros port _. apply waitHealthy_ends. }
  intros srv. apply ends_seq; [apply Hb|]. intros _. apply ends_seq; [|done].
  apply ends_seq; [done|]. intros _. apply ends_seq; [apply ends_ask|]. intros b. apply ends_seq; [by destruct b|done].
Qed.

Lemma codes_then_end (port : Z) (f : list bytes -> sys os unit) :
  (forall codes, codes <> [] -> ends (f codes)) -> ends (sbind (makeCodes port (seq 0 100)) f).
Proof.
  intros Hf. apply ends_bind; [apply makeCodes_ends|]. intros codes (w & w' & E). apply makeCodes_codes in E as ->.
  by apply Hf.
Qed.

Lemma bench_main_ends : ends (bench_main int64_oor polls conf).
Proof.
  assert (forall server tag scenarios p, (forall codes, codes <> [] ->
    Forall (fun s => sc_reqs s <> [] /\ (0 < sc_pipe s)%nat) (scenarios (b_connections conf) codes)) ->
    ends (single int64_oor polls conf server tag scenarios p)) as Hsingle.
  { intros server tag scenarios p Hs. apply block_ends. intros port. apply codes_then_end. intros codes Hc.
    by apply runs_end, Hs. }
  pose proof (scenarios_have_requests (b_connections conf)) as Hall. setoid_rewrite Forall_app in Hall.
  setoid_rewrite Forall_app in Hall.
  apply ends_seq; [apply ends_ask|]. intros [|]; [|done].
  assert (ends (bench_body int64_oor polls conf)) as Hbody; [|intros w; specialize (Hbody w); unfold deferred; by destruct (bench_body _ _ _ w) as [[[]| |] ?]].
  apply ends_seq; [apply Hsingle; intros codes Hc; by apply Hall|]. intros p.
  apply ends_seq; [apply Hsingle; intros codes Hc; by apply Hall|].
  intros p'. apply ends_seq; [|done]. apply block_ends. intros port.
  apply ends_seq; [apply runs_end; repeat (apply Forall_cons; split); try apply Forall_nil; split; [done|cbn; lia]|]. intros _.
  apply codes_then_end. intros codes Hc. apply ends_seq.
  - apply ends_each. intros c _. apply ends_seq; [apply ends_ask|done].
  - intros _. apply runs_end. by apply Forall_drop, Hall.
Qed.

End Ends.

(** * Theorems *)

Section Course.
Context {os : Type} `{MachineLaws os} (int64_oor : float64 -> Z) (polls : nat) (conf : bench_conf).

(** C28: a benchmark ends, and handles one server at a time. On any machine whose
    clock goes on and whose connections close, [main] returns or panics; 151
    rounds of polling are enough for every wait. All it asks for on the way
    keeps to the protocol: the n-th server is started on a port of its own and
    only when the one before has exited, and no other is polled, loaded,
    signalled or waited for while it is up. When [main] returns there have been
    three servers and each has been stopped. *)
Theorem bench_run (w : os) (Hpolls : (151 <= polls)%nat) :
  match bench_main int64_oor polls conf (w, []) with
  | (Done _, (_, log)) => accepts (Idle 0) one_server log = Some (Idle 3)
  | (Panicked, (_, log)) => is_Some (accepts (Idle 0) one_server log)
  | (Unfinished, _) => False
  end.
Proof using Type*.
  pose proof (bench_main_ends int64_oor polls conf Hpolls (w, [])) as He.
  pose proof (bench_main_orderly int64_oor polls conf (w, []) eq_refl) as Ho.
  destruct (bench_main _ _ _ (w, [])) as [[[]| |] [w' log]]; [|exact Ho|by apply He].
  by destruct Ho as (ph & Hl & ->).
Qed.

(** a panic leaves the server running. When the first alias is not created the
    benchmark panics, and the server it has started has been neither signalled
    nor waited for. *)
Theorem bench_panic_leaves_server (w w1 w2 w3 w4 w5 : os) (c t t' : Z)
  (Hpolls : (1 <= polls)%nat) (Hbuild : m_build w = (true, w1))
  (Hstart : m_start (server_env conf (envFor (b_tmp conf) (settings (lit "fast")) (lit "fast1") portSeq).1)
              (m_remove (bench_dir (b_tmp conf) (lit "fast1") portSeq) w1) = (Some c, w2))
  (Hnow : m_now w2 = (t, w3)) (Hnow' : m_now w3 = (t', w4)) (Hsoon : t' < t + 15 * 10 ^ 9)
  (Hup : m_get portSeq (lit "/api/health") w4 = (Some 200, w5))
  (Hpost : (m_post portSeq (lit "/api/shorten") (alias_body 0) w5).1 <> Some 201) :
  exists w' log, bench_main int64_oor polls conf (w, []) = (Panicked, (w', log))
    /\ accepts (Idle 0) one_server log = Some (Up 0 c)
    /\ (forall s, ASignal c s ∉ log) /\ AWait c ∉ log.
Proof using Type*.
  destruct (block_port conf (settings (lit "fast")) (lit "fast1") 0 eq_refl (nth_port_int64 0 ltac:(lia))) as [Hp Hp'].
  change (nth_port 0) with portSeq in Hp, Hp'.
  set (e := envFor (b_tmp conf) (settings (lit "fast")) (lit "fast1") portSeq) in *.
  set (l := [AStart (server_env conf e.1) (Some c); AHttp portSeq] : list (act line)).
  assert (startServer polls conf e.1 [portSeq] (m_remove (bench_dir (b_tmp conf) (lit "fast1") portSeq) w1, []) = (Done c, (w5, l))) as E1.
  { unfold startServer. erewrite sbind_done by (unfold ask; cbn [m_start recorder fst snd]; rewrite Hstart; reflexivity).
    cbn [each app]. erewrite sbind_done; [reflexivity|]. erewrite sbind_done; [reflexivity|]. unfold waitHealthy.
    erewrite sbind_done by (unfold ask; cbn [m_now recorder fst snd]; rewrite Hnow; reflexivity).
    destruct polls as [|k]; [lia|]. cbn [wait_loop].
    erewrite sbind_done by (unfold ask; cbn [m_now recorder fst snd]; rewrite Hnow'; reflexivity).
    destruct (Z.ltb_spec t' (t + 15 * 10 ^ 9)) as [_|?]; [|lia].
    erewrite sbind_done by (unfold ask; cbn [m_get recorder fst snd]; rewrite Hup; reflexivity).
    by rewrite bool_decide_true. }
  destruct (m_post portSeq (lit "/api/shorten") (alias_body 0) w5) as [r w6] eqn:E6. cbn [fst] in Hpost.
  assert (makeCodes portSeq (seq 0 100) (w5, l) = (Panicked, (w6, l ++ [AHttp portSeq]))) as E2.
  { cbn [seq makeCodes]. erewrite sbind_done by (unfold ask; cbn [m_post recorder fst snd]; rewrite E6; reflexivity).
    by rewrite bool_decide_false. }
  assert (bench_body int64_oor polls conf (w1, []) = (Panicked, (w6, l ++ [AHttp portSeq]))) as E3.
  { apply sbind_panicked. unfold single, block. erewrite sbind_done by reflexivity. fold e. rewrite Hp.
    erewrite sbind_done by exact E1. apply sbind_panicked, sbind_panicked. exact E2. }
  exists (m_remove (bin (b_tmp conf)) w6), (l ++ [AHttp portSeq]). split_and!.
  - unfold bench_main. erewrite sbind_done by (unfold ask; cbn [m_build recorder fst snd]; rewrite Hbuild; reflexivity).
    cbn iota. unfold deferred. by rewrite E3.
  - unfold accepts. cbn [l app foldl mbind option_bind one_server]. unfold server_env at 1. rewrite Hp', Z.eqb_refl.
    cbn [mbind option_bind one_server]. by rewrite Z.eqb_refl.
  - intros s Hin. cbn [l app] in Hin. repeat (apply elem_of_cons in Hin as [[=]|Hin]). by apply elem_of_nil in Hin.
  - intros Hin. cbn [l app] in Hin. repeat (apply elem_of_cons in Hin as [[=]|Hin]). by apply elem_of_nil in Hin.
Qed.

End Course.

(** * Witnesses *)

Section Witnesses.

#[local] Instance tidy_machine : Machine (Z * Z) line load := toy_machine (fun _ => false) 201 [].

#[local] Instance tidy_laws : MachineLaws (Z * Z).
Proof.
  refine {| clock w := w.1 |}; intros; cbn; try lia; split; try lia; constructor.
Defined.

Definition demo_bench : bench_conf := bench_config (fun _ => []) (lit "/tmp").

(** Three servers, none of which exits in time. *)
Lemma bench_run_witness :
  exists w log, bench_main (fun _ => 0) 151 demo_bench ((0, 0), []) = (Done tt, (w, log))
    /\ accepts (Idle 0) one_server log = Some (Idle 3) /\ w.2 = 3.
Proof.
  pose proof (bench_run (fun _ => 0) 151 demo_bench (0, 0) ltac:(lia)) as P.
  assert (match bench_main (fun _ => 0) 151 demo_bench ((0, 0), []) with
          | (Done _, (w, _)) => w.2 =? 3 | _ => false end = true) as R by (vm_compute; reflexivity).
  destruct (bench_main (fun _ => 0) 151 demo_bench ((0, 0), [])) as [[[]| |] [w log]]; [|discriminate R..].
  exists w, log. split; [reflexivity|]. split; [exact P|]. by apply Z.eqb_eq.
Defined.

End Witnesses.

Section Refusing.

#[local] Instance refusing_machine : Machine (Z * Z) line load := toy_machine (fun _ => false) 409 [].

#[local] Instance refusing_laws : MachineLaws (Z * Z).
Proof.
  refine {| clock w := w.1 |}; intros; cbn; try lia; split; try lia; constructor.
Defined.

Lemma bench_panic_leaves_server_witness :
  exists w' log, bench_main (fun _ => 0) 1 demo_bench ((0, 0), []) = (Panicked, (w', log))
    /\ accepts (Idle 0) one_server log = Some (Up 0 100)
    /\ (forall s, ASignal 100 s ∉ log) /\ AWait 100 ∉ log.
Proof.
  apply (bench_panic_leaves_server (fun _ => 0) 1 demo_bench (0, 0) (0, 0) (0, 1) (0, 1) (0, 1) (0, 1) 100 0 0);
    first [reflexivity|lia|discriminate].
Defined.

End Refusing.
