(* ===== verification/Main.v ===== *)
(** * Main: configuration, seeding and the supervisor, [cmd/shrt/main.go]

    [main_role] is what a process does with the environment it is given: seed,
    supervise worker processes, or serve. Binding the port is left out, starting
    processes and signals are in [Supervisor.v]; a child's environment is what
    [child_env] says of each variable, the last assignment of a name being the
    one that counts. *)

From S2P Require Import Prelude GoStd Base62 LogLine Aof Store StoreSpec Replay Alone Queue Durable Restart Trace Session.
From S2P Require Import Float Metrics Codec KvCache Dirty Resp Kv KvStore PebbleStore.
From S2P Require Import Api App Backends Ticks CacheMap LinkMap EngineLinks.
From stdpp Require Import options.

(** ** Configuration *)

(** On a 64-bit int [strconv.Atoi] is [ParseInt] in base 10. *)
Definition envInt (getenv : bytes -> bytes) (k : bytes) (def : Z) : Z :=
  let v := getenv k in
  if negb (bool_decide (v = [])) then
    match ParseInt v with (n, None) => n | (_, Some _) => def end
  else def.

(** The configuration of package app; [ui] is ui/index.html if it is there. *)
Definition envInt64 (getenv : bytes -> bytes) (k : bytes) (def : Z) : Z :=
  let v := getenv k in
  if negb (bool_decide (v = [])) then
    match ParseInt v with (n, None) => n | (_, Some _) => def end
  else def.

(** [UIHTML]: what a call answers, given the file as it is now, and what the
    [sync.Once] keeps. *)
Definition UIHTML (file : option bytes) (once : option (option bytes)) : option bytes * option (option bytes) :=
  match once with Some b => (b, once) | None => (file, Some file) end.

Fixpoint ui_answers (files : list (option bytes)) (once : option (option bytes)) : list (option bytes) :=
  match files with
  | [] => []
  | f :: files' => let '(b, once') := UIHTML f once in b :: ui_answers files' once'
  end.

Definition app_conf (getenv : bytes -> bytes) (ui : option bytes) : Conf :=
  mkConf (envInt64 getenv (lit "LINK_TTL_MS") 86400000) (getenv (lit "ADMIN_TOKEN")) ui.

Definition cors_origin (getenv : bytes -> bytes) : bytes := envStr getenv (lit "CORS_ORIGIN") (lit "*").

Record Config := mkConfig {
  port : Z;
  dataDir : bytes;
  workers : Z;
  seedN : Z;
  server : bytes;
  instanceN : Z
}.

Definition config (getenv : bytes -> bytes) : Config :=
  mkConfig (envInt getenv (lit "PORT") 3000) (envStr getenv (lit "DATA_DIR") (lit "data"))
    (envInt getenv (lit "WORKERS") 1) (envInt getenv (lit "SEED") 0)
    (envStr getenv (lit "SERVER") (lit "fast")) (envInt getenv (lit "INSTANCE") (-1)).

(** ** The roles of a process *)

Definition child_env (getenv : bytes -> bytes) (i : Z) (k : bytes) : bytes :=
  if bool_decide (k = lit "SHRT_CHILD") then lit "1"
  else if bool_decide (k = lit "INSTANCE") then itoa i
  else if bool_decide (k = lit "WORKERS") then lit "1"
  else if bool_decide (k = lit "SEED") then lit "0"
  else getenv k.

Inductive Role :=
| Supervisor (seeds : option Z) (children : list (bytes -> bytes))  (* an environment each *)
| Server (seeds : option Z) (std : bool) (dir : bytes) (instance port : Z).

(** [seedN > 0]. *)
Definition seeding (c : Config) : option Z := if 0 <? seedN c then Some (seedN c) else None.

Definition runSupervisor (getenv : bytes -> bytes) (n : Z) : Role :=
  Supervisor (seeding (config getenv)) (map (fun i => child_env getenv (Z.of_nat i)) (seq 0 (Z.to_nat n))).

Definition main_role (getenv : bytes -> bytes) : Role :=
  let c := config getenv in
  if (1 <? workers c) && bool_decide (getenv (lit "SHRT_CHILD") = []) then runSupervisor getenv (workers c)
  else Server (seeding c) (bool_decide (server c = lit "std")) (dataDir c) (instanceN c) (port c).

(** ** Seeding *)

Definition seed_urls (n : Z) : list bytes :=
  map (fun i => lit "https://example.com/" ++ itoa (Z.of_nat i)) (seq 0 (Z.to_nat n)).

Section Seed.
Context {net db : Type} `{Network net} `{PebbleDB db} `{MapOrder} `{SliceSort} (trackHits : bool) (rounds : nat).

#[local] Instance a_backend : StoreAPI (Backend net db) := any_backend trackHits rounds.

(** The directory after a call, when the store is the engine. *)
Definition dir_of (b : Backend net db) (d : Disk) : Disk := match b with BAof sd => sd.2 | _ => d end.

(** [seed]: the store it closed, and the directory; [None] when it could not be
    opened. *)
Definition seed (getenv : bytes -> bytes) (o : Outside net db) (dir : bytes) (ev : Env) (n : Z) (met : Metrics)
    (d : Disk) : go (option (Backend net db) * Disk) :=
  let* (r, d1) := NewFromEnv getenv o dir 0 d in
  match r with
  | None => Ret (None, d1)
  | Some b =>
      let* (empty, b1) := api_IsEmpty ev b in
      let* b2 := (if (empty : bool) then let* (_, _, b2) := api_Seed ev (seed_urls n) met b1 in Ret b2 else Ret b1) in
      let* b3 := api_Close ev b2 in
      Ret (Some b3, dir_of b3 d1)
  end.

End Seed.

(** * Theorems *)

(** The page is the file as it was at the first call. *)
Lemma UIHTML_first (f : option bytes) (files : list (option bytes)) :
  ui_answers (f :: files) None = repeat f (S (length files)).
Proof.
  cbn [ui_answers UIHTML length repeat]. f_equal. induction files as [|g files IH]; cbn [ui_answers UIHTML length repeat]; [done|].
  by rewrite IH.
Qed.

(** ** The supervisor *)

Lemma envInt_int64 (getenv : bytes -> bytes) (k : bytes) (def : Z) : is_int64 def -> is_int64 (envInt getenv k def).
Proof.
  intros Hd. unfold envInt. destruct (negb _); [|done]. destruct (ParseInt (getenv k)) as [n [?|]] eqn:E; [done|].
  by apply ParseInt_range in E.
Qed.

Lemma child_role (getenv : bytes -> bytes) (i : Z) :
  is_int64 i ->
  main_role (child_env getenv i)
  = Server None (bool_decide (server (config getenv) = lit "std")) (dataDir (config getenv)) i (port (config getenv)).
Proof.
  intros Hi. unfold main_role, config, envInt, envStr. cbn [workers seedN server dataDir instanceN port seeding].
  assert (forall k, bool_decide (k = lit "SHRT_CHILD") = false -> bool_decide (k = lit "INSTANCE") = false ->
    bool_decide (k = lit "WORKERS") = false -> bool_decide (k = lit "SEED") = false -> child_env getenv i k = getenv k) as Ho.
  { intros k H1 H2 H3 H4. unfold child_env. by rewrite H1, H2, H3, H4. }
  assert (child_env getenv i (lit "INSTANCE") = itoa i) as -> by done.
  assert (child_env getenv i (lit "WORKERS") = lit "1") as -> by done.
  assert (child_env getenv i (lit "SEED") = lit "0") as -> by done.
  rewrite (Ho (lit "PORT")), (Ho (lit "DATA_DIR")), (Ho (lit "SERVER")) by done.
  rewrite (bool_decide_eq_false_2 (itoa i = [])) by apply itoa_nonempty.
  rewrite (ParseInt_itoa i Hi). done.
Qed.

(** workers are started once and apart: the supervisor of n workers starts
    n processes, each of which serves (it neither supervises nor seeds), with
    the same port, directory and frontend, and the instance numbers are 0 to
    n-1, each once. *)
Theorem supervisor_children (getenv : bytes -> bytes) (seeds : option Z) (children : list (bytes -> bytes)) :
  main_role getenv = Supervisor seeds children ->
  length children = Z.to_nat (workers (config getenv)) /\
  forall j child, children !! j = Some child ->
    main_role child = Server None (bool_decide (server (config getenv) = lit "std")) (dataDir (config getenv))
                        (Z.of_nat j) (port (config getenv)).
Proof.
  unfold main_role at 1, runSupervisor. cbv zeta. destruct (_ && _); [|done]. intros [= _ <-]. rewrite length_map, length_seq.
  assert (is_int64 (workers (config getenv))) as Hw by (apply envInt_int64; unfold is_int64; lia).
  split; [done|]. intros j child Hj. apply list_lookup_fmap_Some in Hj as (k & -> & Hk).
  apply lookup_seq in Hk as [-> Hlt]. cbn [Nat.add]. apply child_role.
  change (envInt getenv (lit "WORKERS") 1) with (workers (config getenv)) in Hlt. unfold is_int64 in *. lia.
Qed.

(** ** Seeding *)

Lemma IsEmpty_index (s : Store) : wf s -> Store.IsEmpty s = true <-> forall c, index s c = None.
Proof.
  intros Hw. unfold Store.IsEmpty. rewrite forallb_forall. split.
  - intros Hf c. unfold index, get_shard. destruct (shards s !! shardOf c) as [sh|] eqn:E; [|done].
    apply list_elem_of_lookup_2, list_elem_of_In in E. apply Hf, bool_decide_eq_true in E. cbn. by rewrite E, lookup_empty.
  - intros Hn sh Hsh. apply bool_decide_eq_true, map_empty. intros c.
    apply list_elem_of_In, list_elem_of_lookup in Hsh as [k Hk].
    destruct (data sh !! c) as [e|] eqn:E; [|done]. exfalso.
    assert (get_shard s k = sh) as Hg by (unfold get_shard; by rewrite Hk).
    assert (shardOf c = k) as Hc by (apply (wf_data s Hw); rewrite Hg, E; by eexists).
    specialize (Hn c). unfold index in Hn. rewrite Hc, Hg in Hn. by rewrite E in Hn.
Qed.

Section SeedOnce.
Context {net db : Type} `{Network net} `{PebbleDB db} `{MapOrder} `{SliceSort} (trackHits : bool) (rounds : nat).
Context (getenv : bytes -> bytes) (o : Outside net db) (dir : bytes)
  (engine_chosen : getenv (lit "STORE") = []) (on_disk_dir : dir <> lit ":memory:").

Lemma open_engine (instance : Z) (d : Disk) :
  NewFromEnv getenv o dir instance d
  = let* (r, d') := Store.New (o_alive o) (o_self o) instance d in
    Ret (match r with inl s => Some (BAof (s, d')) | inr _ => None end, d').
Proof using engine_chosen on_disk_dir.
  unfold NewFromEnv. rewrite engine_chosen. cbv zeta. rewrite (bool_decide_eq_false_2 (dir = _) on_disk_dir).
  by rewrite !bool_decide_eq_false_2 by (by vm_compute).
Qed.

(** Calls of the interface on the engine inside. *)
Ltac on_engine :=
  cbn [api_IsEmpty api_Seed api_Close a_backend any_backend dispatch dispatch_ within within_ engine go_bind fst snd].

(** A seed run on an open store with no links. *)
Lemma seed_fills (ev : Env) (n : Z) (s0 : Store) (d0 : Disk) :
  kept false 0 s0 d0 -> (forall c, index s0 c = None) -> is_int64 (n_st ev) ->
  NoDup (map randSuffix (rnds ev)) -> n < Z.of_nat (length (rnds ev)) -> 0 < n ->
  exists codes s1 d1, Store.Seed (seed_urls n) (n_st ev) (rnd ev) (rnds ev) s0 d0 = Ret (n, s1, d1)
    /\ kept false 0 s1 d1 /\ length codes = Z.to_nat n /\ NoDup codes
    /\ (forall i c, codes !! i = Some c ->
         (fun e => (e_u e, e_e e)) <$> index s1 c = Some (lit "https://example.com/" ++ itoa (Z.of_nat i), 0))
    /\ forall c, c ∉ codes -> index s1 c = None.
Proof.
  intros [(snap & log & Hdu) [Ei Hcl]] Hn Hnow Hnd Hlen Hpos. unfold Store.Seed.
  pose proof (sa_wf _ (du_sane _ _ _ _ _ Hdu)) as Hw.
  assert (length (seed_urls n) = Z.to_nat n) as Hl by (unfold seed_urls; by rewrite length_map, length_seq).
  pose proof (ShortenMany_cases (seed_urls n) 0 (n_st ev) (rnd ev) (rnds ev) s0 d0 Hw) as P.
  pose proof (ShortenMany_durable false s0 d0 snap log (seed_urls n) 0 (n_st ev) (rnd ev) (rnds ev) Hdu Hcl Hnow) as K.
  destruct (Store.ShortenMany _ _ _ _ _ _ _) as [[[codes s1] d1]| |]; cbn [go_bind]; [|done|].
  2: { exfalso. specialize (P Hnd). assert (entries s0 = []) as E.
       { destruct (entries s0) as [|c l] eqn:E; [done|]. assert (is_Some (index s0 c)) as [x Hx].
         { apply (entries_elem s0 c Hw). rewrite E. by left. } by rewrite Hn in Hx. }
       rewrite E, Hl in P. cbn in P. lia. }
  destruct P as (Hlc & Hndc & _ & Hnew & Hold). destruct K as [(snap1 & log1 & Hdu1) [Ei1 Hcl1]].
  pose proof (flush_durable false s1 d1 snap1 log1 Hdu1) as F. cbv zeta in F. unfold Store.Flush.
  destruct (Store.flushLocked s1 d1) as [s2 d2]. destruct F as (Hdu2 & Hidx & Ei2 & Hcl2 & _).
  exists codes, s2, d2. split; [by rewrite Hl, Z2Nat.id by lia|]. split_and!; [|by rewrite Hlc|done| |].
  - split; [eauto|]. by rewrite Ei2, Ei1, Hcl2, Hcl1.
  - intros i c Hc. assert (i < Z.to_nat n)%nat as Hi by (rewrite <- Hl, <- Hlc; by eapply lookup_lt_Some).
    destruct (Hidx c) as [-> _]. rewrite (Hnew i c (lit "https://example.com/" ++ itoa (Z.of_nat i)) Hc); [done|].
    unfold seed_urls. rewrite list_lookup_fmap, lookup_seq_lt by done. done.
  - intros c Hc. destruct (Hidx c) as [-> _]. by rewrite Hold.
Qed.

(** C29: seeding happens once: on an empty directory [seed] creates its n links
    and closes the store; whatever seeds the directory again finds it in use and
    leaves every link as it is. *)
Theorem seed_once (ev : Env) (n : Z) (met : Metrics) :
  is_int64 (n_st ev) -> NoDup (map randSuffix (rnds ev)) -> n < Z.of_nat (length (rnds ev)) -> 0 < n ->
  exists s d codes, seed trackHits rounds getenv o dir ev n met ∅ = Ret (Some (BAof (s, d)), d)
    /\ length codes = Z.to_nat n /\ NoDup codes
    /\ (forall i c, codes !! i = Some c ->
         engine_link (s, d) c = Some (lit "https://example.com/" ++ itoa (Z.of_nat i), 0))
    /\ (forall c, c ∉ codes -> engine_link (s, d) c = None)
    /\ forall ev' met', exists s' d', seed trackHits rounds getenv o dir ev' n met' d = Ret (Some (BAof (s', d')), d')
         /\ forall c, engine_link (s', d') c = engine_link (s, d) c.
Proof using engine_chosen on_disk_dir.
  intros Hnow Hnd Hlen Hpos.
  destruct (New_empty_full (o_alive o) (o_self o) 0) as (s0 & d0 & E0 & K0 & Hn0); [unfold maxInstances; lia|].
  apply kept_weaken in K0. pose proof K0 as [(sn & lg & Hdu0) _].
  destruct (seed_fills ev n s0 d0 K0 Hn0 Hnow Hnd Hlen Hpos) as (codes & s1 & d1 & Es & K1 & Hlc & Hndc & Hnew & Hold).
  destruct K1 as [(snap & log & Hdu) [Ei Hcl]].
  pose proof (Close_on_disk false s1 d1 snap log Hdu Hcl) as F. cbv zeta in F.
  destruct (reopen_durable (o_alive o) (o_self o) false s1 d1 snap log Hdu Hcl)
    as (s' & d' & Er & Hdu' & Ei' & Hcl' & _ & Hrows & _).
  unfold reopen in Er. destruct (Store.Close s1 d1) as [s2 d2] eqn:Ec. destruct F as (_ & Hview & _).
  exists s2, d2, codes. unfold seed at 1. rewrite open_engine, E0. cbn [go_bind].
  on_engine.
  rewrite (proj2 (IsEmpty_index s0 (sa_wf _ (du_sane _ _ _ _ _ Hdu0))) Hn0), Es. on_engine.
  rewrite Ec. cbn [go_bind dir_of snd]. split_and!; [done|done|done| | |].
  - intros i c Hc. unfold engine_link. cbn [fst]. destruct (Hview c) as [-> _]. by apply Hnew.
  - intros c Hc. unfold engine_link. cbn [fst]. destruct (Hview c) as [-> _]. by rewrite Hold.
  - intros ev' met'. rewrite Ei in Er. destruct (Store.New _ _ 0 d2) as [[[s3|] d3]| |] eqn:En; cbn [go_bind] in Er; [|done..].
    injection Er as -> ->. pose proof (Close_on_disk false s' d' snap _ Hdu' Hcl') as F'. cbv zeta in F'.
    destruct (Store.Close s' d') as [s4 d4] eqn:Ec'. destruct F' as (_ & Hview' & _).
    exists s4, d4. unfold seed. rewrite open_engine, En. cbn [go_bind].
    on_engine.
    assert (Store.IsEmpty s' = false) as ->.
    { apply not_true_iff_false. intros He. pose proof (proj1 (IsEmpty_index s' (sa_wf _ (du_sane _ _ _ _ _ Hdu'))) He) as Hnone.
      destruct codes as [|c codes']; [cbn in Hlc; lia|]. specialize (Hrows c). rewrite Hnone in Hrows.
      specialize (Hnew 0%nat c eq_refl). destruct (index s1 c); [inversion Hrows|done]. }
    on_engine. rewrite Ec'. cbn [go_bind dir_of snd]. split; [done|]. intros c.
    unfold engine_link. cbn [fst]. destruct (Hview' c) as [-> _], (Hview c) as [-> _].
    specialize (Hrows c). destruct Hrows as [e e' (Eu & _ & Ee & _)|]; [|done]. cbn. by rewrite Eu, Ee.
Qed.

End SeedOnce.
