(* ===== verification/Supervisor.v ===== *)
(** * Supervisor: the parent of several workers, [runSupervisor] of [cmd/shrt/main.go]

    What the supervisor does once it has seeded: it starts a process per worker,
    waits until it is told to stop, tells each of them, and waits for each. *)

From S2P Require Import Prelude GoStd Base62 LogLine Aof Store StoreSpec Float Metrics Api App Backends Main Processes.
From stdpp Require Import options.

Section Supervisor.
Context {os line load : Type} `{Machine os line load}.

#[local] Open Scope sys_scope.

(** The processes that could be started, in order. *)
Fixpoint spawn (envs : list (bytes -> bytes)) : sys os (list Z) :=
  match envs with
  | [] => sret []
  | env :: envs' =>
      o <- ask (m_start env);
      children <- spawn envs';
      sret (match o with Some c => c :: children | None => children end)
  end.

Definition supervise (envs : list (bytes -> bytes)) : sys os unit :=
  children <- spawn envs;
  tell m_notified;;
  each (fun c => tell (m_signal c SIGTERM)) children;;
  each (fun c => tell (m_wait c)) children.

End Supervisor.

Section Reaps.
Context {os line load : Type} `{Machine os line load}.

Lemma spawn_log (envs : list (bytes -> bytes)) (w : os * list (act line)) :
  exists answers w', spawn envs w = (Done (omap id answers), (w', w.2 ++ zip_with AStart envs answers))
    /\ length answers = length envs.
Proof.
  revert w. induction envs as [|env envs IH]; intros [w l]; cbn [spawn].
  - exists [], w. by rewrite app_nil_r.
  - unfold sbind, ask. cbn [m_start recorder fst snd]. destruct (m_start env w) as [o w1].
    destruct (IH (w1, l ++ [AStart env o])) as (answers & w' & -> & Hl). exists (o :: answers), w'.
    cbn [snd zip_with length]. rewrite <- app_assoc, Hl. by destruct o.
Qed.

Lemma each_log {A : Type} (q : A -> os * list (act line) -> os * list (act line)) (a : A -> act line) (l : list A)
    (w : os * list (act line)) :
  (forall x w, (q x w).2 = w.2 ++ [a x]) ->
  exists w', each (fun x => tell (q x)) l w = (Done tt, (w', w.2 ++ map a l)).
Proof.
  intros Hq. revert w. induction l as [|x l IH]; intros w; cbn [each map].
  - exists w.1. rewrite app_nil_r. by destruct w.
  - unfold sbind at 1, tell at 1. destruct (IH (q x w)) as [w' ->]. exists w'. by rewrite Hq, <- app_assoc.
Qed.

Lemma supervise_log (envs : list (bytes -> bytes)) (w : os) :
  exists answers w', supervise envs (w, [])
      = (Done tt, (w', zip_with AStart envs answers ++ [ANotified]
          ++ map (fun c => ASignal c SIGTERM) (omap id answers) ++ map AWait (omap id answers)))
    /\ length answers = length envs.
Proof.
  unfold supervise. destruct (spawn_log envs (w, [])) as (answers & w1 & E & Hl). exists answers.
  unfold sbind at 1. rewrite E. unfold sbind at 1, tell at 1.
  edestruct (each_log (fun c => m_signal c SIGTERM) (fun c => ASignal c SIGTERM) (omap id answers)) as [w3 E3]; [done|].
  unfold sbind at 1. rewrite E3.
  edestruct (each_log m_wait AWait (omap id answers)) as [w4 ->]; [done|].
  exists w4. split; [|done]. cbn [snd m_notified recorder app]. by rewrite <- !app_assoc.
Qed.

(** C27: workers are started apart and stopped together. A process that is told to
    run several workers asks, whatever the machine answers, for exactly this:
    to start a process per worker, each of which serves, neither supervises nor
    seeds, and has the number of its place as its instance; then, only when it
    has been told to stop, to signal each that could be started, once, and to
    wait for each of them, once. *)
Theorem supervisor_reaps (getenv : bytes -> bytes) (seeds : option Z) (children : list (bytes -> bytes)) (w : os)
  (Hrole : main_role getenv = Main.Supervisor seeds children) :
  exists answers w', supervise children (w, [])
      = (Done tt, (w', zip_with AStart children answers ++ [ANotified]
          ++ map (fun c => ASignal c SIGTERM) (omap id answers) ++ map AWait (omap id answers)))
    /\ length answers = Z.to_nat (workers (config getenv))
    /\ forall j env, children !! j = Some env ->
         main_role env = Server None (bool_decide (server (config getenv) = lit "std")) (dataDir (config getenv))
                           (Z.of_nat j) (port (config getenv)).
Proof.
  destruct (supervise_log children w) as (answers & w' & E & Hl).
  destruct (supervisor_children getenv seeds children Hrole) as [Hn Hc]. exists answers, w'. split_and!; [exact E| |exact Hc].
  by rewrite Hl.
Qed.

End Reaps.

(** * A witness: three workers, of which the second cannot be started *)

Definition three_envs (k : bytes) : bytes := if decide (k = lit "WORKERS") then lit "3" else [].

#[local] Instance spawning_machine : Machine (Z * Z) unit unit := toy_machine (Z.eqb 1) 201 tt.

Lemma supervisor_reaps_witness :
  exists w' e0 e1 e2, main_role three_envs = Main.Supervisor None [e0; e1; e2]
    /\ supervise [e0; e1; e2] ((0, 0), [])
       = (Done tt, (w', [AStart e0 (Some 100); AStart e1 None; AStart e2 (Some 102); ANotified;
                         ASignal 100 SIGTERM; ASignal 102 SIGTERM; AWait 100; AWait 102]))
    /\ main_role e2 = Server None false (lit "data") 2 3000.
Proof.
  set (es := map (fun i => child_env three_envs (Z.of_nat i)) (seq 0 3)).
  destruct (supervisor_reaps three_envs None es (0, 0) eq_refl) as (answers & w' & E & Hl & P).
  exists w', (child_env three_envs 0), (child_env three_envs 1), (child_env three_envs 2).
  split; [reflexivity|]. split; [|exact (P 2%nat _ eq_refl)].
  assert (answers = [Some 100; None; Some 102]) as ->; [|exact E].
  destruct answers as [|a0 [|a1 [|a2 [|]]]]; try discriminate Hl.
  unfold es in E. injection E as _ E0 E1 E2. by subst.
Defined.
