(* ===== verification/Lifetimes.v ===== *)
(** * Lifetimes: a server that is stopped and started again

    [serve] of cmd/shrt/main.go from the opening of the store to its [Close],
    with the requests and the work between them as a run of the store, and
    [lives], a sequence of such processes, each of which finds outside what the
    one before left there. Whatever the backend, they answer together as one
    run of the map of links. *)

From S2P Require Import Prelude GoStd Base62 LogLine Aof Store StoreSpec Replay Alone Queue Durable Restart Trace Session.
From S2P Require Import Float Metrics Batch Codec KvCache Dirty Resp Kv KvStore KvRows KvSpec KvTicks PebbleStore PebbleSpec.
From S2P Require Import Api App AppSpec AppProps Backends Ticks CacheMap LinkMap EngineLinks KvLinks PebbleBatch PebbleLinks.
From S2P Require Import AnyBackend Main.
From stdpp Require Import options.

Section Lifetimes.
Context {net db : Type} `{ExpiringServer net} `{PebbleLaws db} `{MapOrder} `{SliceSort} (trackHits : bool) (rounds : nat).
Context (getenv : bytes -> bytes) (dir : bytes).

#[local] Instance life_backend : StoreAPI (Backend net db) := any_backend trackHits rounds.
#[local] Instance life_ticks : Ticks (Backend net db) := any_ticks rounds.

(** How [serve] ends: it exits with status 1, or the listener was shut down and
    the store closed. [bound] is whether the port could be bound; [ev] is the
    environment of the [Close]. *)
Inductive ending :=
| Exit1
| Stopped (rs : list answer) (b : Backend net db).

Definition serve (o : Outside net db) (instance : Z) (bound : bool) (met : Metrics) (es : list event) (ev : Env) (d : Disk)
    : go (ending * Disk) :=
  let* (r, d1) := NewFromEnv getenv o dir instance d in
  match r with
  | None => Ret (Exit1, d1)
  | Some b =>
      if negb bound then Ret (Exit1, dir_of b d1)
      else
        let* (rs, _, b1) := runs es met b in
        let* b2 := api_Close ev b1 in
        Ret (Stopped rs b2, dir_of b2 d1)
  end.

(** What a closed store leaves outside: at its server, or in its database.
    Which processes live has changed. *)
Definition leaves (b : Backend net db) (o o' : Outside net db) : Prop :=
  (forall a, o_net o' a = match b with BKv s => if decide (a = kv_addr getenv) then k_net (kv s) else o_net o a | _ => o_net o a end)
  /\ (forall p, o_db o' p = match b with BPebble s => if decide (p = db_path getenv dir) then Some (pdb s) else o_db o p | _ => o_db o p end).

(** Processes one after the other, all with the instance number [k]. *)
Inductive lives (k : Z) : Outside net db -> Disk -> list event -> list answer -> Prop :=
| lives_none o d : lives k o d [] []
| lives_more o d instance met es ev rs b d' o' es' rs' :
    picks (o_alive o) instance k d ->
    serve o instance true met es ev d = Ret (Stopped rs b, d') ->
    leaves b o o' -> lives k o' d' es' rs' ->
    lives k o d (es ++ es') (rs ++ rs').

(** ** The store inside stays the same one *)

Definition same_kind (b b' : Backend net db) : Prop :=
  match b, b' with BAof _, BAof _ | BKv _, BKv _ | BPebble _, BPebble _ => True | _, _ => False end.

Lemma same_kind_trans (b1 b2 b3 : Backend net db) : same_kind b1 b2 -> same_kind b2 b3 -> same_kind b1 b3.
Proof. by destruct b1, b2, b3. Qed.

Lemma within_kind {A S : Type} (inj : S -> Backend net db) (m : go (A * S)) (b : Backend net db) :
  (forall s, same_kind b (inj s)) ->
  match within inj m with Ret (_, b') => same_kind b b' | _ => True end.
Proof. intros Hi. unfold within. by destruct m as [[a s]| |]; cbn [go_bind]. Qed.

Lemma call_kind (ev : Env) (q : request) (met : Metrics) (b : Backend net db) :
  match call ev q met b with Ret (_, _, b') => same_kind b b' | _ => True end.
Proof.
  destruct q, b; cbn [call api_Shorten api_ShortenMany api_Resolve api_Stats api_Update api_Remove life_backend any_backend dispatch];
    unfold within; match goal with |- context [go_bind (go_bind ?m _) _] => destruct m as [[? ?]| |]; cbn [go_bind] end;
    repeat match goal with p : (_ * _)%type |- _ => destruct p end; done.
Qed.

Lemma tick_kind (c : chore) (now : Z) (b : Backend net db) :
  match tick c now b with Ret b' => same_kind b b' | _ => True end.
Proof.
  destruct b; unfold tick, life_ticks, any_ticks, within_;
    match goal with |- context [go_bind ?m _] => destruct m; cbn [go_bind] end; done.
Qed.

Lemma runs_kind (es : list event) (met : Metrics) (b : Backend net db) :
  match runs es met b with Ret (_, _, b') => same_kind b b' | _ => True end.
Proof.
  revert met b. induction es as [|[ev q|c now] es IH]; intros met b; cbn [runs]; [by destruct b|..].
  - pose proof (call_kind ev q met b) as P. destruct (call ev q met b) as [[[a met1] b1]| |]; cbn [go_bind]; [|done..].
    specialize (IH met1 b1). destruct (runs es met1 b1) as [[[rs met2] b2]| |]; cbn [go_bind]; [|done..].
    by eapply same_kind_trans.
  - pose proof (tick_kind c now b) as P. destruct (tick c now b) as [b1| |]; cbn [go_bind]; [|done..].
    specialize (IH met b1). destruct (runs es met b1) as [[[rs met2] b2]| |]; [|done..]. by eapply same_kind_trans.
Qed.

(** ** What a closed store leaves *)

Lemma close_engine (T k : Z) (ev : Env) (sd : Store * Disk) :
  engine_serving k T sd ->
  exists sd', api_Close ev (BAof (net := net) (db := db) sd) = Ret (BAof sd') /\ exists snap log, own_dir k sd'.2 snap log
    /\ forall c, (fun e => (e_u e, e_e e)) <$> index (replay k (snap ++ log)) c = engine_link sd c.
Proof.
  intros K. destruct (Close_own_dir k sd.1 sd.2 K) as (snap & log & Hod & Hrow).
  exists (Store.Close sd.1 sd.2). split; [done|]. exists snap, log. split; [done|]. intros c.
  unfold engine_link. destruct (Hrow c) as [e e' (Eu & _ & Ee & _)|]; [|done]. cbn. by rewrite Eu, Ee.
Qed.

Lemma close_kv (T : Z) (ev : Env) (s : KvStore net) :
  kv_serving (env_layout getenv) (env_buckets getenv) T s ->
  exists s', api_Close ev (BKv (net := net) (db := db) s) = Ret (BKv s') /\ readable_server getenv (k_net (kv s'))
    /\ forall c, codeOK c = true ->
         row_val (default None (raw_row (env_layout getenv) (env_buckets getenv) (keys (k_net (kv s'))) c)) = kv_link s c.
Proof.
  intros ((Hs & Hb & Ht) & (_ & El & Eb) & Hr & Hd & _).
  destruct (flush_rows (set_kstopped s) (conj Hs (conj Hb Ht)) Hd) as (k' & E & (_ & _ & Ht') & Hrows).
  exists (set_kv k' (set_kdirty (clear_all (kdirty s)) (set_kstopped s))).
  cbn [api_Close life_backend any_backend dispatch_ within_ kv_backend]. unfold KvStore.Close, KvStore.Flush. rewrite E. cbn [go_bind].
  split; [done|].
  assert (forall c, raw_row (env_layout getenv) (env_buckets getenv) (keys (k_net k')) c
                    = rows (set_kv k' (set_kstopped s)) c) as Er.
  { intros c. unfold rows. cbn [layoutHash buckets set_kv kv set_kstopped]. by rewrite El, Eb. }
  cbn [kv set_kv set_kdirty]. split.
  - intros c. rewrite Er. destruct (Ht' c) as [o Ho]. exists o. split; [done|]. intros Hc.
    rewrite (Hrows c (codeOK_row c Hc)) in Ho. specialize (Hr c Hc). unfold kv_row in Hr.
    change (rows (set_kstopped s) c) with (rows s c) in Ho. by rewrite Ho in Hr.
  - intros c Hc. rewrite Er, (Hrows c (codeOK_row c Hc)). done.
Qed.

Lemma close_pebble (T : Z) (ev : Env) (s : PebbleStore db) :
  pebble_serving T s ->
  exists s', api_Close ev (BPebble (net := net) (db := db) s) = Ret (BPebble s') /\ readable_db (pdb s')
    /\ forall c, row_val (view (pdb s') !! lkey c) = pebble_link s c.
Proof.
  intros (_ & Hr & _). exists (PebbleStore.Close s). split; [done|].
  assert (forall c, view (pdb (PebbleStore.Close s)) !! lkey c = view (pdb s) !! lkey c) as Hv.
  { intros c. unfold PebbleStore.Close. cbn [pdb set_pdb]. rewrite close_view.
    rewrite (proj1 (flushHits_view (set_pstopped s))). by rewrite merges_rows. }
  split; [intros c Hc|intros c]; rewrite Hv; [by apply Hr|done].
Qed.

Lemma close_leaves (o : Outside net db) (k T : Z) (ev : Env) (b : Backend net db) (d d1 : Disk) :
  outside_ok getenv o k d -> match b with BAof _ => True | _ => d1 = d end -> of_env getenv b -> backend_serving k (env_layout getenv) (env_buckets getenv) T b ->
  exists b', api_Close ev b = Ret b' /\ forall o', leaves b' o o' ->
    outside_ok getenv o' k (dir_of b' d1)
    /\ forall c, codeOK c = true -> found getenv dir o' k (dir_of b' d1) c = backend_link b c.
Proof.
  intros (Hkv & Hdb & Hk & Hod) Hd1 Hb Hs. unfold outside_ok, found. destruct b as [sd|s|s]; cbn [of_env backend_serving] in *; try subst d1.
  - destruct (close_engine T k ev sd Hs) as (sd' & E & snap & log & Hod' & Hl). exists (BAof sd'). split; [exact E|].
    intros o' [Hn Hd]. destruct Hb as [-> ->]. cbn [dir_of leaves] in *. split.
    + split_and!; [intros a; rewrite Hn; apply Hkv|intros p x; rewrite Hd; apply Hdb|lia|lia|by exists snap, log].
    + intros c _. cbn [backend_link]. rewrite <- Hl.
      destruct (open_as_on_disk k None sd'.2 snap log Hk (proj1 Hod') (proj2 Hod')) as (s1 & d2 & -> & _ & _ & _ & _ & Hi).
      unfold engine_link. cbn [fst]. by rewrite (proj1 (Hi c)).
  - destruct (close_kv T ev s Hs) as (s' & E & Hr & Hl). exists (BKv s'). split; [exact E|].
    intros o' [Hn Hd]. destruct Hb as [-> ->]. cbn [dir_of] in *. split.
    + split_and!; [|intros p x; rewrite Hd; apply Hdb|lia|lia|done].
      intros a. rewrite Hn. case_decide; [done|apply Hkv].
    + intros c Hc. rewrite Hn, decide_True by done. by apply Hl.
  - destruct (close_pebble T ev s Hs) as (s' & E & Hr & Hl). exists (BPebble s'). split; [exact E|].
    intros o' [Hn Hd]. rewrite Hb. cbn [dir_of] in *. split.
    + split_and!; [intros a; rewrite Hn; apply Hkv| |lia|lia|done].
      intros p x. rewrite Hd. case_decide; [by intros [= <-]|apply Hdb].
    + intros c Hc. rewrite Hd, decide_True by done. apply Hl.
Qed.

(** ** Runs of processes *)

Context (on_disk_dir : dir <> lit ":memory:").

(** A process answers as the map of the links found outside, and leaves that
    map, as it has become, outside. *)
Lemma serve_as_map (o : Outside net db) (instance k : Z) (met : Metrics) (es : list event) (ev : Env) (d : Disk) (T : Z)
    (m : amap) :
  outside_ok getenv o k d -> picks (o_alive o) instance k d -> in_time T es ->
  (forall c, codeOK c = true -> m c = found getenv dir o k d c) ->
  match serve o instance true met es ev d with
  | Ret (Stopped rs b, d') => forall o', leaves b o o' -> outside_ok getenv o' k d'
      /\ exists m', aruns m es rs m' /\ forall c, codeOK c = true -> m' c = found getenv dir o' k d' c
  | Ret (Exit1, _) => o_db o (db_path getenv dir) = None
  | Diverge => exists e, e ∈ es /\ may_run_on e
  | Panic => False
  end.
Proof using on_disk_dir.
  intros Ho Hp Hes Hm. unfold serve. pose proof (NewFromEnv_serving getenv dir on_disk_dir o instance k d Ho Hp) as P.
  destruct (NewFromEnv getenv o dir instance d) as [[[b|] d1]| |]; cbn [go_bind]; [|done..].
  destruct P as (Hb & Hd1 & Hs & Hf). cbn [negb].
  pose proof (@runs_as_map _ _ _ (backend_links trackHits rounds k (env_layout getenv) (env_buckets getenv)) es T met b m
    (Hs T) Hes (fun c Hc => eq_trans (Hm c Hc) (eq_sym (Hf c)))) as R.
  pose proof (runs_kind es met b) as K.
  destruct (runs es met b) as [[[rs met'] b1]| |]; cbn [go_bind]; [|done..].
  destruct R as (Hs1 & m' & Ha & Hm').
  assert (of_env getenv b1) as Hb1 by (by destruct b, b1).
  destruct (close_leaves o k (end_time T es) ev b1 d d1 Ho) as (b2 & -> & Hl); [by destruct b, b1|done|done|].
  cbn [go_bind]. intros o' Hle. destruct (Hl o' Hle) as [Ho' Hfo]. split; [done|]. exists m'. split; [done|].
  intros c Hc. rewrite Hfo by done. by apply Hm'.
Qed.

(** C2: links outlive the process. Whichever backend the environment selects, a
    server that is stopped and started again any number of times, on the
    directory (not [:memory:]), server or database the last process left, answers all requests
    of its lives as one run of a map from codes to targets and expiry times:
    what one life files, changes or removes the next ones find so. *)
Theorem lives_as_map (k : Z) (o : Outside net db) (d : Disk) (es : list event) (rs : list answer) (T : Z) (m : amap) :
  lives k o d es rs -> outside_ok getenv o k d -> in_time T es ->
  (forall c, codeOK c = true -> m c = found getenv dir o k d c) ->
  exists m', aruns m es rs m'.
Proof using on_disk_dir.
  intros Hl. revert T m.
  induction Hl as [o d|o d instance met es ev rs b d' o' es' rs' Hp E Hle _ IH]; intros T m Ho Hes Hm.
  { exists m. constructor. }
  apply in_time_app in Hes as [Hes Hes'].
  pose proof (serve_as_map o instance k met es ev d T m Ho Hp Hes Hm) as P. rewrite E in P.
  destruct (P o' Hle) as (Ho' & m1 & Ha & Hm1). destruct (IH _ m1 Ho' Hes' Hm1) as [m2 Ha2].
  exists m2. by eapply aruns_app.
Qed.

End Lifetimes.
