(* ===== verification/ServiceDemo.v ===== *)
(** * ServiceDemo: witnesses for the theorems over any backend

    A store opened by [NewFromEnv] on the demo server, requests served over the
    demo database, and the start of the program. *)

From S2P Require Import Prelude GoStd Float Base62 LogLine Aof Store StoreSpec Restart Session RateLimit Metrics Query Codec KvCache Dirty Resp Kv.
From S2P Require Import KvStore KvRows KvSpec KvLoops KvFlush KvDemo PebbleStore PebbleSpec PebbleDemo.
From S2P Require Import Api App AppSpec AppProps Backends Ticks CacheMap LinkMap EngineLinks KvLinks PebbleBatch PebbleLinks AnyBackend Service Main Lifetimes.
From stdpp Require Import options.

Lemma env_ok_demo (now : Z) : is_int64 now -> env_ok (demo_env now).
Proof. intros Hn. split; [|split; [exact Hn|intros i; exact Hn]]. apply Forall_singleton. vm_compute. reflexivity. Qed.

Lemma since_demo (T now : Z) : T <= now -> since T (demo_env now).
Proof. intros HT. repeat split; try exact HT. intros i. exact HT. Qed.

(** STORE=kv, the rest unset. *)
Definition kv_env (k : bytes) : bytes := if decide (k = lit "STORE") then lit "kv" else [].

Definition demo_outside : Outside demo_net (gmap bytes bytes) :=
  mkOutside (fun _ => demo_net0) (fun _ => Some ∅) (fun _ => false) 1.

Lemma demo_outside_ok (getenv : bytes -> bytes) : outside_ok getenv demo_outside 0 ∅.
Proof.
  split; [|split; [|split; [unfold maxInstances; lia|exists [], []; apply own_dir_empty]]].
  - intros addr c. exists None. unfold raw_row. cbn [demo_outside o_net keys demo_server d_keys demo_net0].
    rewrite !lookup_empty. split; [by destruct (env_layout _)|]. by intros _ [? [=]].
  - intros path x [= <-] c _. unfold view, demo_pebble_laws. rewrite lookup_empty. by intros [? [=]].
Qed.

(** A link that lives a second, a batch, and what goes on behind them. *)
Definition batch_env (now : Z) : Env :=
  mkEnv now now now now now now now (fun _ => now) 0 (repeat x05 7) [map (fun c => bofZ (alpha_index c)) (lit "ABCDEFG")].

Definition demo_events : list event :=
  [ECall (demo_env 50000) (QShorten demo_url demo_alias true 1000); ETick CFlush 50100;
   ECall (demo_env 50200) (QResolve demo_alias); ECall (batch_env 50300) (QShortenMany [demo_url] 0);
   ETick CFlush 50400; ETick CExpire 60000; ECall (demo_env 61000) (QResolve demo_alias);
   ECall (demo_env 62000) (QRemove demo_alias)].

Lemma demo_events_ok : in_time 50000 demo_events.
Proof.
  assert (forall t, 0 <= t < 70000 -> env_ok (demo_env t)) as He.
  { intros t Ht. apply env_ok_demo. unfold is_int64. lia. }
  assert (url_ok demo_url) as Hu by (unfold url_ok; cbn; lia).
  cbn [in_time demo_events]. repeat split; try (apply He; lia); try lia; try done; try (intros i; unfold is_int64; cbn; lia).
  - apply Forall_singleton. vm_compute. reflexivity.
  - by apply Forall_singleton.
Qed.

Definition demo_answers : list answer :=
  [ACode demo_alias; ATarget (Some demo_url); ACodes [lit "0ABCDEFG"]; ATarget None; AMut MutMissing].

(** The server has dropped the link when it is asked for again. *)
Lemma backend_runs_as_map_witness :
  exists b d' met b', NewFromEnv kv_env demo_outside [] 0 ∅ = Ret (Some b, d')
    /\ @runs _ (any_backend true 1) (any_ticks 1) demo_events (init 0) b = Ret (demo_answers, met, b')
    /\ exists m', aruns (backend_link b) demo_events demo_answers m'.
Proof.
  assert (match NewFromEnv kv_env demo_outside [] 0 ∅ with
    | Ret (Some b, _) => match @runs _ (any_backend true 1) (any_ticks 1) demo_events (init 0) b with
                         | Ret (rs, _, _) => Some rs | _ => None end
    | _ => None end = Some demo_answers) as Hrs by (vm_compute; reflexivity).
  destruct (NewFromEnv kv_env demo_outside [] 0 ∅) as [[[b|] d']| |] eqn:E;
    [|discriminate Hrs|discriminate Hrs|discriminate Hrs].
  pose proof (backend_runs_as_map true 1 kv_env [] ltac:(discriminate) demo_outside 0 0 ∅ d' b 50000 demo_events (init 0)
    (backend_link b) (demo_outside_ok kv_env) (or_introl eq_refl) E (fun c _ => eq_refl) demo_events_ok) as P.
  destruct (runs demo_events (init 0) b) as [[[rs met] b']| |] eqn:Er; [|discriminate Hrs|discriminate Hrs].
  injection Hrs as ->. destruct P as (m' & P & _).
  exists b, d', met, b'. split; [reflexivity|]. split; [exact Er|]. exists m'. exact P.
Defined.

(** Two lives of the engine on one directory: the link of the first is resolved
    and removed in the second. *)
Definition no_env (k : bytes) : bytes := [].

Definition first_life : list event :=
  [ECall (demo_env 50000) (QShorten demo_url demo_alias true 0); ETick CFlush 50100; ETick CSync 50200].
Definition second_life : list event :=
  [ECall (demo_env 60000) (QResolve demo_alias); ETick CCompact 60100; ECall (demo_env 61000) (QRemove demo_alias)].

Lemma two_lives_ok : in_time 50000 (first_life ++ second_life).
Proof.
  assert (forall t, 0 <= t < 70000 -> env_ok (demo_env t)) as He.
  { intros t Ht. apply env_ok_demo. unfold is_int64. lia. }
  assert (url_ok demo_url) as Hu by (unfold url_ok; cbn; lia).
  cbn [in_time app first_life second_life]. repeat split; try (apply He; lia); try lia; try done; try (intros i; unfold is_int64; cbn; lia).
Qed.

Definition demo_serve (es : list event) (d : Disk) : go (ending (net := demo_net) (db := gmap bytes bytes) * Disk) :=
  serve true 1 no_env [] demo_outside 0 true (init 0) es (demo_env 70000) d.

Lemma lives_as_map_witness :
  let rs := [ACode demo_alias; ATarget (Some demo_url); AMut MutOK] in
  lives true 1 no_env [] 0 demo_outside ∅ (first_life ++ second_life) rs
  /\ exists m', aruns (found no_env [] demo_outside 0 ∅) (first_life ++ second_life) rs m'.
Proof.
  assert (match demo_serve first_life ∅ with
    | Ret (Stopped rs1 (BAof _), d1) => match demo_serve second_life d1 with
        | Ret (Stopped rs2 (BAof _), _) => Some (rs1, rs2) | _ => None end
    | _ => None end = Some ([ACode demo_alias], [ATarget (Some demo_url); AMut MutOK])) as Hrs by (vm_compute; reflexivity).
  destruct (demo_serve first_life ∅) as [[[|rs1 [sd1|?|?]] d1]| |] eqn:E1; try discriminate Hrs.
  destruct (demo_serve second_life d1) as [[[|rs2 [sd2|?|?]] d2]| |] eqn:E2; try discriminate Hrs.
  injection Hrs as -> ->. unfold demo_serve in E1, E2.
  assert (lives true 1 no_env [] 0 demo_outside ∅ (first_life ++ second_life)
            [ACode demo_alias; ATarget (Some demo_url); AMut MutOK]) as L.
  { apply (lives_more true 1 no_env [] 0 demo_outside ∅ 0 (init 0) first_life (demo_env 70000) [ACode demo_alias] _ d1
      demo_outside second_life [ATarget (Some demo_url); AMut MutOK] (or_introl eq_refl) E1); [split; done|].
    rewrite <- (app_nil_r second_life).
    apply (lives_more true 1 no_env [] 0 demo_outside d1 0 (init 0) second_life (demo_env 70000)
      [ATarget (Some demo_url); AMut MutOK] _ d2 demo_outside [] [] (or_introl eq_refl) E2); [split; done|]. constructor. }
  split; [exact L|].
  exact (lives_as_map true 1 no_env [] ltac:(discriminate) 0 demo_outside ∅ _ _ 50000 _ L (demo_outside_ok no_env)
    two_lives_ok (fun c _ => eq_refl)).
Defined.

(** ** Over HTTP *)

Definition pserve : Env -> bytes -> bytes -> bytes -> bytes -> bytes -> World (PebbleStore (gmap bytes bytes))
    -> go (Reply * World (PebbleStore (gmap bytes bytes))) :=
  @Handle _ (pebble_backend true) demo_conf toy_url toy_shorten toy_bulk toy_patch toy_link toy_links toy_float toy_oor.

Definition pworld (s : PebbleStore (gmap bytes bytes)) : World (PebbleStore (gmap bytes bytes)) :=
  mkWorld s (init 50000) (RateLimit.New (f64_of_Z 0) (f64_of_Z 0)) 0.

Definition pstatus (m : go (Reply * World (PebbleStore (gmap bytes bytes)))) : option (Z * bool) :=
  match m with Ret (r, w) => Some (r_Status r, is_ret (Tick 60000 (w_met w))) | _ => None end.

Lemma pnode_serving (T : Z) (s : PebbleStore (gmap bytes bytes)) :
  s = pnode0 \/ s = set_pdb (<[lkey palias := encVal 0 5 demo_url]> (pdb pnode0)) pnode0 ->
  pebble_serving T s.
Proof.
  intros Hs. split; [|split].
  - by destruct Hs as [->| ->].
  - intros c _. unfold prow. destruct Hs as [->| ->]; cbn [pdb set_pdb pnode0 view demo_pebble_laws].
    + rewrite lookup_empty. by intros [? [=]].
    + destruct (decide (lkey palias = lkey c)) as [<-|Hne].
      * rewrite lookup_insert_eq. apply readable_enc; unfold is_int64; lia.
      * rewrite lookup_insert_ne by done. rewrite lookup_empty. by intros [? [=]].
  - destruct Hs as [->| ->]; apply agrees_new.
Qed.

(** Between the two requests of a client another shortens, and the store flushes
    and sweeps. *)
Definition between : list event :=
  [ECall (demo_env 51000) (QShorten demo_url demo_alias true 0); ETick CFlush 52000; ETick CSweep 53000].

Lemma between_ok : in_time 50000 between /\ forall code, Forall (spares code) between.
Proof.
  split; [|intros code; by repeat constructor]. cbn [in_time between].
  assert (url_ok demo_url) as Hu by (unfold url_ok; cbn; lia).
  repeat split; try (apply env_ok_demo; unfold is_int64; lia); try done; try (intros i; unfold is_int64; cbn; lia).
Qed.

Definition pruns (es : list event) (w : World (PebbleStore (gmap bytes bytes)))
    : go (World (PebbleStore (gmap bytes bytes))) :=
  let* (_, _, s) := @runs _ (pebble_backend true) pebble_ticks es (w_met w) (w_st w) in Ret (set_st s w).

Lemma pruns_later (es : list event) (w w' : World (PebbleStore (gmap bytes bytes))) :
  pruns es w = Ret w' -> @later _ (pebble_backend true) pebble_ticks es w w'.
Proof.
  unfold pruns, later. destruct (runs es (w_met w) (w_st w)) as [[[rs met] s]| |] eqn:E; cbn [go_bind]; [|done|done].
  intros [= <-]. by exists (w_met w), rs, met.
Qed.

Lemma any_store_serves_created_link_witness :
  exists r w1 w2 code ttl, pserve (demo_env 50000) (lit "POST") p_shorten (lit "http://a") [] [] (pworld pnode0) = Ret (r, w1)
    /\ Body r = shorten_body code /\ pruns between w1 = Ret w2
    /\ (code <> lit "metrics" -> exists r' w3, pserve (demo_env 60000) (lit "GET") (x2f :: code) [] [] [] w2 = Ret (r', w3)
          /\ (live_at (demo_env 60000) (expiry 50000 ttl) -> r' = mkReply 302 (lit "http://a") [] [])).
Proof.
  assert (match pserve (demo_env 50000) (lit "POST") p_shorten (lit "http://a") [] [] (pworld pnode0) with
    | Ret (r, w1) => match pruns between w1 with
                     | Ret w2 => Some (r_Status r, is_ret (Tick 60000 (w_met w2))) | _ => None end
    | _ => None end = Some (201, true)) as Hst by (vm_compute; reflexivity).
  destruct (pserve (demo_env 50000) _ _ _ _ _ _) as [[r w1]| |] eqn:E; [|discriminate Hst|discriminate Hst].
  destruct (pruns between w1) as [w2| |] eqn:Er; [|discriminate Hst|discriminate Hst].
  injection Hst as Hst Ht. destruct (Tick 60000 (w_met w2)) as [met| |] eqn:Et; [|discriminate Ht|discriminate Ht].
  assert (is_int64 50000) as Hi by (unfold is_int64; lia).
  destruct (@any_store_serves_created_link _ _ _ (pebble_links true) demo_conf toy_url toy_shorten toy_bulk toy_patch
    toy_link toy_links toy_float toy_oor 50000 between (demo_env 50000) (demo_env 60000) (lit "http://a") [] [] [] [] []
    (pworld pnode0) w1 w2 r met (pnode_serving _ _ (or_introl eq_refl)) (env_ok_demo _ Hi) (since_demo 50000 50000 ltac:(lia))
    E Hst (proj1 between_ok) (pruns_later _ _ _ Er) (since_demo 53000 60000 ltac:(lia)) Et)
    as (p & u & code & ttl & Hp & Hu & _ & Hb & P).
  exists r, w1, w2, code, ttl. split; [reflexivity|]. split; [exact Hb|]. split; [exact Er|]. intros Hm.
  destruct (P Hm) as (r' & w3 & E2 & Hl & _). exists r', w3. split; [exact E2|].
  unfold toy_shorten in Hp. injection Hp as <-. injection Hu as <-. exact (Hl (proj2 between_ok code)).
Defined.

Definition pnode2 : PebbleStore (gmap bytes bytes) :=
  set_pdb (<[lkey palias := encVal 0 5 demo_url]> (pdb pnode0)) pnode0.

(** A request of the administrator to it, then work behind the store. *)
Definition pexchange (meth body : bytes) (es : list event) : option (Z * bool) :=
  match pserve (demo_env 50000) meth (p_links ++ palias) body (lit "secret") [] (pworld pnode2) with
  | Ret (r, w1) => match pruns es w1 with Ret w2 => Some (r_Status r, is_ret (Tick 60000 (w_met w2))) | _ => None end
  | _ => None
  end.

Lemma pexchange_runs (meth body : bytes) (es : list event) (st : Z) :
  pexchange meth body es = Some (st, true) ->
  exists r w1 w2 met,
    pserve (demo_env 50000) meth (p_links ++ palias) body (lit "secret") [] (pworld pnode2) = Ret (r, w1)
    /\ r_Status r = st /\ pruns es w1 = Ret w2 /\ Tick 60000 (w_met w2) = Ret met.
Proof.
  unfold pexchange. intros Hst. destruct (pserve _ _ _ _ _ _ _) as [[r w1]| |]; [|done|done].
  destruct (pruns es w1) as [w2| |] eqn:Er; [|done|done].
  destruct (Tick 60000 (w_met w2)) as [met| |] eqn:Et; [|done|done].
  injection Hst as <-. by exists r, w1, w2, met.
Qed.

(** The store sweeps before the deleted link is asked for; somebody shortens and
    the store flushes and sweeps before the updated one is. *)
Lemma any_store_serves_changes_witness :
  (exists r w1 w2 w3,
    pserve (demo_env 50000) (lit "DELETE") (p_links ++ palias) [] (lit "secret") [] (pworld pnode2) = Ret (r, w1)
    /\ pruns [ETick CSweep 51000] w1 = Ret w2
    /\ pserve (demo_env 60000) (lit "GET") (x2f :: palias) [] [] [] w2 = Ret (notFound, w3))
  /\ exists r w1 w2 w3,
    pserve (demo_env 50000) (lit "PATCH") (p_links ++ palias) (lit "http://b") (lit "secret") [] (pworld pnode2)
      = Ret (r, w1)
    /\ pruns between w1 = Ret w2
    /\ pserve (demo_env 60000) (lit "GET") (x2f :: palias) [] [] [] w2 = Ret (mkReply 302 (lit "http://b") [] [], w3).
Proof.
  assert (is_int64 50000) as Hi by (unfold is_int64; lia).
  assert (in_time 50000 [ETick CSweep 51000]) as Hin by (cbn; lia).
  pose proof (fun es ev' body => @any_store_serves_changes _ _ _ (pebble_links true) demo_conf toy_url toy_shorten
    toy_bulk toy_patch toy_link toy_links toy_float toy_oor 50000 es (demo_env 50000) ev' palias body (lit "secret") [] []
    [] [] (pworld pnode2)) as P.
  split.
  - destruct (pexchange_runs (lit "DELETE") [] [ETick CSweep 51000] 204) as (r & w1 & w2 & met & E & Hst & Er & Et);
      [vm_compute; reflexivity|].
    destruct (P [ETick CSweep 51000] (demo_env 60000) [] w1 w2 r met (pnode_serving _ _ (or_intror eq_refl))
      (env_ok_demo _ Hi) (since_demo 50000 50000 ltac:(lia)) eq_refl ltac:(discriminate) Hin (pruns_later _ _ _ Er)
      (since_demo 51000 60000 ltac:(lia)) Et) as [Q _].
    destruct (Q E Hst) as (r' & w3 & E2 & Hn). exists r, w1, w2, w3. split; [exact E|]. split; [exact Er|].
    rewrite <- (Hn ltac:(by repeat constructor)). exact E2.
  - destruct (pexchange_runs (lit "PATCH") (lit "http://b") between 200) as (r & w1 & w2 & met & E & Hst & Er & Et);
      [vm_compute; reflexivity|].
    destruct (P between (demo_env 60000) (lit "http://b") w1 w2 r met (pnode_serving _ _ (or_intror eq_refl))
      (env_ok_demo _ Hi) (since_demo 50000 50000 ltac:(lia)) eq_refl ltac:(discriminate) (proj1 between_ok)
      (pruns_later _ _ _ Er) (since_demo 53000 60000 ltac:(lia)) Et) as [_ Q].
    destruct (Q E Hst) as (p & u & e & r' & w3 & Hp & Hu & E2 & He & Hl & _).
    injection Hp as <-. injection Hu as <-. destruct (He eq_refl) as [u0 Hu0].
    assert (pebble_link pnode2 palias = Some (demo_url, 0)) as Hx by (vm_compute; reflexivity).
    pose proof (eq_trans (eq_sym Hx) Hu0) as [= _ <-].
    exists r, w1, w2, w3. split; [exact E|]. split; [exact Er|].
    rewrite <- (Hl (proj2 between_ok palias) (or_introl eq_refl)). exact E2.
Defined.

(** ** The start of the program *)

(** WORKERS=3, the rest unset. *)
Definition three_workers (k : bytes) : bytes := if decide (k = lit "WORKERS") then lit "3" else [].

Lemma supervisor_children_witness :
  exists child, main_role three_workers = Supervisor None [child_env three_workers 0; child_env three_workers 1; child]
    /\ main_role child = Server None false (lit "data") 2 3000.
Proof.
  exists (child_env three_workers 2). split; [reflexivity|].
  destruct (supervisor_children three_workers None
    [child_env three_workers 0; child_env three_workers 1; child_env three_workers 2] eq_refl) as [_ P].
  exact (P 2%nat _ eq_refl).
Defined.

Definition seed_env : Env :=
  mkEnv 5 5 5 5 5 5 5 (fun _ => 5) 0 [] (map (fun i => repeat (bofZ i) 7) [1; 2; 3]).

Lemma seed_once_witness :
  exists s d (codes : list bytes), seed true 1 (fun _ => []) demo_outside [] seed_env 2 (init 0) ∅ = Ret (Some (BAof (s, d)), d)
    /\ length codes = 2%nat
    /\ exists s' d', seed true 1 (fun _ => []) demo_outside [] seed_env 2 (init 0) d = Ret (Some (BAof (s', d')), d')
         /\ forall c, engine_link (s', d') c = engine_link (s, d) c.
Proof.
  destruct (seed_once true 1 (fun _ => []) demo_outside [] eq_refl ltac:(discriminate) seed_env 2 (init 0))
    as (s & d & codes & E & Hl & _ & _ & _ & P).
  - unfold is_int64. cbn. lia.
  - apply (bool_decide_unpack (NoDup _)). vm_compute. exact I.
  - cbn. lia.
  - lia.
  - exists s, d, codes. split; [exact E|]. split; [exact Hl|]. apply P.
Defined.
